(** * Mesh-based Monte Carlo (MMC): mesh operations of [mmc_mesh.c]

    A shallow embedding of the mesh store, the ray-tracer preparation, the
    scattering sampler and the normalisation of [src/src/mmc_mesh.c], with the
    properties stated about them.

    Number model.  The C code computes in [float] and [double]; here every
    such value is a real number ([R]) and every operation is the exact one, so
    rounding, overflow and NaN are outside the model.  Values of C [int] that
    are stored in the mesh arrays (node indices, region ids, face neighbours)
    are integers ([Z]); array lengths and loop counters are natural numbers.
    An array is a list; a two-dimensional array addressed as
    [base + i * rowlen] is a list of rows. *)

From Stdlib Require Import String.
From Stdlib Require Import Reals Lra Lia ZArith List Bool Psatz RNsatz.
From Stdlib Require Import Factorial.
Import ListNotations.

Open Scope R_scope.

(* ------------------------------------------------------------------------- *)
(** ** Arrays and loops *)

(** [upd l i v] is the array [l] after [l[i] = v]; a write past the end of the
    list leaves it as it is (in C such a write is undefined). *)
Fixpoint upd {A : Type} (l : list A) (i : nat) (v : A) : list A :=
  match l, i with
  | [], _ => []
  | _ :: t, O => v :: t
  | x :: t, S k => x :: upd t k v
  end.

(** Reading and writing at an index held in a C [int]: a negative index reads
    the default and writes nothing. *)
Definition zth {A : Type} (l : list A) (i : Z) (d : A) : A :=
  if (i <? 0)%Z then d else nth (Z.to_nat i) l d.

Definition zupd {A : Type} (l : list A) (i : Z) (v : A) : list A :=
  if (i <? 0)%Z then l else upd l (Z.to_nat i) v.

(** [for_loop n body s] is [for (i = 0; i < n; i++) s = body i s]. *)
Fixpoint for_loop {S : Type} (n : nat) (body : nat -> S -> S) (s : S) : S :=
  match n with
  | O => s
  | Datatypes.S k => body k (for_loop k body s)
  end.

(** A run either goes on with a value or stops in [MESH_ERROR], which prints
    the message and exits (or throws, in the container build). *)
Inductive result (A : Type) : Type :=
| Ok (a : A)
| Fatal (msg : string).
Arguments Ok {A} a.
Arguments Fatal {A} msg.

(* ------------------------------------------------------------------------- *)
(** ** The data model *)

Record FLOAT3 : Type := mkFLOAT3 { fx : R; fy : R; fz : R }.

Record medium : Type := mkMedium {
  med_mua : R;   (* absorption coefficient *)
  med_mus : R;   (* scattering coefficient *)
  med_g : R;     (* anisotropy *)
  med_n : R      (* refractive index *)
}.

Inductive TMethod : Type :=
| rtPlucker | rtHavel | rtBadouel | rtBLBadouel | rtBLBadouelGrid.

Inductive TSrcType : Type :=
| stPencil | stIsotropic | stCone | stGaussian | stPlanar | stPattern
| stFourier | stArcSin | stDisk | stFourierX | stFourier2D | stZGaussian
| stLine | stSlit.

Inductive TOutputType : Type :=
| otFlux | otFluence | otEnergy | otJacobian | otWL | otWP | otL.

Definition TMethod_eqb (a b : TMethod) : bool :=
  match a, b with
  | rtPlucker, rtPlucker | rtHavel, rtHavel | rtBadouel, rtBadouel
  | rtBLBadouel, rtBLBadouel | rtBLBadouelGrid, rtBLBadouelGrid => true
  | _, _ => false
  end.

Definition TOutputType_eqb (a b : TOutputType) : bool :=
  match a, b with
  | otFlux, otFlux | otFluence, otFluence | otEnergy, otEnergy
  | otJacobian, otJacobian | otWL, otWL | otWP, otWP | otL, otL => true
  | _, _ => false
  end.

(** The fields of [tetmesh] that the modelled functions read or write. *)
Record tetmesh : Type := mkMesh {
  m_nn : nat;                 (* number of nodes *)
  m_ne : nat;                 (* number of elements *)
  m_nf : Z;                   (* number of exterior faces *)
  m_prop : Z;                 (* number of media, medium 0 not counted *)
  m_elemlen : nat;            (* nodes per element *)
  m_node : list FLOAT3;       (* node coordinates *)
  m_elem : list (list Z);     (* row i: the 1-based node indices of element i *)
  m_facenb : list Z;          (* ne * elemlen face neighbours, 0 = exterior *)
  m_type : list Z;            (* region id of each element *)
  m_med : list medium;        (* optical properties of each region *)
  m_evol : list R;            (* element volumes *)
  m_nvol : list R;            (* node volumes *)
  m_weight : list R;          (* weight accumulator *)
  m_dref : option (list R);   (* diffuse reflectance, NULL when absent *)
  m_srcelemlen : nat;
  m_srcelem : list Z;         (* candidate source elements, 1-based *)
  m_detelemlen : nat;
  m_detelem : list Z          (* wide-field detector elements, 1-based *)
}.

(** The fields of [mcconfig] that the modelled functions read or write. *)
Record mcconfig : Type := mkCfg {
  c_e0 : Z;                   (* initial element, 1-based, 0 when unknown *)
  c_isextdet : bool;
  c_detnum : Z;
  c_nout : R;                 (* refractive index of the ambient medium *)
  c_medianum : nat;
  c_prop : list medium;
  c_method : TMethod;
  c_unitinmm : R;
  c_srcpos : FLOAT3;
  c_bary0 : list R;           (* four barycentric weights of the source *)
  c_srctype : TSrcType;
  c_isnormalized : Z;
  c_basisorder : bool;
  c_isreflect : bool;
  c_issaveref : bool;
  c_maxgate : nat;
  c_srcnum : nat;
  c_seed : Z;
  c_outputtype : TOutputType;
  c_nphoton : R;
  c_tstep : R;
  c_crop0z : nat;             (* cfg->crop0.z, the voxel count of the grid *)
  c_maxmedia : Z              (* cfg->his.maxmedia *)
}.

Definition set_facenb (m : tetmesh) (v : list Z) (k : Z) : tetmesh :=
  mkMesh (m_nn m) (m_ne m) k (m_prop m) (m_elemlen m) (m_node m) (m_elem m)
         v (m_type m) (m_med m) (m_evol m) (m_nvol m) (m_weight m) (m_dref m)
         (m_srcelemlen m) (m_srcelem m) (m_detelemlen m) (m_detelem m).

Definition set_type (m : tetmesh) (v : list Z) : tetmesh :=
  mkMesh (m_nn m) (m_ne m) (m_nf m) (m_prop m) (m_elemlen m) (m_node m)
         (m_elem m) (m_facenb m) v (m_med m) (m_evol m) (m_nvol m)
         (m_weight m) (m_dref m)
         (m_srcelemlen m) (m_srcelem m) (m_detelemlen m) (m_detelem m).

Definition set_srcdet (m : tetmesh) (ns : nat) (s : list Z)
                      (nd : nat) (d : list Z) : tetmesh :=
  mkMesh (m_nn m) (m_ne m) (m_nf m) (m_prop m) (m_elemlen m) (m_node m)
         (m_elem m) (m_facenb m) (m_type m) (m_med m) (m_evol m) (m_nvol m)
         (m_weight m) (m_dref m) ns s nd d.

Definition set_med (m : tetmesh) (p : Z) (v : list medium) : tetmesh :=
  mkMesh (m_nn m) (m_ne m) (m_nf m) p (m_elemlen m) (m_node m)
         (m_elem m) (m_facenb m) (m_type m) v (m_evol m) (m_nvol m)
         (m_weight m) (m_dref m)
         (m_srcelemlen m) (m_srcelem m) (m_detelemlen m) (m_detelem m).

Definition set_volumes (m : tetmesh) (el : list (list Z))
                       (ev nv : list R) : tetmesh :=
  mkMesh (m_nn m) (m_ne m) (m_nf m) (m_prop m) (m_elemlen m) (m_node m)
         el (m_facenb m) (m_type m) (m_med m) ev nv
         (m_weight m) (m_dref m)
         (m_srcelemlen m) (m_srcelem m) (m_detelemlen m) (m_detelem m).

Definition set_nvol (m : tetmesh) (nv : list R) : tetmesh :=
  set_volumes m (m_elem m) (m_evol m) nv.

Definition set_weight (m : tetmesh) (w : list R) : tetmesh :=
  mkMesh (m_nn m) (m_ne m) (m_nf m) (m_prop m) (m_elemlen m) (m_node m)
         (m_elem m) (m_facenb m) (m_type m) (m_med m) (m_evol m) (m_nvol m)
         w (m_dref m)
         (m_srcelemlen m) (m_srcelem m) (m_detelemlen m) (m_detelem m).

Definition set_dref (m : tetmesh) (d : option (list R)) : tetmesh :=
  mkMesh (m_nn m) (m_ne m) (m_nf m) (m_prop m) (m_elemlen m) (m_node m)
         (m_elem m) (m_facenb m) (m_type m) (m_med m) (m_evol m) (m_nvol m)
         (m_weight m) d
         (m_srcelemlen m) (m_srcelem m) (m_detelemlen m) (m_detelem m).

Definition set_e0 (c : mcconfig) (e : Z) : mcconfig :=
  mkCfg e (c_isextdet c) (c_detnum c) (c_nout c) (c_medianum c) (c_prop c)
        (c_method c) (c_unitinmm c) (c_srcpos c) (c_bary0 c) (c_srctype c)
        (c_isnormalized c) (c_basisorder c) (c_isreflect c) (c_issaveref c)
        (c_maxgate c) (c_srcnum c) (c_seed c) (c_outputtype c) (c_nphoton c)
        (c_tstep c) (c_crop0z c) (c_maxmedia c).

Definition set_extdet (c : mcconfig) (b : bool) (dn : Z) : mcconfig :=
  mkCfg (c_e0 c) b dn (c_nout c) (c_medianum c) (c_prop c)
        (c_method c) (c_unitinmm c) (c_srcpos c) (c_bary0 c) (c_srctype c)
        (c_isnormalized c) (c_basisorder c) (c_isreflect c) (c_issaveref c)
        (c_maxgate c) (c_srcnum c) (c_seed c) (c_outputtype c) (c_nphoton c)
        (c_tstep c) (c_crop0z c) (c_maxmedia c).

Definition set_bary0 (c : mcconfig) (b : list R) : mcconfig :=
  mkCfg (c_e0 c) (c_isextdet c) (c_detnum c) (c_nout c) (c_medianum c)
        (c_prop c) (c_method c) (c_unitinmm c) (c_srcpos c) b (c_srctype c)
        (c_isnormalized c) (c_basisorder c) (c_isreflect c) (c_issaveref c)
        (c_maxgate c) (c_srcnum c) (c_seed c) (c_outputtype c) (c_nphoton c)
        (c_tstep c) (c_crop0z c) (c_maxmedia c).

Definition set_maxmedia (c : mcconfig) (p : Z) : mcconfig :=
  mkCfg (c_e0 c) (c_isextdet c) (c_detnum c) (c_nout c) (c_medianum c)
        (c_prop c) (c_method c) (c_unitinmm c) (c_srcpos c) (c_bary0 c)
        (c_srctype c)
        (c_isnormalized c) (c_basisorder c) (c_isreflect c) (c_issaveref c)
        (c_maxgate c) (c_srcnum c) (c_seed c) (c_outputtype c) (c_nphoton c)
        (c_tstep c) (c_crop0z c) p.

(* ------------------------------------------------------------------------- *)
(** ** [tracer_prep]: numbering the exterior faces

    {[
    ne = tracer->mesh->ne * tracer->mesh->elemlen;
    tracer->mesh->nf = 0;
    for (i = 0; i < ne; i++)
        if (tracer->mesh->facenb[i] == 0)
            tracer->mesh->facenb[i] = -(++tracer->mesh->nf);
    ]} *)

Definition number_step (i : nat) (s : list Z * Z) : list Z * Z :=
  let (facenb, nf) := s in
  if (nth i facenb 0 =? 0)%Z
  then (upd facenb i (- (nf + 1))%Z, (nf + 1)%Z)
  else (facenb, nf).

Definition number_faces (len : nat) (facenb : list Z) : list Z * Z :=
  for_loop len number_step (facenb, 0%Z).

Definition tracer_prep_faces (m : tetmesh) : tetmesh :=
  let (facenb, nf) := number_faces (m_ne m * m_elemlen m) (m_facenb m) in
  set_facenb m facenb nf.

(** The number of exterior faces among the first [i] entries. *)
Definition zeros_before (facenb : list Z) (i : nat) : Z :=
  Z.of_nat (count_occ Z.eq_dec (firstn i facenb) 0%Z).

(** What the pass leaves at position [i]: the next negative id where the
    entry was 0, the entry itself elsewhere. *)
Definition numbered (facenb : list Z) (i : nat) : Z :=
  if (nth i facenb 0 =? 0)%Z
  then (- (zeros_before facenb i + 1))%Z
  else nth i facenb 0%Z.

(* ------------------------------------------------------------------------- *)
(** ** [mesh_srcdetelem]: source and detector elements

    Region id -1 marks a candidate source element and -2 a wide-field detector
    element.  The first loop counts them (and sets [e0], [isextdet] and
    [detnum]); the second records their 1-based indices and puts -1 back
    to 0. *)

Definition srcdet_count (type : list Z) (i : nat)
                        (s : nat * nat * mcconfig) : nat * nat * mcconfig :=
  let '(ns, nd, cfg) := s in
  let '(ns1, cfg1) :=
    if (nth i type 0 =? -1)%Z
    then (S ns,
          set_e0 cfg (if (c_e0 cfg =? 0)%Z then Z.of_nat i + 1 else c_e0 cfg)%Z)
    else (ns, cfg) in
  if (nth i type 0 =? -2)%Z
  then (ns1, S nd, set_extdet cfg1 true 0%Z)
  else (ns1, nd, cfg1).

Definition srcdet_record (i : nat) (s : list Z * list Z * list Z * nat * nat)
  : list Z * list Z * list Z * nat * nat :=
  let '(type, srcelem, detelem, isrc, idet) := s in
  if (nth i type 0 <? 0)%Z then
    if (nth i type 0 =? -1)%Z then
      (upd type i 0%Z, upd srcelem isrc (Z.of_nat i + 1)%Z, detelem,
       S isrc, idet)
    else if (nth i type 0 =? -2)%Z then
      (type, srcelem, upd detelem idet (Z.of_nat i + 1)%Z, isrc, S idet)
    else s
  else s.

Definition mesh_srcdetelem (m : tetmesh) (cfg : mcconfig)
  : tetmesh * mcconfig :=
  let '(ns, nd, cfg1) :=
    for_loop (m_ne m) (srcdet_count (m_type m)) (O, O, cfg) in
  if ((0 <? ns)%nat || (0 <? nd)%nat)%bool then
    let '(type1, srcelem, detelem, _, _) :=
      for_loop (m_ne m) srcdet_record
               (m_type m, repeat 0%Z ns, repeat 0%Z nd, O, O) in
    (set_srcdet (set_type m type1) ns srcelem nd detelem, cfg1)
  else
    (set_srcdet m ns (m_srcelem m) nd (m_detelem m), cfg1).

(** The 1-based indices of the elements among the first [k] whose region id
    is [t]. *)
Definition marked (type : list Z) (t : Z) (k : nat) : list Z :=
  map (fun i => (Z.of_nat i + 1)%Z)
      (filter (fun i => (nth i type 0 =? t)%Z) (seq 0 k)).

(* ------------------------------------------------------------------------- *)
(** ** [mesh_loadmedia]: the media table

    The property file is an input: [None] when it cannot be opened, else what
    [fscanf] reads from it, namely the media count of the header (if the header
    parses) and the rows that parse. *)

Record propfile : Type := mkPropfile {
  pf_prop : option Z;
  pf_rows : list medium
}.

Definition zero_medium : medium := mkMedium 0 0 0 0.

Definition remap_extdet (prop : Z) (i : nat) (type : list Z) : list Z :=
  if (nth i type 0 =? -2)%Z then upd type i (prop + 1)%Z else type.

(** [for (i = 1; i <= prop; i++)] reading one row each time. *)
Fixpoint load_rows (rows : list medium) (cnt i : nat) (med : list medium)
                   {struct cnt} : result (list medium) :=
  match cnt with
  | O => Ok med
  | S c =>
      match rows with
      | [] => Fatal "property file has wrong format"
      | r :: rs => load_rows rs c (S i) (upd med i r)
      end
  end.

Definition copy_medium (src : list medium) (k : nat) (med : list medium)
  : list medium :=
  upd med k (nth k src zero_medium).

Definition scale_medium (u : R) (k : nat) (med : list medium) : list medium :=
  let md := nth (S k) med zero_medium in
  upd med (S k)
      (mkMedium (med_mua md * u) (med_mus md * u) (med_g md) (med_n md)).

Definition mesh_loadmedia (file : option propfile) (m : tetmesh)
                          (cfg : mcconfig) : result (tetmesh * mcconfig) :=
  let header :=
    if (c_medianum cfg =? 0)%nat then
      match file with
      | None => Fatal "can not open media property file"
      | Some f =>
          match pf_prop f with
          | Some p => if (p <=? 0)%Z
                      then Fatal "property file has wrong format"
                      else Ok p
          | None => Fatal "property file has wrong format"
          end
      end
    else Ok (Z.of_nat (c_medianum cfg) - 1)%Z in
  match header with
  | Fatal msg => Fatal msg
  | Ok prop =>
      let med0 :=
        repeat zero_medium
               (Z.to_nat (prop + 1 + if c_isextdet cfg then 1 else 0)) in
      let med1 := upd med0 0 (mkMedium 0 0 1 (c_nout cfg)) in
      let '(med2, type2) :=
        if c_isextdet cfg then
          (zupd med1 (prop + 1) (nth 0 med1 zero_medium),
           for_loop (m_ne m) (remap_extdet prop) (m_type m))
        else (med1, m_type m) in
      let loaded :=
        if (c_medianum cfg =? 0)%nat then
          match file with
          | Some f => load_rows (pf_rows f) (Z.to_nat prop) 1 med2
          | None => Fatal "can not open media property file"
          end
        else Ok (for_loop (c_medianum cfg) (copy_medium (c_prop cfg)) med2) in
      match loaded with
      | Fatal msg => Fatal msg
      | Ok med3 =>
          let med4 :=
            if (negb (TMethod_eqb (c_method cfg) rtBLBadouelGrid)
                && (if Req_dec_T (c_unitinmm cfg) 1 then false else true))%bool
            then for_loop (Z.to_nat prop) (scale_medium (c_unitinmm cfg)) med3
            else med3 in
          Ok (set_med (set_type m type2) prop med4, set_maxmedia cfg prop)
      end
  end.

(* ------------------------------------------------------------------------- *)
(** ** [mesh_normalize]: from accumulated weight to the output quantity

    [DELTA_MUA] and [SEED_FROM_FILE] are constants of [mmc_const.h], which is
    not part of the sources at hand; they are parameters here. *)

Section Normalize.

Variable DELTA_MUA : R.
Variable SEED_FROM_FILE : Z.

Definition datalen (m : tetmesh) (cfg : mcconfig) : nat :=
  if TMethod_eqb (c_method cfg) rtBLBadouelGrid then c_crop0z cfg
  else if c_basisorder cfg then m_nn m else m_ne m.

(** [for (i < maxgate) for (j < len) w[(i * len + j) * srcnum + pair] *= f]. *)
Definition scale_weights (maxgate len srcnum pair : nat) (f : R)
                         (w : list R) : list R :=
  for_loop maxgate
    (fun i w1 =>
       for_loop len
         (fun j w2 =>
            let k := ((i * len + j) * srcnum + pair)%nat in
            upd w2 k (nth k w2 0 * f))
         w1)
    w.

(** [for (i < maxgate) for (j < nf) dref[i * nf + j] *= f]. *)
Definition scale_dref (maxgate nf : nat) (f : R) (d : list R) : list R :=
  for_loop maxgate
    (fun i d1 =>
       for_loop nf
         (fun j d2 => let k := (i * nf + j)%nat in upd d2 k (nth k d2 0 * f))
         d1)
    d.

(** Nodal basis: every entry with a positive node volume is divided by it. *)
Definition divide_by_nvol (maxgate len srcnum pair : nat) (nvol w : list R)
  : list R :=
  for_loop maxgate
    (fun i w1 =>
       for_loop len
         (fun j w2 =>
            let k := ((i * len + j) * srcnum + pair)%nat in
            if Rlt_dec 0 (nth j nvol 0)
            then upd w2 k (nth k w2 0 / nth j nvol 0)
            else w2)
         w1)
    w.

(** Nodal basis: the absorbed energy summed over the elements. *)
Definition nodal_energy (m : tetmesh) (maxgate srcnum pair : nat)
                        (w : list R) : R :=
  for_loop (m_ne m)
    (fun i dep =>
       let ee := nth i (m_elem m) [] in
       let energyelem :=
         for_loop maxgate
           (fun j e1 =>
              for_loop 4
                (fun k e2 =>
                   e2 + zth w ((Z.of_nat j * Z.of_nat (m_nn m)
                                + nth k ee 0 - 1) * Z.of_nat srcnum
                               + Z.of_nat pair)%Z 0)
                e1)
           0 in
       dep + energyelem * nth i (m_evol m) 0
             * med_mua (zth (m_med m) (nth i (m_type m) 0%Z) zero_medium))
    0.

(** Element basis: the deposited weight summed over the elements. *)
Definition elem_energy (maxgate len srcnum pair : nat) (w : list R) : R :=
  for_loop len
    (fun i dep =>
       for_loop maxgate
         (fun j d1 => d1 + nth ((j * len + i) * srcnum + pair)%nat w 0)
         dep)
    0.

(** Element basis: every entry is divided by volume times absorption. *)
Definition divide_by_evol (m : tetmesh) (maxgate len srcnum pair : nat)
                          (w : list R) : list R :=
  for_loop len
    (fun i w1 =>
       let energyelem :=
         nth i (m_evol m) 0
         * med_mua (zth (m_med m) (nth i (m_type m) 0%Z) zero_medium) in
       for_loop maxgate
         (fun j w2 =>
            let k := ((j * len + i) * srcnum + pair)%nat in
            upd w2 k (nth k w2 0 / energyelem))
         w1)
    w.

Definition is_replay_output (o : TOutputType) : bool :=
  match o with otJacobian | otWL | otWP => true | _ => false end.

Definition is_path_output (o : TOutputType) : bool :=
  match o with otWL | otWP => true | _ => false end.

Definition mesh_normalize (m : tetmesh) (cfg : mcconfig)
                          (Eabsorb Etotal : R) (pair : nat) : tetmesh * R :=
  let len := datalen m cfg in
  let scale f w := scale_weights (c_maxgate cfg) len (c_srcnum cfg) pair f w in
  let m1 :=
    match c_issaveref cfg, m_dref m with
    | true, Some d =>
        set_dref m (Some (scale_dref (c_maxgate cfg) (Z.to_nat (m_nf m))
                                     (1 / Etotal) d))
    | _, _ => m
    end in
  if ((c_seed cfg =? SEED_FROM_FILE)%Z
      && is_replay_output (c_outputtype cfg))%bool then
    let normalizor :=
      if is_path_output (c_outputtype cfg) then 1 / Etotal
      else 1 / (DELTA_MUA * c_nphoton cfg) in
    (set_weight m1 (scale normalizor (m_weight m1)), normalizor)
  else if TOutputType_eqb (c_outputtype cfg) otEnergy then
    let normalizor := 1 / Etotal in
    (set_weight m1 (scale normalizor (m_weight m1)), normalizor)
  else
    let '(w1, normalizor) :=
      if TMethod_eqb (c_method cfg) rtBLBadouelGrid then
        (m_weight m1,
         1 / (Etotal * c_unitinmm cfg * c_unitinmm cfg * c_unitinmm cfg))
      else if c_basisorder cfg then
        let w := divide_by_nvol (c_maxgate cfg) len (c_srcnum cfg) pair
                                (m_nvol m1) (m_weight m1) in
        let energydeposit :=
          nodal_energy m1 (c_maxgate cfg) (c_srcnum cfg) pair w in
        (w, Eabsorb / (Etotal * energydeposit * (25 / 100)))
      else
        let energydeposit :=
          elem_energy (c_maxgate cfg) len (c_srcnum cfg) pair (m_weight m1) in
        (divide_by_evol m1 (c_maxgate cfg) len (c_srcnum cfg) pair
                        (m_weight m1),
         Eabsorb / (Etotal * energydeposit)) in
    let normalizor1 :=
      match c_outputtype cfg with
      | otFlux => normalizor / c_tstep cfg
      | _ => normalizor
      end in
    (set_weight m1 (scale normalizor1 w1), normalizor1).

End Normalize.

(** The entry [k] belongs to source pattern [pair] and to one of the first
    [c] cells (a cell is a pair of a time gate and a node, element or
    voxel). *)
Definition scaled_entry (srcnum pair c k : nat) : bool :=
  ((k / srcnum <? c)%nat && (k mod srcnum =? pair)%nat)%bool.

(* ------------------------------------------------------------------------- *)
(** ** [mesh_getvolume]: element and node volumes *)

Definition zero3 : FLOAT3 := mkFLOAT3 0 0 0.

(** [mesh->node[e - 1]] for a 1-based node index [e]. *)
Definition node_at (m : tetmesh) (e : Z) : FLOAT3 :=
  zth (m_node m) (e - 1)%Z zero3.

(** The value of [evol[i]] before the sign test: the triple product of the
    edges from node 0, as the code spells it out. *)
Definition signed_volume6 (n0 n1 n2 n3 : FLOAT3) : R :=
  let dx := fx n2 - fx n3 in
  let dy := fy n2 - fy n3 in
  let dz := fz n2 - fz n3 in
  let v0 := fx n1 * (fy n2 * fz n3 - fz n2 * fy n3)
            - fy n1 * (fx n2 * fz n3 - fz n2 * fx n3)
            + fz n1 * (fx n2 * fy n3 - fy n2 * fx n3) in
  let v1 := v0 + - fx n0 * ((fy n2 * fz n3 - fz n2 * fy n3)
                            + fy n1 * dz - fz n1 * dy) in
  let v2 := v1 + fy n0 * ((fx n2 * fz n3 - fz n2 * fx n3)
                          + fx n1 * dz - fz n1 * dx) in
  let v3 := v2 + - fz n0 * ((fx n2 * fy n3 - fy n2 * fx n3)
                            + fx n1 * dy - fy n1 * dx) in
  - v3.

Definition elem_signed6 (m : tetmesh) (ee : list Z) : R :=
  signed_volume6 (node_at m (nth 0 ee 0%Z)) (node_at m (nth 1 ee 0%Z))
                 (node_at m (nth 2 ee 0%Z)) (node_at m (nth 3 ee 0%Z)).

(** [e1 = ee[3]; ee[3] = ee[2]; ee[2] = e1]. *)
Definition swap23 (ee : list Z) : list Z :=
  let e1 := nth 3 ee 0%Z in
  upd (upd ee 3 (nth 2 ee 0%Z)) 2 e1.

(** The row and the volume of an element after the sign test and the
    scaling by 1/6. *)
Definition elem_fixed (m : tetmesh) (ee : list Z) : list Z :=
  if Rlt_dec (elem_signed6 m ee) 0 then swap23 ee else ee.

Definition elem_volume (m : tetmesh) (ee : list Z) : R :=
  (if Rlt_dec (elem_signed6 m ee) 0
   then - elem_signed6 m ee else elem_signed6 m ee) * (1 / 6).

(** [for (j < elemlen) nvol[ee[j] - 1] += v * 0.25f]. *)
Definition add_shares (ee : list Z) (v : R) (len : nat) (nvol : list R)
  : list R :=
  for_loop len
    (fun j nv =>
       let idx := (nth j ee 0 - 1)%Z in
       zupd nv idx (zth nv idx 0 + v * (1 / 4)))
    nvol.

Definition getvolume_step (m : tetmesh) (i : nat)
                          (s : list (list Z) * list R * list R)
  : list (list Z) * list R * list R :=
  let '(elem, evol, nvol) := s in
  let ee := nth i elem [] in
  let v0 := elem_signed6 m ee in
  let '(ee1, v1) :=
    if Rlt_dec v0 0 then (swap23 ee, - v0) else (ee, v0) in
  let v := v1 * (1 / 6) in
  (upd elem i ee1, upd evol i v,
   if (nth i (m_type m) 0 =? 0)%Z then nvol
   else add_shares ee1 v (m_elemlen m) nvol).

Definition mesh_getvolume (m : tetmesh) : tetmesh :=
  let '(elem, evol, nvol) :=
    for_loop (m_ne m) (getvolume_step m)
             (m_elem m, repeat 0 (m_ne m), repeat 0 (m_nn m)) in
  set_volumes m elem evol nvol.

(** The quarter shares that the first [len] nodes of the row [ee] give to
    node [n] (0-based): one for every position of the row that holds it. *)
Definition node_share (ee : list Z) (v : R) (n len : nat) : R :=
  for_loop len
    (fun j acc =>
       acc + if (nth j ee 0 - 1 =? Z.of_nat n)%Z then v * (1 / 4) else 0)
    0.

(** The sum, over the first [k] elements whose region id is not 0, of their
    shares to node [n]. *)
Definition incident_sum (elem : list (list Z)) (type : list Z) (evol : list R)
                        (len n k : nat) : R :=
  for_loop k
    (fun i acc =>
       acc + if (nth i type 0 =? 0)%Z then 0
             else node_share (nth i elem []) (nth i evol 0) n len)
    0.

(** A mesh whose element table has [ne] rows of [elemlen >= 4] node indices
    between 1 and [nn], and one region id per element. *)
Definition elements_ok (m : tetmesh) : Prop :=
  length (m_elem m) = m_ne m /\ length (m_type m) = m_ne m /\
  (4 <= m_elemlen m)%nat /\
  Forall (fun ee => length ee = m_elemlen m /\
                    Forall (fun e => (1 <= e <= Z.of_nat (m_nn m))%Z) ee)
         (m_elem m).

(* ------------------------------------------------------------------------- *)
(** ** Vectors and the face tables

    [vec_diff3], [vec_cross3] and [vec_dot3] are inline functions of
    [mmc_mesh.h], which is not part of the sources at hand. *)

(** Modelled from the spec: the header [mmc_mesh.h] with the body of
    [vec_diff3] is missing; this is the difference [b - a] that the
    barycentric test of the spec (signed volumes against each face) needs. *)
Definition vec_diff3 (a b : FLOAT3) : FLOAT3 :=
  mkFLOAT3 (fx b - fx a) (fy b - fy a) (fz b - fz a).

(** Modelled from the spec: the header [mmc_mesh.h] with the body of
    [vec_cross3] is missing; this is the cross product [a x b]. *)
Definition vec_cross3 (a b : FLOAT3) : FLOAT3 :=
  mkFLOAT3 (fy a * fz b - fz a * fy b)
           (fz a * fx b - fx a * fz b)
           (fx a * fy b - fy a * fx b).

(** Modelled from the spec: the header [mmc_mesh.h] with the body of
    [vec_dot3] is missing; this is the scalar product. *)
Definition vec_dot3 (a b : FLOAT3) : R :=
  fx a * fx b + fy a * fy b + fz a * fz b.

(** [out[4][3]]: the local node indices of the four faces. *)
Definition out (i k : nat) : nat :=
  nth k (nth i [[0; 3; 1]; [3; 2; 1]; [0; 2; 3]; [0; 1; 2]]%nat []) O.

(** [facemap[]]: the local node opposite to face [i]. *)
Definition facemap (i : nat) : nat := nth i [2; 0; 1; 3]%nat O.

(** [ifaceorder[]]: from the order of [facenb] to the faces of [out]. *)
Definition ifaceorder (i : nat) : nat := nth i [3; 0; 2; 1]%nat O.

(* ------------------------------------------------------------------------- *)
(** ** [mesh_barycentric] and [mesh_initelem]: locating the source *)

(** The first loop: the four signed volumes of the source against the
    faces. *)
Definition bary_face (m : tetmesh) (elems : list Z) (srcpos : FLOAT3)
                     (i : nat) (bary : list R) : list R :=
  let ea := node_at m (nth (out i 0) elems 0%Z) in
  let eb := node_at m (nth (out i 1) elems 0%Z) in
  let ec := node_at m (nth (out i 2) elems 0%Z) in
  let vecAB := vec_diff3 ea eb in
  let vecAC := vec_diff3 ea ec in
  let vecS := vec_diff3 ea srcpos in
  let vecN := vec_cross3 vecAB vecAC in
  upd bary (facemap i) (- vec_dot3 vecS vecN).

(** The second loop: [None] once a weight is negative ([return 1]), else the
    running sum [s]. *)
Definition bary_sum (bary : list R) (i : nat) (s : option R) : option R :=
  match s with
  | None => None
  | Some s0 => if Rlt_dec (nth i bary 0) 0 then None
               else Some (s0 + nth i bary 0)
  end.

Definition mesh_barycentric (e0 : Z) (bary : list R) (srcpos : FLOAT3)
                            (m : tetmesh) : result (Z * list R) :=
  let eid := (e0 - 1)%Z in
  if (Z.of_nat (m_ne m) <=? eid)%Z then
    Fatal "initial element index exceeds total element count"
  else
    let elems := zth (m_elem m) eid [] in
    let bary1 := for_loop 4 (bary_face m elems srcpos) bary in
    match for_loop 4 (bary_sum bary1) (Some 0) with
    | None => Ok (1%Z, bary1)
    | Some s =>
        Ok (0%Z, for_loop 4 (fun i b => upd b i (nth i b 0 / s)) bary1)
    end.

Definition MIN (a b : R) : R := if Rlt_dec a b then a else b.
Definition MAX (a b : R) : R := if Rgt_dec a b then a else b.

Section Locate.

(** [VERY_BIG] is a constant of [mmc_const.h], which is not part of the
    sources at hand; it is a parameter here. *)
Variable VERY_BIG : R.

(** The bounding box of the nodes of a row. *)
Definition bbox_step (m : tetmesh) (elems : list Z) (j : nat)
                     (b : FLOAT3 * FLOAT3) : FLOAT3 * FLOAT3 :=
  let (pmin, pmax) := b in
  let nd := node_at m (nth j elems 0%Z) in
  (mkFLOAT3 (MIN (fx nd) (fx pmin)) (MIN (fy nd) (fy pmin))
            (MIN (fz nd) (fz pmin)),
   mkFLOAT3 (MAX (fx nd) (fx pmax)) (MAX (fy nd) (fy pmax))
            (MAX (fz nd) (fz pmax))).

Definition bbox (m : tetmesh) (elems : list Z) : FLOAT3 * FLOAT3 :=
  for_loop (m_elemlen m) (bbox_step m elems)
           (mkFLOAT3 VERY_BIG VERY_BIG VERY_BIG,
            mkFLOAT3 (- VERY_BIG) (- VERY_BIG) (- VERY_BIG)).

Definition Rle_b (a b : R) : bool := if Rle_dec a b then true else false.

Definition in_bbox (p : FLOAT3) (b : FLOAT3 * FLOAT3) : bool :=
  let (pmin, pmax) := b in
  (Rle_b (fx p) (fx pmax) && Rle_b (fx pmin) (fx p)
   && Rle_b (fy p) (fy pmax) && Rle_b (fy pmin) (fy p)
   && Rle_b (fz p) (fz pmax) && Rle_b (fz pmin) (fz p))%bool.

(** The scan of the elements [i], [i + 1], ... ([cnt] of them): it stops at
    the first one that passes both tests, with [e0] set and 0 returned, and
    returns 1 at the end of the mesh. *)
Fixpoint initelem_scan (m : tetmesh) (cnt i : nat) (cfg : mcconfig)
  : result (Z * mcconfig) :=
  match cnt with
  | O => Ok (1%Z, cfg)
  | S c =>
      if in_bbox (c_srcpos cfg) (bbox m (nth i (m_elem m) [])) then
        match mesh_barycentric (Z.of_nat i + 1) (c_bary0 cfg)
                               (c_srcpos cfg) m with
        | Fatal msg => Fatal msg
        | Ok (r, bary) =>
            if (r =? 0)%Z
            then Ok (0%Z, set_e0 (set_bary0 cfg bary) (Z.of_nat i + 1))
            else initelem_scan m c (S i) (set_bary0 cfg bary)
        end
      else initelem_scan m c (S i) cfg
  end.

Definition mesh_initelem (m : tetmesh) (cfg : mcconfig)
  : result (Z * mcconfig) :=
  initelem_scan m (m_ne m) 0 cfg.

End Locate.

(* ------------------------------------------------------------------------- *)
(** ** [mesh_getreff]: the effective reflection coefficient

    [M_PI] is the real number pi.  The loop runs [count = 1000] times. *)

Definition getreff_count : nat := 1000.

(** The Fresnel reflection coefficient at the angle [o]: the mean of the
    two polarisations below the critical angle [oc], 1 from there on. *)
Definition r_fres (n_in n_out oc o : R) : R :=
  let coso := cos o in
  if Rlt_dec o oc then
    let cosop0 := n_in * sin o in
    let cosop := sqrt (1 - cosop0 * cosop0) in
    let tmp := (n_in * cosop - n_out * coso)
               / (n_in * cosop + n_out * coso) in
    let r := 1 / 2 * tmp * tmp in
    let tmp1 := (n_in * coso - n_out * cosop)
                / (n_in * coso + n_out * cosop) in
    r + 1 / 2 * tmp1 * tmp1
  else 1.

Definition getreff_step (n_in n_out oc ostep : R) (i : nat) (s : R * R)
  : R * R :=
  let (r_phi, r_j) := s in
  let o := INR i * ostep in
  let coso := cos o in
  (r_phi + 2 * sin o * coso * r_fres n_in n_out oc o,
   r_j + 3 * sin o * coso * coso * r_fres n_in n_out oc o).

(** The quadrature with [count] steps. *)
Definition getreff_with (count : nat) (n_in n_out : R) : R :=
  let oc := asin (1 / n_in) in
  let ostep := PI / (2 * INR count) in
  let (r_phi0, r_j0) :=
    for_loop count (getreff_step n_in n_out oc ostep) (0, 0) in
  let r_phi := r_phi0 * ostep in
  let r_j := r_j0 * ostep in
  (r_phi + r_j) / (2 - r_phi + r_j).

Definition mesh_getreff (n_in n_out : R) : R :=
  getreff_with getreff_count n_in n_out.

(** [mesh_getreff_approx], the polynomial fit next to it in the source. *)
Definition mesh_getreff_approx (n_in n_out : R) : R :=
  let nn := n_in / n_out in
  - (1440 / 1000) / (nn * nn) + (710 / 1000) / nn + 668 / 1000
  + 636 / 10000 * nn.

(* ------------------------------------------------------------------------- *)
(** ** [tracer_build] and [tracer_prep]

    Of the ray tracer only the presence of the three precomputed arrays is
    modelled ([true]: allocated, [false]: [NULL]), not their content; the
    mesh it points to is always there. *)

Record raytracer : Type := mkTracer {
  tr_d : bool;
  tr_m : bool;
  tr_n : bool;
  tr_method : TMethod;
  tr_mesh : tetmesh
}.

Definition set_tr_mesh (t : raytracer) (m : tetmesh) : raytracer :=
  mkTracer (tr_d t) (tr_m t) (tr_n t) (tr_method t) m.

Definition tracer_build (t : raytracer) : raytracer :=
  if (tr_d t || tr_m t || tr_n t)%bool then t
  else
    match tr_method t with
    | rtPlucker => mkTracer true true true (tr_method t) (tr_mesh t)
    | rtHavel | rtBadouel =>
        mkTracer false true (tr_n t) (tr_method t) (tr_mesh t)
    | rtBLBadouel | rtBLBadouelGrid =>
        mkTracer false (tr_m t) true (tr_method t) (tr_mesh t)
    end.

Definition is_point_source (s : TSrcType) : bool :=
  match s with
  | stPencil | stIsotropic | stCone | stArcSin => true
  | _ => false
  end.

(** The inner loop over [j = 1 .. i - 1] with its [break]: the first medium
    with the same refractive index lends its coefficient. *)
Fixpoint reff_copy (med : list medium) (i j cnt : nat) (reff : list R)
                   {struct cnt} : list R :=
  match cnt with
  | O => reff
  | S c =>
      if Req_dec_T (med_n (nth j med zero_medium))
                   (med_n (nth i med zero_medium))
      then upd reff i (nth j reff 0)
      else reff_copy med i (S j) c reff
  end.

(** One round of [for (i = 1; i <= prop; i++)]; [k] is [i - 1]. *)
Definition reff_step (med : list medium) (k : nat) (reff : list R) : list R :=
  let i := S k in
  let reff1 := reff_copy med i 1 (i - 1) reff in
  if Req_dec_T (nth i reff1 0) 0
  then upd reff1 i (mesh_getreff (med_n (nth i med zero_medium))
                                 (med_n (nth 0 med zero_medium)))
  else reff1.

Definition reff_table (m : tetmesh) (cfg : mcconfig) : list R :=
  let reff := repeat 0 (Z.to_nat (m_prop m + 1)) in
  if c_isreflect cfg
  then for_loop (Z.to_nat (m_prop m)) (reff_step (m_med m)) reff
  else reff.

(** The body of the innermost loop: the node [nid] of an exterior face of an
    element of region [t]. *)
Definition adjust_node (reff : list R) (t nid : Z) (nvol : list R) : list R :=
  if Rlt_dec 0 (zth nvol nid 0) then
    if (0 <=? t)%Z
    then zupd nvol nid (zth nvol nid 0 * - (2 / (1 + zth reff t 0)))
    else nvol
  else nvol.

Definition adjust_face (reff : list R) (t : Z) (elems : list Z) (j : nat)
                       (nvol : list R) : list R :=
  for_loop 3
    (fun k nv => adjust_node reff t (nth (out (ifaceorder j) k) elems 0 - 1)%Z
                             nv)
    nvol.

Definition adjust_elem (m : tetmesh) (reff : list R) (i : nat)
                       (nvol : list R) : list R :=
  for_loop (m_elemlen m)
    (fun j nv =>
       if (nth (i * m_elemlen m + j) (m_facenb m) 0 =? 0)%Z
       then adjust_face reff (nth i (m_type m) 0%Z) (nth i (m_elem m) []) j nv
       else nv)
    nvol.

(** The last loop of the block: [if (nvol[i] < 0.f) nvol[i] = -nvol[i]]. *)
Definition unmark (i : nat) (nvol : list R) : list R :=
  if Rlt_dec (nth i nvol 0) 0 then upd nvol i (- nth i nvol 0) else nvol.

Definition tracer_prep_nvol (m : tetmesh) (cfg : mcconfig) : tetmesh :=
  if ((c_isnormalized cfg =? 1)%Z
      && negb (TMethod_eqb (c_method cfg) rtBLBadouelGrid)
      && c_basisorder cfg)%bool
  then
    let reff := reff_table m cfg in
    let nvol1 := for_loop (m_ne m) (adjust_elem m reff) (m_nvol m) in
    set_nvol m (for_loop (m_nn m) unmark nvol1)
  else m.

Section Prepare.

Variable VERY_BIG : R.

(** The head of [tracer_prep]: build the tracer if it is not built, else
    check (for the four point-like sources) that an element encloses the
    source. *)
Definition tracer_prep_source (t : raytracer) (cfg : mcconfig)
  : result (raytracer * mcconfig) :=
  if (negb (tr_n t) && negb (tr_m t) && negb (tr_d t))%bool then
    Ok (tracer_build t, cfg)
  else if is_point_source (c_srctype cfg) then
    let scan cfg1 :=
      match mesh_initelem VERY_BIG (tr_mesh t) cfg1 with
      | Fatal msg => Fatal msg
      | Ok (r, cfg2) =>
          if (r =? 0)%Z then Ok (t, cfg2)
          else Fatal "initial element does not enclose the source!"
      end in
    if (c_e0 cfg <=? 0)%Z then scan cfg
    else
      match mesh_barycentric (c_e0 cfg) (c_bary0 cfg) (c_srcpos cfg)
                             (tr_mesh t) with
      | Fatal msg => Fatal msg
      | Ok (r, bary) =>
          if (r =? 0)%Z then Ok (t, set_bary0 cfg bary)
          else scan (set_bary0 cfg bary)
      end
  else Ok (t, cfg).

(** [tracer_prep]: the source check, the node-volume correction, the
    numbering of the exterior faces and the reflectance buffer.  The two
    passes over [edgeroi] and [faceroi] in between write only those two
    arrays, which are not part of this model. *)
Definition tracer_prep (t : raytracer) (cfg : mcconfig)
  : result (raytracer * mcconfig) :=
  match tracer_prep_source t cfg with
  | Fatal msg => Fatal msg
  | Ok (t1, cfg1) =>
      let m1 := tracer_prep_nvol (tr_mesh t1) cfg1 in
      let m2 := tracer_prep_faces m1 in
      let m3 :=
        if c_issaveref cfg1
        then set_dref m2
               (Some (repeat 0 (Z.to_nat (m_nf m2) * c_srcnum cfg1
                                * c_maxgate cfg1)))
        else m2 in
      Ok (set_tr_mesh t1 m3, cfg1)
  end.

End Prepare.

(* ------------------------------------------------------------------------- *)
(** ** [mc_next_scatter]: one scattering event

    The random number generator is not part of the sources at hand: the
    values returned by [rand_next_scatlen], [rand_next_aangle] and
    [rand_next_zangle] are inputs.  [mmc_sincosf] stores the sine and the
    cosine of its argument.  The path without [MMC_USE_SSE_MATH] is the one
    modelled. *)

Record draws : Type := mkDraws {
  scatlen : R;   (* rand_next_scatlen(ran) *)
  aangle : R;    (* rand_next_aangle(ran) *)
  zangle : R     (* rand_next_zangle(ran) *)
}.

(** Modelled from the spec: the macro [TWO_PI] of the missing header
    [mmc_const.h]; the spec has the azimuthal angle uniform on [0, 2 pi). *)
Definition TWO_PI : R := 2 * PI.

Section Scatter.

(** [EPS] is a constant of [mmc_const.h], which is not part of the sources at
    hand; it is a parameter here. *)
Variable EPS : R.

(** The azimuthal angle and its sine and cosine. *)
Definition scatter_azimuth (d : draws) : R * R * R :=
  let tmp0 := TWO_PI * aangle d in
  (tmp0, sin tmp0, cos tmp0).

(** The polar angle: [(theta, stheta, ctheta)]. *)
Definition scatter_polar (g : R) (d : draws) : R * R * R :=
  if Rgt_dec g EPS then
    let tmp0 := (1 - g * g) / (1 - g + 2 * g * zangle d) in
    let tmp1 := tmp0 * tmp0 in
    let tmp2 := (1 + g * g - tmp1) / (2 * g) in
    let tmp3 := if Rgt_dec tmp2 1 then 1 else tmp2 in
    let tmp4 := if Rlt_dec tmp3 (-1) then -1 else tmp3 in
    (acos tmp4, sqrt (1 - tmp4 * tmp4), tmp4)
  else
    let theta := acos (2 * zangle d - 1) in
    (theta, sin theta, cos theta).

(** The rotation of the direction by the two angles. *)
Definition scatter_rotate (dir : FLOAT3) (sphi cphi stheta ctheta : R)
  : FLOAT3 :=
  if (if Rgt_dec (fz dir) (-1 + EPS) then
        if Rlt_dec (fz dir) (1 - EPS) then true else false
      else false)
  then
    let tmp0 := 1 - fz dir * fz dir in
    let tmp1 := stheta * (1 / sqrt tmp0) in
    mkFLOAT3
      (tmp1 * (fx dir * fz dir * cphi - fy dir * sphi) + fx dir * ctheta)
      (tmp1 * (fy dir * fz dir * cphi + fx dir * sphi) + fy dir * ctheta)
      (- tmp1 * tmp0 * cphi + fz dir * ctheta)
  else
    mkFLOAT3 (stheta * cphi) (stheta * sphi)
             (if Rgt_dec (fz dir) 0 then ctheta else - ctheta).

(** The result is the scattering length, the new direction and the new
    value of [pmom[0]]. *)
Definition mc_next_scatter (g : R) (dir : FLOAT3) (d : draws)
                           (ismomentum : bool) (pmom0 : R)
  : R * FLOAT3 * R :=
  let nextslen := scatlen d in
  let '(_, sphi, cphi) := scatter_azimuth d in
  let '(_, stheta, ctheta) := scatter_polar g d in
  let p := scatter_rotate dir sphi cphi stheta ctheta in
  (nextslen, p, if ismomentum then pmom0 + (1 - ctheta) else pmom0).

End Scatter.

(** The Henyey-Greenstein cosine for anisotropy [g] and a draw [xi]. *)
Definition hg_cosine (g xi : R) : R :=
  1 / (2 * g) * (1 + g * g - ((1 - g * g) / (1 - g + 2 * g * xi)) ^ 2).

(** [x] brought into the interval from -1 to 1. *)
Definition clamp1 (x : R) : R := Rmax (-1) (Rmin 1 x).

Definition vec_norm (v : FLOAT3) : R :=
  sqrt (fx v * fx v + fy v * fy v + fz v * fz v).

(* ------------------------------------------------------------------------- *)
(** ** Sample inputs *)

(** One tetrahedron with the corners of the unit simplex, one medium, all
    four faces exterior. *)
Definition unit_tet : tetmesh :=
  mkMesh 4 1 0 1 4
         [mkFLOAT3 0 0 0; mkFLOAT3 1 0 0; mkFLOAT3 0 1 0; mkFLOAT3 0 0 1]
         [[1; 2; 4; 3]%Z] [0; 0; 0; 0]%Z [1%Z]
         [mkMedium 0 0 1 1; mkMedium (1 / 100) 1 (9 / 10) (137 / 100)]
         [1 / 6] [1 / 24; 1 / 24; 1 / 24; 1 / 24] [0; 0; 0; 0] None
         0 [] 0 [].

(** A pencil beam inside [unit_tet], two media given in memory. *)
Definition pencil_cfg : mcconfig :=
  mkCfg 0 false 0 1 2
        [mkMedium 0 0 1 1; mkMedium (1 / 100) 1 (9 / 10) (137 / 100)]
        rtPlucker 1 (mkFLOAT3 (1 / 4) (1 / 4) (1 / 4)) [0; 0; 0; 0]
        stPencil 1 true false false 1 1 0 otEnergy 100 1 0 0.

(** Three elements: a candidate source, a wide-field detector, a tissue. *)
Definition marked_mesh : tetmesh :=
  mkMesh 4 3 0 0 4
         [mkFLOAT3 0 0 0; mkFLOAT3 1 0 0; mkFLOAT3 0 1 0; mkFLOAT3 0 0 1]
         [[1; 2; 3; 4]%Z; [1; 2; 3; 4]%Z; [1; 2; 3; 4]%Z] [] [-1; -2; 1]%Z
         [] [] [] [] None 0 [] 0 [].

(** A flat element: four nodes in the plane [z = 0], and a pencil beam at a
    point of that plane inside its bounding box. *)
Definition flat_tet : tetmesh :=
  mkMesh 4 1 0 1 4
         [mkFLOAT3 0 0 0; mkFLOAT3 1 0 0; mkFLOAT3 0 1 0; mkFLOAT3 1 1 0]
         [[1; 2; 3; 4]%Z] [0; 0; 0; 0]%Z [1%Z]
         [mkMedium 0 0 1 1; mkMedium (1 / 100) 1 (9 / 10) (137 / 100)]
         [0] [0; 0; 0; 0] [0; 0; 0; 0] None 0 [] 0 [].

Definition flat_cfg : mcconfig :=
  mkCfg 0 false 0 1 2
        [mkMedium 0 0 1 1; mkMedium (1 / 100) 1 (9 / 10) (137 / 100)]
        rtPlucker 1 (mkFLOAT3 (1 / 4) (1 / 4) 0) [0; 0; 0; 0]
        stPencil 1 true false false 1 1 0 otEnergy 100 1 0 0.

(** A pencil beam outside [unit_tet], no initial element given. *)
Definition outside_cfg : mcconfig :=
  mkCfg 0 false 0 1 2
        [mkMedium 0 0 1 1; mkMedium (1 / 100) 1 (9 / 10) (137 / 100)]
        rtPlucker 1 (mkFLOAT3 5 5 5) [0; 0; 0; 0]
        stPencil 0 true false false 1 1 0 otEnergy 100 1 0 0.

(** The same beam with an initial element index beyond the only element. *)
Definition beyond_cfg : mcconfig := set_e0 outside_cfg 2.

(** The four raw weights of [mesh_barycentric], before the division. *)
Definition raw_weights (e0 : Z) (bary : list R) (srcpos : FLOAT3)
                       (m : tetmesh) : list R :=
  for_loop 4 (bary_face m (zth (m_elem m) (e0 - 1)%Z []) srcpos) bary.

Definition sum4 (b : list R) : R :=
  nth 0 b 0 + nth 1 b 0 + nth 2 b 0 + nth 3 b 0.

(** The element [k] (0-based) passes the barycentric test for the point
    [srcpos]: none of its four raw weights is negative. *)
Definition passes (m : tetmesh) (srcpos : FLOAT3) (k : nat) : Prop :=
  Forall (fun w => 0 <= w)
         (raw_weights (Z.of_nat k + 1) [0; 0; 0; 0] srcpos m).

(** The node-volume correction as a sequence of visits: a visit is the
    region id of an element and the 0-based index of a node of one of its
    exterior faces, in the order of the three nested loops. *)
Definition face_visits (t : Z) (elems : list Z) (j : nat) : list (Z * Z) :=
  map (fun k => (t, (nth (out (ifaceorder j) k) elems 0 - 1)%Z))
      [0; 1; 2]%nat.

Definition elem_visits (m : tetmesh) (i : nat) : list (Z * Z) :=
  flat_map
    (fun j =>
       if (nth (i * m_elemlen m + j) (m_facenb m) 0 =? 0)%Z
       then face_visits (nth i (m_type m) 0%Z) (nth i (m_elem m) []) j
       else [])
    (seq 0 (m_elemlen m)).

Definition all_visits (m : tetmesh) : list (Z * Z) :=
  flat_map (elem_visits m) (seq 0 (m_ne m)).

Definition apply_visit (reff : list R) (nvol : list R) (v : Z * Z) : list R :=
  adjust_node reff (fst v) (snd v) nvol.

(** The region id of the first visit to node [n] by an element whose region
    id is not negative. *)
Fixpoint first_region (vs : list (Z * Z)) (n : nat) : option Z :=
  match vs with
  | [] => None
  | (t, nid) :: rest =>
      if ((0 <=? t)%Z && (nid =? Z.of_nat n)%Z)%bool then Some t
      else first_region rest n
  end.

(** The value a node volume [v] has after the visits, before the signs are
    removed. *)
Definition marked_volume (reff : list R) (v : R) (o : option Z) : R :=
  match o with
  | Some t => if Rlt_dec 0 v then v * - (2 / (1 + zth reff t 0)) else v
  | None => v
  end.

(** What the correction pass needs of a mesh: four nodes and four face
    neighbours per element, a volume per node, none negative, and region ids
    that index the table of reflection coefficients. *)
Definition nvol_pass_ok (m : tetmesh) : Prop :=
  m_elemlen m = 4%nat /\
  length (m_elem m) = m_ne m /\ length (m_type m) = m_ne m /\
  length (m_facenb m) = (m_ne m * 4)%nat /\
  length (m_nvol m) = m_nn m /\
  Forall (fun t => (0 <= t <= m_prop m)%Z) (m_type m) /\
  Forall (fun v => 0 <= v) (m_nvol m).

(** Node [n] (0-based) is a node of an exterior face: of face [j] of an
    element [i] whose neighbour across that face is 0. *)
Definition on_exterior_face (m : tetmesh) (n : nat) : Prop :=
  exists i j k, (i < m_ne m)%nat /\ (j < 4)%nat /\ (k < 3)%nat /\
    nth (i * 4 + j) (m_facenb m) 0%Z = 0%Z /\
    (nth (out (ifaceorder j) k) (nth i (m_elem m) []) 0 - 1)%Z = Z.of_nat n.

(* ------------------------------------------------------------------------- *)
(** ** Geometry of an element *)

(** The scalar triple product of the three edges from node 0. *)
Definition triple_product (n0 n1 n2 n3 : FLOAT3) : R :=
  vec_dot3 (vec_diff3 n0 n1)
           (vec_cross3 (vec_diff3 n0 n2) (vec_diff3 n0 n3)).

(** The four nodes of a row. *)
Definition row_node (m : tetmesh) (row : list Z) (k : nat) : FLOAT3 :=
  node_at m (nth k row 0%Z).

(** [s * p], [p + q] on vectors. *)
Definition vec_scale (s : R) (p : FLOAT3) : FLOAT3 :=
  mkFLOAT3 (s * fx p) (s * fy p) (s * fz p).

Definition vec_add (p q : FLOAT3) : FLOAT3 :=
  mkFLOAT3 (fx p + fx q) (fy p + fy q) (fz p + fz q).

(** The combination of the four nodes of a row with the weights [w]. *)
Definition combine4 (m : tetmesh) (row : list Z) (w : list R) : FLOAT3 :=
  vec_add (vec_add (vec_scale (nth 0 w 0) (row_node m row 0))
                   (vec_scale (nth 1 w 0) (row_node m row 1)))
          (vec_add (vec_scale (nth 2 w 0) (row_node m row 2))
                   (vec_scale (nth 3 w 0) (row_node m row 3))).

(** The raw weight that [mesh_barycentric] computes from face [i]. *)
Definition face_weight (m : tetmesh) (elems : list Z) (srcpos : FLOAT3)
                       (i : nat) : R :=
  let ea := node_at m (nth (out i 0) elems 0%Z) in
  let eb := node_at m (nth (out i 1) elems 0%Z) in
  let ec := node_at m (nth (out i 2) elems 0%Z) in
  - vec_dot3 (vec_diff3 ea srcpos)
             (vec_cross3 (vec_diff3 ea eb) (vec_diff3 ea ec)).

(* ------------------------------------------------------------------------- *)
(** ** [tracer_init]

    {[
    tracer->d = NULL; tracer->m = NULL; tracer->n = NULL;
    tracer->mesh = pmesh; tracer->method = methodid;
    tracer_build(tracer);
    ]} *)

Definition tracer_init (pmesh : tetmesh) (methodid : TMethod) : raytracer :=
  tracer_build (mkTracer false false false methodid pmesh).

(* ------------------------------------------------------------------------- *)
(** ** Quantities and inputs for [mesh_normalize] *)

(** The energy that an element-based weight array stands for: every entry
    of the pattern times the volume and the absorption coefficient of its
    element, summed in the order of the loops of [mesh_normalize]. *)
Definition elem_absorbed (m : tetmesh) (maxgate len srcnum pair : nat)
                         (w : list R) : R :=
  for_loop len
    (fun i dep =>
       for_loop maxgate
         (fun j d1 =>
            d1 + nth ((j * len + i) * srcnum + pair)%nat w 0
                 * (nth i (m_evol m) 0
                    * med_mua (zth (m_med m) (nth i (m_type m) 0%Z)
                                   zero_medium)))
         dep)
    0.

(** A replay run for the Jacobian that saves the reflectance, with the seed
    value of replay taken as -999. *)
Definition replay_cfg : mcconfig :=
  mkCfg 1 false 0 1 2
        [mkMedium 0 0 1 1; mkMedium (1 / 100) 1 (9 / 10) (137 / 100)]
        rtPlucker 1 (mkFLOAT3 (1 / 4) (1 / 4) (1 / 4)) [0; 0; 0; 0]
        stPencil 1 true false true 1 1 (-999) otJacobian 100 1 0 0.

(** [unit_tet] after [tracer_prep], with a reflectance buffer of 8 entries
    for its 4 exterior faces. *)
Definition dref_tet : tetmesh :=
  mkMesh 4 1 4 1 4
         [mkFLOAT3 0 0 0; mkFLOAT3 1 0 0; mkFLOAT3 0 1 0; mkFLOAT3 0 0 1]
         [[1; 2; 4; 3]%Z] [-1; -2; -3; -4]%Z [1%Z]
         [mkMedium 0 0 1 1; mkMedium (1 / 100) 1 (9 / 10) (137 / 100)]
         [1 / 6] [1 / 24; 1 / 24; 1 / 24; 1 / 24] [1; 2; 3; 4]
         (Some [1; 2; 3; 4; 5; 6; 7; 8]) 0 [] 0 [].

(** An element-based fluence run on one element with deposited weight 2. *)
Definition elem_cfg : mcconfig :=
  mkCfg 1 false 0 1 2
        [mkMedium 0 0 1 1; mkMedium (1 / 100) 1 (9 / 10) (137 / 100)]
        rtPlucker 1 (mkFLOAT3 (1 / 4) (1 / 4) (1 / 4)) [0; 0; 0; 0]
        stPencil 1 false false false 1 1 0 otFluence 100 1 0 0.

Definition elem_tet : tetmesh :=
  mkMesh 4 1 4 1 4
         [mkFLOAT3 0 0 0; mkFLOAT3 1 0 0; mkFLOAT3 0 1 0; mkFLOAT3 0 0 1]
         [[1; 2; 4; 3]%Z] [-1; -2; -3; -4]%Z [1%Z]
         [mkMedium 0 0 1 1; mkMedium (1 / 100) 1 (9 / 10) (137 / 100)]
         [1 / 6] [1 / 24; 1 / 24; 1 / 24; 1 / 24] [2]
         None 0 [] 0 [].



(** [pencil_cfg] with reflection at the boundary switched on. *)
Definition reflect_cfg : mcconfig :=
  mkCfg 0 false 0 1 2
        [mkMedium 0 0 1 1; mkMedium (1 / 100) 1 (9 / 10) (137 / 100)]
        rtPlucker 1 (mkFLOAT3 (1 / 4) (1 / 4) (1 / 4)) [0; 0; 0; 0]
        stPencil 1 true true false 1 1 0 otEnergy 100 1 0 0.

(* ------------------------------------------------------------------------- *)
(** ** The media table that [mesh_loadmedia] builds *)

(** [med[i].mus *= unitinmm; med[i].mua *= unitinmm]. *)
Definition scaled (u : R) (md : medium) : medium :=
  mkMedium (med_mua md * u) (med_mus md * u) (med_g md) (med_n md).

(** A medium after the unit conversion at the end of [mesh_loadmedia], which
    is skipped for the grid ray tracer and for a unit of 1 mm. *)
Definition unit_scaled (cfg : mcconfig) (md : medium) : medium :=
  if (negb (TMethod_eqb (c_method cfg) rtBLBadouelGrid)
      && (if Req_dec_T (c_unitinmm cfg) 1 then false else true))%bool
  then scaled (c_unitinmm cfg) md else md.

(** A property file with one medium, and a configuration that reads it with
    a voxel size of 2 mm. *)
Definition one_medium_file : propfile :=
  mkPropfile (Some 1%Z) [mkMedium (1 / 100) 1 (9 / 10) (137 / 100)].

Definition file_cfg : mcconfig :=
  mkCfg 0 false 0 1 0 []
        rtPlucker 2 (mkFLOAT3 (1 / 4) (1 / 4) (1 / 4)) [0; 0; 0; 0]
        stPencil 1 true false false 1 1 0 otEnergy 100 1 0 0.

(** A property file that announces two media and holds one. *)
Definition short_file : propfile :=
  mkPropfile (Some 2%Z) [mkMedium (1 / 100) 1 (9 / 10) (137 / 100)].

(* ------------------------------------------------------------------------- *)
(** ** [mesh_loadelem] and the element table of [mesh_init_from_cfg]

    The element table in memory ([cfg->elem], [cfg->elemnum],
    [cfg->elemlen]) is an input, present when [cfg->node && cfg->nodenum > 0]
    holds.  The element file is an input too: [None] when it cannot be
    opened, else the integers that [fscanf] can read from it one after the
    other, up to the first item that is not an integer. *)

Definition set_elements (m : tetmesh) (ne elemlen : nat)
                        (el : list (list Z)) (ty : list Z) (w : list R)
  : tetmesh :=
  mkMesh (m_nn m) ne (m_nf m) (m_prop m) elemlen (m_node m) el (m_facenb m)
         ty (m_med m) (m_evol m) (m_nvol m) w (m_dref m)
         (m_srcelemlen m) (m_srcelem m) (m_detelemlen m) (m_detelem m).

(** One round of the copy from memory: row [i] of [elem], entry by entry,
    and [type[i]], from a table with [elemlen + 1] columns. *)
Definition loadelem_unpack (src : list Z) (elemlen : nat) (i : nat)
                           (s : list (list Z) * list Z)
  : list (list Z) * list Z :=
  let (elem, type) := s in
  (for_loop elemlen
     (fun j el =>
        upd el i (upd (nth i el []) j
                      (nth (i * (elemlen + 1) + j) src 0%Z)))
     elem,
   upd type i (nth (i * (elemlen + 1) + elemlen) src 0%Z)).

(** The rounds of the reading loop: an index that is read and dropped,
    [elemlen] node indices and the region id; [None] when the integers run
    out (the loop is left with [i < ne]). *)
Fixpoint loadelem_read (toks : list Z) (cnt i elemlen : nat)
                       (s : list (list Z) * list Z) {struct cnt}
  : option (list (list Z) * list Z) :=
  match cnt with
  | O => Some s
  | S c =>
      match toks with
      | [] => None
      | _ :: t1 =>
          match skipn elemlen t1 with
          | [] => None
          | ty :: t2 =>
              loadelem_read t2 c (S i) elemlen
                (upd (fst s) i (firstn elemlen t1), upd (snd s) i ty)
          end
      end
  end.

Definition mesh_loadelem (mem : option (list Z * nat * nat))
                         (file : option (list Z)) (m : tetmesh)
                         (cfg : mcconfig) : result (tetmesh * mcconfig) :=
  let alloc ne elemlen :=
    set_elements m ne elemlen (repeat (repeat 0%Z elemlen) ne)
                 (repeat 0%Z ne) (m_weight m) in
  let weight ne elemlen :=
    repeat 0 (datalen (alloc ne elemlen) cfg
              * (c_maxgate cfg * c_srcnum cfg)) in
  match mem with
  | Some (src, elemnum, elemlen) =>
      let m0 := alloc elemnum elemlen in
      let '(el, ty) :=
        for_loop elemnum (loadelem_unpack src elemlen)
                 (m_elem m0, m_type m0) in
      Ok (mesh_srcdetelem
            (set_elements m elemnum elemlen el ty (weight elemnum elemlen))
            cfg)
  | None =>
      match file with
      | None => Fatal "can not open element file"
      | Some (el0 :: ne0 :: rest) =>
          if (ne0 <=? 0)%Z then Fatal "element file has wrong format"
          else
            let elemlen := Z.to_nat (if (el0 <? 4)%Z then 4 else el0) in
            let ne := Z.to_nat ne0 in
            let m0 := alloc ne elemlen in
            match loadelem_read rest ne 0 elemlen (m_elem m0, m_type m0) with
            | None => Fatal "element file has wrong format"
            | Some (el, ty) =>
                Ok (mesh_srcdetelem
                      (set_elements m ne elemlen el ty (weight ne elemlen))
                      cfg)
            end
      | Some _ => Fatal "element file has wrong format"
      end
  end.

(** The table that [mesh_init_from_cfg] builds for the JSON dump: row [i]
    holds the [elemlen] node indices of element [i] and then its region id.
    {[
    for (i = 0; i < mesh->ne; i++) {
        for (j = 0; j < mesh->elemlen; j++)
            elem[i * (mesh->elemlen + 1) + j] = mesh->elem[i * mesh->elemlen + j];
        elem[i * (mesh->elemlen + 1) + mesh->elemlen] = mesh->type[i];
    }
    ]} *)
Definition init_from_cfg_elem (m : tetmesh) : list Z :=
  for_loop (m_ne m)
    (fun i flat =>
       let flat1 :=
         for_loop (m_elemlen m)
           (fun j f =>
              upd f (i * (m_elemlen m + 1) + j)
                  (nth j (nth i (m_elem m) []) 0%Z))
           flat in
       upd flat1 (i * (m_elemlen m + 1) + m_elemlen m)
           (nth i (m_type m) 0%Z))
    (repeat 0%Z (m_ne m * (m_elemlen m + 1))).

(** An element file with one tetrahedron of region 1. *)
Definition one_elem_file : list Z := [4; 1; 1; 1; 2; 4; 3; 1]%Z.

(* ------------------------------------------------------------------------- *)
(** ** [mesh_createdualmesh] and [mesh_validate]

    The grid spacing [cfg->steps] is an input of [mesh_createdualmesh]; of
    what it writes, [mesh->nmin], [mesh->nmax], [cfg->dim] and [cfg->crop0]
    are returned in a record of their own, and [cfg->crop0.z] is stored in
    the configuration as well.

    [cfg->dim] and [cfg->crop0] are of type [int], 32 bits wide: sums and
    products of [int] values are taken modulo 2^32 into the range from
    [INT_MIN] to [INT_MAX].  The conversion [(int) x] of a floating-point
    value truncates towards zero.  A floating-point quotient with divisor 0
    is not a finite number (an infinity or a NaN), and remains so when
    multiplied; [None] stands for such a value.  The conversion to [int] of
    a value that is not finite, or whose truncation is outside the range of
    [int], is left open by the language; the conversion instruction of x86
    yields [INT_MIN], which is what [to_int] gives. *)

Definition c_trunc (x : R) : Z :=
  if Rle_dec 0 x then Int_part x else (- Int_part (- x))%Z.

Definition INT_MIN : Z := (-2147483648)%Z.
Definition INT_MAX : Z := 2147483647%Z.

Definition wrap32 (z : Z) : Z :=
  ((z + 2147483648) mod 4294967296 - 2147483648)%Z.

Definition fdiv (a b : R) : option R :=
  if Req_dec_T b 0 then None else Some (a / b).

Definition fmul (a : option R) (b : R) : option R :=
  match a with
  | Some x => Some (x * b)
  | None => None
  end.

Definition to_int (x : option R) : Z :=
  match x with
  | Some v =>
      if ((INT_MIN <=? c_trunc v)%Z && (c_trunc v <=? INT_MAX)%Z)%bool
      then c_trunc v
      else INT_MIN
  | None => INT_MIN
  end.

Record dualgrid : Type := mkGrid {
  g_nmin : FLOAT3;
  g_nmax : FLOAT3;
  g_dim : Z * Z * Z;
  g_crop0 : Z * Z * Z
}.

Definition set_crop0z (c : mcconfig) (n : nat) : mcconfig :=
  mkCfg (c_e0 c) (c_isextdet c) (c_detnum c) (c_nout c) (c_medianum c)
        (c_prop c) (c_method c) (c_unitinmm c) (c_srcpos c) (c_bary0 c)
        (c_srctype c) (c_isnormalized c) (c_basisorder c) (c_isreflect c)
        (c_issaveref c) (c_maxgate c) (c_srcnum c) (c_seed c)
        (c_outputtype c) (c_nphoton c) (c_tstep c) n (c_maxmedia c).

Definition set_basisorder (c : mcconfig) (b : bool) : mcconfig :=
  mkCfg (c_e0 c) (c_isextdet c) (c_detnum c) (c_nout c) (c_medianum c)
        (c_prop c) (c_method c) (c_unitinmm c) (c_srcpos c) (c_bary0 c)
        (c_srctype c) (c_isnormalized c) b (c_isreflect c)
        (c_issaveref c) (c_maxgate c) (c_srcnum c) (c_seed c)
        (c_outputtype c) (c_nphoton c) (c_tstep c) (c_crop0z c)
        (c_maxmedia c).

Section DualMesh.

Variable VERY_BIG : R.
Variable EPS : R.

Definition dualmesh_step (m : tetmesh) (i : nat) (b : FLOAT3 * FLOAT3)
  : FLOAT3 * FLOAT3 :=
  let (nmin, nmax) := b in
  let nd := nth i (m_node m) zero3 in
  (mkFLOAT3 (MIN (fx nd) (fx nmin)) (MIN (fy nd) (fy nmin))
            (MIN (fz nd) (fz nmin)),
   mkFLOAT3 (MAX (fx nd) (fx nmax)) (MAX (fy nd) (fy nmax))
            (MAX (fz nd) (fz nmax))).

Definition mesh_createdualmesh (steps : FLOAT3) (m : tetmesh)
                               (cfg : mcconfig) : dualgrid * mcconfig :=
  let (nmin0, nmax0) :=
    for_loop (m_nn m) (dualmesh_step m)
             (mkFLOAT3 VERY_BIG VERY_BIG VERY_BIG,
              mkFLOAT3 (- VERY_BIG) (- VERY_BIG) (- VERY_BIG)) in
  let nmin := mkFLOAT3 (fx nmin0 - EPS) (fy nmin0 - EPS) (fz nmin0 - EPS) in
  let nmax := mkFLOAT3 (fx nmax0 + EPS) (fy nmax0 + EPS) (fz nmax0 + EPS) in
  let dimx := wrap32 (to_int (fdiv (fx nmax - fx nmin) (fx steps)) + 1) in
  let dimy := wrap32 (to_int (fdiv (fy nmax - fy nmin) (fy steps)) + 1) in
  let dimz := wrap32 (to_int (fdiv (fz nmax - fz nmin) (fz steps)) + 1) in
  let crop0x := dimx in
  let crop0y := wrap32 (dimy * dimx) in
  let crop0z := wrap32 (wrap32 (dimy * dimx) * dimz) in
  (mkGrid nmin nmax (dimx, dimy, dimz) (crop0x, crop0y, crop0z),
   set_crop0z cfg (Z.to_nat crop0z)).

(** [realloc(med, n)]: the first entries are kept. *)
Definition resize_med (med : list medium) (n : nat) : list medium :=
  firstn n med ++ repeat zero_medium (n - length med).

Definition set_validated (m : tetmesh) (ty : list Z) (med : list medium)
                         (nvol w : list R) : tetmesh :=
  mkMesh (m_nn m) (m_ne m) (m_nf m) (m_prop m) (m_elemlen m) (m_node m)
         (m_elem m) (m_facenb m) ty med (m_evol m) nvol w (m_dref m)
         (m_srcelemlen m) (m_srcelem m) (m_detelemlen m) (m_detelem m).

(** The node volumes of [mesh_validate]: a quarter of the volume of every
    element with a positive region id, at its first four nodes. *)
Definition validate_nvol (m : tetmesh) : list R :=
  for_loop (m_ne m)
    (fun i nvol =>
       if (nth i (m_type m) 0 <=? 0)%Z then nvol
       else add_shares (nth i (m_elem m) []) (nth i (m_evol m) 0) 4 nvol)
    (repeat 0 (m_nn m)).

(** [mesh_validate]; the arrays of the mesh are taken to be there, so of the
    tests for a complete mesh those on [prop], [nn] and [ne] remain. *)
Definition mesh_validate (steps : FLOAT3) (m : tetmesh) (cfg : mcconfig)
  : result (tetmesh * mcconfig) :=
  if (m_prop m =? 0)%Z then
    Fatal "you must define the 'prop' field in the input structure"
  else if ((m_nn m =? 0)%nat || (m_ne m =? 0)%nat)%bool then
    Fatal "a complete input mesh include 'node','elem','facenb' and 'evol'"
  else
    let nvol := validate_nvol m in
    let grid := TMethod_eqb (c_method cfg) rtBLBadouelGrid in
    let cfg1 :=
      if grid
      then set_basisorder (snd (mesh_createdualmesh steps m cfg)) false
      else cfg in
    let w := repeat 0 (datalen m cfg1 * c_srcnum cfg1 * c_maxgate cfg1) in
    let med1 :=
      if (negb grid
          && (if Req_dec_T (c_unitinmm cfg1) 1 then false else true))%bool
      then for_loop (Z.to_nat (m_prop m)) (scale_medium (c_unitinmm cfg1))
                    (m_med m)
      else m_med m in
    let '(med2, type2) :=
      if c_isextdet cfg1 then
        (zupd (resize_med med1 (Z.to_nat (m_prop m + 2))) (m_prop m + 1)
              (nth 0 med1 zero_medium),
         for_loop (m_ne m) (remap_extdet (m_prop m)) (m_type m))
      else (med1, m_type m) in
    Ok (set_validated m type2 med2 nvol w, cfg1).

End DualMesh.

(** The sum, over the first [k] elements with a positive region id, of their
    shares to node [n] through their first four nodes. *)
Definition validated_sum (m : tetmesh) (n k : nat) : R :=
  for_loop k
    (fun i acc =>
       acc + if (nth i (m_type m) 0 <=? 0)%Z then 0
             else node_share (nth i (m_elem m) []) (nth i (m_evol m) 0) n 4)
    0.

(* ------------------------------------------------------------------------- *)
(** ** [mesh_getdetweight]: the pattern weight of a detected photon

    The fields of the configuration that describe the detection plane:
    [cfg->detpos[0]], [cfg->detparam1], [cfg->detparam2] and
    [cfg->detpattern].  The pixel counts and the pixel indices are of type
    [int]; the quotients by [xrange] and [yrange] are floating-point
    quotients, which are not finite when the range is 0. *)

Record detplane : Type := mkDetplane {
  det_x0 : R;              (* cfg->detpos[0].x *)
  det_y0 : R;              (* cfg->detpos[0].y *)
  det_p1x : R;             (* cfg->detparam1.x *)
  det_p1y : R;             (* cfg->detparam1.y *)
  det_p1w : R;             (* cfg->detparam1.w *)
  det_p2x : R;             (* cfg->detparam2.x *)
  det_p2y : R;             (* cfg->detparam2.y *)
  det_p2w : R;             (* cfg->detparam2.w *)
  det_pattern : list R     (* cfg->detpattern *)
}.

(** The index [(photonid + 1) * colcount - k] into the photon records. *)
Definition photon_field (photonid colcount k : Z) : Z :=
  wrap32 (wrap32 (wrap32 (photonid + 1) * colcount) - k).

Definition mesh_getdetweight (photonid colcount : Z) (ppath : list R)
                             (d : detplane) : result R :=
  let x0 := det_x0 d in
  let y0 := det_y0 d in
  let xrange := det_p1x d + det_p2x d in
  let yrange := det_p1y d + det_p2y d in
  let xsize := to_int (Some (det_p1w d)) in
  let ysize := to_int (Some (det_p2w d)) in
  let xloc := zth ppath (photon_field photonid colcount 7) 0 in
  let yloc := zth ppath (photon_field photonid colcount 6) 0 in
  let xindex := to_int (fmul (fdiv (xloc - x0) xrange) (IZR xsize)) in
  let yindex := to_int (fmul (fdiv (yloc - y0) yrange) (IZR ysize)) in
  if ((xindex <? 0)%Z || (xindex >? wrap32 (xsize - 1))%Z
      || (yindex <? 0)%Z || (yindex >? wrap32 (ysize - 1))%Z)%bool
  then Fatal "photon location not within the detection plane"
  else Ok (zth (det_pattern d) (wrap32 (wrap32 (yindex * xsize) + xindex)) 0).

(** A detection plane of 2 by 2 pixels over the unit square, and a photon
    record of 8 columns that left at (3/4, 1/4). *)
Definition unit_plane : detplane :=
  mkDetplane 0 0 1 0 2 0 1 2 [1; 2; 3; 4].

Definition one_photon : list R := [0; 3 / 4; 1 / 4; 0; 0; 0; 0; 1].

(** [unit_tet] with its first face numbered -1 already, as a pass of
    [tracer_prep] leaves it, and the three others exterior. *)
Definition renumbered_tet : tetmesh :=
  set_facenb unit_tet [-1; 0; 0; 0]%Z 0%Z.

(** A wide-field detector element and a tissue element, both with exterior
    faces only, and node volumes as [mesh_getvolume] leaves them. *)
Definition detector_mesh : tetmesh :=
  mkMesh 4 2 0 0 4
         [mkFLOAT3 0 0 0; mkFLOAT3 1 0 0; mkFLOAT3 0 1 0; mkFLOAT3 0 0 1]
         [[1; 2; 4; 3]%Z; [1; 2; 4; 3]%Z] [0; 0; 0; 0; 0; 0; 0; 0]%Z
         [-2; 1]%Z [] [1 / 6; 1 / 6] [1 / 24; 1 / 24; 1 / 24; 1 / 24] []
         None 0 [] 0 [].

(** Two media given in memory, the first with refractive index 1, and an
    ambient refractive index [nout] of 3/2. *)
Definition detector_cfg : mcconfig :=
  mkCfg 0 false 0 (3 / 2) 2
        [mkMedium 0 0 1 1; mkMedium (1 / 100) 1 (9 / 10) (137 / 100)]
        rtPlucker 1 (mkFLOAT3 (1 / 4) (1 / 4) (1 / 4)) [0; 0; 0; 0]
        stPencil 1 true false false 1 1 0 otEnergy 100 1 0 0.

(** The read [Reff[t]] in the innermost loop body of the node-volume
    correction, for a node [nid] and an element of region [t], stays within
    the entries of [Reff]; [true] also when the body does not read. *)
Definition reff_read_ok (reff : list R) (t nid : Z) (nvol : list R) : bool :=
  if Rlt_dec 0 (zth nvol nid 0) then
    if (0 <=? t)%Z then (Z.to_nat t <? length reff)%nat else true
  else true.

(* ------------------------------------------------------------------------- *)
(** * Properties *)

(** ** Arrays *)

Lemma upd_length {A : Type} (l : list A) (i : nat) (v : A) :
  length (upd l i v) = length l.
Proof.
  revert i; induction l as [|x t IH]; intros [|k]; simpl; auto.
Qed.

Lemma nth_upd_same {A : Type} (l : list A) (i : nat) (v d : A) :
  (i < length l)%nat -> nth i (upd l i v) d = v.
Proof.
  revert i; induction l as [|x t IH]; intros [|k] H; simpl in *;
    try lia; auto.
  apply IH; lia.
Qed.

Lemma nth_upd_other {A : Type} (l : list A) (i j : nat) (v d : A) :
  i <> j -> nth j (upd l i v) d = nth j l d.
Proof.
  revert i j; induction l as [|x t IH]; intros [|i] [|j] H; simpl;
    try reflexivity; try congruence.
  apply IH; congruence.
Qed.

Lemma nth_upd {A : Type} (l : list A) (i j : nat) (v d : A) :
  (i < length l)%nat ->
  nth j (upd l i v) d = if Nat.eqb i j then v else nth j l d.
Proof.
  intros H. destruct (Nat.eqb_spec i j) as [->|Hne].
  - now apply nth_upd_same.
  - now apply nth_upd_other.
Qed.

Lemma firstn_upd_ge {A : Type} (l : list A) (i k : nat) (v : A) :
  (k <= i)%nat -> firstn k (upd l i v) = firstn k l.
Proof.
  revert i k; induction l as [|x t IH]; intros [|i] [|k] H; simpl;
    try reflexivity; try lia.
  f_equal. apply IH. lia.
Qed.

Lemma firstn_snoc {A : Type} (l : list A) (k : nat) (d : A) :
  (k < length l)%nat -> firstn (S k) l = firstn k l ++ [nth k l d].
Proof.
  revert k; induction l as [|x t IH]; intros k H; simpl in *; [lia|].
  destruct k as [|k]; [reflexivity|].
  simpl. f_equal. apply IH. lia.
Qed.

(** ** Numbering the exterior faces *)

Lemma zeros_before_0 (facenb : list Z) : zeros_before facenb 0 = 0%Z.
Proof. reflexivity. Qed.

Lemma zeros_before_S (facenb : list Z) (k : nat) :
  (k < length facenb)%nat ->
  zeros_before facenb (S k) =
  (zeros_before facenb k + if (nth k facenb 0 =? 0) then 1 else 0)%Z.
Proof.
  intros H. unfold zeros_before.
  rewrite (firstn_snoc facenb k 0%Z H), count_occ_app. simpl.
  destruct (Z.eq_dec (nth k facenb 0%Z) 0) as [E|E].
  - rewrite E. simpl. lia.
  - destruct (Z.eqb_spec (nth k facenb 0%Z) 0); [contradiction|lia].
Qed.

Lemma zeros_before_nonneg (facenb : list Z) (k : nat) :
  (0 <= zeros_before facenb k)%Z.
Proof. unfold zeros_before. lia. Qed.

Lemma zeros_before_mono (facenb : list Z) (i j : nat) :
  (i <= j)%nat -> (j <= length facenb)%nat ->
  (zeros_before facenb i <= zeros_before facenb j)%Z.
Proof.
  induction 1 as [|j Hij IH]; intros Hj; [lia|].
  rewrite zeros_before_S by lia.
  specialize (IH ltac:(lia)).
  destruct (nth j facenb 0 =? 0)%Z; lia.
Qed.

(** Every count from 1 to the number of zeros is reached at one zero. *)
Lemma zeros_before_reach (facenb : list Z) (k : nat) (c : Z) :
  (k <= length facenb)%nat -> (1 <= c <= zeros_before facenb k)%Z ->
  exists i, (i < k)%nat /\ nth i facenb 0%Z = 0%Z /\
            zeros_before facenb i = (c - 1)%Z.
Proof.
  induction k as [|k IH]; intros Hk Hc.
  - rewrite zeros_before_0 in Hc. lia.
  - rewrite zeros_before_S in Hc by lia.
    destruct (Z_le_gt_dec c (zeros_before facenb k)) as [Hle|Hgt].
    + destruct (IH ltac:(lia) ltac:(lia)) as (i & Hi & Hz & Hcnt).
      exists i. repeat split; auto.
    + destruct (Z.eqb_spec (nth k facenb 0%Z) 0) as [E|E]; [|lia].
      exists k. repeat split; auto; lia.
Qed.

(** The loop invariant: after [k] iterations the first [k] entries are
    numbered, the others untouched, and the counter is the number of zeros
    seen. *)
Lemma number_faces_inv (facenb : list Z) (k : nat) :
  (k <= length facenb)%nat ->
  length (fst (number_faces k facenb)) = length facenb /\
  snd (number_faces k facenb) = zeros_before facenb k /\
  forall i, nth i (fst (number_faces k facenb)) 0%Z =
            if (i <? k)%nat then numbered facenb i else nth i facenb 0%Z.
Proof.
  unfold number_faces. induction k as [|k IH]; intros Hk.
  - simpl. repeat split; auto.
  - destruct (IH ltac:(lia)) as (Hlen & Hnf & Hnth). simpl.
    destruct (for_loop k number_step (facenb, 0%Z)) as [f nf] eqn:E.
    simpl in Hlen, Hnf, Hnth. unfold number_step.
    assert (Hk' : nth k f 0%Z = nth k facenb 0%Z).
    { rewrite Hnth. now rewrite Nat.ltb_irrefl. }
    rewrite Hk', zeros_before_S by lia.
    destruct (Z.eqb_spec (nth k facenb 0%Z) 0) as [Ez|Ez]; simpl.
    + rewrite upd_length. repeat split; [lia|lia|].
      intros i. rewrite nth_upd by lia.
      destruct (Nat.eqb_spec k i) as [<-|Hne].
      * replace (k <? S k)%nat with true by (symmetry; apply Nat.ltb_lt; lia).
        unfold numbered. rewrite Ez. simpl. lia.
      * rewrite Hnth.
        destruct (Nat.ltb_spec i k), (Nat.ltb_spec i (S k)); auto; lia.
    + repeat split; [lia|lia|].
      intros i. rewrite Hnth.
      destruct (Nat.ltb_spec i k), (Nat.ltb_spec i (S k)); auto; try lia.
      assert (i = k) by lia. subst i.
      unfold numbered.
      destruct (Z.eqb_spec (nth k facenb 0%Z) 0); [contradiction|reflexivity].
Qed.

(** C4, as stated, fails on an array that holds a negative entry before the
    pass.  All four faces of [renumbered_tet] are exposed (their entries are
    0 or negative); the pass numbers the three entries equal to 0 and counts
    three, and the id -1 is then on two faces. *)
Lemma tracer_prep_faces_negative_entry :
  let m' := tracer_prep_faces renumbered_tet in
  m_facenb renumbered_tet = [-1; 0; 0; 0]%Z /\
  m_facenb m' = [-1; -1; -2; -3]%Z /\ m_nf m' = 3%Z /\
  ~ (forall i j, (i < 4)%nat -> (j < 4)%nat ->
       (nth i (m_facenb m') 0 < 0)%Z ->
       nth i (m_facenb m') 0%Z = nth j (m_facenb m') 0%Z -> i = j) /\
  Z.of_nat (length (filter (fun v => (v <=? 0)%Z) (m_facenb renumbered_tet)))
  <> m_nf m'.
Proof.
  cbv zeta. split; [reflexivity|]. split; [reflexivity|].
  split; [reflexivity|]. split.
  - intros H. specialize (H 0%nat 1%nat ltac:(lia) ltac:(lia)).
    change (nth 0 (m_facenb (tracer_prep_faces renumbered_tet)) 0%Z)
      with (-1)%Z in H.
    change (nth 1 (m_facenb (tracer_prep_faces renumbered_tet)) 0%Z)
      with (-1)%Z in H.
    specialize (H ltac:(lia) eq_refl). discriminate.
  - change (m_nf (tracer_prep_faces renumbered_tet)) with 3%Z.
    simpl. lia.
Qed.

(** C4, amended.  After the boundary-sequencing pass of [tracer_prep] over a
    face-neighbour array of [ne * elemlen] entries: [nf] is the number of
    entries equal to 0; those entries, in array order, hold -1, -2, ...
    after the pass, so the ids the pass assigns are exactly -1 .. -nf and
    none of them is assigned twice; every other entry, a negative one
    included, is as it was and is not counted.  When no entry is negative
    before the pass, the negative ids in the array after it are exactly
    -1 .. -nf and no negative id occurs twice. *)
Theorem tracer_prep_faces_sequential (m : tetmesh) :
  length (m_facenb m) = (m_ne m * m_elemlen m)%nat ->
  let m' := tracer_prep_faces m in
  m_nf m' = Z.of_nat (count_occ Z.eq_dec (m_facenb m) 0%Z) /\
  length (m_facenb m') = length (m_facenb m) /\
  (forall i, (i < length (m_facenb m))%nat ->
     nth i (m_facenb m') 0%Z =
     if (nth i (m_facenb m) 0 =? 0)%Z
     then (- (zeros_before (m_facenb m) i + 1))%Z
     else nth i (m_facenb m) 0%Z) /\
  (forall v,
     (exists i, (i < length (m_facenb m))%nat /\
                nth i (m_facenb m) 0%Z = 0%Z /\ nth i (m_facenb m') 0%Z = v)
     <-> (- m_nf m' <= v <= -1)%Z) /\
  (forall i j, (i < length (m_facenb m))%nat ->
     (j < length (m_facenb m))%nat ->
     nth i (m_facenb m) 0%Z = 0%Z -> nth j (m_facenb m) 0%Z = 0%Z ->
     nth i (m_facenb m') 0%Z = nth j (m_facenb m') 0%Z -> i = j) /\
  (Forall (fun v => (0 <= v)%Z) (m_facenb m) ->
   (forall v, (v < 0)%Z ->
      (In v (m_facenb m') <-> (- m_nf m' <= v <= -1)%Z)) /\
   (forall i j, (i < length (m_facenb m))%nat ->
      (j < length (m_facenb m))%nat ->
      (nth i (m_facenb m') 0 < 0)%Z ->
      nth i (m_facenb m') 0%Z = nth j (m_facenb m') 0%Z -> i = j)).
Proof.
  intros Hlen m'. subst m'. unfold tracer_prep_faces.
  rewrite <- Hlen.
  destruct (number_faces_inv (m_facenb m) (length (m_facenb m)) (le_n _))
    as (Hl & Hnf & Hnth).
  destruct (number_faces (length (m_facenb m)) (m_facenb m)) as [f nf] eqn:E.
  simpl in Hl, Hnf, Hnth |- *.
  set (fnb := m_facenb m) in *.
  assert (Hnum : forall i, (i < length fnb)%nat ->
                           nth i f 0%Z = numbered fnb i).
  { intros i Hi. rewrite Hnth.
    now replace (i <? length fnb)%nat with true
      by (symmetry; apply Nat.ltb_lt; exact Hi). }
  assert (Hzero : forall i, (i < length fnb)%nat -> nth i fnb 0%Z = 0%Z ->
                  nth i f 0%Z = (- (zeros_before fnb i + 1))%Z).
  { intros i Hi Hz. rewrite (Hnum i Hi). unfold numbered. rewrite Hz.
    reflexivity. }
  assert (Hbound : forall i, (i < length fnb)%nat -> nth i fnb 0%Z = 0%Z ->
                   (zeros_before fnb i + 1 <= zeros_before fnb (length fnb))%Z).
  { intros i Hi Hz.
    pose proof (zeros_before_mono fnb (S i) (length fnb) ltac:(lia) (le_n _)).
    rewrite zeros_before_S in H by lia. rewrite Hz in H. simpl in H. lia. }
  assert (Hrange : forall v, (- nf <= v <= -1)%Z ->
            exists i, (i < length fnb)%nat /\ nth i fnb 0%Z = 0%Z /\
                      nth i f 0%Z = v).
  { intros v Hv.
    destruct (zeros_before_reach fnb (length fnb) (- v) (le_n _) ltac:(lia))
      as (i & Hi & Hz & Hcnt).
    exists i. split; [exact Hi|]. split; [exact Hz|].
    rewrite (Hzero i Hi Hz). lia. }
  assert (Hinj : forall i j, (i < length fnb)%nat -> (j < length fnb)%nat ->
            nth i fnb 0%Z = 0%Z -> nth j fnb 0%Z = 0%Z ->
            nth i f 0%Z = nth j f 0%Z -> i = j).
  { intros i j Hi Hj Hzi Hzj Heq.
    rewrite (Hzero i Hi Hzi), (Hzero j Hj Hzj) in Heq.
    assert (Hc : zeros_before fnb i = zeros_before fnb j) by lia.
    destruct (Nat.lt_trichotomy i j) as [Hij|[Hij|Hij]]; auto; exfalso.
    + pose proof (zeros_before_mono fnb (S i) j ltac:(lia) ltac:(lia)).
      rewrite zeros_before_S in H by lia. rewrite Hzi in H. simpl in H. lia.
    + pose proof (zeros_before_mono fnb (S j) i ltac:(lia) ltac:(lia)).
      rewrite zeros_before_S in H by lia. rewrite Hzj in H. simpl in H. lia. }
  split; [|split; [|split; [|split; [|split]]]].
  - rewrite Hnf. unfold zeros_before. now rewrite firstn_all.
  - exact Hl.
  - intros i Hi. rewrite (Hnum i Hi). reflexivity.
  - intros v. split.
    + intros (i & Hi & Hz & Hv). rewrite (Hzero i Hi Hz) in Hv.
      pose proof (Hbound i Hi Hz). pose proof (zeros_before_nonneg fnb i).
      lia.
    + apply Hrange.
  - exact Hinj.
  - intros Hpos.
    assert (Hin : forall i, (i < length fnb)%nat -> (0 <= nth i fnb 0)%Z).
    { intros i Hi. rewrite Forall_forall in Hpos. apply Hpos, nth_In, Hi. }
    assert (Hneg : forall i, (i < length fnb)%nat -> (nth i f 0 < 0)%Z ->
                   nth i fnb 0%Z = 0%Z).
    { intros i Hi Hlt. rewrite (Hnum i Hi) in Hlt. unfold numbered in Hlt.
      specialize (Hin i Hi).
      destruct (Z.eqb_spec (nth i fnb 0%Z) 0); [auto|lia]. }
    split.
    + intros v Hv. split.
      * intros Hv_in. apply (In_nth _ _ 0%Z) in Hv_in.
        destruct Hv_in as (i & Hi & Hvi). rewrite Hl in Hi.
        pose proof (Hneg i Hi ltac:(lia)) as Hz.
        rewrite (Hzero i Hi Hz) in Hvi.
        pose proof (Hbound i Hi Hz). pose proof (zeros_before_nonneg fnb i).
        lia.
      * intros Hr. destruct (Hrange v Hr) as (i & Hi & _ & Hvi).
        rewrite <- Hvi. apply nth_In. lia.
    + intros i j Hi Hj Hlt Heq.
      apply Hinj; auto. apply Hneg; [exact Hj|lia].
Qed.

(** ** Source and detector elements, and the media table *)

Lemma upd_app_length {A : Type} (l1 l2 : list A) (x v : A) :
  upd (l1 ++ x :: l2) (length l1) v = l1 ++ v :: l2.
Proof. induction l1 as [|y t IH]; simpl; [reflexivity|now rewrite IH]. Qed.

Lemma marked_S (type : list Z) (t : Z) (k : nat) :
  marked type t (S k) =
  marked type t k ++
  (if (nth k type 0 =? t)%Z then [(Z.of_nat k + 1)%Z] else []).
Proof.
  unfold marked. rewrite seq_S, filter_app, map_app. simpl.
  destruct (nth k type 0 =? t)%Z; reflexivity.
Qed.

Lemma marked_length_mono (type : list Z) (t : Z) (i j : nat) :
  (i <= j)%nat -> (length (marked type t i) <= length (marked type t j))%nat.
Proof.
  induction 1 as [|j Hij IH]; [lia|].
  rewrite marked_S, length_app. lia.
Qed.

Lemma marked_In (type : list Z) (t : Z) (k i : nat) :
  (i < k)%nat -> nth i type 0%Z = t -> In (Z.of_nat i + 1)%Z (marked type t k).
Proof.
  intros Hi Ht. unfold marked.
  apply (in_map (fun i => (Z.of_nat i + 1)%Z)), filter_In. split.
  - apply in_seq. lia.
  - rewrite Ht. apply Z.eqb_refl.
Qed.

(** The first loop counts the two kinds of marked elements, raises
    [isextdet] when it meets a detector element, and touches nothing else
    that [mesh_loadmedia] reads. *)
Lemma srcdet_count_inv (type : list Z) (cfg : mcconfig) (k : nat) :
  let '(ns, nd, cfg1) := for_loop k (srcdet_count type) (O, O, cfg) in
  ns = length (marked type (-1) k) /\
  nd = length (marked type (-2) k) /\
  c_isextdet cfg1 = (c_isextdet cfg || (0 <? nd)%nat)%bool /\
  c_nout cfg1 = c_nout cfg /\ c_medianum cfg1 = c_medianum cfg /\
  c_prop cfg1 = c_prop cfg /\ c_method cfg1 = c_method cfg /\
  c_unitinmm cfg1 = c_unitinmm cfg.
Proof.
  induction k as [|k IH]; simpl.
  - rewrite orb_false_r. repeat split; reflexivity.
  - destruct (for_loop k (srcdet_count type) (O, O, cfg)) as [[ns nd] c1].
    destruct IH as (Hns & Hnd & Hx & Hn & Hm & Hp & Hme & Hu).
    unfold srcdet_count. rewrite !marked_S, !length_app.
    destruct (nth k type 0 =? -1)%Z, (nth k type 0 =? -2)%Z; simpl;
      rewrite ?orb_true_r, ?Nat.add_0_r, ?Nat.add_1_r;
      repeat split; auto.
Qed.

(** The second loop: after [k] iterations the ids -1 among the first [k]
    elements are back to 0 and the marked indices fill the two lists in
    order. *)
Lemma srcdet_record_inv (type : list Z) (ns nd k : nat) :
  (k <= length type)%nat ->
  (length (marked type (-1) (length type)) <= ns)%nat ->
  (length (marked type (-2) (length type)) <= nd)%nat ->
  let '(type1, se, de, isrc, idet) :=
    for_loop k srcdet_record (type, repeat 0%Z ns, repeat 0%Z nd, O, O) in
  length type1 = length type /\
  (forall i, nth i type1 0%Z =
             if ((i <? k)%nat && (nth i type 0 =? -1)%Z)%bool
             then 0%Z else nth i type 0%Z) /\
  isrc = length (marked type (-1) k) /\
  se = marked type (-1) k ++ repeat 0%Z (ns - isrc) /\
  idet = length (marked type (-2) k) /\
  de = marked type (-2) k ++ repeat 0%Z (nd - idet).
Proof.
  intros Hk Hns Hnd. induction k as [|k IH]; simpl.
  - rewrite !Nat.sub_0_r. repeat split; auto.
  - specialize (IH ltac:(lia)).
    destruct (for_loop k srcdet_record _) as [[[[type1 se] de] isrc] idet].
    destruct IH as (Hlen & Hty & His & Hse & Hid & Hde).
    unfold srcdet_record.
    assert (Hcur : nth k type1 0%Z = nth k type 0%Z).
    { rewrite Hty. now rewrite Nat.ltb_irrefl. }
    rewrite Hcur.
    pose proof (marked_length_mono type (-1) (S k) (length type) Hk) as M1.
    pose proof (marked_length_mono type (-2) (S k) (length type) Hk) as M2.
    rewrite !marked_S in *. rewrite length_app in M1, M2.
    assert (Hstep' : forall i,
      (if Nat.eqb k i
       then (if (nth k type 0 =? -1)%Z then 0%Z else nth k type 0%Z)
       else nth i type1 0%Z) =
      if ((i <? S k)%nat && (nth i type 0 =? -1)%Z)%bool
      then 0%Z else nth i type 0%Z).
    { intros i. destruct (Nat.eqb_spec k i) as [<-|Hne].
      - replace (k <? S k)%nat with true
          by (symmetry; apply Nat.ltb_lt; lia). reflexivity.
      - rewrite Hty.
        destruct (Nat.ltb_spec i k), (Nat.ltb_spec i (S k)); auto; lia. }
    destruct (Z.eqb_spec (nth k type 0%Z) (-1)) as [E1|E1].
    + assert (Hlt : (nth k type 0 <? 0)%Z = true) by (rewrite E1; reflexivity).
      assert (Hn2 : (nth k type 0 =? -2)%Z = false)
        by (rewrite E1; reflexivity).
      rewrite Hlt, Hn2 in *. cbn [length] in M1.
      rewrite app_nil_r, length_app. cbn [length].
      split; [now rewrite upd_length|].
      split; [|split; [lia|split; [|split; [lia|]]]].
      * intros i. rewrite nth_upd by lia. rewrite <- Hstep'.
        destruct (Nat.eqb k i); reflexivity.
      * subst se isrc.
        assert (Hr : (ns - length (marked type (-1) k) =
                      S (ns - (length (marked type (-1) k) + 1)))%nat) by lia.
        rewrite Hr. cbn [repeat].
        rewrite upd_app_length, <- app_assoc. simpl.
        do 3 f_equal. lia.
      * exact Hde.
    + destruct (Z.eqb_spec (nth k type 0%Z) (-2)) as [E2|E2].
      * assert (Hlt : (nth k type 0 <? 0)%Z = true)
          by (rewrite E2; reflexivity).
        rewrite Hlt. cbn [length] in M2.
        rewrite app_nil_r, length_app. cbn [length].
        split; [exact Hlen|].
        split; [|split; [lia|split; [exact Hse|split; [lia|]]]].
        -- intros i. rewrite <- Hstep'.
           destruct (Nat.eqb_spec k i) as [<-|Hne]; auto.
        -- subst de idet.
           assert (Hr : (nd - length (marked type (-2) k) =
                         S (nd - (length (marked type (-2) k) + 1)))%nat)
             by lia.
           rewrite Hr. cbn [repeat].
           rewrite upd_app_length, <- app_assoc. simpl.
           do 3 f_equal. lia.
      * rewrite !app_nil_r.
        assert (Hgoal :
          length type1 = length type /\
          (forall i, nth i type1 0%Z =
             if ((i <? S k)%nat && (nth i type 0 =? -1)%Z)%bool
             then 0%Z else nth i type 0%Z) /\
          isrc = length (marked type (-1) k) /\
          se = marked type (-1) k ++ repeat 0%Z (ns - isrc) /\
          idet = length (marked type (-2) k) /\
          de = marked type (-2) k ++ repeat 0%Z (nd - idet)).
        { repeat split; auto. intros i. rewrite <- Hstep'.
          destruct (Nat.eqb_spec k i) as [<-|Hne]; auto. }
        destruct (nth k type 0 <? 0)%Z; exact Hgoal.
Qed.

Lemma remap_extdet_inv (prop : Z) (type : list Z) (k : nat) :
  (k <= length type)%nat ->
  length (for_loop k (remap_extdet prop) type) = length type /\
  forall i, nth i (for_loop k (remap_extdet prop) type) 0%Z =
            if ((i <? k)%nat && (nth i type 0 =? -2)%Z)%bool
            then (prop + 1)%Z else nth i type 0%Z.
Proof.
  induction k as [|k IH]; intros Hk; simpl; [auto|].
  destruct (IH ltac:(lia)) as [Hlen Hnth]. unfold remap_extdet at 1 3.
  assert (Hcur : nth k (for_loop k (remap_extdet prop) type) 0%Z =
                 nth k type 0%Z).
  { rewrite Hnth. now rewrite Nat.ltb_irrefl. }
  rewrite Hcur.
  destruct (Z.eqb_spec (nth k type 0%Z) (-2)) as [E|E].
  - rewrite upd_length. split; [exact Hlen|].
    intros i. rewrite nth_upd by lia.
    destruct (Nat.eqb_spec k i) as [<-|Hne].
    + replace (k <? S k)%nat with true by (symmetry; apply Nat.ltb_lt; lia).
      rewrite E. reflexivity.
    + rewrite Hnth.
      destruct (Nat.ltb_spec i k), (Nat.ltb_spec i (S k)); auto; lia.
  - split; [exact Hlen|].
    intros i. rewrite Hnth.
    destruct (Nat.ltb_spec i k), (Nat.ltb_spec i (S k)); auto; try lia.
    assert (i = k) by lia. subst i. simpl.
    destruct (Z.eqb_spec (nth k type 0%Z) (-2)); [contradiction|reflexivity].
Qed.

Lemma load_rows_keep (rows : list medium) (cnt i : nat)
                     (med med' : list medium) :
  load_rows rows cnt i med = Ok med' ->
  length med' = length med /\
  forall j d, (j < i \/ i + cnt <= j)%nat -> nth j med' d = nth j med d.
Proof.
  revert rows i med. induction cnt as [|c IH]; intros rows i med H; simpl in H.
  - inversion H; subst. auto.
  - destruct rows as [|r rs]; [discriminate|].
    apply IH in H. destruct H as [Hlen Hnth]. rewrite upd_length in Hlen.
    split; [exact Hlen|]. intros j d Hj.
    rewrite Hnth by lia. apply nth_upd_other. lia.
Qed.

Lemma copy_medium_keep (src : list medium) (n : nat) (med : list medium) :
  length (for_loop n (copy_medium src) med) = length med /\
  forall j d, (n <= j)%nat ->
              nth j (for_loop n (copy_medium src) med) d = nth j med d.
Proof.
  induction n as [|n [Hlen Hnth]]; simpl; [auto|].
  unfold copy_medium at 1 3. rewrite upd_length. split; [exact Hlen|].
  intros j d Hj. rewrite nth_upd_other by lia. apply Hnth. lia.
Qed.

Lemma scale_medium_keep (u : R) (n : nat) (med : list medium) :
  length (for_loop n (scale_medium u) med) = length med /\
  forall j d, (j = 0 \/ n < j)%nat ->
              nth j (for_loop n (scale_medium u) med) d = nth j med d.
Proof.
  induction n as [|n [Hlen Hnth]]; simpl; [auto|].
  unfold scale_medium at 1 3. rewrite upd_length. split; [exact Hlen|].
  intros j d Hj. rewrite nth_upd_other by lia. apply Hnth. lia.
Qed.

(** What [mesh_srcdetelem] leaves behind. *)
Lemma mesh_srcdetelem_spec (m : tetmesh) (cfg : mcconfig) :
  length (m_type m) = m_ne m ->
  let m1 := fst (mesh_srcdetelem m cfg) in
  let c1 := snd (mesh_srcdetelem m cfg) in
  m_ne m1 = m_ne m /\ length (m_type m1) = m_ne m /\
  (forall i, nth i (m_type m1) 0%Z =
             if (nth i (m_type m) 0 =? -1)%Z then 0%Z
             else nth i (m_type m) 0%Z) /\
  m_srcelemlen m1 = length (marked (m_type m) (-1) (m_ne m)) /\
  firstn (m_srcelemlen m1) (m_srcelem m1) = marked (m_type m) (-1) (m_ne m) /\
  m_detelemlen m1 = length (marked (m_type m) (-2) (m_ne m)) /\
  firstn (m_detelemlen m1) (m_detelem m1) = marked (m_type m) (-2) (m_ne m) /\
  c_isextdet c1 =
    (c_isextdet cfg || (0 <? length (marked (m_type m) (-2) (m_ne m)))%nat)%bool /\
  c_nout c1 = c_nout cfg /\ c_medianum c1 = c_medianum cfg /\
  c_prop c1 = c_prop cfg /\ c_method c1 = c_method cfg /\
  c_unitinmm c1 = c_unitinmm cfg.
Proof.
  intros Hlen m1 c1. subst m1 c1. unfold mesh_srcdetelem.
  pose proof (srcdet_count_inv (m_type m) cfg (m_ne m)) as Hc.
  destruct (for_loop (m_ne m) (srcdet_count (m_type m)) (O, O, cfg))
    as [[ns nd] cfg1].
  destruct Hc as (Hns & Hnd & Hx & Hrest).
  destruct ((0 <? ns)%nat || (0 <? nd)%nat)%bool eqn:Hany.
  - pose proof (srcdet_record_inv (m_type m) ns nd (m_ne m)) as Hr.
    rewrite Hlen in Hr.
    specialize (Hr (le_n _) ltac:(lia) ltac:(lia)).
    destruct (for_loop (m_ne m) srcdet_record _)
      as [[[[type1 se] de] isrc] idet].
    destruct Hr as (Hl1 & Hty & His & Hse & Hid & Hde). simpl.
    split; [reflexivity|]. split; [lia|]. split.
    { intros i. rewrite Hty.
      destruct (Nat.ltb_spec i (m_ne m)); [reflexivity|].
      rewrite nth_overflow by lia. reflexivity. }
    split; [exact Hns|]. split.
    { rewrite Hse, His, <- Hns, Nat.sub_diag, app_nil_r, Hns.
      apply firstn_all. }
    split; [exact Hnd|]. split.
    { rewrite Hde, Hid, <- Hnd, Nat.sub_diag, app_nil_r, Hnd.
      apply firstn_all. }
    rewrite <- Hnd. auto.
  - apply orb_false_iff in Hany. destruct Hany as [H1 H2].
    apply Nat.ltb_ge in H1, H2.
    assert (Hns0 : marked (m_type m) (-1) (m_ne m) = [])
      by (apply length_zero_iff_nil; lia).
    assert (Hnd0 : marked (m_type m) (-2) (m_ne m) = [])
      by (apply length_zero_iff_nil; lia).
    rewrite Hns0, Hnd0 in *. simpl in Hns, Hnd. subst ns nd. simpl.
    split; [reflexivity|]. split; [exact Hlen|]. split.
    { intros i. destruct (Z.eqb_spec (nth i (m_type m) 0%Z) (-1)) as [E|E];
        [|reflexivity].
      destruct (Nat.lt_ge_cases i (m_ne m)) as [Hi|Hi].
      - pose proof (marked_In (m_type m) (-1) (m_ne m) i Hi E) as Hin.
        rewrite Hns0 in Hin. destruct Hin.
      - rewrite nth_overflow in E by lia. discriminate. }
    repeat split; auto; tauto.
Qed.

(** What [mesh_loadmedia] leaves behind when it returns. *)
Lemma mesh_loadmedia_spec (file : option propfile) (m m2 : tetmesh)
                          (cfg c2 : mcconfig) :
  mesh_loadmedia file m cfg = Ok (m2, c2) ->
  (0 <= m_prop m2)%Z /\
  m_srcelemlen m2 = m_srcelemlen m /\ m_srcelem m2 = m_srcelem m /\
  m_type m2 = (if c_isextdet cfg
               then for_loop (m_ne m) (remap_extdet (m_prop m2)) (m_type m)
               else m_type m) /\
  (c_isextdet cfg = true ->
   (Z.to_nat (m_prop m2 + 1) < length (m_med m2))%nat /\
   zth (m_med m2) (m_prop m2 + 1) zero_medium = mkMedium 0 0 1 (c_nout cfg)) /\
  (c_medianum cfg = O ->
   nth 0 (m_med m2) zero_medium = mkMedium 0 0 1 (c_nout cfg)).
Proof.
  unfold mesh_loadmedia. cbv zeta.
  match goal with
  | |- match ?h with Ok _ => _ | Fatal _ => _ end = _ -> _ =>
      destruct h as [prop|msg] eqn:Hh
  end; [|discriminate].
  assert (Hprop : (0 <= prop)%Z).
  { destruct (c_medianum cfg =? 0)%nat eqn:Hm.
    - destruct file as [f|]; [|discriminate].
      destruct (pf_prop f) as [p|]; [|discriminate].
      destruct (Z.leb_spec p 0); [discriminate|].
      inversion Hh; subst. lia.
    - apply Nat.eqb_neq in Hm. inversion Hh; subst. lia. }
  set (med0 := repeat zero_medium
                 (Z.to_nat (prop + 1 + (if c_isextdet cfg then 1 else 0)))).
  set (med1 := upd med0 0 (mkMedium 0 0 1 (c_nout cfg))).
  assert (Hl1 : length med1 =
                Z.to_nat (prop + 1 + (if c_isextdet cfg then 1 else 0))).
  { unfold med1, med0. now rewrite upd_length, repeat_length. }
  assert (H10 : nth 0 med1 zero_medium = mkMedium 0 0 1 (c_nout cfg)).
  { unfold med1. apply nth_upd_same. unfold med0. rewrite repeat_length.
    destruct (c_isextdet cfg); lia. }
  destruct (c_isextdet cfg) eqn:Hx.
  - (* the external detector region is appended *)
    set (med2 := zupd med1 (prop + 1) (nth 0 med1 zero_medium)).
    assert (Hl2 : length med2 = Z.to_nat (prop + 2)).
    { unfold med2, zupd. destruct (Z.ltb_spec (prop + 1) 0); [lia|].
      rewrite upd_length, Hl1. f_equal. lia. }
    assert (H2p : forall d, nth (Z.to_nat (prop + 1)) med2 d =
                            mkMedium 0 0 1 (c_nout cfg)).
    { intros d. unfold med2, zupd.
      destruct (Z.ltb_spec (prop + 1) 0); [lia|].
      rewrite nth_upd_same by lia. exact H10. }
    assert (H20 : nth 0 med2 zero_medium = mkMedium 0 0 1 (c_nout cfg)).
    { unfold med2, zupd. destruct (Z.ltb_spec (prop + 1) 0); [lia|].
      rewrite nth_upd_other by lia. exact H10. }
    match goal with
    | |- match ?l with Ok _ => _ | Fatal _ => _ end = _ -> _ =>
        destruct l as [med3|msg] eqn:Hl
    end; [|discriminate].
    match goal with
    | |- context [set_med _ _ ?x] => set (med4 := x)
    end.
    intros H. inversion H; subst m2 c2; clear H. simpl.
    assert (H3 : length med3 = length med2 /\
                 (forall d, nth (Z.to_nat (prop + 1)) med3 d =
                            nth (Z.to_nat (prop + 1)) med2 d) /\
                 (c_medianum cfg = O ->
                  nth 0 med3 zero_medium = nth 0 med2 zero_medium)).
    { destruct (c_medianum cfg =? 0)%nat eqn:Hm.
      - destruct file as [f|]; [|discriminate].
        apply load_rows_keep in Hl. destruct Hl as [Hlen Hk].
        split; [exact Hlen|]. split; intros; apply Hk; lia.
      - apply Nat.eqb_neq in Hm. inversion Hl; subst med3.
        destruct (copy_medium_keep (c_prop cfg) (c_medianum cfg) med2)
          as [Hlen Hk].
        split; [exact Hlen|]. split; [|intros; contradiction].
        intros d. apply Hk. inversion Hh; subst. lia. }
    destruct H3 as (Hl3 & H3p & H30).
    assert (H4 : forall med4,
      med4 = med3 \/
      med4 = for_loop (Z.to_nat prop) (scale_medium (c_unitinmm cfg)) med3 ->
      length med4 = length med3 /\
      (forall d, nth (Z.to_nat (prop + 1)) med4 d =
                 nth (Z.to_nat (prop + 1)) med3 d) /\
      nth 0 med4 zero_medium = nth 0 med3 zero_medium).
    { intros med5 [->| ->]; [auto|].
      destruct (scale_medium_keep (c_unitinmm cfg) (Z.to_nat prop) med3)
        as [Hlen Hk].
      split; [exact Hlen|]. split; intros; apply Hk; lia. }
    destruct (H4 med4) as (Hl4 & H4p & H40).
    { unfold med4. destruct (_ && _)%bool; auto. }
    simpl in *. rewrite Hl4, Hl3, Hl2.
    split; [exact Hprop|]. split; [reflexivity|]. split; [reflexivity|].
    split; [reflexivity|]. split.
    + intros _. split; [lia|].
      unfold zth. destruct (Z.ltb_spec (prop + 1) 0); [lia|].
      rewrite H4p, H3p. apply H2p.
    + intros Hm. rewrite H40, (H30 Hm). exact H20.
  - (* no external detector *)
    match goal with
    | |- match ?l with Ok _ => _ | Fatal _ => _ end = _ -> _ =>
        destruct l as [med3|msg] eqn:Hl
    end; [|discriminate].
    intros H. inversion H; subst m2 c2; clear H. simpl.
    split; [exact Hprop|]. split; [reflexivity|]. split; [reflexivity|].
    split; [reflexivity|]. split; [discriminate|].
    intros Hm. rewrite Hm in Hl, Hh. simpl in Hl, Hh.
    destruct file as [f|]; [|discriminate].
    apply load_rows_keep in Hl. destruct Hl as [Hlen Hk].
    assert (H30 : nth 0 med3 zero_medium = mkMedium 0 0 1 (c_nout cfg)).
    { rewrite Hk by lia. exact H10. }
    destruct (_ && _)%bool; [|exact H30].
    destruct (scale_medium_keep (c_unitinmm cfg) (Z.to_nat prop) med3)
      as [_ Hk'].
    rewrite Hk' by lia. exact H30.
Qed.

(** With the media given in memory ([medianum] not 0) no file is read and
    [mesh_loadmedia] returns. *)
Lemma mesh_loadmedia_in_memory (file : option propfile) (m : tetmesh)
                               (cfg : mcconfig) :
  c_medianum cfg <> O ->
  exists m2 c2, mesh_loadmedia file m cfg = Ok (m2, c2).
Proof.
  intros Hm. unfold mesh_loadmedia. apply Nat.eqb_neq in Hm. rewrite Hm.
  cbv zeta. destruct (c_isextdet cfg); eexists; eexists; reflexivity.
Qed.

(** After [mesh_srcdetelem] and then [mesh_loadmedia] have run: no element
    has region id -1; the elements that had it are back to 0 and their
    1-based indices fill [srcelem] in order; every element that had -2 has id
    [prop + 1], an entry of the media table with [mua = 0], [mus = 0] and
    [n = cfg->nout].  That entry is medium 0 itself when the media are read
    from the file; with the media given in memory medium 0 is overwritten
    afterwards by entry 0 of [cfg->prop]. *)
Theorem srcdetelem_loadmedia_region_ids
    (file : option propfile) (m m2 : tetmesh) (cfg c2 : mcconfig) :
  length (m_type m) = m_ne m ->
  mesh_loadmedia file (fst (mesh_srcdetelem m cfg))
                 (snd (mesh_srcdetelem m cfg)) = Ok (m2, c2) ->
  (forall i, (i < m_ne m)%nat -> nth i (m_type m2) 0%Z <> (-1)%Z) /\
  m_srcelemlen m2 = length (marked (m_type m) (-1) (m_ne m)) /\
  firstn (m_srcelemlen m2) (m_srcelem m2) = marked (m_type m) (-1) (m_ne m) /\
  (forall i, (i < m_ne m)%nat -> nth i (m_type m) 0%Z = (-1)%Z ->
     nth i (m_type m2) 0%Z = 0%Z /\
     In (Z.of_nat i + 1)%Z (firstn (m_srcelemlen m2) (m_srcelem m2))) /\
  (forall i, (i < m_ne m)%nat -> nth i (m_type m) 0%Z = (-2)%Z ->
     nth i (m_type m2) 0%Z = (m_prop m2 + 1)%Z /\
     (Z.to_nat (m_prop m2 + 1) < length (m_med m2))%nat /\
     med_mua (zth (m_med m2) (m_prop m2 + 1) zero_medium) = 0 /\
     med_mus (zth (m_med m2) (m_prop m2 + 1) zero_medium) = 0 /\
     med_n (zth (m_med m2) (m_prop m2 + 1) zero_medium) = c_nout cfg /\
     (c_medianum cfg = O ->
      zth (m_med m2) (m_prop m2 + 1) zero_medium =
      nth 0 (m_med m2) zero_medium)).
Proof.
  intros Hlen Hload.
  destruct (mesh_srcdetelem_spec m cfg Hlen)
    as (Hne & Hl1 & Hty & Hsl & Hse & _ & _ & Hx & Hnout & Hmn & _).
  destruct (mesh_loadmedia_spec _ _ _ _ _ Hload)
    as (Hprop & Hsl2 & Hse2 & Hty2 & Hext & Hmed0).
  rewrite Hne in Hty2.
  set (m1 := fst (mesh_srcdetelem m cfg)) in *.
  set (c1 := snd (mesh_srcdetelem m cfg)) in *.
  assert (Htype : forall i, nth i (m_type m2) 0%Z =
            if (c_isextdet c1 && (nth i (m_type m1) 0 =? -2)%Z)%bool
            then (m_prop m2 + 1)%Z else nth i (m_type m1) 0%Z).
  { intros i. rewrite Hty2. destruct (c_isextdet c1); [|reflexivity].
    destruct (remap_extdet_inv (m_prop m2) (m_type m1) (m_ne m)
                ltac:(lia)) as [_ Hr].
    rewrite Hr. simpl.
    destruct (Nat.ltb_spec i (m_ne m)); [reflexivity|].
    rewrite nth_overflow by lia. reflexivity. }
  rewrite Hsl2, Hse2, Hse, Hsl.
  split; [|split; [reflexivity|split; [reflexivity|split]]].
  - intros i Hi. rewrite Htype, Hty.
    destruct (Z.eqb_spec (nth i (m_type m) 0%Z) (-1)) as [E|E].
    + rewrite andb_false_r. discriminate.
    + destruct (_ && _)%bool; [lia|exact E].
  - intros i Hi E. split; [|now apply marked_In].
    rewrite Htype, Hty, E. simpl. rewrite andb_false_r. reflexivity.
  - intros i Hi E.
    assert (Hxt : c_isextdet c1 = true).
    { rewrite Hx. apply orb_true_iff. right. apply Nat.ltb_lt.
      pose proof (marked_In (m_type m) (-2) (m_ne m) i Hi E) as Hin.
      destruct (marked (m_type m) (-2) (m_ne m)); [destruct Hin|simpl; lia]. }
    destruct (Hext Hxt) as [Hin Hmed].
    rewrite Htype, Hty, E, Hxt, Hmed. simpl.
    rewrite <- Hnout. repeat split; auto.
    intros Hm. rewrite Hmed0 by (rewrite Hmn; exact Hm). reflexivity.
Qed.

Lemma srcdetelem_loadmedia_region_ids_witness :
  exists m2 c2,
    length (m_type marked_mesh) = m_ne marked_mesh /\
    mesh_loadmedia None (fst (mesh_srcdetelem marked_mesh pencil_cfg))
                   (snd (mesh_srcdetelem marked_mesh pencil_cfg))
    = Ok (m2, c2) /\
    nth 0 (m_type m2) 0%Z = 0%Z /\ nth 1 (m_type m2) 0%Z = (m_prop m2 + 1)%Z.
Proof.
  destruct (mesh_loadmedia_in_memory None
              (fst (mesh_srcdetelem marked_mesh pencil_cfg))
              (snd (mesh_srcdetelem marked_mesh pencil_cfg)))
    as (m2 & c2 & H).
  { destruct (mesh_srcdetelem_spec marked_mesh pencil_cfg eq_refl)
      as (_ & _ & _ & _ & _ & _ & _ & _ & _ & Hmn & _).
    rewrite Hmn. discriminate. }
  exists m2, c2.
  destruct (srcdetelem_loadmedia_region_ids None marked_mesh m2 pencil_cfg c2
              eq_refl H) as (_ & _ & _ & H1 & H2).
  split; [reflexivity|]. split; [exact H|]. split.
  - apply (H1 0%nat); [simpl; lia|reflexivity].
  - apply (H2 1%nat); [simpl; lia|reflexivity].
Defined.

Lemma tracer_prep_faces_sequential_witness :
  length (m_facenb unit_tet) = (m_ne unit_tet * m_elemlen unit_tet)%nat /\
  m_nf (tracer_prep_faces unit_tet) = 4%Z /\
  m_facenb (tracer_prep_faces unit_tet) = [-1; -2; -3; -4]%Z.
Proof.
  split; [reflexivity|]. split.
  - exact (proj1 (tracer_prep_faces_sequential unit_tet eq_refl)).
  - reflexivity.
Defined.

(** ** Normalisation to energy *)

Section NormalizeProps.

Variable DELTA_MUA : R.
Variable SEED_FROM_FILE : Z.

Lemma scaled_entry_S (srcnum pair c k : nat) :
  (pair < srcnum)%nat ->
  scaled_entry srcnum pair (S c) k =
  if (c * srcnum + pair =? k)%nat then true else scaled_entry srcnum pair c k.
Proof.
  intros Hp. unfold scaled_entry.
  assert (Hs : srcnum <> O) by lia.
  pose proof (Nat.div_mod_eq k srcnum) as Hdm.
  pose proof (Nat.mod_upper_bound k srcnum Hs) as Hub.
  destruct (Nat.eqb_spec (c * srcnum + pair) k) as [E|E].
  - assert (Hd : (k / srcnum = c)%nat) by nia.
    assert (Hm : (k mod srcnum = pair)%nat) by nia.
    rewrite Hd, Hm, Nat.eqb_refl, andb_true_r. apply Nat.ltb_lt. lia.
  - destruct (Nat.eqb_spec (k mod srcnum) pair) as [Hm|Hm];
      [|now rewrite !andb_false_r].
    rewrite !andb_true_r.
    assert (Hd : (k / srcnum <> c)%nat) by nia.
    destruct (Nat.ltb_spec (k / srcnum) (S c)),
             (Nat.ltb_spec (k / srcnum) c); auto; lia.
Qed.

(** After the cells before [(i, j)] the entries of the pattern in those cells
    are scaled and every other entry is as it was. *)
Lemma scale_weights_inv (maxgate len srcnum pair : nat) (f : R) (w : list R) :
  (pair < srcnum)%nat ->
  (maxgate * len * srcnum <= length w)%nat ->
  forall i, (i <= maxgate)%nat ->
  length (scale_weights i len srcnum pair f w) = length w /\
  forall k, nth k (scale_weights i len srcnum pair f w) 0 =
            if scaled_entry srcnum pair (i * len) k
            then nth k w 0 * f else nth k w 0.
Proof.
  intros Hp Hlen. unfold scale_weights.
  induction i as [|i IH]; intros Hi.
  - split; [reflexivity|]. intros k. unfold scaled_entry.
    rewrite Nat.mul_0_l. replace (k / srcnum <? 0)%nat with false; auto.
  - destruct (IH ltac:(lia)) as [Hl Hn]. clear IH. simpl for_loop.
    set (w1 := for_loop i _ w) in *.
    assert (Hin : forall j, (j <= len)%nat ->
      length (for_loop j
        (fun j0 w2 =>
           upd w2 ((i * len + j0) * srcnum + pair)
               (nth ((i * len + j0) * srcnum + pair) w2 0 * f)) w1)
      = length w /\
      forall k, nth k (for_loop j
        (fun j0 w2 =>
           upd w2 ((i * len + j0) * srcnum + pair)
               (nth ((i * len + j0) * srcnum + pair) w2 0 * f)) w1) 0 =
        if scaled_entry srcnum pair (i * len + j) k
        then nth k w 0 * f else nth k w 0).
    { induction j as [|j IHj]; intros Hj.
      - simpl. rewrite Nat.add_0_r. auto.
      - destruct (IHj ltac:(lia)) as [Hlj Hnj]. clear IHj. simpl for_loop.
        set (w2 := for_loop j _ w1) in *.
        set (k0 := ((i * len + j) * srcnum + pair)%nat).
        assert (Hk0 : (k0 < length w)%nat).
        { assert (Hc : (i * len + j + 1 <= maxgate * len)%nat) by nia.
          apply (Nat.mul_le_mono_r _ _ srcnum) in Hc. unfold k0. lia. }
        rewrite upd_length. split; [exact Hlj|].
        intros k. rewrite nth_upd by lia.
        replace (i * len + S j)%nat with (S (i * len + j)) by lia.
        rewrite scaled_entry_S by exact Hp. fold k0.
        destruct (Nat.eqb_spec k0 k) as [<-|Hne]; [|apply Hnj].
        rewrite Hnj. unfold scaled_entry.
        assert (Hd : (k0 / srcnum = i * len + j)%nat).
        { unfold k0. rewrite Nat.div_add_l by lia.
          rewrite Nat.div_small by lia. lia. }
        rewrite Hd, Nat.ltb_irrefl. reflexivity. }
    destruct (Hin len (le_n _)) as [Hl' Hn'].
    split; [exact Hl'|]. intros k. rewrite Hn'.
    replace (S i * len)%nat with (i * len + len)%nat by lia. reflexivity.
Qed.

(** C6.  With the output type set to energy (so that the seed-replay branch
    for Jacobian, WL and WP output is not taken), [mesh_normalize] returns
    [1 / Etotal], and in the weight array, whose entry
    [(i * datalen + j) * srcnum + pair] belongs to source pattern [pair],
    every entry of the selected pattern is multiplied by [1 / Etotal] once
    and the entries of the other patterns are unchanged. *)
Theorem mesh_normalize_energy (m : tetmesh) (cfg : mcconfig)
                              (Eabsorb Etotal : R) (pair : nat) :
  c_outputtype cfg = otEnergy ->
  (pair < c_srcnum cfg)%nat ->
  length (m_weight m) = (c_maxgate cfg * datalen m cfg * c_srcnum cfg)%nat ->
  let r := mesh_normalize DELTA_MUA SEED_FROM_FILE m cfg Eabsorb Etotal pair in
  snd r = 1 / Etotal /\
  length (m_weight (fst r)) = length (m_weight m) /\
  forall k, (k < length (m_weight m))%nat ->
    nth k (m_weight (fst r)) 0 =
    if (k mod c_srcnum cfg =? pair)%nat
    then nth k (m_weight m) 0 * (1 / Etotal)
    else nth k (m_weight m) 0.
Proof.
  intros Hout Hp Hlen r. subst r. unfold mesh_normalize.
  rewrite Hout. cbn [is_replay_output TOutputType_eqb]. rewrite andb_false_r.
  cbv zeta.
  set (m1 := match c_issaveref cfg, m_dref m with
             | true, Some d => _
             | _, _ => m
             end).
  assert (Hw : m_weight m1 = m_weight m).
  { unfold m1. destruct (c_issaveref cfg), (m_dref m); reflexivity. }
  cbn [fst snd]. rewrite Hw.
  destruct (scale_weights_inv (c_maxgate cfg) (datalen m cfg) (c_srcnum cfg)
              pair (1 / Etotal) (m_weight m) Hp ltac:(lia)
              (c_maxgate cfg) (le_n _)) as [Hl Hn].
  split; [reflexivity|]. split; [exact Hl|].
  intros k Hk. cbn [m_weight set_weight]. rewrite Hn. unfold scaled_entry.
  replace (k / c_srcnum cfg <? c_maxgate cfg * datalen m cfg)%nat with true;
    [reflexivity|].
  symmetry. apply Nat.ltb_lt. apply Nat.Div0.div_lt_upper_bound. lia.
Qed.

End NormalizeProps.

Lemma mesh_normalize_energy_witness :
  c_outputtype pencil_cfg = otEnergy /\
  (0 < c_srcnum pencil_cfg)%nat /\
  length (m_weight unit_tet) =
    (c_maxgate pencil_cfg * datalen unit_tet pencil_cfg
     * c_srcnum pencil_cfg)%nat /\
  snd (mesh_normalize (1 / 10) (-999) unit_tet pencil_cfg 1 100 0)
  = 1 / 100.
Proof.
  assert (Hp : (0 < c_srcnum pencil_cfg)%nat) by (simpl; lia).
  split; [reflexivity|]. split; [exact Hp|]. split; [reflexivity|].
  exact (proj1 (mesh_normalize_energy (1 / 10) (-999) unit_tet pencil_cfg
                  1 100 0 eq_refl Hp eq_refl)).
Defined.

(** ** Element and node volumes *)

Lemma Forall_upd {A : Type} (P : A -> Prop) (l : list A) (i : nat) (v : A) :
  Forall P l -> P v -> Forall P (upd l i v).
Proof.
  intros H Hv. revert i. induction H as [|x t Hx Ht IH]; intros [|i]; simpl;
    constructor; auto.
Qed.

Lemma Forall_nth_default {A : Type} (P : A -> Prop) (l : list A) (i : nat)
                         (d : A) :
  Forall P l -> (i < length l)%nat -> P (nth i l d).
Proof.
  intros H Hi. rewrite Forall_forall in H. apply H, nth_In, Hi.
Qed.

Lemma getvolume_step_eq (m : tetmesh) (i : nat) (elem : list (list Z))
                        (evol nvol : list R) :
  getvolume_step m i (elem, evol, nvol) =
  (upd elem i (elem_fixed m (nth i elem [])),
   upd evol i (elem_volume m (nth i elem [])),
   if (nth i (m_type m) 0 =? 0)%Z then nvol
   else add_shares (elem_fixed m (nth i elem []))
                   (elem_volume m (nth i elem [])) (m_elemlen m) nvol).
Proof.
  unfold getvolume_step, elem_fixed, elem_volume.
  destruct (Rlt_dec (elem_signed6 m (nth i elem [])) 0); reflexivity.
Qed.

Lemma elem_volume_nonneg (m : tetmesh) (ee : list Z) : 0 <= elem_volume m ee.
Proof.
  unfold elem_volume. destruct (Rlt_dec (elem_signed6 m ee) 0); lra.
Qed.

Lemma elem_fixed_ok (m : tetmesh) (ee : list Z) (len : nat) (P : Z -> Prop) :
  (4 <= len)%nat -> length ee = len -> Forall P ee ->
  length (elem_fixed m ee) = len /\ Forall P (elem_fixed m ee).
Proof.
  intros H4 Hl HP. unfold elem_fixed.
  destruct (Rlt_dec (elem_signed6 m ee) 0); [|auto].
  unfold swap23. rewrite !upd_length. split; [exact Hl|].
  apply Forall_upd; [apply Forall_upd; [exact HP|]|];
    apply Forall_nth_default; auto; lia.
Qed.

(** The inner loop adds to every node its share of the row. *)
Lemma add_shares_nth (ee : list Z) (v : R) (nvol : list R) (j : nat) :
  (j <= length ee)%nat ->
  Forall (fun e => (1 <= e <= Z.of_nat (length nvol))%Z) ee ->
  length (add_shares ee v j nvol) = length nvol /\
  forall n, (n < length nvol)%nat ->
            nth n (add_shares ee v j nvol) 0 =
            nth n nvol 0 + node_share ee v n j.
Proof.
  intros Hj Hee. unfold add_shares, node_share.
  induction j as [|j IH]; simpl.
  - split; [reflexivity|]. intros; lra.
  - destruct (IH ltac:(lia)) as [Hl Hn]. clear IH.
    set (nv := for_loop j _ nvol) in *.
    pose proof (Forall_nth_default _ ee j 0%Z Hee ltac:(lia)) as He.
    simpl in He. unfold zupd, zth.
    destruct (Z.ltb_spec (nth j ee 0%Z - 1) 0) as [Hneg|_]; [lia|].
    rewrite upd_length. split; [exact Hl|].
    intros n Hn'. rewrite nth_upd by lia.
    destruct (Nat.eqb_spec (Z.to_nat (nth j ee 0%Z - 1)) n) as [E|E].
    + subst n. rewrite Hn by lia.
      destruct (Z.eqb_spec (nth j ee 0%Z - 1)
                           (Z.of_nat (Z.to_nat (nth j ee 0%Z - 1))));
        [lra|lia].
    + rewrite Hn by lia.
      destruct (Z.eqb_spec (nth j ee 0%Z - 1) (Z.of_nat n)); [lia|lra].
Qed.

(** The loop invariant of [mesh_getvolume]: after [k] elements their rows and
    volumes are final, the later rows are untouched, and every node volume is
    the sum of the shares of those [k] elements. *)
Lemma getvolume_inv (m : tetmesh) (k : nat) :
  elements_ok m -> (k <= m_ne m)%nat ->
  let '(elem, evol, nvol) :=
    for_loop k (getvolume_step m)
             (m_elem m, repeat 0 (m_ne m), repeat 0 (m_nn m)) in
  length elem = m_ne m /\ length evol = m_ne m /\ length nvol = m_nn m /\
  (forall i, nth i elem [] =
             if (i <? k)%nat then elem_fixed m (nth i (m_elem m) [])
             else nth i (m_elem m) []) /\
  (forall i, (i < k)%nat ->
             nth i evol 0 = elem_volume m (nth i (m_elem m) [])) /\
  (forall n, (n < m_nn m)%nat ->
             nth n nvol 0 =
             incident_sum elem (m_type m) evol (m_elemlen m) n k).
Proof.
  intros (Hle & Hlt & H4 & Hrows) Hk. induction k as [|k IH].
  - simpl. rewrite !repeat_length.
    split; [exact Hle|]. split; [reflexivity|]. split; [reflexivity|].
    split; [reflexivity|]. split; [intros i Hi; lia|].
    intros n Hn. apply nth_repeat.
  - specialize (IH ltac:(lia)). simpl for_loop.
    destruct (for_loop k (getvolume_step m) _) as [[elem evol] nvol].
    destruct IH as (Hl1 & Hl2 & Hl3 & Hel & Hev & Hnv).
    rewrite getvolume_step_eq.
    assert (Hrow : nth k elem [] = nth k (m_elem m) []).
    { rewrite Hel. now rewrite Nat.ltb_irrefl. }
    rewrite Hrow.
    set (ee := nth k (m_elem m) []) in *.
    assert (Hee : length ee = m_elemlen m /\
                  Forall (fun e => (1 <= e <= Z.of_nat (m_nn m))%Z) ee).
    { apply (Forall_nth_default _ (m_elem m) k [] Hrows). lia. }
    destruct Hee as [Hlee Hran].
    destruct (elem_fixed_ok m ee (m_elemlen m) _ H4 Hlee Hran) as [Hlf Hrf].
    assert (Hsum : forall n,
      incident_sum (upd elem k (elem_fixed m ee)) (m_type m)
                   (upd evol k (elem_volume m ee)) (m_elemlen m) n (S k) =
      incident_sum elem (m_type m) evol (m_elemlen m) n k +
      (if (nth k (m_type m) 0 =? 0)%Z then 0
       else node_share (elem_fixed m ee) (elem_volume m ee) n (m_elemlen m))).
    { intros n. unfold incident_sum. simpl for_loop.
      rewrite !nth_upd_same by lia. f_equal.
      assert (Hpre : forall q, (q <= k)%nat ->
        for_loop q
          (fun i acc =>
             acc + if (nth i (m_type m) 0 =? 0)%Z then 0
                   else node_share (nth i (upd elem k (elem_fixed m ee)) [])
                          (nth i (upd evol k (elem_volume m ee)) 0) n
                          (m_elemlen m)) 0 =
        for_loop q
          (fun i acc =>
             acc + if (nth i (m_type m) 0 =? 0)%Z then 0
                   else node_share (nth i elem []) (nth i evol 0) n
                                   (m_elemlen m)) 0).
      { induction q as [|q IHq]; intros Hq; [reflexivity|].
        simpl. rewrite IHq by lia.
        rewrite !nth_upd_other by lia. reflexivity. }
      apply Hpre. lia. }
    rewrite !upd_length.
    split; [exact Hl1|]. split; [exact Hl2|].
    assert (Hnew :
      length (if (nth k (m_type m) 0 =? 0)%Z then nvol
              else add_shares (elem_fixed m ee) (elem_volume m ee)
                              (m_elemlen m) nvol) = m_nn m /\
      forall n, (n < m_nn m)%nat ->
        nth n (if (nth k (m_type m) 0 =? 0)%Z then nvol
               else add_shares (elem_fixed m ee) (elem_volume m ee)
                               (m_elemlen m) nvol) 0 =
        nth n nvol 0 +
        (if (nth k (m_type m) 0 =? 0)%Z then 0
         else node_share (elem_fixed m ee) (elem_volume m ee) n
                         (m_elemlen m))).
    { destruct (nth k (m_type m) 0 =? 0)%Z.
      - split; [exact Hl3|]. intros; lra.
      - rewrite <- Hl3 in Hrf.
        destruct (add_shares_nth (elem_fixed m ee) (elem_volume m ee) nvol
                    (m_elemlen m) ltac:(lia) Hrf) as [Ha Hb].
        split; [lia|]. intros n Hn. apply Hb. lia. }
    destruct Hnew as [Hl3' Hnv'].
    split; [exact Hl3'|]. split; [|split].
    + intros i. rewrite nth_upd by lia.
      destruct (Nat.eqb_spec k i) as [<-|Hne].
      * replace (k <? S k)%nat with true
          by (symmetry; apply Nat.ltb_lt; lia). reflexivity.
      * rewrite Hel.
        destruct (Nat.ltb_spec i k), (Nat.ltb_spec i (S k)); auto; lia.
    + intros i Hi. rewrite nth_upd by lia.
      destruct (Nat.eqb_spec k i) as [<-|Hne]; [reflexivity|].
      apply Hev. lia.
    + intros n Hn. rewrite Hnv' by exact Hn. rewrite Hsum, Hnv by exact Hn.
      reflexivity.
Qed.

(** The shares of a row to a node, counted: one quarter of the volume for
    every position of the row that holds the node. *)
Lemma node_share_count (ee : list Z) (v : R) (n j : nat) :
  (j <= length ee)%nat ->
  node_share ee v n j =
  INR (count_occ Z.eq_dec (firstn j ee) (Z.of_nat n + 1)%Z) * (v * (1 / 4)).
Proof.
  unfold node_share. induction j as [|j IH]; intros Hj.
  - simpl. lra.
  - simpl for_loop. rewrite IH by lia.
    rewrite (firstn_snoc ee j 0%Z) by lia.
    rewrite count_occ_app, plus_INR. simpl count_occ.
    destruct (Z.eq_dec (nth j ee 0%Z) (Z.of_nat n + 1)) as [E|E].
    + destruct (Z.eqb_spec (nth j ee 0%Z - 1) (Z.of_nat n)); [|lia].
      simpl. lra.
    + destruct (Z.eqb_spec (nth j ee 0%Z - 1) (Z.of_nat n)); [lia|].
      simpl. lra.
Qed.

(** In an element with four distinct nodes a node gets one share if it is a
    node of the element and none otherwise. *)
Lemma node_share_incident (ee : list Z) (v : R) (n : nat) :
  NoDup ee ->
  node_share ee v n (length ee) =
  if in_dec Z.eq_dec (Z.of_nat n + 1)%Z ee then v * (1 / 4) else 0.
Proof.
  intros Hnd. rewrite node_share_count by lia. rewrite firstn_all.
  destruct (in_dec Z.eq_dec (Z.of_nat n + 1)%Z ee) as [Hin|Hout].
  - rewrite (proj1 (NoDup_count_occ' Z.eq_dec ee) Hnd _ Hin). simpl. lra.
  - rewrite (proj1 (count_occ_not_In Z.eq_dec ee _) Hout). simpl. lra.
Qed.

Lemma unit_tet_elements_ok : elements_ok unit_tet.
Proof.
  unfold elements_ok. simpl.
  split; [reflexivity|]. split; [reflexivity|]. split; [lia|].
  repeat constructor; lia.
Qed.

(** ** Locating the source *)

Lemma list4 {A : Type} (l : list A) :
  length l = 4%nat -> exists a b c d, l = [a; b; c; d].
Proof.
  destruct l as [|a [|b [|c [|d [|e t]]]]]; simpl; try discriminate.
  intros _. now exists a, b, c, d.
Qed.

Lemma list4_eq {A : Type} (a b c d a' b' c' d' : A) :
  a = a' -> b = b' -> c = c' -> d = d' -> [a; b; c; d] = [a'; b'; c'; d'].
Proof. intros; subst; reflexivity. Qed.

Lemma raw_weights_length (e0 : Z) (bary : list R) (srcpos : FLOAT3)
                         (m : tetmesh) :
  length (raw_weights e0 bary srcpos m) = length bary.
Proof.
  unfold raw_weights. simpl. unfold bary_face. now rewrite !upd_length.
Qed.

(** The test of [mesh_barycentric], on four raw weights: it accepts exactly
    when none is negative, and then divides each by their sum. *)
Lemma bary_sum_4 (a b c d : R) :
  for_loop 4 (bary_sum [a; b; c; d]) (Some 0) =
  if Rlt_dec a 0 then None
  else if Rlt_dec b 0 then None
  else if Rlt_dec c 0 then None
  else if Rlt_dec d 0 then None
  else Some (0 + a + b + c + d).
Proof.
  cbn [for_loop]. unfold bary_sum. cbn [nth].
  destruct (Rlt_dec a 0); [reflexivity|].
  destruct (Rlt_dec b 0); [reflexivity|].
  destruct (Rlt_dec c 0); [reflexivity|].
  destruct (Rlt_dec d 0); reflexivity.
Qed.

Lemma mesh_barycentric_eq (e0 : Z) (bary : list R) (srcpos : FLOAT3)
                          (m : tetmesh) (a b c d : R) :
  (e0 - 1 < Z.of_nat (m_ne m))%Z ->
  raw_weights e0 bary srcpos m = [a; b; c; d] ->
  mesh_barycentric e0 bary srcpos m =
  if Rlt_dec a 0 then Ok (1%Z, [a; b; c; d])
  else if Rlt_dec b 0 then Ok (1%Z, [a; b; c; d])
  else if Rlt_dec c 0 then Ok (1%Z, [a; b; c; d])
  else if Rlt_dec d 0 then Ok (1%Z, [a; b; c; d])
  else Ok (0%Z, [a / (0 + a + b + c + d); b / (0 + a + b + c + d);
                 c / (0 + a + b + c + d); d / (0 + a + b + c + d)]).
Proof.
  intros He Hraw. unfold mesh_barycentric.
  destruct (Z.leb_spec (Z.of_nat (m_ne m)) (e0 - 1)); [lia|].
  unfold raw_weights in Hraw. rewrite Hraw, bary_sum_4.
  destruct (Rlt_dec a 0); [reflexivity|].
  destruct (Rlt_dec b 0); [reflexivity|].
  destruct (Rlt_dec c 0); [reflexivity|].
  destruct (Rlt_dec d 0); reflexivity.
Qed.

(** When [mesh_barycentric] accepts: no raw weight is negative and the
    weights written back are the raw ones divided by their sum; if that sum
    is not 0 they are non-negative and sum to 1. *)
Lemma mesh_barycentric_accepts (e0 : Z) (bary bary' : list R)
                               (srcpos : FLOAT3) (m : tetmesh) :
  length bary = 4%nat ->
  mesh_barycentric e0 bary srcpos m = Ok (0%Z, bary') ->
  let raw := raw_weights e0 bary srcpos m in
  (forall i, (i < 4)%nat -> 0 <= nth i raw 0) /\
  (forall i, (i < 4)%nat -> nth i bary' 0 = nth i raw 0 / sum4 raw) /\
  length bary' = 4%nat /\
  (sum4 raw <> 0 ->
   sum4 bary' = 1 /\ forall i, (i < 4)%nat -> 0 <= nth i bary' 0).
Proof.
  intros Hl H raw.
  destruct (list4 raw) as (a & b & c & d & Hraw).
  { unfold raw. now rewrite raw_weights_length. }
  assert (He : (e0 - 1 < Z.of_nat (m_ne m))%Z).
  { unfold mesh_barycentric in H.
    destruct (Z.leb_spec (Z.of_nat (m_ne m)) (e0 - 1)); [discriminate|lia]. }
  rewrite (mesh_barycentric_eq e0 bary srcpos m a b c d He Hraw) in H.
  rewrite Hraw. unfold sum4. simpl nth.
  destruct (Rlt_dec a 0); [discriminate|].
  destruct (Rlt_dec b 0); [discriminate|].
  destruct (Rlt_dec c 0); [discriminate|].
  destruct (Rlt_dec d 0); [discriminate|].
  inversion H; subst bary'; clear H.
  replace (0 + a + b + c + d) with (a + b + c + d) by lra.
  split; [|split; [|split]].
  - intros [|[|[|[|i]]]] Hi; simpl; lra || lia.
  - intros [|[|[|[|i]]]] Hi; simpl; reflexivity || lia.
  - reflexivity.
  - intros Hs. simpl nth.
    assert (Hpos : 0 < a + b + c + d) by lra.
    split; [field; lra|].
    intros [|[|[|[|i]]]] Hi; simpl; try lia;
      apply Rmult_le_pos; try lra; left; now apply Rinv_0_lt_compat.
Qed.

(** When [mesh_barycentric] rejects, a raw weight is negative. *)
Lemma mesh_barycentric_rejects (e0 : Z) (bary bary' : list R)
                               (srcpos : FLOAT3) (m : tetmesh) (r : Z) :
  length bary = 4%nat ->
  mesh_barycentric e0 bary srcpos m = Ok (r, bary') -> r <> 0%Z ->
  r = 1%Z /\ bary' = raw_weights e0 bary srcpos m /\
  exists i, (i < 4)%nat /\ nth i bary' 0 < 0.
Proof.
  intros Hl H Hr.
  destruct (list4 (raw_weights e0 bary srcpos m)) as (a & b & c & d & Hraw).
  { now rewrite raw_weights_length. }
  assert (He : (e0 - 1 < Z.of_nat (m_ne m))%Z).
  { unfold mesh_barycentric in H.
    destruct (Z.leb_spec (Z.of_nat (m_ne m)) (e0 - 1)); [discriminate|lia]. }
  rewrite (mesh_barycentric_eq e0 bary srcpos m a b c d He Hraw) in H.
  rewrite Hraw.
  destruct (Rlt_dec a 0);
    [inversion H; subst; repeat split; auto; exists 0%nat; simpl; split;
       [lia|assumption]|].
  destruct (Rlt_dec b 0);
    [inversion H; subst; repeat split; auto; exists 1%nat; simpl; split;
       [lia|assumption]|].
  destruct (Rlt_dec c 0);
    [inversion H; subst; repeat split; auto; exists 2%nat; simpl; split;
       [lia|assumption]|].
  destruct (Rlt_dec d 0);
    [inversion H; subst; repeat split; auto; exists 3%nat; simpl; split;
       [lia|assumption]|].
  inversion H; subst. contradiction.
Qed.

(** The four raw weights overwrite the four entries of [bary]. *)
Lemma raw_weights_indep (e0 : Z) (bary : list R) (srcpos : FLOAT3)
                        (m : tetmesh) :
  length bary = 4%nat ->
  raw_weights e0 bary srcpos m = raw_weights e0 [0; 0; 0; 0] srcpos m.
Proof.
  intros Hl. destruct (list4 bary Hl) as (a & b & c & d & ->).
  unfold raw_weights. cbn [for_loop]. unfold bary_face, facemap.
  cbn [nth upd]. reflexivity.
Qed.

(** On an element of the mesh [mesh_barycentric] returns, with 0 when the
    element passes the test and 1 when it does not. *)
Lemma mesh_barycentric_total (e0 : Z) (bary : list R) (srcpos : FLOAT3)
                             (m : tetmesh) :
  (e0 - 1 < Z.of_nat (m_ne m))%Z -> length bary = 4%nat ->
  exists r bary',
    mesh_barycentric e0 bary srcpos m = Ok (r, bary') /\
    length bary' = 4%nat /\
    (r = 0%Z \/ r = 1%Z) /\
    (r = 0%Z <->
     Forall (fun w => 0 <= w) (raw_weights e0 [0; 0; 0; 0] srcpos m)).
Proof.
  intros He Hl. rewrite <- (raw_weights_indep e0 bary srcpos m Hl).
  destruct (list4 (raw_weights e0 bary srcpos m)) as (a & b & c & d & Hraw).
  { now rewrite raw_weights_length. }
  rewrite (mesh_barycentric_eq e0 bary srcpos m a b c d He Hraw), Hraw.
  assert (Hneg : forall x, x < 0 ->
            In x [a; b; c; d] ->
            ~ Forall (fun w => 0 <= w) [a; b; c; d]).
  { intros x Hx Hin HF. rewrite Forall_forall in HF.
    specialize (HF x Hin). lra. }
  destruct (Rlt_dec a 0) as [Ha|Ha].
  { eexists; eexists. split; [reflexivity|]. split; [reflexivity|].
    split; [now right|]. split; [discriminate|].
    intros HF. exfalso. apply (Hneg a Ha); simpl; auto. }
  destruct (Rlt_dec b 0) as [Hb|Hb].
  { eexists; eexists. split; [reflexivity|]. split; [reflexivity|].
    split; [now right|]. split; [discriminate|].
    intros HF. exfalso. apply (Hneg b Hb); simpl; auto. }
  destruct (Rlt_dec c 0) as [Hc|Hc].
  { eexists; eexists. split; [reflexivity|]. split; [reflexivity|].
    split; [now right|]. split; [discriminate|].
    intros HF. exfalso. apply (Hneg c Hc); simpl; auto. }
  destruct (Rlt_dec d 0) as [Hd|Hd].
  { eexists; eexists. split; [reflexivity|]. split; [reflexivity|].
    split; [now right|]. split; [discriminate|].
    intros HF. exfalso. apply (Hneg d Hd); simpl; auto. }
  eexists; eexists. split; [reflexivity|]. split; [reflexivity|].
  split; [now left|]. split; [|reflexivity].
  intros _. repeat (apply Forall_cons; [lra|]). apply Forall_nil.
Qed.

Section LocateProps.

Variable VERY_BIG : R.

(** The scan of [mesh_initelem] over the elements [i .. i + cnt - 1]: it
    always returns; with 0 it has set [e0] to the first element that lies in
    its bounding box and passes the barycentric test, and [bary0] to what
    [mesh_barycentric] wrote for it; with 1, no element does and [e0] is as
    it was. *)
Lemma initelem_scan_spec (m : tetmesh) (cnt : nat) :
  forall (i : nat) (cfg : mcconfig),
  (i + cnt <= m_ne m)%nat -> length (c_bary0 cfg) = 4%nat ->
  exists r cfg',
    initelem_scan VERY_BIG m cnt i cfg = Ok (r, cfg') /\
    length (c_bary0 cfg') = 4%nat /\
    c_srcpos cfg' = c_srcpos cfg /\
    ((r = 1%Z /\ c_e0 cfg' = c_e0 cfg /\
      forall k, (i <= k < i + cnt)%nat ->
        ~ (in_bbox (c_srcpos cfg) (bbox VERY_BIG m (nth k (m_elem m) []))
           = true /\ passes m (c_srcpos cfg) k)) \/
     (r = 0%Z /\
      exists k b0, (i <= k < i + cnt)%nat /\ length b0 = 4%nat /\
        c_e0 cfg' = (Z.of_nat k + 1)%Z /\
        in_bbox (c_srcpos cfg) (bbox VERY_BIG m (nth k (m_elem m) [])) = true /\
        passes m (c_srcpos cfg) k /\
        mesh_barycentric (Z.of_nat k + 1) b0 (c_srcpos cfg) m
        = Ok (0%Z, c_bary0 cfg') /\
        forall k', (i <= k' < k)%nat ->
          ~ (in_bbox (c_srcpos cfg) (bbox VERY_BIG m (nth k' (m_elem m) []))
             = true /\ passes m (c_srcpos cfg) k'))).
Proof.
  induction cnt as [|c IH]; intros i cfg Hi Hl.
  - exists 1%Z, cfg. simpl. split; [reflexivity|]. split; [exact Hl|].
    split; [reflexivity|]. left. repeat split; auto. intros k Hk. lia.
  - simpl initelem_scan.
    destruct (in_bbox (c_srcpos cfg) (bbox VERY_BIG m (nth i (m_elem m) [])))
      eqn:Hbox.
    + destruct (mesh_barycentric_total (Z.of_nat i + 1) (c_bary0 cfg)
                  (c_srcpos cfg) m ltac:(lia) Hl)
        as (r & bary' & Hb & Hl' & Hr & Hpass).
      rewrite Hb. destruct Hr as [-> | ->]; simpl.
      * eexists; eexists. split; [reflexivity|]. simpl.
        split; [exact Hl'|]. split; [reflexivity|]. right.
        split; [reflexivity|]. exists i, (c_bary0 cfg).
        split; [lia|]. split; [exact Hl|]. split; [reflexivity|].
        split; [exact Hbox|]. split; [now apply Hpass|].
        split; [exact Hb|]. intros k' Hk'. lia.
      * destruct (IH (S i) (set_bary0 cfg bary') ltac:(lia) Hl')
          as (r & cfg' & Hs & Hl2 & Hsrc & Hcase).
        exists r, cfg'. split; [exact Hs|]. split; [exact Hl2|].
        split; [exact Hsrc|]. simpl in Hcase.
        assert (Hno : ~ passes m (c_srcpos cfg) i).
        { intros Hp. apply Hpass in Hp. discriminate. }
        destruct Hcase as [(-> & He0 & Hnone)|(-> & k & b0 & Hk & Hrest)].
        -- left. repeat split; auto. intros k Hk.
           destruct (Nat.eq_dec k i) as [->|Hne]; [tauto|].
           apply Hnone. lia.
        -- right. split; [reflexivity|]. exists k, b0.
           destruct Hrest as (Hb0 & He0 & Hbx & Hp & Hmb & Hfirst).
           repeat split; auto; try lia.
           intros k' Hk'. destruct (Nat.eq_dec k' i) as [->|Hne]; [tauto|].
           apply Hfirst. lia.
    + destruct (IH (S i) cfg ltac:(lia) Hl)
        as (r & cfg' & Hs & Hl2 & Hsrc & Hcase).
      exists r, cfg'. split; [exact Hs|]. split; [exact Hl2|].
      split; [exact Hsrc|].
      destruct Hcase as [(-> & He0 & Hnone)|(-> & k & b0 & Hk & Hrest)].
      * left. repeat split; auto. intros k Hk.
        destruct (Nat.eq_dec k i) as [->|Hne].
        -- rewrite Hbox. intros [Hf _]. discriminate.
        -- apply Hnone. lia.
      * right. split; [reflexivity|]. exists k, b0.
        destruct Hrest as (Hb0 & He0 & Hbx & Hp & Hmb & Hfirst).
        repeat split; auto; try lia.
        intros k' Hk'. destruct (Nat.eq_dec k' i) as [->|Hne].
        -- rewrite Hbox. intros [Hf _]. discriminate.
        -- apply Hfirst. lia.
Qed.

End LocateProps.

Lemma MIN_le_l (a b : R) : MIN a b <= a.
Proof. unfold MIN. destruct (Rlt_dec a b); lra. Qed.

Lemma MIN_le_r (a b : R) : MIN a b <= b.
Proof. unfold MIN. destruct (Rlt_dec a b); lra. Qed.

Lemma MAX_ge_l (a b : R) : a <= MAX a b.
Proof. unfold MAX. destruct (Rgt_dec a b); lra. Qed.

Lemma MAX_ge_r (a b : R) : b <= MAX a b.
Proof. unfold MAX. destruct (Rgt_dec a b); lra. Qed.

Section BoundingBox.

Variable VERY_BIG : R.

(** The box computed by [mesh_initelem] contains every node of the row. *)
Lemma bbox_bounds (m : tetmesh) (elems : list Z) (j : nat) :
  (j < m_elemlen m)%nat ->
  let nd := node_at m (nth j elems 0%Z) in
  let b := bbox VERY_BIG m elems in
  fx (fst b) <= fx nd <= fx (snd b) /\
  fy (fst b) <= fy nd <= fy (snd b) /\
  fz (fst b) <= fz nd <= fz (snd b).
Proof.
  unfold bbox. generalize (m_elemlen m) as len.
  induction len as [|len IH]; intros Hj; [lia|].
  simpl for_loop. unfold bbox_step at 1.
  destruct (for_loop len (bbox_step m elems) _) as [pmin pmax] eqn:E.
  destruct (Nat.eq_dec j len) as [->|Hne].
  - simpl. repeat split;
      auto using MIN_le_l, MAX_ge_l.
  - specialize (IH ltac:(lia)). simpl in IH |- *.
    destruct IH as ((H1 & H2) & (H3 & H4) & (H5 & H6)).
    repeat split.
    + eapply Rle_trans; [apply MIN_le_r|exact H1].
    + eapply Rle_trans; [exact H2|apply MAX_ge_r].
    + eapply Rle_trans; [apply MIN_le_r|exact H3].
    + eapply Rle_trans; [exact H4|apply MAX_ge_r].
    + eapply Rle_trans; [apply MIN_le_r|exact H5].
    + eapply Rle_trans; [exact H6|apply MAX_ge_r].
Qed.

Lemma in_bbox_true (p : FLOAT3) (b : FLOAT3 * FLOAT3) :
  fx (fst b) <= fx p <= fx (snd b) ->
  fy (fst b) <= fy p <= fy (snd b) ->
  fz (fst b) <= fz p <= fz (snd b) ->
  in_bbox p b = true.
Proof.
  destruct b as [pmin pmax]. simpl. intros Hx Hy Hz.
  unfold in_bbox, Rle_b.
  repeat match goal with
         | |- context [Rle_dec ?a ?b] =>
             destruct (Rle_dec a b); [|exfalso; lra]
         end.
  reflexivity.
Qed.

(** C2, at a flat element.  [flat_tet] has its four nodes in the plane
    [z = 0] and the source of [flat_cfg] lies in that plane inside the bounding
    box.  The four raw weights are all 0, so none is negative and
    [mesh_initelem] returns 0 with [e0 = 1]; the divisor [s] is 0 and the
    weights written back do not sum to 1 (in C they are 0/0). *)
Theorem mesh_initelem_flat_element :
  exists cfg',
    mesh_initelem VERY_BIG flat_tet flat_cfg = Ok (0%Z, cfg') /\
    c_e0 cfg' = 1%Z /\
    raw_weights 1 (c_bary0 flat_cfg) (c_srcpos flat_cfg) flat_tet
    = [0; 0; 0; 0] /\
    sum4 (c_bary0 cfg') <> 1.
Proof.
  assert (Hraw : raw_weights 1 (c_bary0 flat_cfg) (c_srcpos flat_cfg) flat_tet
                 = [0; 0; 0; 0]).
  { unfold raw_weights.
    change (zth (m_elem flat_tet) (1 - 1) []) with [1; 2; 3; 4]%Z.
    cbn [for_loop]. unfold bary_face, facemap, out. cbn [nth upd].
    change (node_at flat_tet 1) with (mkFLOAT3 0 0 0).
    change (node_at flat_tet 2) with (mkFLOAT3 1 0 0).
    change (node_at flat_tet 3) with (mkFLOAT3 0 1 0).
    change (node_at flat_tet 4) with (mkFLOAT3 1 1 0).
    unfold vec_dot3, vec_cross3, vec_diff3. cbn [fx fy fz c_srcpos flat_cfg
      c_bary0 upd].
    apply list4_eq; lra. }
  assert (Hbox : in_bbox (c_srcpos flat_cfg)
                   (bbox VERY_BIG flat_tet (nth 0 (m_elem flat_tet) []))
                 = true).
  { pose proof (bbox_bounds flat_tet [1; 2; 3; 4]%Z 0 ltac:(simpl; lia)) as B0.
    pose proof (bbox_bounds flat_tet [1; 2; 3; 4]%Z 1 ltac:(simpl; lia)) as B1.
    pose proof (bbox_bounds flat_tet [1; 2; 3; 4]%Z 2 ltac:(simpl; lia)) as B2.
    cbn [nth] in B0, B1, B2.
    change (node_at flat_tet 1) with (mkFLOAT3 0 0 0) in B0.
    change (node_at flat_tet 2) with (mkFLOAT3 1 0 0) in B1.
    change (node_at flat_tet 3) with (mkFLOAT3 0 1 0) in B2.
    cbv zeta in B0, B1, B2. cbn [fx fy fz] in B0, B1, B2.
    change (nth 0 (m_elem flat_tet) []) with [1; 2; 3; 4]%Z.
    apply in_bbox_true; cbn [fx fy fz c_srcpos flat_cfg]; lra. }
  unfold mesh_initelem. cbn [m_ne flat_tet initelem_scan].
  rewrite Hbox. change (Z.of_nat 0 + 1)%Z with 1%Z.
  rewrite (mesh_barycentric_eq 1 (c_bary0 flat_cfg) (c_srcpos flat_cfg)
             flat_tet 0 0 0 0 ltac:(simpl; lia) Hraw).
  destruct (Rlt_dec 0 0) as [Habs|_]; [lra|].
  cbn [Z.eqb].
  eexists. split; [reflexivity|]. split; [reflexivity|].
  split; [exact Hraw|].
  unfold sum4. cbn. unfold Rdiv. rewrite !Rmult_0_l. lra.
Qed.

End BoundingBox.

Section PrepareProps.

Variable VERY_BIG : R.

(** [mesh_initelem] always returns 0 or 1. *)
Lemma mesh_initelem_total (m : tetmesh) (cfg : mcconfig) :
  length (c_bary0 cfg) = 4%nat ->
  exists r cfg',
    mesh_initelem VERY_BIG m cfg = Ok (r, cfg') /\ (r = 0%Z \/ r = 1%Z).
Proof.
  intros Hl. unfold mesh_initelem.
  destruct (initelem_scan_spec VERY_BIG m (m_ne m) 0 cfg ltac:(lia) Hl)
    as (r & cfg' & H & _ & _ & [(-> & _)|(-> & _)]).
  - exists 1%Z, cfg'. split; [exact H|now right].
  - exists 0%Z, cfg'. split; [exact H|now left].
Qed.

(** Found: [e0] is the first element that passes both tests, no weight
    written to [bary0] comes from a negative raw weight, and the weights are
    non-negative and sum to 1 unless the raw weights sum to 0. *)
Lemma mesh_initelem_found (m : tetmesh) (cfg cfg' : mcconfig) :
  length (c_bary0 cfg) = 4%nat ->
  mesh_initelem VERY_BIG m cfg = Ok (0%Z, cfg') ->
  exists k, (k < m_ne m)%nat /\ c_e0 cfg' = (Z.of_nat k + 1)%Z /\
    passes m (c_srcpos cfg) k /\
    let raw := raw_weights (Z.of_nat k + 1) [0; 0; 0; 0] (c_srcpos cfg) m in
    (forall i, (i < 4)%nat -> nth i (c_bary0 cfg') 0 = nth i raw 0 / sum4 raw)
    /\ (sum4 raw <> 0 ->
        sum4 (c_bary0 cfg') = 1 /\
        forall i, (i < 4)%nat -> 0 <= nth i (c_bary0 cfg') 0).
Proof.
  intros Hl H. unfold mesh_initelem in H.
  destruct (initelem_scan_spec VERY_BIG m (m_ne m) 0 cfg ltac:(lia) Hl)
    as (r & c1 & H1 & _ & _ & Hcase).
  rewrite H in H1. inversion H1; subst r c1; clear H1.
  destruct Hcase as [(Hr & _)|(_ & k & b0 & Hk & Hb0 & He0 & _ & Hp & Hmb & _)];
    [discriminate|].
  exists k. split; [lia|]. split; [exact He0|]. split; [exact Hp|].
  destruct (mesh_barycentric_accepts _ _ _ _ _ Hb0 Hmb)
    as (_ & Hdiv & _ & Hsum).
  rewrite (raw_weights_indep _ b0 _ _ Hb0) in Hdiv, Hsum.
  split; assumption.
Qed.

(** Not found: 1 is returned, [e0] is as it was, and no element passes both
    tests. *)
Lemma mesh_initelem_not_found (m : tetmesh) (cfg cfg' : mcconfig) (r : Z) :
  length (c_bary0 cfg) = 4%nat ->
  mesh_initelem VERY_BIG m cfg = Ok (r, cfg') -> r <> 0%Z ->
  r = 1%Z /\ c_e0 cfg' = c_e0 cfg /\
  forall k, (k < m_ne m)%nat ->
    ~ (in_bbox (c_srcpos cfg) (bbox VERY_BIG m (nth k (m_elem m) [])) = true
       /\ passes m (c_srcpos cfg) k).
Proof.
  intros Hl H Hr. unfold mesh_initelem in H.
  destruct (initelem_scan_spec VERY_BIG m (m_ne m) 0 cfg ltac:(lia) Hl)
    as (r1 & c1 & H1 & _ & _ & Hcase).
  rewrite H in H1. inversion H1; subst r1 c1; clear H1.
  destruct Hcase as [(-> & He0 & Hnone)|(-> & _)]; [|contradiction].
  repeat split; auto. intros k Hk. apply Hnone. lia.
Qed.

(** If no element passes both tests the scan reports 1. *)
Lemma mesh_initelem_none (m : tetmesh) (cfg : mcconfig) :
  length (c_bary0 cfg) = 4%nat ->
  (forall k, (k < m_ne m)%nat -> ~ passes m (c_srcpos cfg) k) ->
  exists cfg', mesh_initelem VERY_BIG m cfg = Ok (1%Z, cfg') /\
               c_e0 cfg' = c_e0 cfg.
Proof.
  intros Hl Hnone. unfold mesh_initelem.
  destruct (initelem_scan_spec VERY_BIG m (m_ne m) 0 cfg ltac:(lia) Hl)
    as (r & cfg' & H & _ & _ & Hcase).
  destruct Hcase as [(-> & He0 & _)|(-> & k & b0 & Hk & _ & _ & _ & Hp & _)].
  - exists cfg'. split; assumption.
  - exfalso. apply (Hnone k); [lia|exact Hp].
Qed.

End PrepareProps.

(** The raw weights of a point in [unit_tet]: its barycentric coordinates,
    in the order of the local nodes. *)
Lemma unit_tet_raw_weights (x y z : R) :
  raw_weights 1 [0; 0; 0; 0] (mkFLOAT3 x y z) unit_tet
  = [1 - x - y - z; x; z; y].
Proof.
  unfold raw_weights.
  change (zth (m_elem unit_tet) (1 - 1) []) with [1; 2; 4; 3]%Z.
  cbn [for_loop]. unfold bary_face, facemap, out. cbn [nth upd].
  change (node_at unit_tet 1) with (mkFLOAT3 0 0 0).
  change (node_at unit_tet 2) with (mkFLOAT3 1 0 0).
  change (node_at unit_tet 3) with (mkFLOAT3 0 1 0).
  change (node_at unit_tet 4) with (mkFLOAT3 0 0 1).
  unfold vec_dot3, vec_cross3, vec_diff3. cbn [fx fy fz].
  apply list4_eq; ring.
Qed.

Lemma unit_tet_outside :
  forall k, (k < m_ne unit_tet)%nat ->
            ~ passes unit_tet (c_srcpos outside_cfg) k.
Proof.
  intros k Hk. simpl in Hk. assert (k = 0)%nat by lia. subst k.
  unfold passes. change (Z.of_nat 0 + 1)%Z with 1%Z.
  change (c_srcpos outside_cfg) with (mkFLOAT3 5 5 5).
  rewrite unit_tet_raw_weights. intros HF.
  apply Forall_inv in HF. lra.
Qed.

(** ** The node-volume correction at the boundary *)

Lemma for_loop_ext {S : Type} (f g : nat -> S -> S) (n : nat) (s : S) :
  (forall i x, (i < n)%nat -> f i x = g i x) ->
  for_loop n f s = for_loop n g s.
Proof.
  induction n as [|n IH]; intros H; simpl; [reflexivity|].
  rewrite IH by (intros; apply H; lia). apply H. lia.
Qed.

Lemma for_loop_fold {S V : Type} (step : S -> V -> S) (g : nat -> list V)
                    (n : nat) (s : S) :
  for_loop n (fun j x => fold_left step (g j) x) s =
  fold_left step (flat_map g (seq 0 n)) s.
Proof.
  induction n as [|n IH]; [reflexivity|].
  rewrite seq_S, flat_map_app, fold_left_app, <- IH. cbn [for_loop].
  simpl. now rewrite app_nil_r.
Qed.

(** The three nested loops are the fold of [apply_visit] over the visits. *)
Lemma adjust_loops_visits (m : tetmesh) (reff nvol : list R) :
  for_loop (m_ne m) (adjust_elem m reff) nvol =
  fold_left (apply_visit reff) (all_visits m) nvol.
Proof.
  unfold all_visits. rewrite <- for_loop_fold.
  apply for_loop_ext. intros i x _.
  unfold adjust_elem, elem_visits. rewrite <- for_loop_fold.
  apply for_loop_ext. intros j y _.
  destruct (nth (i * m_elemlen m + j) (m_facenb m) 0 =? 0)%Z; reflexivity.
Qed.

Lemma adjust_node_length (reff : list R) (t nid : Z) (nvol : list R) :
  length (adjust_node reff t nid nvol) = length nvol.
Proof.
  unfold adjust_node, zupd.
  destruct (Rlt_dec 0 (zth nvol nid 0)); [|reflexivity].
  destruct (0 <=? t)%Z; [|reflexivity].
  destruct (nid <? 0)%Z; [reflexivity|apply upd_length].
Qed.

Lemma zth_of_nat {A : Type} (l : list A) (n : nat) (d : A) :
  zth l (Z.of_nat n) d = nth n l d.
Proof.
  unfold zth. destruct (Z.ltb_spec (Z.of_nat n) 0); [lia|].
  now rewrite Nat2Z.id.
Qed.

(** One visit, seen from node [n]. *)
Lemma adjust_node_nth (reff : list R) (t nid : Z) (nvol : list R) (n : nat) :
  (n < length nvol)%nat ->
  nth n (adjust_node reff t nid nvol) 0 =
  if ((0 <=? t)%Z && (nid =? Z.of_nat n)%Z)%bool
  then marked_volume reff (nth n nvol 0) (Some t)
  else nth n nvol 0.
Proof.
  intros Hn. unfold adjust_node, marked_volume.
  destruct (Z.eqb_spec nid (Z.of_nat n)) as [->|Hne].
  - rewrite zth_of_nat, andb_true_r.
    destruct (Rlt_dec 0 (nth n nvol 0)); destruct (0 <=? t)%Z; auto.
    unfold zupd. destruct (Z.ltb_spec (Z.of_nat n) 0); [lia|].
    rewrite Nat2Z.id. now apply nth_upd_same.
  - rewrite andb_false_r.
    destruct (Rlt_dec 0 (zth nvol nid 0)); [|reflexivity].
    destruct (0 <=? t)%Z; [|reflexivity].
    unfold zupd. destruct (Z.ltb_spec nid 0); [reflexivity|].
    apply nth_upd_other. lia.
Qed.

(** After all visits a positive node volume has been multiplied once, by the
    negated factor of the first element of non-negative region id that
    visits it; every other volume is as it was. *)
Lemma visits_nth (reff : list R) (vs : list (Z * Z)) :
  (forall t nid, In (t, nid) vs -> (0 <= t)%Z -> -1 < zth reff t 0) ->
  forall (nvol : list R) (n : nat), (n < length nvol)%nat ->
  length (fold_left (apply_visit reff) vs nvol) = length nvol /\
  nth n (fold_left (apply_visit reff) vs nvol) 0 =
  marked_volume reff (nth n nvol 0) (first_region vs n).
Proof.
  induction vs as [|[t nid] rest IH]; intros Hreff nvol n Hn.
  - simpl. auto.
  - simpl fold_left. unfold apply_visit at 2 4. simpl fst. simpl snd.
    assert (Hl : length (adjust_node reff t nid nvol) = length nvol)
      by apply adjust_node_length.
    destruct (IH (fun t0 nid0 H => Hreff t0 nid0 (or_intror H))
                 (adjust_node reff t nid nvol) n ltac:(lia)) as [Hlen Hnth].
    split; [lia|]. rewrite Hnth, adjust_node_nth by exact Hn.
    simpl first_region.
    destruct ((0 <=? t)%Z && (nid =? Z.of_nat n)%Z)%bool eqn:Hc;
      [|reflexivity].
    apply andb_true_iff in Hc. destruct Hc as [Ht _].
    apply Z.leb_le in Ht.
    pose proof (Hreff t nid (or_introl eq_refl) Ht) as Hr.
    unfold marked_volume.
    destruct (Rlt_dec 0 (nth n nvol 0)) as [Hpos|Hnpos].
    + assert (Hf : 0 < 2 / (1 + zth reff t 0)).
      { apply Rdiv_lt_0_compat; lra. }
      assert (Hneg : nth n nvol 0 * - (2 / (1 + zth reff t 0)) < 0) by nra.
      destruct (first_region rest n); [|reflexivity].
      destruct (Rlt_dec 0 (nth n nvol 0 * - (2 / (1 + zth reff t 0))));
        [lra|reflexivity].
    + destruct (first_region rest n); [|reflexivity].
      destruct (Rlt_dec 0 (nth n nvol 0)); [contradiction|reflexivity].
Qed.

(** The last loop takes the absolute value of every node volume. *)
Lemma unmark_nth (nvol : list R) (k : nat) :
  (k <= length nvol)%nat ->
  length (for_loop k unmark nvol) = length nvol /\
  forall n, nth n (for_loop k unmark nvol) 0 =
            if (n <? k)%nat then Rabs (nth n nvol 0) else nth n nvol 0.
Proof.
  induction k as [|k IH]; intros Hk; simpl; [auto|].
  destruct (IH ltac:(lia)) as [Hl Hn]. unfold unmark at 1 3.
  assert (Hcur : nth k (for_loop k unmark nvol) 0 = nth k nvol 0).
  { rewrite Hn. now rewrite Nat.ltb_irrefl. }
  rewrite Hcur.
  destruct (Rlt_dec (nth k nvol 0) 0) as [Hneg|Hpos].
  - rewrite upd_length. split; [exact Hl|].
    intros n. rewrite nth_upd by lia.
    destruct (Nat.eqb_spec k n) as [<-|Hne].
    + replace (k <? S k)%nat with true by (symmetry; apply Nat.ltb_lt; lia).
      rewrite Rabs_left by exact Hneg. reflexivity.
    + rewrite Hn.
      destruct (Nat.ltb_spec n k), (Nat.ltb_spec n (S k)); auto; lia.
  - split; [exact Hl|]. intros n. rewrite Hn.
    destruct (Nat.ltb_spec n k), (Nat.ltb_spec n (S k)); auto; try lia.
    assert (n = k) by lia. subst n.
    rewrite Rabs_right by lra. reflexivity.
Qed.

Lemma first_region_some (vs : list (Z * Z)) (n : nat) (t : Z) :
  first_region vs n = Some t -> In (t, Z.of_nat n) vs /\ (0 <= t)%Z.
Proof.
  induction vs as [|[t0 nid] rest IH]; simpl; [discriminate|].
  destruct ((0 <=? t0)%Z && (nid =? Z.of_nat n)%Z)%bool eqn:Hc.
  - intros H. inversion H; subst t0. apply andb_true_iff in Hc.
    destruct Hc as [Ht Hn]. apply Z.leb_le in Ht. apply Z.eqb_eq in Hn.
    subst nid. auto.
  - intros H. destruct (IH H). auto.
Qed.

Lemma first_region_none (vs : list (Z * Z)) (n : nat) :
  first_region vs n = None ->
  forall t, In (t, Z.of_nat n) vs -> (t < 0)%Z.
Proof.
  induction vs as [|[t0 nid] rest IH]; simpl; [intros _ t []|].
  destruct ((0 <=? t0)%Z && (nid =? Z.of_nat n)%Z)%bool eqn:Hc;
    [discriminate|].
  intros H t [E|Hin]; [|now apply IH].
  inversion E; subst t0 nid. rewrite Z.eqb_refl, andb_true_r in Hc.
  apply Z.leb_gt in Hc. exact Hc.
Qed.

Lemma in_all_visits (m : tetmesh) (t nid : Z) :
  In (t, nid) (all_visits m) <->
  exists i j k, (i < m_ne m)%nat /\ (j < m_elemlen m)%nat /\ (k < 3)%nat /\
    nth (i * m_elemlen m + j) (m_facenb m) 0%Z = 0%Z /\
    t = nth i (m_type m) 0%Z /\
    nid = (nth (out (ifaceorder j) k) (nth i (m_elem m) []) 0 - 1)%Z.
Proof.
  unfold all_visits, elem_visits. rewrite in_flat_map. split.
  - intros (i & Hi & Hin). apply in_seq in Hi.
    apply in_flat_map in Hin. destruct Hin as (j & Hj & Hin).
    apply in_seq in Hj.
    destruct (Z.eqb_spec (nth (i * m_elemlen m + j) (m_facenb m) 0%Z) 0)
      as [Hz|Hz]; [|destruct Hin].
    unfold face_visits in Hin. apply in_map_iff in Hin.
    destruct Hin as (k & E & Hk). inversion E; subst.
    exists i, j, k. repeat split; auto; try lia.
    simpl in Hk. lia.
  - intros (i & j & k & Hi & Hj & Hk & Hz & -> & ->).
    exists i. split; [apply in_seq; lia|].
    apply in_flat_map. exists j. split; [apply in_seq; lia|].
    rewrite Hz. simpl Z.eqb. cbv iota. unfold face_visits.
    apply in_map_iff. exists k. split; [reflexivity|].
    simpl. lia.
Qed.

Lemma reff_copy_length (med : list medium) (i j cnt : nat) (reff : list R) :
  length (reff_copy med i j cnt reff) = length reff.
Proof.
  revert j. induction cnt as [|c IH]; intros j; simpl; [reflexivity|].
  destruct (Req_dec_T _ _); [apply upd_length|apply IH].
Qed.

Lemma reff_table_length (m : tetmesh) (cfg : mcconfig) :
  length (reff_table m cfg) = Z.to_nat (m_prop m + 1).
Proof.
  unfold reff_table. destruct (c_isreflect cfg); [|apply repeat_length].
  generalize (Z.to_nat (m_prop m)) as k.
  induction k as [|k IH]; simpl; [apply repeat_length|].
  unfold reff_step at 1.
  destruct (Req_dec_T _ _);
    rewrite ?upd_length, reff_copy_length; exact IH.
Qed.

(** Without reflection at the boundary every coefficient is 0. *)
Lemma reff_table_no_reflection (m : tetmesh) (cfg : mcconfig) :
  c_isreflect cfg = false ->
  reff_table m cfg = repeat 0 (Z.to_nat (m_prop m + 1)).
Proof. intros H. unfold reff_table. now rewrite H. Qed.

(** With [isnormalized = 1], a ray tracer other than the grid one and
    nodal basis, on a mesh whose node volumes are not negative and whose
    region ids are within the [prop + 1] entries of the table [Reff] (all of
    which exceed -1):
    after [tracer_prep] has corrected the node volumes, every node volume is
    non-negative; the volume of a node of an exterior face has been multiplied
    once by [2 / (1 + Reff[t])], [t] being the region of the first element, in
    array order, that has the node on an exterior face; every other node
    volume is unchanged. *)
Theorem tracer_prep_nvol_boundary (m : tetmesh) (cfg : mcconfig) :
  c_isnormalized cfg = 1%Z ->
  c_method cfg <> rtBLBadouelGrid ->
  c_basisorder cfg = true ->
  nvol_pass_ok m ->
  Forall (fun r => -1 < r) (reff_table m cfg) ->
  let m' := tracer_prep_nvol m cfg in
  let reff := reff_table m cfg in
  length (m_nvol m') = m_nn m /\
  forall n, (n < m_nn m)%nat ->
    0 <= nth n (m_nvol m') 0 /\
    nth n (m_nvol m') 0 =
      match first_region (all_visits m) n with
      | Some t => nth n (m_nvol m) 0 * (2 / (1 + zth reff t 0))
      | None => nth n (m_nvol m) 0
      end /\
    (first_region (all_visits m) n <> None <-> on_exterior_face m n).
Proof.
  intros Hnorm Hmeth Hbasis (H4 & Hle & Hlt & Hlf & Hlv & Hty & Hpos) Hreff
         m' reff.
  subst m'. unfold tracer_prep_nvol.
  rewrite Hnorm, Hbasis.
  replace (TMethod_eqb (c_method cfg) rtBLBadouelGrid) with false
    by (destruct (c_method cfg); try reflexivity; contradiction).
  cbn [Z.eqb Pos.eqb negb andb]. cbv zeta. fold reff.
  rewrite adjust_loops_visits. cbn [m_nvol set_nvol set_volumes].
  assert (Htab : forall t nid, In (t, nid) (all_visits m) -> (0 <= t)%Z ->
                               -1 < zth reff t 0).
  { intros t nid Hin Ht. apply in_all_visits in Hin.
    destruct Hin as (i & j & k & Hi & _ & _ & _ & -> & _).
    pose proof (Forall_nth_default _ _ i 0%Z Hty ltac:(lia)) as Hr.
    simpl in Hr. unfold zth.
    destruct (Z.ltb_spec (nth i (m_type m) 0%Z) 0); [lia|].
    apply Forall_nth_default; [exact Hreff|].
    unfold reff. rewrite reff_table_length. lia. }
  set (nv := fold_left (apply_visit reff) (all_visits m) (m_nvol m)).
  assert (Hnv : length nv = m_nn m /\
                forall n, (n < m_nn m)%nat ->
                  nth n nv 0 = marked_volume reff (nth n (m_nvol m) 0)
                                 (first_region (all_visits m) n)).
  { split.
    - destruct (Nat.eq_dec (m_nn m) 0) as [E0|E0].
      + unfold nv. clear - Hlv E0. rewrite <- Hlv.
        generalize (m_nvol m) as l.
        induction (all_visits m) as [|v vs IH]; intros l; simpl; auto.
        rewrite IH. apply adjust_node_length.
      + destruct (visits_nth reff (all_visits m) Htab (m_nvol m) 0
                    ltac:(lia)) as [Hl _].
        unfold nv. lia.
    - intros n Hn.
      destruct (visits_nth reff (all_visits m) Htab (m_nvol m) n
                  ltac:(lia)) as [_ Hv].
      exact Hv. }
  destruct Hnv as [Hlnv Hnv].
  destruct (unmark_nth nv (m_nn m) ltac:(lia)) as [Hlu Hun].
  split; [lia|]. intros n Hn. rewrite Hun.
  replace (n <? m_nn m)%nat with true
    by (symmetry; apply Nat.ltb_lt; exact Hn).
  rewrite (Hnv n Hn).
  pose proof (Forall_nth_default _ _ n 0 Hpos ltac:(lia)) as Hv0.
  simpl in Hv0.
  split; [apply Rabs_pos|]. split.
  - unfold marked_volume.
    destruct (first_region (all_visits m) n) as [t|] eqn:Hfr.
    + destruct (first_region_some _ _ _ Hfr) as [Hin Ht].
      pose proof (Htab t _ Hin Ht) as Hr.
      assert (Hf : 0 < 2 / (1 + zth reff t 0))
        by (apply Rdiv_lt_0_compat; lra).
      destruct (Rlt_dec 0 (nth n (m_nvol m) 0)) as [Hp|Hp].
      * rewrite Rabs_left by nra. lra.
      * assert (E : nth n (m_nvol m) 0 = 0) by lra.
        rewrite E, Rabs_R0. lra.
    + apply Rabs_right. lra.
  - split.
    + intros Hsome.
      destruct (first_region (all_visits m) n) as [t|] eqn:Hfr;
        [|contradiction].
      destruct (first_region_some _ _ _ Hfr) as [Hin _].
      apply in_all_visits in Hin.
      destruct Hin as (i & j & k & Hi & Hj & Hk & Hz & _ & Hnid).
      rewrite H4 in Hj, Hz. exists i, j, k. repeat split; auto.
    + intros (i & j & k & Hi & Hj & Hk & Hz & Hnid) Hnone.
      pose proof (first_region_none _ _ Hnone (nth i (m_type m) 0%Z)) as Hlt0.
      assert (Hin : In (nth i (m_type m) 0%Z, Z.of_nat n) (all_visits m)).
      { apply in_all_visits. exists i, j, k. rewrite H4.
        repeat split; auto. }
      specialize (Hlt0 Hin).
      pose proof (Forall_nth_default _ _ i 0%Z Hty ltac:(lia)) as Hr.
      simpl in Hr. lia.
Qed.

Lemma unit_tet_nvol_pass_ok : nvol_pass_ok unit_tet.
Proof.
  unfold nvol_pass_ok. simpl.
  repeat (split; [reflexivity|]). split.
  - repeat constructor; lia.
  - repeat (apply Forall_cons; [lra|]). apply Forall_nil.
Qed.

Lemma tracer_prep_nvol_boundary_witness :
  c_isnormalized pencil_cfg = 1%Z /\
  c_method pencil_cfg <> rtBLBadouelGrid /\
  c_basisorder pencil_cfg = true /\
  nvol_pass_ok unit_tet /\
  Forall (fun r => -1 < r) (reff_table unit_tet pencil_cfg) /\
  length (m_nvol (tracer_prep_nvol unit_tet pencil_cfg)) = 4%nat.
Proof.
  assert (Hm : c_method pencil_cfg <> rtBLBadouelGrid) by discriminate.
  assert (Hr : Forall (fun r => -1 < r) (reff_table unit_tet pencil_cfg)).
  { rewrite reff_table_no_reflection by reflexivity.
    change (Z.to_nat (m_prop unit_tet + 1)) with 2%nat. simpl.
    repeat (apply Forall_cons; [lra|]). apply Forall_nil. }
  split; [reflexivity|]. split; [exact Hm|]. split; [reflexivity|].
  split; [exact unit_tet_nvol_pass_ok|]. split; [exact Hr|].
  exact (proj1 (tracer_prep_nvol_boundary unit_tet pencil_cfg eq_refl Hm
                  eq_refl unit_tet_nvol_pass_ok Hr)).
Defined.

(** ** The scattering event *)

Section ScatterProps.

Variable EPS : R.

Lemma clamp1_range (x : R) : -1 <= clamp1 x <= 1.
Proof.
  unfold clamp1, Rmax, Rmin.
  destruct (Rle_dec 1 x); destruct (Rle_dec (-1) _); lra.
Qed.

(** The two tests of the code are the clamp. *)
Lemma clamp_tests (x : R) :
  (let tmp3 := if Rgt_dec x 1 then 1 else x in
   if Rlt_dec tmp3 (-1) then -1 else tmp3) = clamp1 x.
Proof.
  cbv zeta. unfold clamp1, Rmax, Rmin.
  destruct (Rgt_dec x 1); destruct (Rle_dec 1 x); try lra;
    destruct (Rlt_dec _ (-1)); destruct (Rle_dec (-1) _); lra.
Qed.

(** [mc_next_scatter] returns the drawn scattering length, rotates the
    direction by the two sampled angles, and adds [1 - ctheta] to the
    momentum transfer when that is recorded. *)
Lemma mc_next_scatter_parts (g : R) (dir : FLOAT3) (d : draws)
                            (ismomentum : bool) (pmom0 : R) :
  mc_next_scatter EPS g dir d ismomentum pmom0 =
  (scatlen d,
   scatter_rotate EPS dir (snd (fst (scatter_azimuth d)))
                  (snd (scatter_azimuth d))
                  (snd (fst (scatter_polar EPS g d)))
                  (snd (scatter_polar EPS g d)),
   if ismomentum then pmom0 + (1 - snd (scatter_polar EPS g d)) else pmom0).
Proof.
  unfold mc_next_scatter. cbv zeta.
  destruct (scatter_azimuth d) as [[phi sphi] cphi].
  destruct (scatter_polar EPS g d) as [[theta stheta] ctheta].
  reflexivity.
Qed.

(** The cosine sampled for [g > EPS] is the clamped Henyey-Greenstein
    value. *)
Lemma scatter_polar_hg (g : R) (d : draws) :
  EPS < g ->
  let c := clamp1 (hg_cosine g (zangle d)) in
  scatter_polar EPS g d = (acos c, sqrt (1 - c * c), c).
Proof.
  intros Hg c. unfold scatter_polar.
  destruct (Rgt_dec g EPS) as [_|Hn]; [|lra].
  cbv zeta.
  pose proof (clamp_tests
    ((1 + g * g - (1 - g * g) / (1 - g + 2 * g * zangle d)
                  * ((1 - g * g) / (1 - g + 2 * g * zangle d)))
     / (2 * g))) as Hc.
  cbv zeta in Hc. rewrite Hc.
  replace ((1 + g * g - (1 - g * g) / (1 - g + 2 * g * zangle d)
                        * ((1 - g * g) / (1 - g + 2 * g * zangle d)))
           / (2 * g))
    with (hg_cosine g (zangle d)); [reflexivity|].
  unfold hg_cosine, Rdiv. simpl pow. ring.
Qed.

(** The cosine sampled for [g <= EPS] is [2 xi - 1]. *)
Lemma scatter_polar_uniform (g : R) (d : draws) :
  g <= EPS -> 0 <= zangle d <= 1 ->
  let c := 2 * zangle d - 1 in
  scatter_polar EPS g d = (acos c, sin (acos c), c).
Proof.
  intros Hg Hxi c. unfold scatter_polar.
  destruct (Rgt_dec g EPS) as [Hgt|_]; [lra|].
  cbv zeta. fold c. rewrite cos_acos by (unfold c; lra). reflexivity.
Qed.

(** On the z axis the rotation writes the two angles as the spherical
    coordinates of the new direction. *)
Lemma scatter_rotate_axis (sphi cphi stheta ctheta : R) :
  0 <= EPS ->
  scatter_rotate EPS (mkFLOAT3 0 0 1) sphi cphi stheta ctheta =
  mkFLOAT3 (stheta * cphi) (stheta * sphi) ctheta.
Proof.
  intros He. unfold scatter_rotate. cbn [fx fy fz].
  destruct (Rgt_dec 1 (-1 + EPS)); [destruct (Rlt_dec 1 (1 - EPS)); [lra|]|];
    destruct (Rgt_dec 1 0); try lra; reflexivity.
Qed.

(** C3.  What [mc_next_scatter] returns, in terms of its three draws.  With
    [phi = 2 pi xi'] for the draw [xi'] of the azimuth, in [0, 2 pi) for
    [xi'] in [0, 1): for [g > EPS] the cosine of the polar angle is the
    Henyey-Greenstein value
    [1/(2g) (1 + g^2 - ((1 - g^2)/(1 - g + 2 g xi))^2)] of the draw [xi],
    brought into [-1, 1], and its sine is [sqrt (1 - ctheta^2)]; for
    [g <= EPS] the cosine is [2 xi - 1], which runs over [-1, 1] uniformly
    as [xi] runs over [0, 1].  These are the angles the function uses: it
    returns the drawn scattering length, the old direction rotated by the
    sines and cosines of [phi] and of the polar angle, and the momentum
    transfer raised by [1 - ctheta] when that is recorded; from the z axis
    the new direction is [(stheta cos phi, stheta sin phi, ctheta)]. *)
Theorem mc_next_scatter_angles (g : R) (dir : FLOAT3) (d : draws)
                               (ismomentum : bool) (pmom0 : R) :
  let phi := 2 * PI * aangle d in
  let r := mc_next_scatter EPS g dir d ismomentum pmom0 in
  (EPS < g ->
   let ctheta := clamp1 (hg_cosine g (zangle d)) in
   let stheta := sqrt (1 - ctheta * ctheta) in
   r = (scatlen d,
        scatter_rotate EPS dir (sin phi) (cos phi) stheta ctheta,
        if ismomentum then pmom0 + (1 - ctheta) else pmom0) /\
   -1 <= ctheta <= 1 /\
   (0 <= EPS -> dir = mkFLOAT3 0 0 1 ->
    snd (fst r) = mkFLOAT3 (stheta * cos phi) (stheta * sin phi) ctheta)) /\
  (g <= EPS -> 0 <= zangle d <= 1 ->
   let ctheta := 2 * zangle d - 1 in
   let stheta := sin (acos ctheta) in
   r = (scatlen d,
        scatter_rotate EPS dir (sin phi) (cos phi) stheta ctheta,
        if ismomentum then pmom0 + (1 - ctheta) else pmom0) /\
   -1 <= ctheta <= 1 /\
   (0 <= EPS -> dir = mkFLOAT3 0 0 1 ->
    snd (fst r) = mkFLOAT3 (stheta * cos phi) (stheta * sin phi) ctheta)) /\
  (0 <= aangle d < 1 -> 0 <= phi < 2 * PI).
Proof.
  intros phi r.
  assert (Hr : r = (scatlen d,
                    scatter_rotate EPS dir (sin phi) (cos phi)
                      (snd (fst (scatter_polar EPS g d)))
                      (snd (scatter_polar EPS g d)),
                    if ismomentum
                    then pmom0 + (1 - snd (scatter_polar EPS g d))
                    else pmom0)).
  { unfold r. rewrite mc_next_scatter_parts.
    unfold scatter_azimuth, TWO_PI. reflexivity. }
  split; [|split].
  - intros Hg. cbv zeta.
    pose proof (scatter_polar_hg g d Hg) as Hp. cbv zeta in Hp.
    rewrite Hp in Hr. cbn [fst snd] in Hr.
    split; [exact Hr|]. split; [apply clamp1_range|].
    intros He ->. rewrite Hr. cbn [fst snd].
    now apply scatter_rotate_axis.
  - intros Hg Hxi. cbv zeta.
    pose proof (scatter_polar_uniform g d Hg Hxi) as Hp. cbv zeta in Hp.
    rewrite Hp in Hr. cbn [fst snd] in Hr.
    split; [exact Hr|]. split; [lra|].
    intros He ->. rewrite Hr. cbn [fst snd].
    now apply scatter_rotate_axis.
  - intros Ha. unfold phi. pose proof PI_RGT_0. split; nra.
Qed.

End ScatterProps.

Section ScatterNorm.

Variable EPS : R.
Hypothesis EPS_nonneg : 0 <= EPS.

Lemma vec_norm_1 (v : FLOAT3) :
  vec_norm v = 1 <-> fx v * fx v + fy v * fy v + fz v * fz v = 1.
Proof.
  unfold vec_norm. split; intros H.
  - assert (Hs : 0 <= fx v * fx v + fy v * fy v + fz v * fz v) by nra.
    rewrite <- (sqrt_sqrt _ Hs), H. ring.
  - rewrite H. apply sqrt_1.
Qed.

(** The sampled polar angle has [stheta^2 + ctheta^2 = 1]. *)
Lemma scatter_polar_unit (g : R) (d : draws) :
  let '(_, stheta, ctheta) := scatter_polar EPS g d in
  stheta * stheta + ctheta * ctheta = 1.
Proof.
  unfold scatter_polar. destruct (Rgt_dec g EPS).
  - cbv zeta.
    pose proof (clamp_tests
      ((1 + g * g - (1 - g * g) / (1 - g + 2 * g * zangle d)
                    * ((1 - g * g) / (1 - g + 2 * g * zangle d)))
       / (2 * g))) as Hc.
    cbv zeta in Hc. rewrite Hc. clear Hc.
    set (c := clamp1 _). pose proof (clamp1_range
      ((1 + g * g - (1 - g * g) / (1 - g + 2 * g * zangle d)
                    * ((1 - g * g) / (1 - g + 2 * g * zangle d)))
       / (2 * g))) as Hc. fold c in Hc.
    rewrite sqrt_sqrt by nra. ring.
  - cbv zeta. pose proof (sin2_cos2 (acos (2 * zangle d - 1))) as H.
    unfold Rsqr in H. exact H.
Qed.

(** The rotation keeps the length 1, whatever the angles. *)
Lemma scatter_rotate_unit (dir : FLOAT3) (sphi cphi stheta ctheta : R) :
  fx dir * fx dir + fy dir * fy dir + fz dir * fz dir = 1 ->
  sphi * sphi + cphi * cphi = 1 ->
  stheta * stheta + ctheta * ctheta = 1 ->
  let p := scatter_rotate EPS dir sphi cphi stheta ctheta in
  fx p * fx p + fy p * fy p + fz p * fz p = 1.
Proof.
  intros Hd Hp Ht. unfold scatter_rotate.
  destruct dir as [x y z]. cbn [fx fy fz] in *.
  destruct (Rgt_dec z (-1 + EPS)) as [Hlo|Hlo].
  - destruct (Rlt_dec z (1 - EPS)) as [Hhi|Hhi].
    + (* the general branch: |z| < 1 *)
      cbv zeta. cbn [fx fy fz].
      assert (Hw : 0 < 1 - z * z) by nra.
      set (u := 1 / sqrt (1 - z * z)).
      assert (Hu : u * u * (1 - z * z) = 1).
      { unfold u. pose proof (sqrt_lt_R0 _ Hw) as Hq.
        pose proof (sqrt_sqrt (1 - z * z) ltac:(lra)) as Hqq.
        rewrite <- Hqq at 3. field. lra. }
      nsatz.
    + (* near the axis *)
      cbv zeta. cbn [fx fy fz].
      destruct (Rgt_dec z 0); nsatz.
  - cbv zeta. cbn [fx fy fz].
    destruct (Rgt_dec z 0); nsatz.
Qed.

(** C10.  [mc_next_scatter] keeps the direction a unit vector: for every
    direction of Euclidean norm 1, every [g] and every value of the three
    random draws, the direction written back, by the general rotation or by
    the branch for directions near the z axis, has Euclidean norm 1 (over
    the real numbers, for a round-off limit [EPS] that is not negative). *)
Theorem mc_next_scatter_unit_direction
    (g : R) (dir : FLOAT3) (d : draws) (ismomentum : bool) (pmom0 : R) :
  vec_norm dir = 1 ->
  vec_norm (snd (fst (mc_next_scatter EPS g dir d ismomentum pmom0))) = 1.
Proof.
  intros Hn. apply vec_norm_1 in Hn. apply vec_norm_1.
  unfold mc_next_scatter. cbv zeta.
  unfold scatter_azimuth. cbv zeta.
  pose proof (scatter_polar_unit g d) as Hpol.
  destruct (scatter_polar EPS g d) as [[theta stheta] ctheta].
  cbn [fst snd].
  apply scatter_rotate_unit; [exact Hn| |exact Hpol].
  pose proof (sin2_cos2 (TWO_PI * aangle d)) as H. unfold Rsqr in H.
  exact H.
Qed.

End ScatterNorm.

Lemma mc_next_scatter_unit_direction_witness :
  0 <= 1 / 1000000 /\ vec_norm (mkFLOAT3 0 0 1) = 1 /\
  vec_norm (snd (fst (mc_next_scatter (1 / 1000000) (9 / 10)
                        (mkFLOAT3 0 0 1) (mkDraws 1 (1 / 2) (1 / 2))
                        false 0))) = 1.
Proof.
  assert (He : 0 <= 1 / 1000000) by lra.
  assert (Hn : vec_norm (mkFLOAT3 0 0 1) = 1).
  { unfold vec_norm. cbn [fx fy fz].
    replace (0 * 0 + 0 * 0 + 1 * 1) with 1 by ring. apply sqrt_1. }
  split; [exact He|]. split; [exact Hn|].
  exact (mc_next_scatter_unit_direction (1 / 1000000) He (9 / 10)
           (mkFLOAT3 0 0 1) (mkDraws 1 (1 / 2) (1 / 2)) false 0 Hn).
Defined.

Lemma mc_next_scatter_angles_witness :
  1 / 1000000 < 9 / 10 /\
  snd (mc_next_scatter (1 / 1000000) (9 / 10) (mkFLOAT3 0 0 1)
                       (mkDraws 1 (1 / 2) (1 / 2)) true 0)
  = 0 + (1 - clamp1 (hg_cosine (9 / 10) (1 / 2))).
Proof.
  assert (Hg : 1 / 1000000 < 9 / 10) by lra.
  split; [exact Hg|].
  pose proof (mc_next_scatter_angles (1 / 1000000) (9 / 10) (mkFLOAT3 0 0 1)
                (mkDraws 1 (1 / 2) (1 / 2)) true 0) as H.
  cbv zeta in H. destruct H as (H & _ & _).
  destruct (H Hg) as (Hr & _ & _). rewrite Hr. reflexivity.
Defined.

(** ** The effective reflection coefficient *)

Lemma sin_lb_poly (a : R) :
  sin_lb a = a - a ^ 3 / 6 + a ^ 5 / 120 - a ^ 7 / 5040.
Proof.
  unfold sin_lb, sin_approx, sin_term. cbn [sum_f_R0 Nat.mul Nat.add].
  replace (INR (fact 1)) with 1 by (cbn; lra).
  replace (INR (fact 3)) with 6
    by (change (fact 3) with (3 * (2 * 1))%nat; rewrite !mult_INR;
        cbn [INR]; lra).
  replace (INR (fact 5)) with 120
    by (change (fact 5) with (5 * (4 * (3 * (2 * 1))))%nat;
        rewrite !mult_INR; cbn [INR]; lra).
  replace (INR (fact 7)) with 5040
    by (change (fact 7) with (7 * (6 * (5 * (4 * (3 * (2 * 1))))))%nat;
        rewrite !mult_INR; cbn [INR]; lra).
  cbn [pow]. field.
Qed.

Lemma cos_ub_poly (a : R) :
  cos_ub a = 1 - a ^ 2 / 2 + a ^ 4 / 24 - a ^ 6 / 720 + a ^ 8 / 40320.
Proof.
  unfold cos_ub, cos_approx, cos_term. cbn [sum_f_R0 Nat.mul Nat.add].
  replace (INR (fact 0)) with 1 by (cbn; lra).
  replace (INR (fact 2)) with 2 by (cbn; lra).
  replace (INR (fact 4)) with 24
    by (change (fact 4) with (4 * (3 * (2 * 1)))%nat; rewrite !mult_INR;
        cbn [INR]; lra).
  replace (INR (fact 6)) with 720
    by (change (fact 6) with (6 * (5 * (4 * (3 * (2 * 1)))))%nat;
        rewrite !mult_INR; cbn [INR]; lra).
  replace (INR (fact 8)) with 40320
    by (change (fact 8) with (8 * (7 * (6 * (5 * (4 * (3 * (2 * 1)))))))%nat;
        rewrite !mult_INR; cbn [INR]; lra).
  cbn [pow]. field.
Qed.

(** [tan h > h] on the first quadrant, without the division. *)
Lemma x_cos_lt_sin (h : R) : 0 < h -> h <= PI / 2 -> h * cos h < sin h.
Proof.
  intros H0 H1.
  pose proof PI_4 as Hpi. pose proof PI_RGT_0 as Hpi0.
  destruct (SIN h ltac:(lra) ltac:(lra)) as [Hs _].
  destruct (COS h ltac:(lra) H1) as [_ Hc].
  rewrite sin_lb_poly in Hs. rewrite cos_ub_poly in Hc.
  apply Rlt_le_trans with (2 := Hs).
  apply Rle_lt_trans
    with (h * (1 - h ^ 2 / 2 + h ^ 4 / 24 - h ^ 6 / 720 + h ^ 8 / 40320)).
  - apply Rmult_le_compat_l; lra.
  - assert (E : h - h ^ 3 / 6 + h ^ 5 / 120 - h ^ 7 / 5040
                - h * (1 - h ^ 2 / 2 + h ^ 4 / 24 - h ^ 6 / 720
                       + h ^ 8 / 40320)
                = h ^ 3 * (1 / 3 - h ^ 2 / 30 + h ^ 4 / 840 - h ^ 6 / 40320))
      by field.
    assert (Hh2 : 0 < h ^ 2 <= 4) by nra.
    assert (Hh3 : 0 < h ^ 3) by (apply pow_lt; lra).
    assert (Hq : 0 < 1 / 3 - h ^ 2 / 30 + h ^ 4 / 840 - h ^ 6 / 40320).
    { set (q := h ^ 2) in *.
      replace (h ^ 4) with (q * q) by (unfold q; ring).
      replace (h ^ 6) with (q * q * q) by (unfold q; ring). nra. }
    nra.
Qed.

(** The square of [(a - b) / (a + b)] for [a], [b] not negative and not
    both 0. *)
Lemma fresnel_ratio_range (a b : R) :
  0 <= a -> 0 <= b -> 0 < a + b ->
  0 <= (a - b) / (a + b) * ((a - b) / (a + b)) <= 1.
Proof.
  intros Ha Hb Hab. set (t := (a - b) / (a + b)).
  assert (Ht : t * (a + b) = a - b) by (unfold t; field; lra).
  assert (H1 : t <= 1) by nra.
  assert (H2 : -1 <= t) by nra.
  nra.
Qed.

Lemma r_fres_range (n_in n_out oc o : R) :
  0 < n_in -> 0 < n_out -> 0 < cos o ->
  0 <= r_fres n_in n_out oc o <= 1.
Proof.
  intros Hi Ho Hc. unfold r_fres. cbv zeta.
  destruct (Rlt_dec o oc); [|lra].
  set (cosop := sqrt (1 - n_in * sin o * (n_in * sin o))).
  assert (Hp : 0 <= cosop) by apply sqrt_pos.
  pose proof (fresnel_ratio_range (n_in * cosop) (n_out * cos o)
                ltac:(nra) ltac:(nra) ltac:(nra)) as H1.
  pose proof (fresnel_ratio_range (n_in * cos o) (n_out * cosop)
                ltac:(nra) ltac:(nra) ltac:(nra)) as H2.
  lra.
Qed.

Section GetreffProps.

Variables n_in n_out oc : R.
Variable N : nat.
Hypothesis N_pos : (1 <= N)%nat.
Hypothesis n_in_pos : 0 < n_in.
Hypothesis n_out_pos : 0 < n_out.

Let h : R := PI / (2 * INR N).

Lemma ostep_facts : 0 < h /\ h <= PI / 2 /\ INR N * h = PI / 2.
Proof.
  pose proof PI_RGT_0 as Hpi.
  assert (HN : 1 <= INR N) by (change 1 with (INR 1); apply le_INR, N_pos).
  unfold h. split; [|split].
  - apply Rdiv_lt_0_compat; lra.
  - apply (Rmult_le_reg_r (2 * INR N)); [lra|].
    replace (PI / (2 * INR N) * (2 * INR N)) with PI by (field; lra).
    nra.
  - field. lra.
Qed.

Lemma angle_range (k : nat) :
  (k < N)%nat -> 0 <= INR k * h < PI / 2.
Proof.
  intros Hk. destruct ostep_facts as (H0 & _ & HN).
  pose proof (pos_INR k) as Hk0.
  assert (Hlt : INR k < INR N) by (apply lt_INR, Hk).
  split; [nra|]. rewrite <- HN. nra.
Qed.

(** [cos ((2k - 1) h) - cos ((2k + 1) h) = 2 sin (2 k h) sin h]. *)
Lemma cos_telescope (k : nat) :
  cos ((2 * INR k - 1) * h) - cos ((2 * INR (S k) - 1) * h) =
  2 * (2 * sin (INR k * h) * cos (INR k * h)) * sin h.
Proof.
  rewrite S_INR.
  replace ((2 * INR k - 1) * h) with (2 * (INR k * h) - h) by ring.
  replace ((2 * (INR k + 1) - 1) * h) with (2 * (INR k * h) + h) by ring.
  rewrite cos_minus, cos_plus, sin_2a. ring.
Qed.

(** The upper invariant of the quadrature loop: both sums are non-negative
    and the first is at most the sum of [sin (2 i h)], in closed form. *)
Lemma getreff_loop_upper (k : nat) :
  (k <= N)%nat ->
  let s := for_loop k (getreff_step n_in n_out oc h) (0, 0) in
  0 <= fst s /\ 0 <= snd s /\
  2 * sin h * fst s <= cos h - cos ((2 * INR k - 1) * h).
Proof.
  induction k as [|k IH]; intros Hk.
  - simpl. replace ((2 * 0 - 1) * h) with (- h) by ring.
    rewrite cos_neg. lra.
  - specialize (IH ltac:(lia)). cbv zeta in IH |- *. simpl for_loop.
    destruct (for_loop k (getreff_step n_in n_out oc h) (0, 0)) as [p j].
    simpl fst in *. simpl snd in *. destruct IH as (Hp & Hj & Hup).
    unfold getreff_step. cbv zeta. simpl fst. simpl snd.
    destruct (angle_range k ltac:(lia)) as [Ho0 Ho1].
    pose proof PI_RGT_0 as Hpi.
    assert (Hc : 0 < cos (INR k * h)) by (apply cos_gt_0; lra).
    assert (Hs : 0 <= sin (INR k * h)) by (apply sin_ge_0; lra).
    destruct (r_fres_range n_in n_out oc (INR k * h) n_in_pos n_out_pos Hc)
      as [Hr0 Hr1].
    destruct ostep_facts as (Hh0 & Hh1 & _).
    assert (Hsh : 0 < sin h) by (apply sin_gt_0; lra).
    pose proof (cos_telescope k) as Ht.
    set (r := r_fres n_in n_out oc (INR k * h)) in *.
    set (sk := sin (INR k * h)) in *. set (ck := cos (INR k * h)) in *.
    assert (Hsc : 0 <= sk * ck) by nra.
    assert (Hscr : 0 <= sk * ck * r) by nra.
    assert (Hscr1 : sk * ck * r <= sk * ck) by nra.
    split; [nra|]. split; [nra|].
    assert (Hx : 2 * sin h * (2 * sk * ck * r) <= 2 * (2 * sk * ck) * sin h)
      by nra.
    lra.
Qed.

(** The first sum, times the step, stays below 1. *)
Lemma getreff_r_phi_lt_1 :
  fst (for_loop N (getreff_step n_in n_out oc h) (0, 0)) * h < 1.
Proof.
  destruct (getreff_loop_upper N (le_n _)) as (Hp & _ & Hup).
  destruct ostep_facts as (Hh0 & Hh1 & HN).
  pose proof PI_RGT_0 as Hpi.
  set (p := fst (for_loop N (getreff_step n_in n_out oc h) (0, 0))) in *.
  replace ((2 * INR N - 1) * h) with (PI - h) in Hup by lra.
  rewrite Rtrigo_facts.cos_pi_minus in Hup.
  assert (Hsh : 0 < sin h) by (apply sin_gt_0; lra).
  pose proof (x_cos_lt_sin h Hh0 Hh1) as Hx.
  assert (Hps : sin h * p <= cos h) by lra.
  assert (Hphs : sin h * (p * h) <= h * cos h) by nra.
  assert (Hlt : sin h * (p * h) < sin h * 1) by lra.
  apply (Rmult_lt_reg_l (sin h)); assumption.
Qed.

(** The quadrature returns a value in [0, 1). *)
Lemma getreff_with_range :
  oc = asin (1 / n_in) ->
  0 <= getreff_with N n_in n_out < 1.
Proof.
  intros Hoc. unfold getreff_with. cbv zeta. rewrite <- Hoc. fold h.
  pose proof getreff_r_phi_lt_1 as Hlt.
  destruct (getreff_loop_upper N (le_n _)) as (Hp & Hj & _).
  destruct (for_loop N (getreff_step n_in n_out oc h) (0, 0)) as [p j].
  simpl fst in *. simpl snd in *.
  destruct ostep_facts as (Hh0 & _ & _).
  assert (Hph : 0 <= p * h) by nra.
  assert (Hjh : 0 <= j * h) by nra.
  assert (Hden : 0 < 2 - p * h + j * h) by lra.
  split.
  - apply Rmult_le_pos; [lra|]. left. now apply Rinv_0_lt_compat.
  - apply (Rmult_lt_reg_r (2 - p * h + j * h)); [exact Hden|].
    replace ((p * h + j * h) / (2 - p * h + j * h) * (2 - p * h + j * h))
      with (p * h + j * h) by (field; lra).
    lra.
Qed.

End GetreffProps.

(** For every pair of indices with [n_in > n_out >= 1] the value of
    [mesh_getreff] lies in [0, 1). *)
Lemma mesh_getreff_range (n_in n_out : R) :
  n_out < n_in -> 1 <= n_out -> 0 <= mesh_getreff n_in n_out < 1.
Proof.
  intros H1 H2. unfold mesh_getreff.
  apply (getreff_with_range n_in n_out (asin (1 / n_in)) getreff_count).
  - unfold getreff_count. lia.
  - lra.
  - lra.
  - reflexivity.
Qed.

Section GetreffEqualOne.

Variable N : nat.
Hypothesis N_pos : (1 <= N)%nat.

(** With both indices 1 the Fresnel coefficient vanishes below [pi / 2]. *)
Lemma r_fres_1_1 (o : R) :
  0 <= o < PI / 2 -> r_fres 1 1 (PI / 2) o = 0.
Proof.
  intros Ho. unfold r_fres. cbv zeta.
  destruct (Rlt_dec o (PI / 2)) as [_|Hn]; [|lra].
  assert (Hc : 0 < cos o) by (apply cos_gt_0; lra).
  replace (1 - 1 * sin o * (1 * sin o)) with (cos o * cos o).
  - rewrite sqrt_square by lra. unfold Rdiv.
    replace (1 * cos o - 1 * cos o) with 0 by ring. ring.
  - pose proof (sin2_cos2 o) as H. unfold Rsqr in H. lra.
Qed.

Lemma getreff_with_1_1 : getreff_with N 1 1 = 0.
Proof.
  unfold getreff_with. cbv zeta.
  replace (1 / 1) with 1 by field. rewrite asin_1.
  assert (Hloop : forall k, (k <= N)%nat ->
            for_loop k (getreff_step 1 1 (PI / 2) (PI / (2 * INR N))) (0, 0)
            = (0, 0)).
  { induction k as [|k IH]; intros Hk; [reflexivity|].
    simpl for_loop. rewrite IH by lia. unfold getreff_step. cbv zeta.
    rewrite r_fres_1_1 by (apply (angle_range N N_pos); lia).
    f_equal; ring. }
  rewrite (Hloop N (le_n _)). unfold Rdiv. ring.
Qed.

End GetreffEqualOne.

(** With both indices equal to 1 [mesh_getreff] returns 0. *)
Lemma mesh_getreff_1_1 : mesh_getreff 1 1 = 0.
Proof.
  unfold mesh_getreff. apply getreff_with_1_1. unfold getreff_count. lia.
Qed.

Section GetreffMatched.

Variables n_in n_out oc : R.
Variable K0 : nat.
Hypothesis K0_pos : (1 <= K0)%nat.
Hypothesis n_in_pos : 0 < n_in.
Hypothesis n_out_pos : 0 < n_out.

Let N : nat := (2 * K0)%nat.
Let h : R := PI / (2 * INR N).

(** The critical angle is at most [pi / 4], the angle of step [K0]. *)
Hypothesis oc_small : oc <= PI / 4.

Lemma N_pos_matched : (1 <= N)%nat.
Proof. unfold N. lia. Qed.

Lemma half_angle : INR K0 * h = PI / 4.
Proof.
  destruct (ostep_facts N N_pos_matched) as (_ & _ & HN). fold h in HN.
  unfold N in HN. rewrite mult_INR in HN. simpl INR in HN. lra.
Qed.

(** From step [K0] on the Fresnel coefficient is 1, so the first sum grows
    by [2 sin o cos o] at every step. *)
Lemma getreff_loop_lower (d : nat) :
  (K0 + d <= N)%nat ->
  cos ((2 * INR K0 - 1) * h) - cos ((2 * INR (K0 + d) - 1) * h) <=
  2 * sin h * fst (for_loop (K0 + d) (getreff_step n_in n_out oc h) (0, 0)).
Proof.
  destruct (ostep_facts N N_pos_matched) as (Hh0 & Hh1 & HN).
  fold h in Hh0, Hh1, HN. pose proof PI_RGT_0 as Hpi.
  assert (Hsh : 0 < sin h) by (apply sin_gt_0; lra).
  induction d as [|d IH]; intros Hd.
  - rewrite Nat.add_0_r.
    destruct (getreff_loop_upper n_in n_out oc N N_pos_matched n_in_pos
                n_out_pos K0 ltac:(unfold N; lia)) as (Hp & _ & _).
    fold h in Hp. nra.
  - specialize (IH ltac:(lia)).
    replace (K0 + S d)%nat with (S (K0 + d)) by lia. simpl for_loop.
    pose proof (cos_telescope N (K0 + d)) as Ht. fold h in Ht.
    destruct (for_loop (K0 + d) (getreff_step n_in n_out oc h) (0, 0))
      as [p j].
    simpl fst in *. unfold getreff_step. cbv zeta. simpl fst.
    assert (Hr : r_fres n_in n_out oc (INR (K0 + d) * h) = 1).
    { unfold r_fres. cbv zeta.
      destruct (Rlt_dec (INR (K0 + d) * h) oc) as [Hlt|_]; [|reflexivity].
      exfalso. pose proof half_angle as Hq.
      assert (Hle : INR K0 <= INR (K0 + d)) by (apply le_INR; lia).
      nra. }
    rewrite Hr. lra.
Qed.

(** The first sum, times the step, is at least 1/4. *)
Lemma getreff_r_phi_ge_quarter :
  1 / 4 <= fst (for_loop N (getreff_step n_in n_out oc h) (0, 0)) * h.
Proof.
  destruct (ostep_facts N N_pos_matched) as (Hh0 & Hh1 & HN).
  fold h in Hh0, Hh1, HN. pose proof PI_RGT_0 as Hpi.
  pose proof half_angle as Hq.
  pose proof (getreff_loop_lower K0 ltac:(unfold N; lia)) as Hlow.
  replace (K0 + K0)%nat with N in Hlow by (unfold N; lia).
  set (p := fst (for_loop N (getreff_step n_in n_out oc h) (0, 0))) in *.
  replace ((2 * INR K0 - 1) * h) with (PI / 2 - h) in Hlow by lra.
  replace ((2 * INR N - 1) * h) with (PI - h) in Hlow by lra.
  rewrite cos_shift, Rtrigo_facts.cos_pi_minus in Hlow.
  assert (Hsh : 0 < sin h) by (apply sin_gt_0; lra).
  assert (Hsx : sin h < h) by (apply sin_lt_x; lra).
  assert (HK : 1 <= INR K0) by (change 1 with (INR 1); apply le_INR, K0_pos).
  assert (Hh4 : h <= PI / 4) by nra.
  assert (Hch : 1 / 2 <= cos h).
  { rewrite <- cos_PI3. apply cos_decr_1; lra. }
  assert (Hp : 0 <= p).
  { destruct (getreff_loop_upper n_in n_out oc N N_pos_matched n_in_pos
                n_out_pos N (le_n _)) as (Hp & _ & _).
    exact Hp. }
  assert (H1 : sin h * (1 / 2) <= sin h * (2 * (p * h))).
  { assert (2 * sin h * p * h >= (sin h + cos h) * h) by nra.
    nra. }
  apply Rmult_le_reg_l in H1; [lra|exact Hsh].
Qed.

(** So the quadrature returns at least 1/7. *)
Lemma getreff_with_large_index :
  oc = asin (1 / n_in) -> 1 / 7 <= getreff_with N n_in n_out.
Proof.
  intros Hoc. unfold getreff_with. cbv zeta. rewrite <- Hoc. fold h.
  pose proof getreff_r_phi_ge_quarter as Hge.
  pose proof (getreff_r_phi_lt_1 n_in n_out oc N N_pos_matched n_in_pos
                n_out_pos) as Hlt.
  fold h in Hlt.
  destruct (getreff_loop_upper n_in n_out oc N N_pos_matched n_in_pos
              n_out_pos N (le_n _)) as (_ & Hj & _).
  fold h in Hj.
  destruct (for_loop N (getreff_step n_in n_out oc h) (0, 0)) as [p j].
  simpl fst in *. simpl snd in *.
  destruct (ostep_facts N N_pos_matched) as (Hh0 & _ & _). fold h in Hh0.
  assert (Hjh : 0 <= j * h) by nra.
  assert (Hden : 0 < 2 - p * h + j * h) by lra.
  apply (Rmult_le_reg_r (2 - p * h + j * h)); [exact Hden|].
  replace ((p * h + j * h) / (2 - p * h + j * h) * (2 - p * h + j * h))
    with (p * h + j * h) by (field; lra).
  lra.
Qed.

End GetreffMatched.

(** C5, at equal indices above 1.  For [n_in = n_out = 2] the critical angle
    is [asin (1 / 2) = pi / 6] whatever [n_out] is, the Fresnel coefficient is
    1 at every angle from [pi / 4] on, and [mesh_getreff] returns at least
    1/7, not a value near 0. *)
Theorem mesh_getreff_equal_indices : 1 / 7 <= mesh_getreff 2 2.
Proof.
  unfold mesh_getreff.
  change getreff_count with (2 * 500)%nat.
  apply (getreff_with_large_index 2 2 (asin (1 / 2)) 500).
  - lia.
  - lra.
  - lra.
  - rewrite <- sin_PI6, asin_sin.
    + pose proof PI_RGT_0. lra.
    + pose proof PI_RGT_0. lra.
  - reflexivity.
Qed.

(** [mesh_getreff_approx], next to it in the source, depends on the ratio
    [n_in / n_out] only and is near 0 for equal indices. *)
Lemma mesh_getreff_approx_equal_indices (n : R) :
  n <> 0 -> mesh_getreff_approx n n = 16 / 10000.
Proof.
  intros Hn. unfold mesh_getreff_approx. cbv zeta.
  replace (n / n) with 1 by (field; exact Hn). field.
Qed.

(* ------------------------------------------------------------------------- *)
(** * Further properties *)

(** ** Volumes and barycentric weights *)

Lemma signed_volume6_triple (n0 n1 n2 n3 : FLOAT3) :
  signed_volume6 n0 n1 n2 n3 = triple_product n0 n1 n3 n2.
Proof.
  unfold signed_volume6, triple_product, vec_dot3, vec_cross3, vec_diff3.
  cbv zeta. cbn [fx fy fz]. ring.
Qed.

Lemma triple_product_swap (n0 n1 n2 n3 : FLOAT3) :
  triple_product n0 n1 n3 n2 = - triple_product n0 n1 n2 n3.
Proof.
  unfold triple_product, vec_dot3, vec_cross3, vec_diff3. cbn [fx fy fz].
  ring.
Qed.

Lemma upd_nth_same {A : Type} (l : list A) (i : nat) (d : A) :
  upd l i (nth i l d) = l.
Proof.
  revert i. induction l as [|x t IH]; intros [|i]; simpl; auto.
  now rewrite IH.
Qed.

Lemma swap23_nth (ee : list Z) :
  (4 <= length ee)%nat ->
  nth 0 (swap23 ee) 0%Z = nth 0 ee 0%Z /\
  nth 1 (swap23 ee) 0%Z = nth 1 ee 0%Z /\
  nth 2 (swap23 ee) 0%Z = nth 3 ee 0%Z /\
  nth 3 (swap23 ee) 0%Z = nth 2 ee 0%Z.
Proof.
  intros H. unfold swap23.
  destruct ee as [|a [|b [|c [|d t]]]]; simpl in H; try lia.
  simpl. auto.
Qed.

Lemma elem_signed6_swap (m : tetmesh) (ee : list Z) :
  (4 <= length ee)%nat ->
  elem_signed6 m (swap23 ee) = - elem_signed6 m ee.
Proof.
  intros H. destruct (swap23_nth ee H) as (H0 & H1 & H2 & H3).
  unfold elem_signed6. rewrite H0, H1, H2, H3.
  rewrite !signed_volume6_triple. rewrite <- triple_product_swap.
  rewrite triple_product_swap, triple_product_swap. ring.
Qed.

(** After the sign test the signed product of the row is not negative, so
    the test leaves the row and its volume as they are. *)
Lemma elem_fixed_stable (m : tetmesh) (ee : list Z) :
  (4 <= length ee)%nat ->
  0 <= elem_signed6 m (elem_fixed m ee) /\
  elem_fixed m (elem_fixed m ee) = elem_fixed m ee /\
  elem_volume m (elem_fixed m ee) = elem_volume m ee.
Proof.
  intros H. unfold elem_fixed, elem_volume.
  destruct (Rlt_dec (elem_signed6 m ee) 0) as [Hneg|Hpos].
  - rewrite (elem_signed6_swap m ee H).
    destruct (Rlt_dec (- elem_signed6 m ee) 0); [lra|].
    repeat split; auto. lra.
  - destruct (Rlt_dec (elem_signed6 m ee) 0); [contradiction|].
    repeat split; auto. lra.
Qed.

Lemma swap23_length (ee : list Z) : length (swap23 ee) = length ee.
Proof. unfold swap23. now rewrite !upd_length. Qed.

Lemma swap23_rest (ee : list Z) (j : nat) :
  (4 <= j)%nat -> nth j (swap23 ee) 0%Z = nth j ee 0%Z.
Proof.
  intros Hj. unfold swap23. cbv zeta.
  rewrite !nth_upd_other by lia. reflexivity.
Qed.

(** C1.  After [mesh_getvolume], on a mesh whose elements name existing
    nodes.  Let [s] be the signed triple product of an element as the code
    forms it: with the edges [e1], [e2], [e3] from node 0 to the 2nd, 3rd
    and 4th node, [s = e1 . (e3 x e2)].  Every element volume is
    non-negative.  An element with [s < 0] has its 3rd and 4th node index
    exchanged and stores [- s / 6]; any other element keeps its nodes and
    stores [s / 6]; the other node indices of a row are never touched.  Every
    node volume is the sum, over the elements whose region id is not 0, of
    one quarter of the element volume for every position at which the
    element holds the node. *)
Theorem mesh_getvolume_volumes (m : tetmesh) :
  elements_ok m ->
  let m' := mesh_getvolume m in
  (forall i, (i < m_ne m)%nat -> 0 <= nth i (m_evol m') 0) /\
  (forall i, (i < m_ne m)%nat ->
     let ee := nth i (m_elem m) [] in
     let ee' := nth i (m_elem m') [] in
     let s := triple_product (row_node m ee 0) (row_node m ee 1)
                             (row_node m ee 3) (row_node m ee 2) in
     length ee' = length ee /\
     nth 0 ee' 0%Z = nth 0 ee 0%Z /\ nth 1 ee' 0%Z = nth 1 ee 0%Z /\
     (forall j, (4 <= j)%nat -> nth j ee' 0%Z = nth j ee 0%Z) /\
     (s < 0 ->
      nth 2 ee' 0%Z = nth 3 ee 0%Z /\ nth 3 ee' 0%Z = nth 2 ee 0%Z /\
      nth i (m_evol m') 0 = - s * (1 / 6)) /\
     (0 <= s ->
      nth 2 ee' 0%Z = nth 2 ee 0%Z /\ nth 3 ee' 0%Z = nth 3 ee 0%Z /\
      nth i (m_evol m') 0 = s * (1 / 6))) /\
  (forall n, (n < m_nn m)%nat ->
     nth n (m_nvol m') 0 =
     incident_sum (m_elem m') (m_type m') (m_evol m') (m_elemlen m') n
                  (m_ne m')).
Proof.
  intros Hok m'. subst m'. unfold mesh_getvolume.
  pose proof (getvolume_inv m (m_ne m) Hok (le_n _)) as Hinv.
  destruct (for_loop (m_ne m) (getvolume_step m) _) as [[elem evol] nvol].
  destruct Hinv as (Hl1 & Hl2 & Hl3 & Hel & Hev & Hnv).
  destruct Hok as (Hle & _ & H4 & Hrows).
  cbn [m_evol m_elem m_nvol m_type m_elemlen m_ne set_volumes].
  split; [|split].
  - intros i Hi. rewrite Hev by exact Hi. apply elem_volume_nonneg.
  - intros i Hi. cbv zeta. rewrite Hel, Hev by exact Hi.
    replace (i <? m_ne m)%nat with true
      by (symmetry; apply Nat.ltb_lt; exact Hi).
    set (ee := nth i (m_elem m) []).
    assert (Hlen : (4 <= length ee)%nat).
    { pose proof (Forall_nth_default _ (m_elem m) i [] Hrows
                    ltac:(lia)) as [Hrl _].
      fold ee in Hrl. lia. }
    assert (Hs : elem_signed6 m ee =
                 triple_product (row_node m ee 0) (row_node m ee 1)
                                (row_node m ee 3) (row_node m ee 2)).
    { unfold elem_signed6, row_node. apply signed_volume6_triple. }
    rewrite <- Hs. unfold elem_fixed, elem_volume.
    destruct (swap23_nth ee Hlen) as (S0 & S1 & S2 & S3).
    destruct (Rlt_dec (elem_signed6 m ee) 0) as [Hneg|Hpos].
    + split; [apply swap23_length|]. split; [exact S0|].
      split; [exact S1|]. split; [intros j Hj; now apply swap23_rest|].
      split; [|intros; lra].
      intros _. split; [exact S2|]. split; [exact S3|reflexivity].
    + split; [reflexivity|]. split; [reflexivity|].
      split; [reflexivity|]. split; [reflexivity|].
      split; [intros; lra|].
      intros _. split; [reflexivity|]. split; reflexivity.
  - exact Hnv.
Qed.

Lemma marked_mesh_elements_ok : elements_ok marked_mesh.
Proof.
  unfold elements_ok. simpl.
  split; [reflexivity|]. split; [reflexivity|]. split; [lia|].
  repeat constructor; lia.
Qed.

Lemma mesh_getvolume_volumes_witness :
  elements_ok marked_mesh /\
  nth 2 (nth 0 (m_elem (mesh_getvolume marked_mesh)) []) 0%Z = 4%Z /\
  nth 3 (nth 0 (m_elem (mesh_getvolume marked_mesh)) []) 0%Z = 3%Z /\
  nth 0 (m_evol (mesh_getvolume marked_mesh)) 0 = 1 / 6.
Proof.
  split; [exact marked_mesh_elements_ok|].
  destruct (mesh_getvolume_volumes marked_mesh marked_mesh_elements_ok)
    as (_ & H & _).
  specialize (H 0%nat ltac:(simpl; lia)). cbv zeta in H.
  destruct H as (_ & _ & _ & _ & Hneg & _).
  change (nth 0 (m_elem marked_mesh) []) with [1; 2; 3; 4]%Z in Hneg.
  change (row_node marked_mesh [1; 2; 3; 4]%Z 0) with (mkFLOAT3 0 0 0)
    in Hneg.
  change (row_node marked_mesh [1; 2; 3; 4]%Z 1) with (mkFLOAT3 1 0 0)
    in Hneg.
  change (row_node marked_mesh [1; 2; 3; 4]%Z 3) with (mkFLOAT3 0 0 1)
    in Hneg.
  change (row_node marked_mesh [1; 2; 3; 4]%Z 2) with (mkFLOAT3 0 1 0)
    in Hneg.
  unfold triple_product, vec_dot3, vec_cross3, vec_diff3 in Hneg.
  cbn [fx fy fz nth] in Hneg.
  destruct (Hneg ltac:(lra)) as (H2 & H3 & Hv).
  split; [exact H2|]. split; [exact H3|]. rewrite Hv. lra.
Defined.

(** X1.  The volume that [mesh_getvolume] stores for an element is one sixth
    of the absolute value of the scalar triple product of its three edges
    from node 0. *)
Theorem mesh_getvolume_triple_product (m : tetmesh) (i : nat) :
  elements_ok m -> (i < m_ne m)%nat ->
  let row := nth i (m_elem m) [] in
  nth i (m_evol (mesh_getvolume m)) 0 =
  Rabs (triple_product (row_node m row 0) (row_node m row 1)
                       (row_node m row 2) (row_node m row 3)) / 6.
Proof.
  intros Hok Hi row. unfold mesh_getvolume.
  pose proof (getvolume_inv m (m_ne m) Hok (le_n _)) as Hinv.
  destruct (for_loop (m_ne m) (getvolume_step m) _) as [[elem evol] nvol].
  destruct Hinv as (_ & _ & _ & _ & Hev & _). simpl.
  rewrite (Hev i Hi). fold row. unfold elem_volume, elem_signed6.
  rewrite signed_volume6_triple, triple_product_swap. unfold row_node.
  set (t := triple_product _ _ _ _).
  destruct (Rlt_dec (- t) 0).
  - rewrite Rabs_right by lra. lra.
  - rewrite Rabs_left1 by lra. lra.
Qed.

Lemma mesh_getvolume_triple_product_witness :
  elements_ok unit_tet /\ (0 < m_ne unit_tet)%nat /\
  0 <= nth 0 (m_evol (mesh_getvolume unit_tet)) 0.
Proof.
  assert (H0 : (0 < m_ne unit_tet)%nat) by (simpl; lia).
  split; [exact unit_tet_elements_ok|]. split; [exact H0|].
  rewrite (mesh_getvolume_triple_product unit_tet 0 unit_tet_elements_ok H0).
  apply Rmult_le_pos; [apply Rabs_pos|lra].
Defined.

Lemma getvolume_step_same_mesh (m m' : tetmesh) (i : nat)
                               (s : list (list Z) * list R * list R) :
  m_node m' = m_node m -> m_type m' = m_type m ->
  m_elemlen m' = m_elemlen m ->
  getvolume_step m' i s = getvolume_step m i s.
Proof.
  intros Hn Ht Hl. destruct s as [[elem evol] nvol].
  unfold getvolume_step, elem_signed6, node_at. rewrite Hn, Ht, Hl.
  reflexivity.
Qed.

(** A second run of the loop of [mesh_getvolume], started on the rows the
    first run left, goes through the same volumes and leaves the rows
    alone. *)
Lemma getvolume_second_run (m : tetmesh) (k : nat) :
  elements_ok m -> (k <= m_ne m)%nat ->
  let e0 := repeat 0 (m_ne m) in
  let n0 := repeat 0 (m_nn m) in
  let el := fst (fst (for_loop (m_ne m) (getvolume_step m)
                               (m_elem m, e0, n0))) in
  let s1 := for_loop k (getvolume_step m) (m_elem m, e0, n0) in
  for_loop k (getvolume_step m) (el, e0, n0) = (el, snd (fst s1), snd s1).
Proof.
  intros Hok Hk e0 n0 el s1. subst s1.
  pose proof (getvolume_inv m (m_ne m) Hok (le_n _)) as Hfin.
  fold e0 n0 in Hfin.
  assert (Hel : forall i, nth i el [] =
            if (i <? m_ne m)%nat then elem_fixed m (nth i (m_elem m) [])
            else nth i (m_elem m) []).
  { unfold el.
    destruct (for_loop (m_ne m) (getvolume_step m) (m_elem m, e0, n0))
      as [[a b] c].
    destruct Hfin as (_ & _ & _ & H & _). exact H. }
  clear Hfin. destruct Hok as (Hle & Hlt & H4 & Hrows).
  induction k as [|k IH]; [reflexivity|].
  specialize (IH ltac:(lia)). simpl for_loop. rewrite IH.
  pose proof (getvolume_inv m k (conj Hle (conj Hlt (conj H4 Hrows)))
                ltac:(lia)) as Hk1.
  fold e0 n0 in Hk1.
  destruct (for_loop k (getvolume_step m) (m_elem m, e0, n0))
    as [[elk evk] nvk].
  destruct Hk1 as (_ & _ & _ & Helk & _). cbn [fst snd].
  rewrite !getvolume_step_eq. cbn [fst snd].
  assert (Hrow1 : nth k elk [] = nth k (m_elem m) []).
  { rewrite Helk. now rewrite Nat.ltb_irrefl. }
  assert (Hrow2 : nth k el [] = elem_fixed m (nth k (m_elem m) [])).
  { rewrite Hel.
    now replace (k <? m_ne m)%nat with true
      by (symmetry; apply Nat.ltb_lt; lia). }
  rewrite Hrow1, Hrow2.
  assert (Hlen : (4 <= length (nth k (m_elem m) []))%nat).
  { pose proof (Forall_nth_default _ (m_elem m) k [] Hrows ltac:(lia)) as H.
    simpl in H. lia. }
  destruct (elem_fixed_stable m (nth k (m_elem m) []) Hlen)
    as (_ & Hfix & Hvol).
  rewrite Hfix, Hvol.
  replace (upd el k (elem_fixed m (nth k (m_elem m) []))) with el
    by (rewrite <- Hrow2; symmetry; apply upd_nth_same).
  reflexivity.
Qed.

(** X2.  [mesh_getvolume] is idempotent: on the mesh it has produced, with
    every element wound so that its signed triple product is not negative,
    a second run swaps no node and recomputes the same volumes. *)
Theorem mesh_getvolume_idempotent (m : tetmesh) :
  elements_ok m ->
  mesh_getvolume (mesh_getvolume m) = mesh_getvolume m /\
  forall i, (i < m_ne m)%nat ->
    0 <= elem_signed6 (mesh_getvolume m)
                      (nth i (m_elem (mesh_getvolume m)) []).
Proof.
  intros Hok.
  pose proof (getvolume_second_run m (m_ne m) Hok (le_n _)) as Hrun.
  cbv zeta in Hrun.
  pose proof (getvolume_inv m (m_ne m) Hok (le_n _)) as Hinv.
  assert (Hm : exists el ev nv,
            for_loop (m_ne m) (getvolume_step m)
              (m_elem m, repeat 0 (m_ne m), repeat 0 (m_nn m)) = (el, ev, nv)
            /\ mesh_getvolume m = set_volumes m el ev nv).
  { unfold mesh_getvolume.
    destruct (for_loop (m_ne m) (getvolume_step m)
                (m_elem m, repeat 0 (m_ne m), repeat 0 (m_nn m)))
      as [[el ev] nv].
    exists el, ev, nv. split; reflexivity. }
  destruct Hm as (el & ev & nv & E & Hm).
  rewrite E in Hrun, Hinv. cbn [fst snd] in Hrun.
  destruct Hinv as (_ & _ & _ & Hel & _).
  rewrite Hm. split.
  - unfold mesh_getvolume. cbn [m_ne m_nn m_elem set_volumes].
    rewrite (for_loop_ext _ (getvolume_step m))
      by (intros; apply getvolume_step_same_mesh; reflexivity).
    rewrite Hrun. destruct m; reflexivity.
  - intros i Hi. cbn [m_elem set_volumes].
    rewrite Hel.
    replace (i <? m_ne m)%nat with true
      by (symmetry; apply Nat.ltb_lt; exact Hi).
    assert (Hlen : (4 <= length (nth i (m_elem m) []))%nat).
    { destruct Hok as (Hle & _ & H4 & Hrows).
      pose proof (Forall_nth_default _ (m_elem m) i [] Hrows ltac:(lia)) as H.
      simpl in H. lia. }
    destruct (elem_fixed_stable m (nth i (m_elem m) []) Hlen) as (H0 & _).
    unfold elem_signed6, node_at in *. exact H0.
Qed.

Lemma mesh_getvolume_idempotent_witness :
  elements_ok unit_tet /\
  mesh_getvolume (mesh_getvolume unit_tet) = mesh_getvolume unit_tet.
Proof.
  split; [exact unit_tet_elements_ok|].
  exact (proj1 (mesh_getvolume_idempotent unit_tet unit_tet_elements_ok)).
Defined.

(** The raw weights, face by face: the weight of face [i] is stored at the
    local node [facemap[i]] opposite to it. *)
Lemma raw_weights_faces (e0 : Z) (bary : list R) (srcpos : FLOAT3)
                        (m : tetmesh) :
  length bary = 4%nat ->
  let elems := zth (m_elem m) (e0 - 1)%Z [] in
  raw_weights e0 bary srcpos m =
  [face_weight m elems srcpos 1; face_weight m elems srcpos 2;
   face_weight m elems srcpos 0; face_weight m elems srcpos 3].
Proof.
  intros Hl elems. rewrite (raw_weights_indep e0 bary srcpos m Hl).
  unfold raw_weights. fold elems. cbn [for_loop].
  unfold bary_face, facemap. cbn [nth upd]. reflexivity.
Qed.

(** The four raw weights add up to the signed triple product. *)
Lemma raw_weights_total (e0 : Z) (bary : list R) (srcpos : FLOAT3)
                        (m : tetmesh) :
  length bary = 4%nat ->
  sum4 (raw_weights e0 bary srcpos m) =
  elem_signed6 m (zth (m_elem m) (e0 - 1)%Z []).
Proof.
  intros Hl. rewrite (raw_weights_faces e0 bary srcpos m Hl). cbv zeta.
  unfold sum4. cbn [nth]. unfold face_weight, out. cbn [nth].
  unfold elem_signed6, signed_volume6, vec_dot3, vec_cross3, vec_diff3.
  cbv zeta. cbn [fx fy fz]. ring.
Qed.

(** The raw weights combine the four nodes into [s] times the source. *)
Lemma raw_weights_combine (e0 : Z) (bary : list R) (srcpos : FLOAT3)
                          (m : tetmesh) :
  length bary = 4%nat ->
  combine4 m (zth (m_elem m) (e0 - 1)%Z []) (raw_weights e0 bary srcpos m) =
  vec_scale (sum4 (raw_weights e0 bary srcpos m)) srcpos.
Proof.
  intros Hl. rewrite (raw_weights_faces e0 bary srcpos m Hl). cbv zeta.
  unfold combine4, sum4, vec_add, vec_scale, row_node. cbn [nth fx fy fz].
  unfold face_weight, out. cbn [nth].
  unfold vec_dot3, vec_cross3, vec_diff3. cbn [fx fy fz].
  f_equal; ring.
Qed.

(** X3.  The sum [s] of the four raw weights of [mesh_barycentric] does not
    depend on the source position: it is the signed triple product of the
    element, the quantity whose sign [mesh_getvolume] tests; and the raw
    weights combine the four nodes of the element into that product times
    the source position. *)
Theorem raw_weights_sum (e0 : Z) (bary : list R) (srcpos : FLOAT3)
                        (m : tetmesh) :
  length bary = 4%nat ->
  let row := zth (m_elem m) (e0 - 1)%Z [] in
  sum4 (raw_weights e0 bary srcpos m) = elem_signed6 m row /\
  combine4 m row (raw_weights e0 bary srcpos m) =
  vec_scale (elem_signed6 m row) srcpos.
Proof.
  intros Hl row. subst row. split.
  - now apply raw_weights_total.
  - rewrite raw_weights_combine by exact Hl.
    now rewrite raw_weights_total.
Qed.

Lemma raw_weights_sum_witness :
  length [0; 0; 0; 0] = 4%nat /\
  sum4 (raw_weights 1 [0; 0; 0; 0] (mkFLOAT3 (1 / 4) (1 / 4) (1 / 4))
                    unit_tet)
  = elem_signed6 unit_tet (zth (m_elem unit_tet) (1 - 1)%Z []).
Proof.
  split; [reflexivity|].
  exact (proj1 (raw_weights_sum 1 [0; 0; 0; 0]
                  (mkFLOAT3 (1 / 4) (1 / 4) (1 / 4)) unit_tet eq_refl)).
Defined.

(** X4.  When [mesh_barycentric] accepts an element whose signed triple
    product is not 0, the four weights it writes are the barycentric
    coordinates of the source: none is negative, they sum to 1, and they
    combine the four nodes of the element into the source position. *)
Theorem mesh_barycentric_coordinates (e0 : Z) (bary bary' : list R)
                                     (srcpos : FLOAT3) (m : tetmesh) :
  length bary = 4%nat ->
  mesh_barycentric e0 bary srcpos m = Ok (0%Z, bary') ->
  elem_signed6 m (zth (m_elem m) (e0 - 1)%Z []) <> 0 ->
  (forall i, (i < 4)%nat -> 0 <= nth i bary' 0) /\
  sum4 bary' = 1 /\
  combine4 m (zth (m_elem m) (e0 - 1)%Z []) bary' = srcpos.
Proof.
  intros Hl Hacc Hs. rewrite <- (raw_weights_total e0 bary srcpos m Hl) in Hs.
  destruct (mesh_barycentric_accepts e0 bary bary' srcpos m Hl Hacc)
    as (_ & Hdiv & _ & Hsum).
  destruct (Hsum Hs) as [H1 Hpos].
  split; [exact Hpos|]. split; [exact H1|].
  pose proof (raw_weights_combine e0 bary srcpos m Hl) as Hc.
  set (raw := raw_weights e0 bary srcpos m) in *.
  set (row := zth (m_elem m) (e0 - 1)%Z []) in *.
  unfold combine4, vec_add, vec_scale in Hc |- *. cbn [fx fy fz] in Hc |- *.
  rewrite !Hdiv by lia.
  destruct srcpos as [x y z]. cbn [fx fy fz] in Hc.
  inversion Hc as [[Hx Hy Hz]].
  f_equal.
  - apply (Rmult_eq_reg_l (sum4 raw)); [|exact Hs]. rewrite <- Hx.
    field. exact Hs.
  - apply (Rmult_eq_reg_l (sum4 raw)); [|exact Hs]. rewrite <- Hy.
    field. exact Hs.
  - apply (Rmult_eq_reg_l (sum4 raw)); [|exact Hs]. rewrite <- Hz.
    field. exact Hs.
Qed.

Lemma unit_tet_signed6 :
  elem_signed6 unit_tet (zth (m_elem unit_tet) (1 - 1)%Z []) = 1.
Proof.
  rewrite <- (raw_weights_total 1 [0; 0; 0; 0] (mkFLOAT3 0 0 0) unit_tet
                eq_refl).
  rewrite unit_tet_raw_weights. unfold sum4. cbn [nth]. ring.
Qed.

Lemma unit_tet_accepts :
  exists bary',
    mesh_barycentric 1 [0; 0; 0; 0] (mkFLOAT3 (1 / 4) (1 / 4) (1 / 4))
                     unit_tet = Ok (0%Z, bary').
Proof.
  destruct (mesh_barycentric_total 1 [0; 0; 0; 0]
              (mkFLOAT3 (1 / 4) (1 / 4) (1 / 4)) unit_tet
              ltac:(simpl; lia) eq_refl)
    as (r & bary' & H & _ & _ & Hr).
  assert (r = 0%Z).
  { apply Hr. rewrite unit_tet_raw_weights.
    repeat (apply Forall_cons; [lra|]). apply Forall_nil. }
  subst r. now exists bary'.
Qed.

Lemma mesh_barycentric_coordinates_witness :
  exists bary',
    length [0; 0; 0; 0] = 4%nat /\
    mesh_barycentric 1 [0; 0; 0; 0] (mkFLOAT3 (1 / 4) (1 / 4) (1 / 4))
                     unit_tet = Ok (0%Z, bary') /\
    elem_signed6 unit_tet (zth (m_elem unit_tet) (1 - 1)%Z []) <> 0 /\
    sum4 bary' = 1.
Proof.
  destruct unit_tet_accepts as (bary' & H).
  assert (Hs : elem_signed6 unit_tet (zth (m_elem unit_tet) (1 - 1)%Z [])
               <> 0) by (rewrite unit_tet_signed6; lra).
  exists bary'. split; [reflexivity|]. split; [exact H|]. split; [exact Hs|].
  exact (proj1 (proj2 (mesh_barycentric_coordinates 1 [0; 0; 0; 0] bary'
                         (mkFLOAT3 (1 / 4) (1 / 4) (1 / 4)) unit_tet
                         eq_refl H Hs))).
Defined.

Lemma convex_bound (a b c d p0 p1 p2 p3 lo hi x : R) :
  0 <= a -> 0 <= b -> 0 <= c -> 0 <= d -> 0 < a + b + c + d ->
  lo <= p0 <= hi -> lo <= p1 <= hi -> lo <= p2 <= hi -> lo <= p3 <= hi ->
  a * p0 + b * p1 + (c * p2 + d * p3) = (a + b + c + d) * x ->
  lo <= x <= hi.
Proof.
  intros Ha Hb Hc Hd Hs [L0 U0] [L1 U1] [L2 U2] [L3 U3] H.
  pose proof (Rmult_le_compat_l a _ _ Ha L0).
  pose proof (Rmult_le_compat_l a _ _ Ha U0).
  pose proof (Rmult_le_compat_l b _ _ Hb L1).
  pose proof (Rmult_le_compat_l b _ _ Hb U1).
  pose proof (Rmult_le_compat_l c _ _ Hc L2).
  pose proof (Rmult_le_compat_l c _ _ Hc U2).
  pose proof (Rmult_le_compat_l d _ _ Hd L3).
  pose proof (Rmult_le_compat_l d _ _ Hd U3).
  split; apply (Rmult_le_reg_l (a + b + c + d)); try exact Hs;
    rewrite <- H; lra.
Qed.

Section InitelemComplete.

Variable VERY_BIG : R.

(** A point that passes the barycentric test of an element with a positive
    signed triple product lies in the bounding box of the element: the first
    test of [mesh_initelem] rejects no such element. *)
Lemma passes_in_bbox (m : tetmesh) (srcpos : FLOAT3) (k : nat) :
  (4 <= m_elemlen m)%nat ->
  passes m srcpos k ->
  0 < elem_signed6 m (nth k (m_elem m) []) ->
  in_bbox srcpos (bbox VERY_BIG m (nth k (m_elem m) [])) = true.
Proof.
  intros H4 Hp Hs. unfold passes in Hp.
  assert (Hrow : zth (m_elem m) (Z.of_nat k + 1 - 1)%Z [] =
                 nth k (m_elem m) []).
  { replace (Z.of_nat k + 1 - 1)%Z with (Z.of_nat k) by lia.
    apply zth_of_nat. }
  pose proof (raw_weights_total (Z.of_nat k + 1) [0; 0; 0; 0] srcpos m eq_refl)
    as Hsum.
  pose proof (raw_weights_combine (Z.of_nat k + 1) [0; 0; 0; 0] srcpos m
                eq_refl) as Hc.
  rewrite Hrow in Hsum, Hc.
  set (row := nth k (m_elem m) []) in *.
  destruct (list4 (raw_weights (Z.of_nat k + 1) [0; 0; 0; 0] srcpos m))
    as (a & b & c & d & Hraw).
  { now rewrite raw_weights_length. }
  rewrite Hraw in Hp, Hsum, Hc.
  inversion Hp as [|? ? Ha Hp1]; subst.
  inversion Hp1 as [|? ? Hb Hp2]; subst.
  inversion Hp2 as [|? ? Hcc Hp3]; subst.
  inversion Hp3 as [|? ? Hd _]; subst.
  unfold sum4 in Hsum, Hc. cbn [nth] in Hsum, Hc.
  unfold combine4, vec_add, vec_scale, row_node in Hc.
  cbn [nth fx fy fz] in Hc.
  pose proof (bbox_bounds VERY_BIG m row 0 ltac:(lia)) as B0.
  pose proof (bbox_bounds VERY_BIG m row 1 ltac:(lia)) as B1.
  pose proof (bbox_bounds VERY_BIG m row 2 ltac:(lia)) as B2.
  pose proof (bbox_bounds VERY_BIG m row 3 ltac:(lia)) as B3.
  cbv zeta in B0, B1, B2, B3.
  destruct (bbox VERY_BIG m row) as [pmin pmax]. cbn [fst snd] in *.
  destruct srcpos as [x y z]. inversion Hc as [[Hx Hy Hz]].
  cbn [fx fy fz] in Hx, Hy, Hz. rewrite <- Hsum in Hs.
  destruct B0 as (B0x & B0y & B0z). destruct B1 as (B1x & B1y & B1z).
  destruct B2 as (B2x & B2y & B2z). destruct B3 as (B3x & B3y & B3z).
  apply in_bbox_true; cbn [fst snd fx fy fz].
  - exact (convex_bound a b c d _ _ _ _ _ _ x Ha Hb Hcc Hd Hs
             B0x B1x B2x B3x Hx).
  - exact (convex_bound a b c d _ _ _ _ _ _ y Ha Hb Hcc Hd Hs
             B0y B1y B2y B3y Hy).
  - exact (convex_bound a b c d _ _ _ _ _ _ z Ha Hb Hcc Hd Hs
             B0z B1z B2z B3z Hz).
Qed.

(** X5.  [mesh_initelem] misses no element: if some element with a positive
    signed triple product passes the barycentric test for the source, the
    scan returns 0 and sets [e0] to that element or to an earlier one. *)
Theorem mesh_initelem_complete (m : tetmesh) (cfg : mcconfig) (k : nat) :
  length (c_bary0 cfg) = 4%nat ->
  (4 <= m_elemlen m)%nat ->
  (k < m_ne m)%nat ->
  passes m (c_srcpos cfg) k ->
  0 < elem_signed6 m (nth k (m_elem m) []) ->
  exists cfg',
    mesh_initelem VERY_BIG m cfg = Ok (0%Z, cfg') /\
    (1 <= c_e0 cfg' <= Z.of_nat k + 1)%Z.
Proof.
  intros Hl H4 Hk Hp Hs.
  pose proof (passes_in_bbox m (c_srcpos cfg) k H4 Hp Hs) as Hbox.
  unfold mesh_initelem.
  destruct (initelem_scan_spec VERY_BIG m (m_ne m) 0 cfg ltac:(lia) Hl)
    as (r & cfg' & H & _ & _ & Hcase).
  destruct Hcase as [(-> & _ & Hnone)|(-> & k' & b0 & Hk' & _ & He0 & _ & _
                                        & _ & Hfirst)].
  - exfalso. apply (Hnone k); [lia|]. split; assumption.
  - exists cfg'. split; [exact H|].
    destruct (Nat.le_gt_cases k' k) as [Hle|Hgt]; [lia|].
    exfalso. apply (Hfirst k); [lia|]. split; assumption.
Qed.

End InitelemComplete.

Lemma unit_tet_passes :
  passes unit_tet (c_srcpos pencil_cfg) 0.
Proof.
  unfold passes. change (Z.of_nat 0 + 1)%Z with 1%Z.
  change (c_srcpos pencil_cfg) with (mkFLOAT3 (1 / 4) (1 / 4) (1 / 4)).
  rewrite unit_tet_raw_weights.
  repeat (apply Forall_cons; [lra|]). apply Forall_nil.
Qed.

Lemma mesh_initelem_complete_witness :
  length (c_bary0 pencil_cfg) = 4%nat /\
  (4 <= m_elemlen unit_tet)%nat /\ (0 < m_ne unit_tet)%nat /\
  passes unit_tet (c_srcpos pencil_cfg) 0 /\
  0 < elem_signed6 unit_tet (nth 0 (m_elem unit_tet) []) /\
  exists cfg', mesh_initelem 1000 unit_tet pencil_cfg = Ok (0%Z, cfg').
Proof.
  assert (H4 : (4 <= m_elemlen unit_tet)%nat) by (simpl; lia).
  assert (H0 : (0 < m_ne unit_tet)%nat) by (simpl; lia).
  assert (Hs : 0 < elem_signed6 unit_tet (nth 0 (m_elem unit_tet) [])).
  { change (nth 0 (m_elem unit_tet) [])
      with (zth (m_elem unit_tet) (1 - 1)%Z []).
    rewrite unit_tet_signed6. lra. }
  split; [reflexivity|]. split; [exact H4|]. split; [exact H0|].
  split; [exact unit_tet_passes|]. split; [exact Hs|].
  destruct (mesh_initelem_complete 1000 unit_tet pencil_cfg 0 eq_refl H4 H0
              unit_tet_passes Hs) as (cfg' & H & _).
  exists cfg'. exact H.
Defined.

(** X6.  The weight that [mesh_barycentric] stores at position [k] belongs to
    node [k] of the element: for a source placed on node [k] the raw weight
    at [k] is the signed triple product of the element and the other three
    are 0. *)
Theorem raw_weights_at_node (e0 : Z) (bary : list R) (m : tetmesh)
                            (k : nat) :
  length bary = 4%nat -> (k < 4)%nat ->
  let row := zth (m_elem m) (e0 - 1)%Z [] in
  raw_weights e0 bary (row_node m row k) m =
  upd [0; 0; 0; 0] k (elem_signed6 m row).
Proof.
  intros Hl Hk row. rewrite (raw_weights_faces e0 bary _ m Hl). fold row.
  unfold face_weight, elem_signed6, signed_volume6, row_node, out,
    vec_dot3, vec_cross3, vec_diff3.
  cbn [nth fx fy fz].
  destruct k as [|[|[|[|k]]]]; [| | | |lia]; cbn [upd nth];
    apply list4_eq; ring.
Qed.

Lemma raw_weights_at_node_witness :
  raw_weights 1 [0; 0; 0; 0] (row_node unit_tet [1; 2; 4; 3]%Z 1) unit_tet =
  [0; 1; 0; 0].
Proof.
  pose proof (raw_weights_at_node 1 [0; 0; 0; 0] unit_tet 1 eq_refl
                ltac:(lia)) as H.
  cbv zeta in H.
  change (zth (m_elem unit_tet) (1 - 1)%Z []) with [1; 2; 4; 3]%Z in H.
  rewrite H. cbn [upd].
  change [1; 2; 4; 3]%Z with (zth (m_elem unit_tet) (1 - 1)%Z []).
  rewrite unit_tet_signed6. reflexivity.
Defined.

(** ** [tracer_init] followed by [tracer_prep] *)

Lemma tracer_init_built (m : tetmesh) (meth : TMethod) :
  (tr_d (tracer_init m meth) || tr_m (tracer_init m meth)
   || tr_n (tracer_init m meth))%bool = true /\
  tr_mesh (tracer_init m meth) = m.
Proof. destruct meth; split; reflexivity. Qed.

Section InitPrepare.

Variable VERY_BIG : R.

(** The source check of [tracer_prep] on a tracer whose arrays are built,
    for a point-like source: the three ways it can end. *)
Lemma tracer_prep_source_outcome (t : raytracer) (cfg : mcconfig) :
  (tr_d t || tr_m t || tr_n t)%bool = true ->
  is_point_source (c_srctype cfg) = true ->
  length (c_bary0 cfg) = 4%nat ->
  match tracer_prep_source VERY_BIG t cfg with
  | Ok (t1, cfg') =>
      t1 = t /\ (c_e0 cfg <= Z.of_nat (m_ne (tr_mesh t)))%Z /\
      exists k, (k < m_ne (tr_mesh t))%nat /\
        c_e0 cfg' = (Z.of_nat k + 1)%Z /\
        passes (tr_mesh t) (c_srcpos cfg) k /\
        (c_e0 cfg = (Z.of_nat k + 1)%Z \/
         in_bbox (c_srcpos cfg)
           (bbox VERY_BIG (tr_mesh t) (nth k (m_elem (tr_mesh t)) [])) = true)
  | Fatal msg =>
      if (c_e0 cfg <=? Z.of_nat (m_ne (tr_mesh t)))%Z then
        msg = "initial element does not enclose the source!"%string /\
        ((0 < c_e0 cfg)%Z ->
         ~ passes (tr_mesh t) (c_srcpos cfg) (Z.to_nat (c_e0 cfg - 1))) /\
        forall k, (k < m_ne (tr_mesh t))%nat ->
          ~ (in_bbox (c_srcpos cfg)
               (bbox VERY_BIG (tr_mesh t) (nth k (m_elem (tr_mesh t)) []))
             = true /\ passes (tr_mesh t) (c_srcpos cfg) k)
      else
        msg = "initial element index exceeds total element count"%string
  end.
Proof.
  intros Hb Hsrc Hl. unfold tracer_prep_source.
  assert (Hnb : (negb (tr_n t) && negb (tr_m t) && negb (tr_d t))%bool
                = false).
  { destruct (tr_d t), (tr_m t), (tr_n t); simpl in *; congruence. }
  rewrite Hnb, Hsrc.
  set (m := tr_mesh t).
  assert (Hscan : forall c1, length (c_bary0 c1) = 4%nat ->
            c_srcpos c1 = c_srcpos cfg ->
            match
              match mesh_initelem VERY_BIG m c1 with
              | Ok (r, cfg2) =>
                  if (r =? 0)%Z then Ok (t, cfg2)
                  else Fatal "initial element does not enclose the source!"
              | Fatal msg => Fatal msg
              end
            with
            | Ok (t1, cfg') =>
                t1 = t /\
                exists k, (k < m_ne m)%nat /\
                  c_e0 cfg' = (Z.of_nat k + 1)%Z /\
                  passes m (c_srcpos cfg) k /\
                  in_bbox (c_srcpos cfg)
                    (bbox VERY_BIG m (nth k (m_elem m) [])) = true
            | Fatal msg =>
                msg = "initial element does not enclose the source!"%string /\
                forall k, (k < m_ne m)%nat ->
                  ~ (in_bbox (c_srcpos cfg)
                       (bbox VERY_BIG m (nth k (m_elem m) [])) = true /\
                     passes m (c_srcpos cfg) k)
            end).
  { intros c1 Hl1 Hs1. unfold mesh_initelem.
    destruct (initelem_scan_spec VERY_BIG m (m_ne m) 0 c1 ltac:(lia) Hl1)
      as (r & c2 & H2 & _ & _ & Hcase).
    rewrite H2. rewrite <- Hs1.
    destruct Hcase
      as [(-> & _ & Hnone)|(-> & k & b0 & Hk & _ & He & Hbb & Hp & _)];
      cbn [Z.eqb].
    - split; [reflexivity|]. intros k Hk. apply Hnone. lia.
    - split; [reflexivity|]. exists k. repeat split; auto. lia. }
  destruct (Z.leb_spec (c_e0 cfg) 0) as [Hle|Hgt].
  - specialize (Hscan cfg Hl eq_refl).
    match type of Hscan with
    | match ?r with Ok _ => _ | Fatal _ => _ end =>
        destruct r as [[t1 c']|msg]
    end.
    + destruct Hscan as (-> & k & Hk & He & Hp & Hbb).
      split; [reflexivity|]. split; [lia|].
      exists k. repeat split; auto.
    + destruct Hscan as [-> Hnone].
      destruct (Z.leb_spec (c_e0 cfg) (Z.of_nat (m_ne m))); [|lia].
      split; [reflexivity|]. split; [lia|exact Hnone].
  - destruct (Z.leb_spec (Z.of_nat (m_ne m)) (c_e0 cfg - 1)) as [Hbig|Hin].
    + unfold mesh_barycentric. cbv zeta.
      replace (Z.of_nat (m_ne m) <=? c_e0 cfg - 1)%Z with true
        by (symmetry; apply Z.leb_le; exact Hbig).
      destruct (Z.leb_spec (c_e0 cfg) (Z.of_nat (m_ne m))); [lia|].
      reflexivity.
    + destruct (mesh_barycentric_total (c_e0 cfg) (c_bary0 cfg)
                  (c_srcpos cfg) m Hin Hl)
        as (r & bary' & Hmb & Hl' & Hr & Hpass).
      rewrite Hmb.
      assert (Hrow : (Z.of_nat (Z.to_nat (c_e0 cfg - 1)) + 1)%Z = c_e0 cfg)
        by lia.
      destruct Hr as [-> | ->]; cbn [Z.eqb].
      * split; [reflexivity|]. split; [lia|].
        exists (Z.to_nat (c_e0 cfg - 1)). split; [lia|].
        split; [cbn; lia|]. split; [|left; lia].
        unfold passes. rewrite Hrow. now apply Hpass.
      * specialize (Hscan (set_bary0 cfg bary') Hl' eq_refl).
        match type of Hscan with
        | match ?r with Ok _ => _ | Fatal _ => _ end =>
            destruct r as [[t1 c']|msg]
        end.
        -- destruct Hscan as (-> & k & Hk & He & Hp & Hbb).
           split; [reflexivity|]. split; [lia|].
           exists k. repeat split; auto.
        -- destruct Hscan as [-> Hnone].
           destruct (Z.leb_spec (c_e0 cfg) (Z.of_nat (m_ne m))); [|lia].
           split; [reflexivity|]. split; [|exact Hnone].
           intros _ Hp. unfold passes in Hp. rewrite Hrow in Hp.
           apply Hpass in Hp. discriminate.
Qed.

(** C9, amended.  On a tracer set up by [tracer_init], for a point-like
    source (pencil, isotropic, cone, arcsine): if the configured initial
    element does not pass the barycentric test and no element passes the
    bounding-box and the barycentric test of the scan, [tracer_prep] stops
    in a fatal error; the error is the enclosure error when [e0] is at most
    the number of elements and the index error of [mesh_barycentric] when
    [e0] exceeds it.  In no such case does [tracer_prep] return. *)
Theorem tracer_prep_no_enclosing_element
    (m : tetmesh) (meth : TMethod) (cfg : mcconfig) :
  is_point_source (c_srctype cfg) = true ->
  length (c_bary0 cfg) = 4%nat ->
  ((0 < c_e0 cfg <= Z.of_nat (m_ne m))%Z ->
   ~ passes m (c_srcpos cfg) (Z.to_nat (c_e0 cfg - 1))) ->
  (forall k, (k < m_ne m)%nat ->
     ~ (in_bbox (c_srcpos cfg) (bbox VERY_BIG m (nth k (m_elem m) [])) = true
        /\ passes m (c_srcpos cfg) k)) ->
  tracer_prep VERY_BIG (tracer_init m meth) cfg =
  Fatal (if (c_e0 cfg <=? Z.of_nat (m_ne m))%Z
         then "initial element does not enclose the source!"
         else "initial element index exceeds total element count").
Proof.
  intros Hsrc Hl He0 Hnone.
  destruct (tracer_init_built m meth) as [Hb Hm].
  pose proof (tracer_prep_source_outcome (tracer_init m meth) cfg Hb Hsrc Hl)
    as H.
  rewrite Hm in H. unfold tracer_prep.
  destruct (tracer_prep_source VERY_BIG (tracer_init m meth) cfg)
    as [[t1 c']|msg].
  - exfalso. destruct H as (_ & Hle & k & Hk & _ & Hp & [Hek|Hbb]).
    + apply He0; [lia|].
      replace (Z.to_nat (c_e0 cfg - 1)) with k by lia. exact Hp.
    + apply (Hnone k Hk). split; assumption.
  - destruct (c_e0 cfg <=? Z.of_nat (m_ne m))%Z.
    + destruct H as [-> _]. reflexivity.
    + rewrite H. reflexivity.
Qed.

(** X7.  A tracer set up by [tracer_init] has its arrays built, whatever the
    method, so [tracer_prep] checks a point-like source.  When it returns,
    [e0] names an element of the mesh that passes the barycentric test for
    the source.  When it stops, it is with the index error of
    [mesh_barycentric] if the configured [e0] exceeds the number of
    elements, and otherwise with the enclosure error, and then no element
    passes the bounding-box and the barycentric test. *)
Theorem tracer_init_prep_source (m : tetmesh) (meth : TMethod)
                                (cfg : mcconfig) :
  is_point_source (c_srctype cfg) = true ->
  length (c_bary0 cfg) = 4%nat ->
  match tracer_prep VERY_BIG (tracer_init m meth) cfg with
  | Ok (_, cfg') =>
      (c_e0 cfg <= Z.of_nat (m_ne m))%Z /\
      exists k, (k < m_ne m)%nat /\ c_e0 cfg' = (Z.of_nat k + 1)%Z /\
                passes m (c_srcpos cfg) k
  | Fatal msg =>
      if (c_e0 cfg <=? Z.of_nat (m_ne m))%Z then
        msg = "initial element does not enclose the source!"%string /\
        forall k, (k < m_ne m)%nat ->
          ~ (in_bbox (c_srcpos cfg) (bbox VERY_BIG m (nth k (m_elem m) []))
             = true /\ passes m (c_srcpos cfg) k)
      else
        msg = "initial element index exceeds total element count"%string
  end.
Proof.
  intros Hsrc Hl.
  destruct (tracer_init_built m meth) as [Hb Hm].
  pose proof (tracer_prep_source_outcome (tracer_init m meth) cfg Hb Hsrc Hl)
    as H.
  rewrite Hm in H. unfold tracer_prep.
  destruct (tracer_prep_source VERY_BIG (tracer_init m meth) cfg)
    as [[t1 c']|msg].
  - destruct H as (_ & Hle & k & Hk & He & Hp & _).
    split; [exact Hle|]. exists k. auto.
  - destruct (c_e0 cfg <=? Z.of_nat (m_ne m))%Z.
    + destruct H as (-> & _ & Hnone). split; [reflexivity|exact Hnone].
    + exact H.
Qed.

End InitPrepare.

(** C9, as stated, fails where the configured initial element index exceeds
    the number of elements.  The pencil beam of [beyond_cfg] lies outside
    the only element of [unit_tet], so no element encloses it, and [e0] is
    2: [tracer_prep] stops in [mesh_barycentric] with the index error, not
    with the enclosure error. *)
Lemma tracer_prep_index_error :
  is_point_source (c_srctype beyond_cfg) = true /\
  (forall k, (k < m_ne unit_tet)%nat ->
     ~ passes unit_tet (c_srcpos beyond_cfg) k) /\
  tracer_prep 1000 (tracer_init unit_tet rtPlucker) beyond_cfg
  = Fatal "initial element index exceeds total element count" /\
  tracer_prep 1000 (tracer_init unit_tet rtPlucker) beyond_cfg
  <> Fatal "initial element does not enclose the source!".
Proof.
  assert (H : tracer_prep 1000 (tracer_init unit_tet rtPlucker) beyond_cfg
              = Fatal "initial element index exceeds total element count")
    by reflexivity.
  split; [reflexivity|]. split; [exact unit_tet_outside|].
  split; [exact H|]. rewrite H. discriminate.
Qed.

Lemma tracer_prep_no_enclosing_element_witness :
  is_point_source (c_srctype outside_cfg) = true /\
  length (c_bary0 outside_cfg) = 4%nat /\
  tracer_prep 1000 (tracer_init unit_tet rtPlucker) outside_cfg
  = Fatal "initial element does not enclose the source!".
Proof.
  split; [reflexivity|]. split; [reflexivity|].
  apply (tracer_prep_no_enclosing_element 1000 unit_tet rtPlucker
           outside_cfg eq_refl eq_refl).
  - simpl. lia.
  - intros k Hk [_ Hp]. exact (unit_tet_outside k Hk Hp).
Defined.

Lemma tracer_init_prep_source_witness :
  match tracer_prep 1000 (tracer_init unit_tet rtHavel) pencil_cfg with
  | Ok (_, cfg') =>
      (c_e0 pencil_cfg <= Z.of_nat (m_ne unit_tet))%Z /\
      exists k, (k < m_ne unit_tet)%nat /\ c_e0 cfg' = (Z.of_nat k + 1)%Z /\
                passes unit_tet (c_srcpos pencil_cfg) k
  | Fatal msg =>
      if (c_e0 pencil_cfg <=? Z.of_nat (m_ne unit_tet))%Z then
        msg = "initial element does not enclose the source!"%string /\
        forall k, (k < m_ne unit_tet)%nat ->
          ~ (in_bbox (c_srcpos pencil_cfg)
               (bbox 1000 unit_tet (nth k (m_elem unit_tet) [])) = true /\
             passes unit_tet (c_srcpos pencil_cfg) k)
      else
        msg = "initial element index exceeds total element count"%string
  end.
Proof.
  apply (tracer_init_prep_source 1000 unit_tet rtHavel pencil_cfg).
  - reflexivity.
  - reflexivity.
Defined.

(** ** A second pass of [tracer_prep] over the same mesh *)

Lemma for_loop_same {S : Type} (f : nat -> S -> S) (n : nat) (s : S) :
  (forall i, (i < n)%nat -> f i s = s) -> for_loop n f s = s.
Proof.
  induction n as [|n IH]; intros H; simpl; [reflexivity|].
  rewrite IH by (intros; apply H; lia). apply H. lia.
Qed.

(** Without a 0 among the first [k] entries the numbering writes nothing. *)
Lemma number_faces_no_zero (facenb : list Z) (k : nat) :
  (forall i, (i < k)%nat -> nth i facenb 0%Z <> 0%Z) ->
  number_faces k facenb = (facenb, 0%Z).
Proof.
  intros H. unfold number_faces. apply for_loop_same.
  intros i Hi. unfold number_step.
  destruct (Z.eqb_spec (nth i facenb 0%Z) 0) as [E|E]; [|reflexivity].
  exfalso. now apply (H i).
Qed.

(** The numbering leaves no 0 among the entries it has passed. *)
Lemma tracer_prep_faces_no_zero (m : tetmesh) (i : nat) :
  length (m_facenb m) = (m_ne m * m_elemlen m)%nat ->
  (i < m_ne m * m_elemlen m)%nat ->
  nth i (m_facenb (tracer_prep_faces m)) 0%Z <> 0%Z.
Proof.
  intros Hlen Hi. unfold tracer_prep_faces. rewrite <- Hlen in *.
  destruct (number_faces_inv (m_facenb m) (length (m_facenb m)) (le_n _))
    as (_ & _ & Hnth).
  destruct (number_faces (length (m_facenb m)) (m_facenb m)) as [f nf].
  cbn [fst snd] in Hnth. cbn [m_facenb set_facenb]. rewrite Hnth.
  replace (i <? length (m_facenb m))%nat with true
    by (symmetry; apply Nat.ltb_lt; exact Hi).
  unfold numbered.
  pose proof (zeros_before_nonneg (m_facenb m) i).
  destruct (Z.eqb_spec (nth i (m_facenb m) 0%Z) 0); lia.
Qed.

Lemma tracer_prep_faces_sizes (m : tetmesh) :
  m_ne (tracer_prep_faces m) = m_ne m /\
  m_elemlen (tracer_prep_faces m) = m_elemlen m /\
  m_nn (tracer_prep_faces m) = m_nn m /\
  m_nvol (tracer_prep_faces m) = m_nvol m.
Proof.
  unfold tracer_prep_faces.
  destruct (number_faces (m_ne m * m_elemlen m) (m_facenb m)).
  repeat split.
Qed.

(** X8.  The face numbering of [tracer_prep] is not repeatable: run again on
    its own result it finds no entry equal to 0, leaves the face-neighbour
    array as it is and sets the face count [nf] to 0. *)
Theorem tracer_prep_faces_second_pass (m : tetmesh) :
  length (m_facenb m) = (m_ne m * m_elemlen m)%nat ->
  let m1 := tracer_prep_faces m in
  m_facenb (tracer_prep_faces m1) = m_facenb m1 /\
  m_nf (tracer_prep_faces m1) = 0%Z.
Proof.
  intros Hlen m1.
  destruct (tracer_prep_faces_sizes m) as (Hne & Hel & _).
  fold m1 in Hne, Hel.
  assert (H : number_faces (m_ne m1 * m_elemlen m1) (m_facenb m1) =
              (m_facenb m1, 0%Z)).
  { apply number_faces_no_zero. intros i Hi. rewrite Hne, Hel in Hi.
    now apply tracer_prep_faces_no_zero. }
  unfold tracer_prep_faces at 1 2. rewrite H. split; reflexivity.
Qed.

Lemma tracer_prep_faces_second_pass_witness :
  length (m_facenb unit_tet) = (m_ne unit_tet * m_elemlen unit_tet)%nat /\
  m_nf (tracer_prep_faces unit_tet) = 4%Z /\
  m_nf (tracer_prep_faces (tracer_prep_faces unit_tet)) = 0%Z.
Proof.
  split; [reflexivity|]. split; [reflexivity|].
  exact (proj2 (tracer_prep_faces_second_pass unit_tet eq_refl)).
Defined.

(** X9.  The node-volume correction of [tracer_prep] acts once: after the
    exterior faces are numbered no entry of [facenb] is 0, so on a mesh with
    non-negative node volumes the correction changes no node volume,
    whatever the configuration. *)
Theorem tracer_prep_nvol_after_faces (m : tetmesh) (cfg : mcconfig) :
  length (m_facenb m) = (m_ne m * m_elemlen m)%nat ->
  length (m_nvol m) = m_nn m ->
  Forall (fun v => 0 <= v) (m_nvol m) ->
  m_nvol (tracer_prep_nvol (tracer_prep_faces m) cfg) = m_nvol m.
Proof.
  intros Hlen Hnn Hpos.
  destruct (tracer_prep_faces_sizes m) as (Hne & Hel & Hn & Hnv).
  set (m1 := tracer_prep_faces m) in *.
  unfold tracer_prep_nvol.
  destruct ((c_isnormalized cfg =? 1)%Z
            && negb (TMethod_eqb (c_method cfg) rtBLBadouelGrid)
            && c_basisorder cfg)%bool; [|exact Hnv].
  cbn [m_nvol set_nvol]. cbv zeta.
  assert (Hadj : for_loop (m_ne m1) (adjust_elem m1 (reff_table m1 cfg))
                          (m_nvol m1) = m_nvol m1).
  { apply for_loop_same. intros i Hi. unfold adjust_elem.
    apply for_loop_same. intros j Hj.
    destruct (Z.eqb_spec (nth (i * m_elemlen m1 + j) (m_facenb m1) 0%Z) 0)
      as [E|E]; [|reflexivity].
    exfalso. revert E. apply tracer_prep_faces_no_zero; [exact Hlen|].
    rewrite Hne, Hel in *.
    assert (Hc : (i * m_elemlen m + m_elemlen m <= m_ne m * m_elemlen m)%nat).
    { replace (i * m_elemlen m + m_elemlen m)%nat
        with (S i * m_elemlen m)%nat by lia.
      apply Nat.mul_le_mono_r. lia. }
    lia. }
  rewrite Hadj, Hnv, Hn. unfold set_nvol, set_volumes. cbn [m_nvol].
  destruct (unmark_nth (m_nvol m) (m_nn m) ltac:(lia)) as [Hl Hnth].
  apply (nth_ext _ _ 0 0); [exact Hl|].
  intros n Hn'. rewrite Hnth. rewrite Hl in Hn'.
  rewrite Forall_forall in Hpos.
  assert (0 <= nth n (m_nvol m) 0) by (apply Hpos, nth_In; exact Hn').
  destruct (n <? m_nn m)%nat; [apply Rabs_right; lra|reflexivity].
Qed.

Lemma tracer_prep_nvol_after_faces_witness :
  m_nvol (tracer_prep_nvol (tracer_prep_faces unit_tet) pencil_cfg) =
  [1 / 24; 1 / 24; 1 / 24; 1 / 24].
Proof.
  apply (tracer_prep_nvol_after_faces unit_tet pencil_cfg).
  - reflexivity.
  - reflexivity.
  - cbn [m_nvol unit_tet].
    repeat (apply Forall_cons; [lra|]). apply Forall_nil.
Defined.

(** ** [mesh_normalize]: the other branches *)

(** The scaling loop over all gates and cells: every entry of the pattern
    is multiplied once. *)
Lemma scale_weights_all (maxgate len srcnum pair : nat) (f : R)
                        (w : list R) :
  (pair < srcnum)%nat ->
  length w = (maxgate * len * srcnum)%nat ->
  length (scale_weights maxgate len srcnum pair f w) = length w /\
  forall k, (k < length w)%nat ->
    nth k (scale_weights maxgate len srcnum pair f w) 0 =
    if (k mod srcnum =? pair)%nat then nth k w 0 * f else nth k w 0.
Proof.
  intros Hp Hlen.
  destruct (scale_weights_inv maxgate len srcnum pair f w Hp ltac:(lia)
              maxgate (le_n _)) as [Hl Hn].
  split; [exact Hl|]. intros k Hk. rewrite Hn. unfold scaled_entry.
  replace (k / srcnum <? maxgate * len)%nat with true; [reflexivity|].
  symmetry. apply Nat.ltb_lt. apply Nat.Div0.div_lt_upper_bound. lia.
Qed.

Section NormalizeMore.

Variable DELTA_MUA : R.
Variable SEED_FROM_FILE : Z.

Lemma normalize_dref_weight (m : tetmesh) (cfg : mcconfig) (Etotal : R) :
  m_weight
    match c_issaveref cfg, m_dref m with
    | true, Some d =>
        set_dref m (Some (scale_dref (c_maxgate cfg) (Z.to_nat (m_nf m))
                                     (1 / Etotal) d))
    | _, _ => m
    end = m_weight m.
Proof. destruct (c_issaveref cfg), (m_dref m); reflexivity. Qed.

(** X10.  In a replay run (the seed is [SEED_FROM_FILE]) with Jacobian, WL or
    WP output, [mesh_normalize] takes the replay branch before any other:
    it returns [1 / (DELTA_MUA * nphoton)] for the Jacobian and [1 / Etotal]
    for WL and WP, multiplies every entry of the selected pattern by that
    factor once and leaves the other patterns as they are. *)
Theorem mesh_normalize_replay (m : tetmesh) (cfg : mcconfig)
                              (Eabsorb Etotal : R) (pair : nat) :
  c_seed cfg = SEED_FROM_FILE ->
  is_replay_output (c_outputtype cfg) = true ->
  (pair < c_srcnum cfg)%nat ->
  length (m_weight m) = (c_maxgate cfg * datalen m cfg * c_srcnum cfg)%nat ->
  let r := mesh_normalize DELTA_MUA SEED_FROM_FILE m cfg Eabsorb Etotal pair in
  snd r = (if is_path_output (c_outputtype cfg) then 1 / Etotal
           else 1 / (DELTA_MUA * c_nphoton cfg)) /\
  length (m_weight (fst r)) = length (m_weight m) /\
  forall k, (k < length (m_weight m))%nat ->
    nth k (m_weight (fst r)) 0 =
    if (k mod c_srcnum cfg =? pair)%nat
    then nth k (m_weight m) 0 * snd r
    else nth k (m_weight m) 0.
Proof.
  intros Hseed Hout Hp Hlen r. subst r. unfold mesh_normalize.
  rewrite Hseed, Z.eqb_refl, Hout. cbn [andb]. cbv zeta.
  cbn [fst snd]. unfold set_weight at 1 2. cbn [m_weight].
  rewrite normalize_dref_weight.
  split; [reflexivity|].
  apply scale_weights_all; assumption.
Qed.

End NormalizeMore.

Lemma mesh_normalize_replay_witness :
  c_seed replay_cfg = (-999)%Z /\
  is_replay_output (c_outputtype replay_cfg) = true /\
  (0 < c_srcnum replay_cfg)%nat /\
  length (m_weight dref_tet) =
    (c_maxgate replay_cfg * datalen dref_tet replay_cfg
     * c_srcnum replay_cfg)%nat /\
  snd (mesh_normalize (1 / 10) (-999) dref_tet replay_cfg 1 50 0)
  = 1 / (1 / 10 * 100).
Proof.
  assert (Hp : (0 < c_srcnum replay_cfg)%nat) by (simpl; lia).
  split; [reflexivity|]. split; [reflexivity|]. split; [exact Hp|].
  split; [reflexivity|].
  exact (proj1 (mesh_normalize_replay (1 / 10) (-999) dref_tet replay_cfg
                  1 50 0 eq_refl eq_refl Hp eq_refl)).
Defined.

Lemma scale_dref_weights (maxgate nf : nat) (f : R) (d : list R) :
  scale_dref maxgate nf f d = scale_weights maxgate nf 1 0 f d.
Proof.
  unfold scale_dref, scale_weights.
  apply for_loop_ext. intros i x _. apply for_loop_ext. intros j y _.
  cbv zeta. replace ((i * nf + j) * 1 + 0)%nat with (i * nf + j)%nat by lia.
  reflexivity.
Qed.

Lemma scale_dref_nth (maxgate nf : nat) (f : R) (d : list R) :
  (maxgate * nf <= length d)%nat ->
  length (scale_dref maxgate nf f d) = length d /\
  forall k, nth k (scale_dref maxgate nf f d) 0 =
            if (k <? maxgate * nf)%nat then nth k d 0 * f else nth k d 0.
Proof.
  intros Hlen. rewrite scale_dref_weights.
  destruct (scale_weights_inv maxgate nf 1 0 f d ltac:(lia) ltac:(lia)
              maxgate (le_n _)) as [Hl Hn].
  split; [exact Hl|]. intros k. rewrite Hn. unfold scaled_entry.
  rewrite Nat.div_1_r, Nat.mod_1_r. cbn [Nat.eqb]. now rewrite andb_true_r.
Qed.

Section NormalizeDref.

Variable DELTA_MUA : R.
Variable SEED_FROM_FILE : Z.

Lemma mesh_normalize_dref_eq (m : tetmesh) (cfg : mcconfig)
                             (Eabsorb Etotal : R) (pair : nat) :
  m_dref (fst (mesh_normalize DELTA_MUA SEED_FROM_FILE m cfg Eabsorb Etotal
                              pair)) =
  match c_issaveref cfg, m_dref m with
  | true, Some d =>
      Some (scale_dref (c_maxgate cfg) (Z.to_nat (m_nf m)) (1 / Etotal) d)
  | _, _ => m_dref m
  end.
Proof.
  unfold mesh_normalize. cbv zeta.
  set (m1 := match c_issaveref cfg, m_dref m with
             | true, Some d => _
             | _, _ => m
             end).
  assert (H1 : m_dref m1 =
               match c_issaveref cfg, m_dref m with
               | true, Some d =>
                   Some (scale_dref (c_maxgate cfg) (Z.to_nat (m_nf m))
                                    (1 / Etotal) d)
               | _, _ => m_dref m
               end).
  { unfold m1. destruct (c_issaveref cfg); [|reflexivity].
    destruct (m_dref m) eqn:E; [reflexivity|exact E]. }
  rewrite <- H1. clearbody m1.
  destruct ((c_seed cfg =? SEED_FROM_FILE)%Z
            && is_replay_output (c_outputtype cfg))%bool; [reflexivity|].
  destruct (TOutputType_eqb (c_outputtype cfg) otEnergy); [reflexivity|].
  destruct (TMethod_eqb (c_method cfg) rtBLBadouelGrid); [reflexivity|].
  destruct (c_basisorder cfg); reflexivity.
Qed.

(** X12.  With [issaveref] set and a reflectance buffer present,
    [mesh_normalize] multiplies the first [maxgate * nf] entries of [dref] by
    [1 / Etotal], whatever the output type, and leaves every later entry of
    the buffer as it is. *)
Theorem mesh_normalize_dref (m : tetmesh) (cfg : mcconfig)
                            (Eabsorb Etotal : R) (pair : nat) (d : list R) :
  c_issaveref cfg = true ->
  m_dref m = Some d ->
  (c_maxgate cfg * Z.to_nat (m_nf m) <= length d)%nat ->
  exists d',
    m_dref (fst (mesh_normalize DELTA_MUA SEED_FROM_FILE m cfg Eabsorb Etotal
                                pair)) = Some d' /\
    length d' = length d /\
    forall k, nth k d' 0 =
              if (k <? c_maxgate cfg * Z.to_nat (m_nf m))%nat
              then nth k d 0 * (1 / Etotal) else nth k d 0.
Proof.
  intros Hs Hd Hlen. rewrite mesh_normalize_dref_eq, Hs, Hd.
  eexists. split; [reflexivity|].
  apply scale_dref_nth. exact Hlen.
Qed.

End NormalizeDref.

Lemma mesh_normalize_dref_witness :
  exists d',
    m_dref (fst (mesh_normalize (1 / 10) (-999) dref_tet replay_cfg 1 50 0))
    = Some d' /\
    nth 3 d' 0 = 4 * (1 / 50) /\ nth 4 d' 0 = 5.
Proof.
  destruct (mesh_normalize_dref (1 / 10) (-999) dref_tet replay_cfg 1 50 0
              [1; 2; 3; 4; 5; 6; 7; 8] eq_refl eq_refl
              ltac:(simpl; lia)) as (d' & Hd & _ & Hn).
  exists d'. split; [exact Hd|].
  split; rewrite Hn; reflexivity.
Defined.

(** ** Loops that update or sum one entry per round *)

(** One row of updates at distinct positions. *)
Lemma row_update {A : Type} (d : A) (n : nat) (idx : nat -> nat)
                 (g : nat -> A -> A) (w : list A) :
  (forall j j', (j < n)%nat -> (j' < n)%nat -> idx j = idx j' -> j = j') ->
  (forall j, (j < n)%nat -> (idx j < length w)%nat) ->
  let w' := for_loop n
              (fun j w2 => upd w2 (idx j) (g j (nth (idx j) w2 d))) w in
  length w' = length w /\
  (forall j, (j < n)%nat -> nth (idx j) w' d = g j (nth (idx j) w d)) /\
  (forall k, (forall j, (j < n)%nat -> idx j <> k) -> nth k w' d = nth k w d).
Proof.
  induction n as [|n IH]; intros Hinj Hb; cbn [for_loop].
  - split; [reflexivity|]. split; [intros; lia|reflexivity].
  - destruct IH as (Hl & Hin & Hout).
    { intros j j' Hj Hj'. apply Hinj; lia. }
    { intros j Hj. apply Hb; lia. }
    set (w1 := for_loop n _ w) in *. cbv zeta.
    rewrite upd_length. split; [exact Hl|]. split.
    + intros j Hj. rewrite nth_upd by (rewrite Hl; apply Hb; lia).
      destruct (Nat.eqb_spec (idx n) (idx j)) as [E|E].
      * apply Hinj in E; [|lia|lia]. subst j.
        rewrite Hout; [reflexivity|].
        intros j Hj' E'. apply Hinj in E'; lia.
      * apply Hin. assert (j <> n) by congruence. lia.
    + intros k Hk. rewrite nth_upd by (rewrite Hl; apply Hb; lia).
      destruct (Nat.eqb_spec (idx n) k) as [E|E].
      * exfalso. apply (Hk n); [lia|exact E].
      * apply Hout. intros j Hj. apply Hk. lia.
Qed.

(** Rows of updates, all at distinct positions. *)
Lemma nested_update {A : Type} (d : A) (n1 n2 : nat)
                    (idx : nat -> nat -> nat)
                    (g : nat -> nat -> A -> A) (w : list A) :
  (forall i j i' j', (i < n1)%nat -> (j < n2)%nat -> (i' < n1)%nat ->
     (j' < n2)%nat -> idx i j = idx i' j' -> i = i' /\ j = j') ->
  (forall i j, (i < n1)%nat -> (j < n2)%nat -> (idx i j < length w)%nat) ->
  let w' := for_loop n1
              (fun i w1 =>
                 for_loop n2
                   (fun j w2 =>
                      upd w2 (idx i j) (g i j (nth (idx i j) w2 d)))
                   w1) w in
  length w' = length w /\
  (forall i j, (i < n1)%nat -> (j < n2)%nat ->
     nth (idx i j) w' d = g i j (nth (idx i j) w d)) /\
  (forall k, (forall i j, (i < n1)%nat -> (j < n2)%nat -> idx i j <> k) ->
     nth k w' d = nth k w d).
Proof.
  induction n1 as [|n IH]; intros Hinj Hb; cbn [for_loop].
  - split; [reflexivity|]. split; [intros; lia|reflexivity].
  - destruct IH as (Hl & Hin & Hout).
    { intros i j i' j' Hi Hj Hi' Hj'. apply Hinj; lia. }
    { intros i j Hi Hj. apply Hb; lia. }
    set (w1 := for_loop n _ w) in *. cbv zeta.
    destruct (row_update d n2 (idx n) (g n) w1) as (Hl2 & Hin2 & Hout2).
    { intros j j' Hj Hj' E.
      now destruct (Hinj n j n j' ltac:(lia) Hj ltac:(lia) Hj' E). }
    { intros j Hj. rewrite Hl. apply Hb; lia. }
    cbv zeta in Hl2, Hin2, Hout2.
    split; [now rewrite Hl2|]. split.
    + intros i j Hi Hj. destruct (Nat.eq_dec i n) as [->|Hne].
      * rewrite Hin2 by exact Hj. rewrite Hout; [reflexivity|].
        intros i' j' Hi' Hj' E.
        destruct (Hinj i' j' n j ltac:(lia) Hj' ltac:(lia) Hj E). lia.
      * rewrite Hout2.
        -- apply Hin; lia.
        -- intros j' Hj' E.
           destruct (Hinj n j' i j ltac:(lia) Hj' ltac:(lia) Hj E). lia.
    + intros k Hk. rewrite Hout2.
      * apply Hout. intros i j Hi Hj. apply Hk; lia.
      * intros j Hj. apply Hk; lia.
Qed.

Lemma row_sum_scale (n : nat) (F G : nat -> R) (c a b : R) :
  a = c * b ->
  (forall j, (j < n)%nat -> F j = c * G j) ->
  for_loop n (fun j x => x + F j) a = c * for_loop n (fun j x => x + G j) b.
Proof.
  intros Hab. induction n as [|n IH]; intros H; cbn [for_loop];
    [exact Hab|].
  rewrite IH by (intros; apply H; lia). rewrite (H n) by lia. ring.
Qed.

Lemma nested_sum_scale (n1 n2 : nat) (F G : nat -> nat -> R) (c : R) :
  (forall i j, (i < n1)%nat -> (j < n2)%nat -> F i j = c * G i j) ->
  for_loop n1 (fun i acc => for_loop n2 (fun j x => x + F i j) acc) 0 =
  c * for_loop n1 (fun i acc => for_loop n2 (fun j x => x + G i j) acc) 0.
Proof.
  induction n1 as [|n IH]; intros H; cbn [for_loop]; [ring|].
  apply row_sum_scale.
  - apply IH. intros; apply H; lia.
  - intros j Hj. apply H; lia.
Qed.

(** The position of gate [j] and cell [i] of a pattern determines both. *)
Lemma entry_index_inj (len srcnum pair i j i' j' : nat) :
  (0 < srcnum)%nat -> (i < len)%nat -> (i' < len)%nat ->
  ((j * len + i) * srcnum + pair = (j' * len + i') * srcnum + pair)%nat ->
  i = i' /\ j = j'.
Proof.
  intros Hs Hi Hi' E.
  assert (E1 : (j * len + i = j' * len + i')%nat).
  { apply (Nat.mul_cancel_r _ _ srcnum); lia. }
  assert (Hj : j = j').
  { assert (H1 : ((j * len + i) / len = j)%nat).
    { rewrite Nat.add_comm, Nat.div_add by lia.
      rewrite Nat.div_small by lia. reflexivity. }
    assert (H2 : ((j' * len + i') / len = j')%nat).
    { rewrite Nat.add_comm, Nat.div_add by lia.
      rewrite Nat.div_small by lia. reflexivity. }
    rewrite <- H1, <- H2, E1. reflexivity. }
  subst j'. split; [lia|reflexivity].
Qed.

Lemma entry_index_bound (maxgate len srcnum pair i j : nat) :
  (pair < srcnum)%nat -> (i < len)%nat -> (j < maxgate)%nat ->
  ((j * len + i) * srcnum + pair < maxgate * len * srcnum)%nat.
Proof.
  intros Hp Hi Hj.
  assert (Hc : (j * len + i + 1 <= maxgate * len)%nat).
  { assert (S j * len <= maxgate * len)%nat
      by (apply Nat.mul_le_mono_r; lia).
    lia. }
  apply (Nat.mul_le_mono_r _ _ srcnum) in Hc. lia.
Qed.

Section NormalizeElem.

Variable DELTA_MUA : R.
Variable SEED_FROM_FILE : Z.

(** X11.  Element-based output on a tetrahedral mesh, neither replay nor
    energy output, where no element has a zero product of volume and
    absorption coefficient (the code divides by it), and [energydeposit],
    the sum of the raw weights of the pattern, [Etotal] and, for flux
    output, the time step are not zero: after [mesh_normalize] the weights
    of the pattern, each times the volume and the absorption coefficient of
    its element, add up to [Eabsorb / Etotal] (divided by the time step for
    flux output), and the factor returned is
    [Eabsorb / (Etotal * energydeposit)] (divided likewise). *)
Theorem mesh_normalize_elem_energy (m : tetmesh) (cfg : mcconfig)
                                   (Eabsorb Etotal : R) (pair : nat) :
  c_method cfg <> rtBLBadouelGrid ->
  c_basisorder cfg = false ->
  ((c_seed cfg =? SEED_FROM_FILE)%Z
   && is_replay_output (c_outputtype cfg))%bool = false ->
  c_outputtype cfg <> otEnergy ->
  (pair < c_srcnum cfg)%nat ->
  length (m_weight m) = (c_maxgate cfg * m_ne m * c_srcnum cfg)%nat ->
  (forall i, (i < m_ne m)%nat ->
     nth i (m_evol m) 0
     * med_mua (zth (m_med m) (nth i (m_type m) 0%Z) zero_medium) <> 0) ->
  elem_energy (c_maxgate cfg) (m_ne m) (c_srcnum cfg) pair (m_weight m)
  <> 0 ->
  Etotal <> 0 ->
  (c_outputtype cfg = otFlux -> c_tstep cfg <> 0) ->
  let r := mesh_normalize DELTA_MUA SEED_FROM_FILE m cfg Eabsorb Etotal pair in
  let q := match c_outputtype cfg with otFlux => c_tstep cfg | _ => 1 end in
  snd r * q =
  Eabsorb / (Etotal * elem_energy (c_maxgate cfg) (m_ne m) (c_srcnum cfg)
                                  pair (m_weight m)) /\
  elem_absorbed (fst r) (c_maxgate cfg) (m_ne m) (c_srcnum cfg) pair
                (m_weight (fst r)) * q = Eabsorb / Etotal.
Proof.
  intros Hmeth Hbasis Hrep Hout Hp Hlen Hvol Hdep HE Hts r q.
  assert (Hg : TMethod_eqb (c_method cfg) rtBLBadouelGrid = false)
    by (destruct (c_method cfg); try reflexivity; congruence).
  assert (Ho : TOutputType_eqb (c_outputtype cfg) otEnergy = false)
    by (destruct (c_outputtype cfg); try reflexivity; congruence).
  assert (Hdl : datalen m cfg = m_ne m)
    by (unfold datalen; now rewrite Hg, Hbasis).
  set (m1 := match c_issaveref cfg, m_dref m with
             | true, Some d =>
                 set_dref m (Some (scale_dref (c_maxgate cfg)
                                     (Z.to_nat (m_nf m)) (1 / Etotal) d))
             | _, _ => m
             end).
  assert (H1 : m_weight m1 = m_weight m /\ m_evol m1 = m_evol m /\
               m_med m1 = m_med m /\ m_type m1 = m_type m).
  { unfold m1. destruct (c_issaveref cfg), (m_dref m); repeat split. }
  destruct H1 as (Hw1 & He1 & Hm1 & Ht1).
  set (dep := elem_energy (c_maxgate cfg) (m_ne m) (c_srcnum cfg) pair
                          (m_weight m)) in *.
  set (norm := Eabsorb / (Etotal * dep)).
  set (norm1 := match c_outputtype cfg with
                | otFlux => norm / c_tstep cfg
                | _ => norm
                end).
  set (w1 := divide_by_evol m1 (c_maxgate cfg) (m_ne m) (c_srcnum cfg) pair
                            (m_weight m)).
  assert (Hr : r = (set_weight m1
                      (scale_weights (c_maxgate cfg) (m_ne m) (c_srcnum cfg)
                                     pair norm1 w1), norm1)).
  { subst r. unfold mesh_normalize. cbv zeta. fold m1.
    rewrite Hrep, Ho, Hg, Hbasis, Hdl, Hw1. reflexivity. }
  assert (Hq : norm1 * q = norm).
  { unfold norm1, q. destruct (c_outputtype cfg) eqn:E; try lra.
    field. now apply Hts. }
  rewrite Hr. cbn [fst snd]. split; [exact Hq|].
  unfold set_weight at 2. cbn [m_weight].
  set (a := fun i => nth i (m_evol m) 0
                     * med_mua (zth (m_med m) (nth i (m_type m) 0%Z)
                                    zero_medium)).
  set (idx := fun i j => ((j * m_ne m + i) * c_srcnum cfg + pair)%nat).
  (* the division loop *)
  destruct (nested_update 0 (m_ne m) (c_maxgate cfg) idx
              (fun i _ x => x / a i) (m_weight m))
    as (Hl1 & Hin1 & _).
  { intros i j i' j' Hi Hj Hi' Hj' E.
    apply (entry_index_inj (m_ne m) (c_srcnum cfg) pair i j i' j');
      [lia|exact Hi|exact Hi'|exact E]. }
  { intros i j Hi Hj. rewrite Hlen. unfold idx.
    now apply entry_index_bound. }
  cbv zeta in Hl1, Hin1.
  assert (Hw1eq : w1 =
            for_loop (m_ne m)
              (fun i w0 =>
                 for_loop (c_maxgate cfg)
                   (fun j w2 =>
                      upd w2 (idx i j) (nth (idx i j) w2 0 / a i)) w0)
              (m_weight m)).
  { unfold w1, divide_by_evol. rewrite He1, Hm1, Ht1. reflexivity. }
  rewrite <- Hw1eq in Hl1, Hin1.
  (* the scaling loop *)
  destruct (scale_weights_all (c_maxgate cfg) (m_ne m) (c_srcnum cfg) pair
              norm1 w1 Hp ltac:(now rewrite Hl1)) as (Hl2 & Hn2).
  set (w2 := scale_weights (c_maxgate cfg) (m_ne m) (c_srcnum cfg) pair
                           norm1 w1) in *.
  assert (Hentry : forall i j, (i < m_ne m)%nat -> (j < c_maxgate cfg)%nat ->
            nth (idx i j) w2 0 = nth (idx i j) (m_weight m) 0 / a i * norm1).
  { intros i j Hi Hj. rewrite Hn2.
    - unfold idx at 1.
      rewrite Nat.add_comm, Nat.Div0.mod_add, Nat.mod_small by lia.
      rewrite Nat.eqb_refl. rewrite Hin1 by assumption. reflexivity.
    - rewrite Hl1, Hlen. unfold idx. now apply entry_index_bound. }
  unfold elem_absorbed.
  replace (for_loop (m_ne m) _ 0)
    with (norm1 * dep).
  - rewrite Rmult_assoc, (Rmult_comm dep), <- Rmult_assoc, Hq.
    unfold norm. field. split; assumption.
  - symmetry. unfold dep, elem_energy.
    apply (nested_sum_scale (m_ne m) (c_maxgate cfg)
             (fun i j =>
                nth ((j * m_ne m + i) * c_srcnum cfg + pair) w2 0
                * (nth i (m_evol (set_weight m1 w2)) 0
                   * med_mua (zth (m_med (set_weight m1 w2))
                                  (nth i (m_type (set_weight m1 w2)) 0%Z)
                                  zero_medium)))
             (fun i j =>
                nth ((j * m_ne m + i) * c_srcnum cfg + pair) (m_weight m) 0)
             norm1).
    intros i j Hi Hj.
    change (m_evol (set_weight m1 w2)) with (m_evol m1).
    change (m_med (set_weight m1 w2)) with (m_med m1).
    change (m_type (set_weight m1 w2)) with (m_type m1).
    rewrite He1, Hm1, Ht1. fold (a i). fold (idx i j).
    rewrite Hentry by assumption. field. apply Hvol. exact Hi.
Qed.

End NormalizeElem.

Lemma mesh_normalize_elem_energy_witness :
  elem_absorbed (fst (mesh_normalize (1 / 10) (-999) elem_tet elem_cfg 1 100
                                     0))
                1 1 1 0
                (m_weight (fst (mesh_normalize (1 / 10) (-999) elem_tet
                                               elem_cfg 1 100 0))) * 1
  = 1 / 100.
Proof.
  apply (mesh_normalize_elem_energy (1 / 10) (-999) elem_tet elem_cfg 1 100
           0).
  - discriminate.
  - reflexivity.
  - reflexivity.
  - discriminate.
  - simpl. lia.
  - reflexivity.
  - intros i Hi. cbn [m_ne elem_tet] in Hi.
    assert (i = 0%nat) by lia. subst i.
    cbn [nth m_evol m_med m_type elem_tet].
    change (zth _ 1%Z zero_medium)
      with (mkMedium (1 / 100) 1 (9 / 10) (137 / 100)).
    cbn [med_mua]. lra.
  - unfold elem_energy. cbn [c_maxgate c_srcnum elem_cfg m_ne elem_tet
                             for_loop m_weight Nat.mul Nat.add nth]. lra.
  - lra.
  - discriminate.
Defined.




Section NormalizeNode.

Variable DELTA_MUA : R.
Variable SEED_FROM_FILE : Z.


End NormalizeNode.




(** ** The reflection coefficients *)

(** X14.  For a refractive index of the medium of at least 1 and a positive
    index outside, the effective reflection coefficient computed by
    [mesh_getreff] is at least 0 and less than 1. *)
Theorem mesh_getreff_unit_interval (n_in n_out : R) :
  1 <= n_in -> 0 < n_out -> 0 <= mesh_getreff n_in n_out < 1.
Proof.
  intros H1 H2. unfold mesh_getreff.
  apply (getreff_with_range n_in n_out (asin (1 / n_in)) getreff_count).
  - unfold getreff_count. lia.
  - lra.
  - exact H2.
  - reflexivity.
Qed.

Lemma mesh_getreff_unit_interval_witness :
  0 <= mesh_getreff (137 / 100) 1 < 1.
Proof. apply mesh_getreff_unit_interval; lra. Defined.

(** The search for an earlier medium with the same refractive index: either
    none of the media [j .. j + cnt - 1] has it and nothing is written, or
    the coefficient of the first one that has it is copied to entry [i]. *)
Lemma reff_copy_spec (med : list medium) (i cnt : nat) :
  forall (j : nat) (reff : list R),
  (reff_copy med i j cnt reff = reff /\
   forall j', (j <= j' < j + cnt)%nat ->
     med_n (nth j' med zero_medium) <> med_n (nth i med zero_medium)) \/
  (exists j', (j <= j' < j + cnt)%nat /\
     med_n (nth j' med zero_medium) = med_n (nth i med zero_medium) /\
     reff_copy med i j cnt reff = upd reff i (nth j' reff 0)).
Proof.
  induction cnt as [|c IH]; intros j reff; cbn [reff_copy].
  - left. split; [reflexivity|]. intros; lia.
  - destruct (Req_dec_T (med_n (nth j med zero_medium))
                        (med_n (nth i med zero_medium))) as [E|E].
    + right. exists j. split; [lia|]. split; [exact E|reflexivity].
    + destruct (IH (S j) reff) as [[H1 H2]|(j' & Hj & Hn & H)].
      * left. split; [exact H1|]. intros j' Hj.
        destruct (Nat.eq_dec j' j) as [->|Hne]; [exact E|].
        apply H2. lia.
      * right. exists j'. split; [lia|]. split; assumption.
Qed.

(** The table after [k] rounds: the entries 1 to [k] hold the coefficient of
    their medium against medium 0, the others are still 0. *)
Lemma reff_table_inv (med : list medium) (len k : nat) :
  (k < len)%nat ->
  let reff := for_loop k (reff_step med) (repeat 0 len) in
  length reff = len /\
  forall i, nth i reff 0 =
            if ((1 <=? i)%nat && (i <=? k)%nat)%bool
            then mesh_getreff (med_n (nth i med zero_medium))
                              (med_n (nth 0 med zero_medium))
            else 0.
Proof.
  induction k as [|k IH]; intros Hk; cbn [for_loop].
  - split; [apply repeat_length|]. intros i.
    replace ((1 <=? i)%nat && (i <=? 0)%nat)%bool with false
      by (destruct i; reflexivity).
    destruct (Nat.lt_ge_cases i len).
    + apply nth_repeat_lt. assumption.
    + apply nth_overflow. rewrite repeat_length. assumption.
  - destruct (IH ltac:(lia)) as [Hl Hn]. clear IH. cbv zeta in *.
    set (reff := for_loop k (reff_step med) (repeat 0 len)) in *.
    set (G := fun i => mesh_getreff (med_n (nth i med zero_medium))
                                    (med_n (nth 0 med zero_medium))).
    assert (Hcur : nth (S k) reff 0 = 0).
    { rewrite Hn. replace (S k <=? k)%nat with false
        by (symmetry; apply Nat.leb_gt; lia).
      now rewrite andb_false_r. }
    unfold reff_step. cbv zeta.
    replace (S k - 1)%nat with k by lia.
    assert (Hcopy : length (reff_copy med (S k) 1 k reff) = len /\
              (forall i, i <> S k ->
                 nth i (reff_copy med (S k) 1 k reff) 0 = nth i reff 0) /\
              (nth (S k) (reff_copy med (S k) 1 k reff) 0 = 0 \/
               nth (S k) (reff_copy med (S k) 1 k reff) 0 = G (S k))).
    { rewrite reff_copy_length. split; [exact Hl|].
      destruct (reff_copy_spec med (S k) k 1 reff)
        as [[H1 _]|(j' & Hj & Hnj & H)]; rewrite ?H1, ?H.
      - split; [reflexivity|]. left. exact Hcur.
      - split.
        + intros i Hi. apply nth_upd_other. congruence.
        + right. rewrite nth_upd_same by lia. rewrite Hn.
          replace ((1 <=? j')%nat && (j' <=? k)%nat)%bool with true.
          * unfold G. now rewrite Hnj.
          * symmetry. apply andb_true_iff. split; apply Nat.leb_le; lia. }
    destruct Hcopy as (Hl1 & Hother & Hat).
    set (reff1 := reff_copy med (S k) 1 k reff) in *.
    fold (G (S k)).
    assert (Hres : forall r2,
              length r2 = len ->
              (forall i, i <> S k -> nth i r2 0 = nth i reff 0) ->
              nth (S k) r2 0 = G (S k) ->
              length r2 = len /\
              forall i, nth i r2 0 =
                        if ((1 <=? i)%nat && (i <=? S k)%nat)%bool
                        then G i else 0).
    { intros r2 Hl2 Ho2 Ha2. split; [exact Hl2|]. intros i.
      destruct (Nat.eq_dec i (S k)) as [->|Hne].
      - rewrite Ha2. replace (S k <=? S k)%nat with true
          by (symmetry; apply Nat.leb_le; lia). reflexivity.
      - rewrite Ho2 by exact Hne. rewrite Hn. fold (G i).
        replace (i <=? S k)%nat with (i <=? k)%nat; [reflexivity|].
        destruct (Nat.leb_spec i k), (Nat.leb_spec i (S k)); auto; lia. }
    destruct (Req_dec_T (nth (S k) reff1 0) 0) as [E0|E0].
    + apply Hres.
      * now rewrite upd_length.
      * intros i Hi. rewrite nth_upd_other by congruence. now apply Hother.
      * apply nth_upd_same. lia.
    + apply Hres; [exact Hl1|exact Hother|].
      destruct Hat as [Hz|Hg]; [contradiction|exact Hg].
Qed.

(** X15.  With reflection at the boundary, [tracer_prep] fills [Reff] so that
    every entry 1 to [prop] is [mesh_getreff] of the refractive index of that
    medium against the one of medium 0, whether it was computed or copied
    from an earlier medium with the same index; entry 0 is 0. *)
Theorem reff_table_entries (m : tetmesh) (cfg : mcconfig) (i : nat) :
  c_isreflect cfg = true ->
  (0 <= m_prop m)%Z ->
  (i <= Z.to_nat (m_prop m))%nat ->
  nth i (reff_table m cfg) 0 =
  if (1 <=? i)%nat
  then mesh_getreff (med_n (nth i (m_med m) zero_medium))
                    (med_n (nth 0 (m_med m) zero_medium))
  else 0.
Proof.
  intros Hr Hp Hi. unfold reff_table. rewrite Hr.
  destruct (reff_table_inv (m_med m) (Z.to_nat (m_prop m + 1))
              (Z.to_nat (m_prop m)) ltac:(lia)) as [_ Hn].
  cbv zeta in Hn. rewrite Hn.
  replace (i <=? Z.to_nat (m_prop m))%nat with true
    by (symmetry; apply Nat.leb_le; exact Hi).
  now rewrite andb_true_r.
Qed.

Lemma reff_table_entries_witness :
  nth 1 (reff_table unit_tet reflect_cfg) 0 = mesh_getreff (137 / 100) 1.
Proof.
  exact (reff_table_entries unit_tet reflect_cfg 1 eq_refl
           ltac:(simpl; lia) ltac:(simpl; lia)).
Defined.

(** X16.  When every medium 1 to [prop] has a refractive index of at least 1
    and medium 0 a positive one, every entry of [Reff] is at least 0 and less
    than 1, so the factor [2 / (1 + Reff[t])] of the node-volume correction
    lies between 1 and 2. *)
Theorem reff_table_unit_interval (m : tetmesh) (cfg : mcconfig) (i : nat) :
  (0 <= m_prop m)%Z ->
  (forall k, (1 <= k <= Z.to_nat (m_prop m))%nat ->
     1 <= med_n (nth k (m_med m) zero_medium)) ->
  0 < med_n (nth 0 (m_med m) zero_medium) ->
  0 <= nth i (reff_table m cfg) 0 < 1 /\
  1 < 2 / (1 + nth i (reff_table m cfg) 0) <= 2.
Proof.
  intros Hp Hn H0.
  assert (Hr : 0 <= nth i (reff_table m cfg) 0 < 1).
  { unfold reff_table. destruct (c_isreflect cfg).
    - destruct (reff_table_inv (m_med m) (Z.to_nat (m_prop m + 1))
                  (Z.to_nat (m_prop m)) ltac:(lia)) as [_ Hnth].
      cbv zeta in Hnth. rewrite Hnth.
      destruct ((1 <=? i)%nat && (i <=? Z.to_nat (m_prop m))%nat)%bool eqn:E;
        [|lra].
      apply andb_true_iff in E. destruct E as [E1 E2].
      apply Nat.leb_le in E1, E2.
      apply (getreff_with_range _ _ (asin (1 / med_n (nth i (m_med m)
                                                       zero_medium)))
                                getreff_count).
      + unfold getreff_count. lia.
      + specialize (Hn i ltac:(lia)). lra.
      + exact H0.
      + reflexivity.
    - destruct (Nat.lt_ge_cases i (Z.to_nat (m_prop m + 1))).
      + rewrite nth_repeat_lt by assumption. lra.
      + rewrite nth_overflow by (rewrite repeat_length; assumption). lra. }
  split; [exact Hr|].
  set (x := nth i (reff_table m cfg) 0) in *.
  assert (Hx : 0 < 1 + x) by lra.
  split.
  - apply (Rmult_lt_reg_r (1 + x)); [exact Hx|].
    unfold Rdiv. rewrite Rmult_assoc, Rinv_l by lra. lra.
  - apply (Rmult_le_reg_r (1 + x)); [exact Hx|].
    unfold Rdiv. rewrite Rmult_assoc, Rinv_l by lra. lra.
Qed.

Lemma reff_table_unit_interval_witness :
  0 <= nth 1 (reff_table unit_tet reflect_cfg) 0 < 1.
Proof.
  apply (reff_table_unit_interval unit_tet reflect_cfg 1).
  - simpl. lia.
  - intros k Hk. cbn [m_prop unit_tet] in Hk.
    assert (k = 1%nat) by lia. subst k.
    cbn [m_med unit_tet nth med_n]. lra.
  - cbn [m_med unit_tet nth med_n]. lra.
Defined.

(** ** The deflection of a scattering event *)

Section ScatterDeflection.

Variable EPS : R.
Hypothesis EPS_nonneg : 0 <= EPS.

(** X17.  The rotation of [mc_next_scatter] deflects by the sampled polar
    angle: for a unit direction away from the z axis by more than [EPS], or
    exactly on the axis, the scalar product of the old and the new direction
    is [ctheta]; it lies between -1 and 1, and the momentum transfer, when
    recorded, grows by 1 minus that product, an amount between 0 and 2. *)
Theorem mc_next_scatter_deflection
    (g : R) (dir : FLOAT3) (d : draws) (ismomentum : bool) (pmom0 : R) :
  vec_norm dir = 1 ->
  (-1 + EPS < fz dir < 1 - EPS \/ (fx dir = 0 /\ fy dir = 0)) ->
  let r := mc_next_scatter EPS g dir d ismomentum pmom0 in
  let c := vec_dot3 dir (snd (fst r)) in
  c = snd (scatter_polar EPS g d) /\
  -1 <= c <= 1 /\
  snd r = (if ismomentum then pmom0 + (1 - c) else pmom0) /\
  0 <= snd r - pmom0 <= 2.
Proof.
  intros Hn Hdir r c. subst c r.
  apply vec_norm_1 in Hn.
  rewrite mc_next_scatter_parts. cbn [fst snd].
  pose proof (scatter_polar_unit EPS g d) as Hpol.
  destruct (scatter_polar EPS g d) as [[theta stheta] ctheta].
  cbn [fst snd].
  set (sphi := snd (fst (scatter_azimuth d))).
  set (cphi := snd (scatter_azimuth d)).
  assert (Hc : -1 <= ctheta <= 1) by nra.
  assert (Hdot : vec_dot3 dir (scatter_rotate EPS dir sphi cphi stheta ctheta)
                 = ctheta).
  { unfold scatter_rotate, vec_dot3.
    destruct dir as [x y z]. cbn [fx fy fz] in *.
    destruct (Rgt_dec z (-1 + EPS)) as [Hlo|Hlo].
    - destruct (Rlt_dec z (1 - EPS)) as [Hhi|Hhi].
      + cbv zeta. cbn [fx fy fz].
        set (t := stheta * (1 / sqrt (1 - z * z))).
        replace (x * (t * (x * z * cphi - y * sphi) + x * ctheta)
                 + y * (t * (y * z * cphi + x * sphi) + y * ctheta)
                 + z * (- t * (1 - z * z) * cphi + z * ctheta))
          with (t * cphi * z * (x * x + y * y + z * z - 1)
                + ctheta * (x * x + y * y + z * z)) by ring.
        rewrite Hn. ring.
      + destruct Hdir as [[_ H]|[Hx Hy]]; [lra|]. subst x y.
        cbn [fx fy fz].
        destruct (Rgt_dec z 0).
        * assert (Hz : z = 1) by nra. subst z. ring.
        * assert (Hz : z = -1) by nra. subst z. ring.
    - destruct Hdir as [[H _]|[Hx Hy]]; [lra|]. subst x y.
      cbn [fx fy fz].
      destruct (Rgt_dec z 0).
      + assert (Hz : z = 1) by nra. subst z. ring.
      + assert (Hz : z = -1) by nra. subst z. ring. }
  rewrite Hdot. split; [reflexivity|]. split; [exact Hc|].
  split; [reflexivity|].
  destruct ismomentum; lra.
Qed.

End ScatterDeflection.

Lemma mc_next_scatter_deflection_witness :
  vec_dot3 (mkFLOAT3 0 0 1)
    (snd (fst (mc_next_scatter (1 / 1000000) (9 / 10) (mkFLOAT3 0 0 1)
                               (mkDraws 1 (1 / 2) (1 / 2)) true 0)))
  = snd (scatter_polar (1 / 1000000) (9 / 10) (mkDraws 1 (1 / 2) (1 / 2))).
Proof.
  assert (He : 0 <= 1 / 1000000) by lra.
  assert (Hn : vec_norm (mkFLOAT3 0 0 1) = 1).
  { unfold vec_norm. cbn [fx fy fz].
    replace (0 * 0 + 0 * 0 + 1 * 1) with 1 by ring. apply sqrt_1. }
  exact (proj1 (mc_next_scatter_deflection (1 / 1000000) He (9 / 10)
                  (mkFLOAT3 0 0 1) (mkDraws 1 (1 / 2) (1 / 2)) true 0 Hn
                  (or_intror (conj eq_refl eq_refl)))).
Defined.

(** ** [mesh_srcdetelem]: the configuration *)

Lemma marked_positive (type : list Z) (t : Z) (k : nat) :
  Forall (fun v => (1 <= v)%Z) (marked type t k).
Proof.
  unfold marked. apply Forall_forall. intros v Hin.
  apply in_map_iff in Hin. destruct Hin as (i & <- & _). lia.
Qed.

Lemma hd_marked_nonzero (type : list Z) (t : Z) (k : nat) :
  marked type t k <> [] -> hd 0%Z (marked type t k) <> 0%Z.
Proof.
  intros Hne. pose proof (marked_positive type t k) as H.
  destruct (marked type t k) as [|v l]; [congruence|].
  inversion H; subst. simpl. lia.
Qed.

(** The first loop, seen from [e0] and [detnum]: [e0] moves to the first
    candidate element when it was 0, and [detnum] drops to 0 once a detector
    element is met. *)
Lemma srcdet_count_config (type : list Z) (cfg : mcconfig) (k : nat) :
  let '(_, _, cfg1) := for_loop k (srcdet_count type) (O, O, cfg) in
  c_e0 cfg1 = (if (c_e0 cfg =? 0)%Z then hd 0%Z (marked type (-1) k)
               else c_e0 cfg) /\
  c_detnum cfg1 = (match marked type (-2) k with
                   | [] => c_detnum cfg
                   | _ :: _ => 0%Z
                   end) /\
  c_srcpos cfg1 = c_srcpos cfg /\ c_bary0 cfg1 = c_bary0 cfg /\
  c_srctype cfg1 = c_srctype cfg.
Proof.
  induction k as [|k IH]; cbn [for_loop].
  - cbn [marked seq filter map hd]. destruct (c_e0 cfg =? 0)%Z eqn:E.
    + apply Z.eqb_eq in E. repeat split; auto.
    + repeat split; auto.
  - destruct (for_loop k (srcdet_count type) (O, O, cfg)) as [[ns nd] c1].
    destruct IH as (He & Hd & Hs & Hb & Ht).
    unfold srcdet_count. rewrite !marked_S.
    assert (Hsrc :
      (if (nth k type 0 =? -1)%Z
       then (if (c_e0 c1 =? 0)%Z then Z.of_nat k + 1 else c_e0 c1)%Z
       else c_e0 c1) =
      (if (c_e0 cfg =? 0)%Z
       then hd 0%Z (marked type (-1) k ++
                    (if (nth k type 0 =? -1)%Z
                     then [(Z.of_nat k + 1)%Z] else []))
       else c_e0 cfg)).
    { destruct (nth k type 0 =? -1)%Z.
      - rewrite He. destruct (c_e0 cfg =? 0)%Z eqn:E0.
        + destruct (marked type (-1) k) as [|v l] eqn:Em.
          * reflexivity.
          * pose proof (hd_marked_nonzero type (-1) k) as Hnz.
            rewrite Em in Hnz. specialize (Hnz ltac:(discriminate)).
            cbn [hd app] in *.
            destruct (Z.eqb_spec v 0); [contradiction|reflexivity].
        + rewrite E0. reflexivity.
      - rewrite app_nil_r. exact He. }
    destruct (nth k type 0 =? -1)%Z; destruct (nth k type 0 =? -2)%Z;
      cbn [c_e0 c_detnum c_srcpos c_bary0 c_srctype set_e0 set_extdet];
      rewrite ?app_nil_r in *;
      (split; [exact Hsrc|]);
      (split; [|repeat split; assumption]);
      try exact Hd;
      destruct (marked type (-2) k); reflexivity.
Qed.

(** X18.  What [mesh_srcdetelem] leaves in the configuration and in the
    detector list: [e0] is kept when it was not 0 and else becomes the first
    element with region id -1 (or stays 0 without one); the 1-based indices
    of the elements with id -2 fill [detelem] in order, and these elements
    keep the id -2; when there is one, [isextdet] is set and [detnum] is 0,
    and else both are as they were. *)
Theorem mesh_srcdetelem_config (m : tetmesh) (cfg : mcconfig) :
  length (m_type m) = m_ne m ->
  let m1 := fst (mesh_srcdetelem m cfg) in
  let c1 := snd (mesh_srcdetelem m cfg) in
  c_e0 c1 = (if (c_e0 cfg =? 0)%Z
             then hd 0%Z (marked (m_type m) (-1) (m_ne m))
             else c_e0 cfg) /\
  firstn (m_detelemlen m1) (m_detelem m1) = marked (m_type m) (-2) (m_ne m) /\
  (forall i, nth i (m_type m) 0%Z = (-2)%Z ->
             nth i (m_type m1) 0%Z = (-2)%Z) /\
  (marked (m_type m) (-2) (m_ne m) <> [] ->
   c_isextdet c1 = true /\ c_detnum c1 = 0%Z) /\
  (marked (m_type m) (-2) (m_ne m) = [] ->
   c_isextdet c1 = c_isextdet cfg /\ c_detnum c1 = c_detnum cfg).
Proof.
  intros Hlen m1 c1.
  destruct (mesh_srcdetelem_spec m cfg Hlen)
    as (_ & _ & Hty & _ & _ & _ & Hde & Hx & _).
  fold m1 in Hty, Hde. fold c1 in Hx.
  assert (Hc : c_e0 c1 = (if (c_e0 cfg =? 0)%Z
                          then hd 0%Z (marked (m_type m) (-1) (m_ne m))
                          else c_e0 cfg) /\
               c_detnum c1 = (match marked (m_type m) (-2) (m_ne m) with
                              | [] => c_detnum cfg
                              | _ :: _ => 0%Z
                              end)).
  { subst c1. unfold mesh_srcdetelem.
    pose proof (srcdet_count_config (m_type m) cfg (m_ne m)) as H.
    destruct (for_loop (m_ne m) (srcdet_count (m_type m)) (O, O, cfg))
      as [[ns nd] cfg1].
    destruct H as (He & Hd & _).
    destruct ((0 <? ns)%nat || (0 <? nd)%nat)%bool.
    - destruct (for_loop (m_ne m) srcdet_record _) as [[[[? ?] ?] ?] ?].
      split; assumption.
    - split; assumption. }
  destruct Hc as [He Hd].
  split; [exact He|]. split; [exact Hde|]. split.
  { intros i Hi. rewrite Hty, Hi. reflexivity. }
  split.
  - intros Hne. rewrite Hx, Hd.
    destruct (marked (m_type m) (-2) (m_ne m)); [congruence|].
    cbn [length Nat.ltb Nat.leb]. rewrite orb_true_r. split; reflexivity.
  - intros Hnil. rewrite Hx, Hd, Hnil. cbn [length Nat.ltb Nat.leb].
    rewrite orb_false_r. split; reflexivity.
Qed.

Lemma mesh_srcdetelem_config_witness :
  length (m_type marked_mesh) = m_ne marked_mesh /\
  c_e0 (snd (mesh_srcdetelem marked_mesh pencil_cfg)) = 1%Z.
Proof.
  split; [reflexivity|].
  exact (proj1 (mesh_srcdetelem_config marked_mesh pencil_cfg eq_refl)).
Defined.

(** ** [mesh_loadmedia]: the table *)

(** Reading [cnt] rows into the entries from [i] on: it succeeds when the
    file has that many rows, and fails in the format error when it has
    fewer. *)
Lemma load_rows_spec (cnt : nat) :
  forall (rows : list medium) (i : nat) (med : list medium),
  (i + cnt <= length med)%nat ->
  (cnt <= length rows)%nat ->
  exists med',
    load_rows rows cnt i med = Ok med' /\
    length med' = length med /\
    (forall j, (j < cnt)%nat ->
       nth (i + j) med' zero_medium = nth j rows zero_medium) /\
    (forall j, (j < i \/ i + cnt <= j)%nat ->
       nth j med' zero_medium = nth j med zero_medium).
Proof.
  induction cnt as [|c IH]; intros rows i med Hlen Hrows; cbn [load_rows].
  - exists med. split; [reflexivity|]. split; [reflexivity|].
    split; [intros; lia|reflexivity].
  - destruct rows as [|r rs]; [simpl in Hrows; lia|].
    destruct (IH rs (S i) (upd med i r)) as (med' & H & Hl & Hin & Hout).
    { rewrite upd_length. lia. }
    { simpl in Hrows. lia. }
    exists med'. split; [exact H|]. rewrite upd_length in Hl.
    split; [exact Hl|]. split.
    + intros [|j] Hj.
      * rewrite Nat.add_0_r, Hout by lia.
        cbn [nth]. apply nth_upd_same. lia.
      * replace (i + S j)%nat with (S i + j)%nat by lia.
        rewrite Hin by lia. reflexivity.
    + intros j Hj. rewrite Hout by lia. apply nth_upd_other. lia.
Qed.

Lemma load_rows_short (cnt : nat) :
  forall (rows : list medium) (i : nat) (med : list medium),
  (length rows < cnt)%nat ->
  load_rows rows cnt i med = Fatal "property file has wrong format".
Proof.
  induction cnt as [|c IH]; intros rows i med H; [lia|].
  cbn [load_rows]. destruct rows as [|r rs]; [reflexivity|].
  apply IH. simpl in H. lia.
Qed.

(** The copy of the first [n] media of the configuration. *)
Lemma copy_medium_nth (src : list medium) (n : nat) (med : list medium) :
  (n <= length med)%nat ->
  forall j, nth j (for_loop n (copy_medium src) med) zero_medium =
            if (j <? n)%nat then nth j src zero_medium
            else nth j med zero_medium.
Proof.
  induction n as [|n IH]; intros Hn j; cbn [for_loop]; [reflexivity|].
  unfold copy_medium at 1.
  destruct (copy_medium_keep src n med) as [Hl _].
  rewrite nth_upd by lia.
  destruct (Nat.eqb_spec n j) as [<-|Hne].
  - replace (n <? S n)%nat with true by (symmetry; apply Nat.ltb_lt; lia).
    reflexivity.
  - rewrite IH by lia.
    destruct (Nat.ltb_spec j n), (Nat.ltb_spec j (S n)); auto; lia.
Qed.

(** The unit conversion of the media 1 to [n]. *)
Lemma scale_medium_nth (u : R) (n : nat) (med : list medium) :
  (n < length med)%nat ->
  forall j, nth j (for_loop n (scale_medium u) med) zero_medium =
            if ((1 <=? j)%nat && (j <=? n)%nat)%bool
            then scaled u (nth j med zero_medium)
            else nth j med zero_medium.
Proof.
  induction n as [|n IH]; intros Hn j; cbn [for_loop].
  - replace ((1 <=? j)%nat && (j <=? 0)%nat)%bool with false
      by (destruct j; reflexivity).
    reflexivity.
  - unfold scale_medium at 1. cbv zeta.
    destruct (scale_medium_keep u n med) as [Hl Hk].
    rewrite nth_upd by lia.
    destruct (Nat.eqb_spec (S n) j) as [<-|Hne].
    + rewrite Hk by lia.
      replace (S n <=? S n)%nat with true
        by (symmetry; apply Nat.leb_le; lia).
      reflexivity.
    + rewrite IH by lia.
      replace (j <=? S n)%nat with (j <=? n)%nat; [reflexivity|].
      destruct (Nat.leb_spec j n), (Nat.leb_spec j (S n)); auto; lia.
Qed.

(** The table before the media are read or copied: medium 0 of the ambient
    medium, its copy at [prop + 1] with a wide-field detector, zeros
    between. *)
Lemma initial_table (prop : Z) (ext : bool) (nout : R) :
  (0 <= prop)%Z ->
  let med1 := upd (repeat zero_medium
                     (Z.to_nat (prop + 1 + if ext then 1 else 0)))
                  0 (mkMedium 0 0 1 nout) in
  let med2 := if ext then zupd med1 (prop + 1) (nth 0 med1 zero_medium)
              else med1 in
  length med2 = Z.to_nat (prop + 1 + if ext then 1 else 0) /\
  nth 0 med2 zero_medium = mkMedium 0 0 1 nout.
Proof.
  intros Hp med1 med2.
  assert (Hl1 : length med1 = Z.to_nat (prop + 1 + if ext then 1 else 0)).
  { unfold med1. now rewrite upd_length, repeat_length. }
  assert (H10 : nth 0 med1 zero_medium = mkMedium 0 0 1 nout).
  { unfold med1. apply nth_upd_same. rewrite repeat_length.
    destruct ext; lia. }
  unfold med2. destruct ext; [|split; assumption].
  unfold zupd. destruct (Z.ltb_spec (prop + 1) 0); [lia|].
  rewrite upd_length. split; [exact Hl1|].
  rewrite nth_upd_other by lia. exact H10.
Qed.

(** X19.  Reading the media from a property file whose header announces
    [p > 0] media and that holds at least [p] rows: [mesh_loadmedia] returns
    with [prop = p], medium 0 set to the ambient medium
    [(0, 0, 1, cfg->nout)], and medium [i], for [i] from 1 to [p], set to row
    [i] of the file with [mua] and [mus] multiplied by [unitinmm] (unless the
    grid ray tracer is used or the unit is 1). *)
Theorem mesh_loadmedia_file_table (f : propfile) (m : tetmesh)
                                  (cfg : mcconfig) (p : Z) :
  c_medianum cfg = O ->
  pf_prop f = Some p -> (0 < p)%Z ->
  (Z.to_nat p <= length (pf_rows f))%nat ->
  exists m2 c2,
    mesh_loadmedia (Some f) m cfg = Ok (m2, c2) /\
    m_prop m2 = p /\ c_maxmedia c2 = p /\
    length (m_med m2) =
      Z.to_nat (p + 1 + if c_isextdet cfg then 1 else 0) /\
    nth 0 (m_med m2) zero_medium = mkMedium 0 0 1 (c_nout cfg) /\
    forall i, (1 <= i <= Z.to_nat p)%nat ->
      nth i (m_med m2) zero_medium =
      unit_scaled cfg (nth (i - 1) (pf_rows f) zero_medium).
Proof.
  intros Hm Hp Hpos Hrows. unfold mesh_loadmedia.
  rewrite Hm, Hp. cbn [Nat.eqb].
  destruct (Z.leb_spec p 0) as [Hle|_]; [lia|]. cbv zeta.
  destruct (initial_table p (c_isextdet cfg) (c_nout cfg) ltac:(lia))
    as [Hl2 H20].
  cbv zeta in Hl2, H20.
  set (med1 := upd (repeat zero_medium
                      (Z.to_nat (p + 1 + if c_isextdet cfg then 1 else 0)))
                   0 (mkMedium 0 0 1 (c_nout cfg))) in *.
  set (med2 := if c_isextdet cfg
               then zupd med1 (p + 1) (nth 0 med1 zero_medium)
               else med1) in *.
  assert (Hpair :
    (if c_isextdet cfg
     then (zupd med1 (p + 1) (nth 0 med1 zero_medium),
           for_loop (m_ne m) (remap_extdet p) (m_type m))
     else (med1, m_type m)) =
    (med2, if c_isextdet cfg
           then for_loop (m_ne m) (remap_extdet p) (m_type m)
           else m_type m)).
  { unfold med2. destruct (c_isextdet cfg); reflexivity. }
  rewrite Hpair. clear Hpair.
  destruct (load_rows_spec (Z.to_nat p) (pf_rows f) 1 med2)
    as (med3 & Hload & Hl3 & Hin3 & Hout3).
  { rewrite Hl2. destruct (c_isextdet cfg); lia. }
  { exact Hrows. }
  rewrite Hload.
  eexists. eexists. split; [reflexivity|].
  cbn [m_prop m_med set_med c_maxmedia set_maxmedia].
  split; [reflexivity|]. split; [reflexivity|].
  assert (Hn3 : (Z.to_nat p < length med3)%nat).
  { rewrite Hl3, Hl2. destruct (c_isextdet cfg); lia. }
  unfold unit_scaled.
  destruct (negb (TMethod_eqb (c_method cfg) rtBLBadouelGrid)
            && (if Req_dec_T (c_unitinmm cfg) 1 then false else true))%bool.
  - destruct (scale_medium_keep (c_unitinmm cfg) (Z.to_nat p) med3)
      as [Hl4 Hk4].
    split; [now rewrite Hl4, Hl3|]. split.
    + rewrite Hk4 by lia. rewrite Hout3 by lia. exact H20.
    + intros i Hi. rewrite scale_medium_nth by exact Hn3.
      replace ((1 <=? i)%nat && (i <=? Z.to_nat p)%nat)%bool with true.
      * replace i with (1 + (i - 1))%nat at 1 by lia.
        rewrite Hin3 by lia. reflexivity.
      * symmetry. apply andb_true_iff. split; apply Nat.leb_le; lia.
  - split; [now rewrite Hl3|]. split.
    + rewrite Hout3 by lia. exact H20.
    + intros i Hi. replace i with (1 + (i - 1))%nat at 1 by lia.
      rewrite Hin3 by lia. reflexivity.
Qed.

Lemma mesh_loadmedia_file_table_witness :
  exists m2 c2,
    mesh_loadmedia (Some one_medium_file) unit_tet file_cfg = Ok (m2, c2) /\
    nth 1 (m_med m2) zero_medium =
    unit_scaled file_cfg (mkMedium (1 / 100) 1 (9 / 10) (137 / 100)).
Proof.
  destruct (mesh_loadmedia_file_table one_medium_file unit_tet file_cfg 1
              eq_refl eq_refl ltac:(lia) ltac:(simpl; lia))
    as (m2 & c2 & H & _ & _ & _ & _ & Hn).
  exists m2, c2. split; [exact H|].
  exact (Hn 1%nat ltac:(simpl; lia)).
Defined.

(** X20.  The failures of [mesh_loadmedia] on the file path: without a file
    it stops with the message that the file cannot be opened; with a header
    that does not parse, a media count that is not positive, or fewer rows
    than the header announces, it stops with the format error. *)
Theorem mesh_loadmedia_file_errors (m : tetmesh) (cfg : mcconfig) :
  c_medianum cfg = O ->
  mesh_loadmedia None m cfg = Fatal "can not open media property file" /\
  forall f,
    (match pf_prop f with
     | None => True
     | Some p => (p <= 0)%Z \/ (length (pf_rows f) < Z.to_nat p)%nat
     end) ->
    mesh_loadmedia (Some f) m cfg = Fatal "property file has wrong format".
Proof.
  intros Hm. unfold mesh_loadmedia. rewrite Hm. cbn [Nat.eqb].
  split; [reflexivity|]. intros f Hf.
  destruct (pf_prop f) as [p|]; [|reflexivity].
  destruct (Z.leb_spec p 0) as [Hle|Hgt]; [reflexivity|].
  destruct Hf as [Hf|Hf]; [lia|]. cbv zeta.
  destruct (c_isextdet cfg); rewrite load_rows_short by exact Hf;
    reflexivity.
Qed.

Lemma mesh_loadmedia_file_errors_witness :
  mesh_loadmedia (Some short_file) unit_tet file_cfg =
  Fatal "property file has wrong format".
Proof.
  apply (proj2 (mesh_loadmedia_file_errors unit_tet file_cfg eq_refl)
               short_file).
  right. simpl. lia.
Defined.

(** X21.  With the media given in memory ([medianum] not 0, and at least
    that many entries in [cfg->prop]), [mesh_loadmedia] always returns;
    [prop] is [medianum - 1], medium 0 of the mesh is entry 0 of [cfg->prop]
    (the copy overwrites the ambient medium built from [cfg->nout]), and
    medium [i], for [i] from 1 to [prop], is entry [i] with [mua] and [mus]
    multiplied by [unitinmm] (unless the grid ray tracer is used or the unit
    is 1). *)
Theorem mesh_loadmedia_memory_table (file : option propfile) (m : tetmesh)
                                    (cfg : mcconfig) :
  c_medianum cfg <> O ->
  (c_medianum cfg <= length (c_prop cfg))%nat ->
  exists m2 c2,
    mesh_loadmedia file m cfg = Ok (m2, c2) /\
    m_prop m2 = (Z.of_nat (c_medianum cfg) - 1)%Z /\
    c_maxmedia c2 = (Z.of_nat (c_medianum cfg) - 1)%Z /\
    length (m_med m2) =
      (c_medianum cfg + if c_isextdet cfg then 1 else 0)%nat /\
    nth 0 (m_med m2) zero_medium = nth 0 (c_prop cfg) zero_medium /\
    forall i, (1 <= i < c_medianum cfg)%nat ->
      nth i (m_med m2) zero_medium =
      unit_scaled cfg (nth i (c_prop cfg) zero_medium).
Proof.
  intros Hm Hsrc. unfold mesh_loadmedia.
  apply Nat.eqb_neq in Hm. rewrite Hm. apply Nat.eqb_neq in Hm. cbv zeta.
  set (p := (Z.of_nat (c_medianum cfg) - 1)%Z).
  destruct (initial_table p (c_isextdet cfg) (c_nout cfg)
              ltac:(unfold p; lia)) as [Hl2 _].
  cbv zeta in Hl2.
  set (med1 := upd (repeat zero_medium
                      (Z.to_nat (p + 1 + if c_isextdet cfg then 1 else 0)))
                   0 (mkMedium 0 0 1 (c_nout cfg))) in *.
  set (med2 := if c_isextdet cfg
               then zupd med1 (p + 1) (nth 0 med1 zero_medium)
               else med1) in *.
  assert (Hpair :
    (if c_isextdet cfg
     then (zupd med1 (p + 1) (nth 0 med1 zero_medium),
           for_loop (m_ne m) (remap_extdet p) (m_type m))
     else (med1, m_type m)) =
    (med2, if c_isextdet cfg
           then for_loop (m_ne m) (remap_extdet p) (m_type m)
           else m_type m)).
  { unfold med2. destruct (c_isextdet cfg); reflexivity. }
  rewrite Hpair. clear Hpair.
  assert (Hl2' : length med2 =
                 (c_medianum cfg + if c_isextdet cfg then 1 else 0)%nat).
  { rewrite Hl2. unfold p. destruct (c_isextdet cfg); lia. }
  set (med3 := for_loop (c_medianum cfg) (copy_medium (c_prop cfg)) med2).
  destruct (copy_medium_keep (c_prop cfg) (c_medianum cfg) med2) as [Hl3 _].
  fold med3 in Hl3.
  assert (Hn3 : forall j, (j < c_medianum cfg)%nat ->
            nth j med3 zero_medium = nth j (c_prop cfg) zero_medium).
  { intros j Hj. unfold med3. rewrite copy_medium_nth by lia.
    replace (j <? c_medianum cfg)%nat with true
      by (symmetry; apply Nat.ltb_lt; exact Hj).
    reflexivity. }
  eexists. eexists. split; [reflexivity|].
  cbn [m_prop m_med set_med c_maxmedia set_maxmedia].
  split; [reflexivity|]. split; [reflexivity|].
  assert (Hp : Z.to_nat p = (c_medianum cfg - 1)%nat) by (unfold p; lia).
  unfold unit_scaled.
  destruct (negb (TMethod_eqb (c_method cfg) rtBLBadouelGrid)
            && (if Req_dec_T (c_unitinmm cfg) 1 then false else true))%bool.
  - destruct (scale_medium_keep (c_unitinmm cfg) (Z.to_nat p) med3)
      as [Hl4 Hk4].
    split; [now rewrite Hl4, Hl3|]. split.
    + rewrite Hk4 by lia. apply Hn3. lia.
    + intros i Hi.
      rewrite scale_medium_nth by (rewrite Hl3, Hl2'; lia).
      replace ((1 <=? i)%nat && (i <=? Z.to_nat p)%nat)%bool with true.
      * rewrite Hn3 by lia. reflexivity.
      * symmetry. apply andb_true_iff. split; apply Nat.leb_le; lia.
  - split; [now rewrite Hl3|]. split.
    + apply Hn3. lia.
    + intros i Hi. apply Hn3. lia.
Qed.

Lemma mesh_loadmedia_memory_table_witness :
  exists m2 c2,
    mesh_loadmedia None unit_tet pencil_cfg = Ok (m2, c2) /\
    m_prop m2 = 1%Z /\
    nth 0 (m_med m2) zero_medium = mkMedium 0 0 1 1.
Proof.
  destruct (mesh_loadmedia_memory_table None unit_tet pencil_cfg
              ltac:(discriminate) ltac:(simpl; lia))
    as (m2 & c2 & H & Hp & _ & _ & H0 & _).
  exists m2, c2. split; [exact H|]. split; [exact Hp|exact H0].
Defined.

(** ** [mesh_loadelem] *)

Lemma upd_upd {A : Type} (l : list A) (i : nat) (a b : A) :
  upd (upd l i a) i b = upd l i b.
Proof.
  revert i. induction l as [|x t IH]; intros [|i]; simpl; auto.
  now rewrite IH.
Qed.

(** A loop that writes the entries 0 to [n - 1] one after the other. *)
Lemma fill_loop {A : Type} (d : A) (v : nat -> A) (n : nat) (l : list A) :
  (n <= length l)%nat ->
  length (for_loop n (fun j r => upd r j (v j)) l) = length l /\
  forall j, nth j (for_loop n (fun j r => upd r j (v j)) l) d =
            if (j <? n)%nat then v j else nth j l d.
Proof.
  induction n as [|n IH]; intros Hn; cbn [for_loop]; [auto|].
  destruct (IH ltac:(lia)) as [Hl Hnth]. rewrite upd_length.
  split; [exact Hl|]. intros j. rewrite nth_upd by lia.
  destruct (Nat.eqb_spec n j) as [<-|Hne].
  - replace (n <? S n)%nat with true by (symmetry; apply Nat.ltb_lt; lia).
    reflexivity.
  - rewrite Hnth.
    destruct (Nat.ltb_spec j n), (Nat.ltb_spec j (S n)); auto; lia.
Qed.

(** Writing row [i] of a table entry by entry is writing the row. *)
Lemma fill_table_row (v : nat -> Z) (i n : nat) (el : list (list Z)) :
  (i < length el)%nat ->
  for_loop n (fun j e => upd e i (upd (nth i e []) j (v j))) el =
  match n with
  | O => el
  | S _ => upd el i (for_loop n (fun j r => upd r j (v j)) (nth i el []))
  end.
Proof.
  intros Hi. induction n as [|n IH]; [reflexivity|].
  cbn [for_loop]. rewrite IH. destruct n as [|n].
  - reflexivity.
  - rewrite nth_upd_same by exact Hi. apply upd_upd.
Qed.

(** The copy from memory, after [k] rounds. *)
Lemma loadelem_unpack_inv (src : list Z) (elemlen ne k : nat) :
  (k <= ne)%nat ->
  let s := for_loop k (loadelem_unpack src elemlen)
             (repeat (repeat 0%Z elemlen) ne, repeat 0%Z ne) in
  length (fst s) = ne /\ length (snd s) = ne /\
  (forall i, (i < ne)%nat -> length (nth i (fst s) []) = elemlen) /\
  (forall i j, (i < k)%nat -> (j < elemlen)%nat ->
     nth j (nth i (fst s) []) 0%Z = nth (i * (elemlen + 1) + j) src 0%Z) /\
  (forall i, (i < k)%nat ->
     nth i (snd s) 0%Z = nth (i * (elemlen + 1) + elemlen) src 0%Z).
Proof.
  induction k as [|k IH]; intros Hk; cbn [for_loop].
  - cbn [fst snd]. rewrite !repeat_length.
    split; [reflexivity|]. split; [reflexivity|]. split.
    + intros i Hi. rewrite nth_repeat_lt by exact Hi. apply repeat_length.
    + split; intros; lia.
  - destruct (IH ltac:(lia)) as (Hl1 & Hl2 & Hrow & Hel & Hty). clear IH.
    cbv zeta in *.
    destruct (for_loop k (loadelem_unpack src elemlen) _) as [el ty].
    cbn [fst snd] in *. unfold loadelem_unpack.
    set (v := fun j => nth (k * (elemlen + 1) + j) src 0%Z).
    change (for_loop elemlen
              (fun j el0 =>
                 upd el0 k (upd (nth k el0 []) j
                                (nth (k * (elemlen + 1) + j) src 0%Z))) el)
      with (for_loop elemlen
              (fun j el0 => upd el0 k (upd (nth k el0 []) j (v j))) el).
    rewrite (fill_table_row v k elemlen el) by lia.
    destruct (fill_loop 0%Z v elemlen (nth k el []))
      as [Hfl Hfn].
    { rewrite Hrow by lia. lia. }
    set (row := for_loop elemlen (fun j r => upd r j (v j)) (nth k el []))
      in *.
    assert (Hel' : (match elemlen with
                    | O => el
                    | S _ => upd el k row
                    end) = upd el k row).
    { destruct elemlen; [|reflexivity].
      unfold row. cbn [for_loop]. symmetry. apply upd_nth_same. }
    rewrite Hel'. cbn [fst snd]. rewrite !upd_length.
    split; [exact Hl1|]. split; [exact Hl2|]. split.
    + intros i Hi. rewrite nth_upd by lia.
      destruct (Nat.eqb_spec k i) as [<-|Hne].
      * rewrite Hfl. apply Hrow. lia.
      * apply Hrow. exact Hi.
    + split.
      * intros i j Hi Hj. rewrite nth_upd by lia.
        destruct (Nat.eqb_spec k i) as [<-|Hne].
        -- rewrite Hfn.
           replace (j <? elemlen)%nat with true
             by (symmetry; apply Nat.ltb_lt; exact Hj).
           reflexivity.
        -- apply Hel; lia.
      * intros i Hi. rewrite nth_upd by lia.
        destruct (Nat.eqb_spec k i) as [<-|Hne]; [reflexivity|].
        apply Hty. lia.
Qed.

Lemma table_index_inj (len i j i' j' : nat) :
  (j < len)%nat -> (j' < len)%nat ->
  (i * len + j = i' * len + j')%nat -> i = i' /\ j = j'.
Proof.
  intros Hj Hj' E.
  assert (Hi : i = i').
  { assert (H1 : ((i * len + j) / len = i)%nat).
    { rewrite Nat.add_comm, Nat.div_add by lia.
      rewrite Nat.div_small by lia. reflexivity. }
    assert (H2 : ((i' * len + j') / len = i')%nat).
    { rewrite Nat.add_comm, Nat.div_add by lia.
      rewrite Nat.div_small by lia. reflexivity. }
    rewrite <- H1, <- H2, E. reflexivity. }
  subst i'. split; [reflexivity|lia].
Qed.

(** The table of the dump: row [i] is the row of element [i] followed by its
    region id. *)
Lemma init_from_cfg_elem_nth (m : tetmesh) (i j : nat) :
  (i < m_ne m)%nat -> (j <= m_elemlen m)%nat ->
  nth (i * (m_elemlen m + 1) + j) (init_from_cfg_elem m) 0%Z =
  if (j <? m_elemlen m)%nat then nth j (nth i (m_elem m) []) 0%Z
  else nth i (m_type m) 0%Z.
Proof.
  intros Hi Hj. unfold init_from_cfg_elem.
  set (L := m_elemlen m).
  set (val := fun i j => if (j <? L)%nat
                         then nth j (nth i (m_elem m) []) 0%Z
                         else nth i (m_type m) 0%Z).
  assert (Hloop :
    for_loop (m_ne m)
      (fun i0 flat =>
         let flat1 :=
           for_loop L
             (fun j0 f => upd f (i0 * (L + 1) + j0)
                              (nth j0 (nth i0 (m_elem m) []) 0%Z)) flat in
         upd flat1 (i0 * (L + 1) + L) (nth i0 (m_type m) 0%Z))
      (repeat 0%Z (m_ne m * (L + 1))) =
    for_loop (m_ne m)
      (fun i0 w1 =>
         for_loop (S L)
           (fun j0 w2 =>
              upd w2 (i0 * (L + 1) + j0)
                  ((fun i1 j1 _ => val i1 j1) i0 j0
                     (nth (i0 * (L + 1) + j0) w2 0%Z)))
           w1)
      (repeat 0%Z (m_ne m * (L + 1)))).
  { apply for_loop_ext. intros i0 x _. cbn [for_loop]. cbv zeta.
    assert (HL : val i0 L = nth i0 (m_type m) 0%Z)
      by (unfold val; now rewrite Nat.ltb_irrefl).
    rewrite HL. f_equal.
    apply for_loop_ext. intros j0 y Hj0. unfold val.
    replace (j0 <? L)%nat with true
      by (symmetry; apply Nat.ltb_lt; exact Hj0).
    reflexivity. }
  cbv zeta in Hloop. rewrite Hloop.
  destruct (nested_update 0%Z (m_ne m) (S L)
              (fun i0 j0 => (i0 * (L + 1) + j0)%nat)
              (fun i1 j1 _ => val i1 j1)
              (repeat 0%Z (m_ne m * (L + 1)))) as (_ & Hin & _).
  { intros a b a' b' Ha Hb Ha' Hb' E.
    apply (table_index_inj (L + 1) a b a' b'); lia. }
  { intros a b Ha Hb. rewrite repeat_length.
    assert (S a * (L + 1) <= m_ne m * (L + 1))%nat
      by (apply Nat.mul_le_mono_r; lia).
    lia. }
  cbv zeta in Hin. rewrite Hin by (fold L in Hj; lia). reflexivity.
Qed.

Lemma mesh_srcdetelem_keeps (m : tetmesh) (cfg : mcconfig) :
  m_elem (fst (mesh_srcdetelem m cfg)) = m_elem m /\
  m_elemlen (fst (mesh_srcdetelem m cfg)) = m_elemlen m /\
  m_weight (fst (mesh_srcdetelem m cfg)) = m_weight m.
Proof.
  unfold mesh_srcdetelem.
  destruct (for_loop (m_ne m) (srcdet_count (m_type m)) (O, O, cfg))
    as [[ns nd] cfg1].
  destruct ((0 <? ns)%nat || (0 <? nd)%nat)%bool.
  - destruct (for_loop (m_ne m) srcdet_record _) as [[[[? ?] ?] ?] ?].
    repeat split.
  - repeat split.
Qed.

(** X22.  [mesh_loadelem] reads back the element table that
    [mesh_init_from_cfg] builds for the dump: loaded from memory, the mesh
    has the same number of elements and nodes per element and the same rows
    of node indices, and the same region ids except that -1 has become 0. *)
Theorem mesh_loadelem_reads_dump (m m0 : tetmesh) (cfg : mcconfig)
                                 (file : option (list Z)) :
  length (m_elem m) = m_ne m ->
  length (m_type m) = m_ne m ->
  Forall (fun row => length row = m_elemlen m) (m_elem m) ->
  exists m1 c1,
    mesh_loadelem (Some (init_from_cfg_elem m, m_ne m, m_elemlen m)) file
                  m0 cfg = Ok (m1, c1) /\
    m_ne m1 = m_ne m /\ m_elemlen m1 = m_elemlen m /\
    m_elem m1 = m_elem m /\
    forall i, nth i (m_type m1) 0%Z =
              if (nth i (m_type m) 0 =? -1)%Z then 0%Z
              else nth i (m_type m) 0%Z.
Proof.
  intros Hle Hlt Hrows. unfold mesh_loadelem. cbv zeta.
  cbn [m_elem m_type set_elements].
  pose proof (loadelem_unpack_inv (init_from_cfg_elem m) (m_elemlen m)
                (m_ne m) (m_ne m) (le_n _)) as Hinv.
  cbv zeta in Hinv.
  destruct (for_loop (m_ne m)
              (loadelem_unpack (init_from_cfg_elem m) (m_elemlen m)) _)
    as [el ty].
  cbn [fst snd] in Hinv.
  destruct Hinv as (Hl1 & Hl2 & Hrl & Hel & Hty).
  assert (Eel : el = m_elem m).
  { apply (nth_ext _ _ [] []); [lia|].
    intros i Hi. rewrite Hl1 in Hi.
    pose proof (Forall_nth_default _ (m_elem m) i [] Hrows
                  ltac:(lia)) as Hr.
    cbv beta in Hr.
    apply (nth_ext _ _ 0%Z 0%Z); [rewrite Hrl by exact Hi; lia|].
    intros j Hj. rewrite Hrl in Hj by exact Hi.
    rewrite Hel by assumption.
    rewrite init_from_cfg_elem_nth by lia.
    replace (j <? m_elemlen m)%nat with true
      by (symmetry; apply Nat.ltb_lt; exact Hj).
    reflexivity. }
  assert (Ety : ty = m_type m).
  { apply (nth_ext _ _ 0%Z 0%Z); [lia|].
    intros i Hi. rewrite Hl2 in Hi. rewrite Hty by exact Hi.
    rewrite init_from_cfg_elem_nth by lia.
    now rewrite Nat.ltb_irrefl. }
  subst el ty.
  set (w := repeat 0 _).
  set (m' := set_elements m0 (m_ne m) (m_elemlen m) (m_elem m) (m_type m) w).
  destruct (mesh_srcdetelem_spec m' cfg Hlt) as (Hne & _ & Htype & _).
  destruct (mesh_srcdetelem_keeps m' cfg) as (Hk1 & Hk2 & _).
  exists (fst (mesh_srcdetelem m' cfg)), (snd (mesh_srcdetelem m' cfg)).
  split; [now rewrite <- surjective_pairing|].
  split; [exact Hne|]. split; [exact Hk2|]. split; [exact Hk1|].
  exact Htype.
Qed.

Lemma mesh_loadelem_reads_dump_witness :
  exists m1 c1,
    mesh_loadelem (Some (init_from_cfg_elem unit_tet, 1%nat, 4%nat)) None
                  marked_mesh pencil_cfg = Ok (m1, c1) /\
    m_elem m1 = [[1; 2; 4; 3]%Z].
Proof.
  destruct (mesh_loadelem_reads_dump unit_tet marked_mesh pencil_cfg None
              eq_refl eq_refl
              ltac:(repeat constructor))
    as (m1 & c1 & H & _ & _ & He & _).
  exists m1, c1. split; [exact H|exact He].
Defined.

(** The reading loop: with [cnt] complete rows of [elemlen + 2] integers
    left it fills the rows [i] to [i + cnt - 1]. *)
Lemma loadelem_read_rows (elemlen cnt : nat) :
  forall (toks : list Z) (i : nat) (s : list (list Z) * list Z),
  (cnt * (elemlen + 2) <= length toks)%nat ->
  (i + cnt <= length (fst s))%nat -> (i + cnt <= length (snd s))%nat ->
  exists s',
    loadelem_read toks cnt i elemlen s = Some s' /\
    length (fst s') = length (fst s) /\ length (snd s') = length (snd s) /\
    (forall j, (j < cnt)%nat ->
       nth (i + j) (fst s') [] =
         firstn elemlen (skipn (j * (elemlen + 2) + 1) toks) /\
       nth (i + j) (snd s') 0%Z =
         nth (j * (elemlen + 2) + elemlen + 1) toks 0%Z) /\
    (forall k, (k < i)%nat ->
       nth k (fst s') [] = nth k (fst s) [] /\
       nth k (snd s') 0%Z = nth k (snd s) 0%Z).
Proof.
  induction cnt as [|c IH]; intros toks i s Htok Hl1 Hl2; cbn [loadelem_read].
  - exists s. split; [reflexivity|]. split; [reflexivity|].
    split; [reflexivity|]. split; [intros; lia|auto].
  - destruct toks as [|t0 t1]; [simpl in Htok; lia|].
    assert (Ht1 : (elemlen < length t1)%nat) by (simpl in Htok; lia).
    destruct (skipn elemlen t1) as [|ty t2] eqn:Esk.
    { apply skipn_all_iff in Esk. lia. }
    assert (Et2 : t2 = skipn (elemlen + 2) (t0 :: t1)).
    { replace (elemlen + 2)%nat with (S (1 + elemlen)) by lia.
      cbn [skipn]. rewrite <- skipn_skipn, Esk. reflexivity. }
    assert (Hty : ty = nth (elemlen + 1) (t0 :: t1) 0%Z).
    { replace (elemlen + 1)%nat with (S elemlen) by lia. cbn [nth].
      replace elemlen with (elemlen + 0)%nat at 1 by lia.
      rewrite <- nth_skipn, Esk. reflexivity. }
    destruct (IH t2 (S i)
                (upd (fst s) i (firstn elemlen t1), upd (snd s) i ty))
      as (s' & H & Hs1 & Hs2 & Hin & Hout).
    { rewrite Et2, length_skipn. simpl length in *. lia. }
    { cbn [fst]. rewrite upd_length. lia. }
    { cbn [snd]. rewrite upd_length. lia. }
    cbn [fst snd] in *. rewrite upd_length in Hs1. rewrite upd_length in Hs2.
    exists s'. split; [exact H|]. split; [exact Hs1|]. split; [exact Hs2|].
    split.
    + intros [|j] Hj.
      * rewrite Nat.add_0_r.
        destruct (Hout i ltac:(lia)) as [Ho1 Ho2]. rewrite Ho1, Ho2.
        rewrite !nth_upd_same by lia.
        cbn [Nat.mul Nat.add skipn]. split; [reflexivity|exact Hty].
      * replace (i + S j)%nat with (S i + j)%nat by lia.
        destruct (Hin j ltac:(lia)) as [Hi1 Hi2]. rewrite Hi1, Hi2.
        rewrite Et2, skipn_skipn, nth_skipn.
        replace (j * (elemlen + 2) + 1 + (elemlen + 2))%nat
          with (S j * (elemlen + 2) + 1)%nat by lia.
        replace (elemlen + 2 + (j * (elemlen + 2) + elemlen + 1))%nat
          with (S j * (elemlen + 2) + elemlen + 1)%nat by lia.
        split; reflexivity.
    + intros k Hk. destruct (Hout k ltac:(lia)) as [Ho1 Ho2].
      rewrite Ho1, Ho2. rewrite !nth_upd_other by lia. auto.
Qed.

Lemma loadelem_read_short (elemlen cnt : nat) :
  forall (toks : list Z) (i : nat) (s : list (list Z) * list Z),
  (length toks < cnt * (elemlen + 2))%nat ->
  loadelem_read toks cnt i elemlen s = None.
Proof.
  induction cnt as [|c IH]; intros toks i s Htok; [simpl in Htok; lia|].
  cbn [loadelem_read]. destruct toks as [|t0 t1]; [reflexivity|].
  destruct (skipn elemlen t1) as [|ty t2] eqn:Esk; [reflexivity|].
  apply IH.
  assert (Hlen : length (skipn elemlen t1) = S (length t2))
    by (rewrite Esk; reflexivity).
  rewrite length_skipn in Hlen. simpl length in Htok. lia.
Qed.

(** X23.  Reading an element file whose header gives [elemlen] and a
    positive element count [ne] and that holds [ne] complete rows:
    [mesh_loadelem] returns a mesh of [ne] elements with at least 4 nodes per
    element (a smaller [elemlen] is raised to 4); row [i] of [elem] is made of
    the integers that follow the index of row [i] in the file, and [type[i]]
    is the last integer of the row, with -1 turned into 0 by
    [mesh_srcdetelem]. *)
Theorem mesh_loadelem_file (el0 ne0 : Z) (rest : list Z) (m : tetmesh)
                           (cfg : mcconfig) :
  (0 < ne0)%Z ->
  let L := Z.to_nat (if (el0 <? 4)%Z then 4 else el0) in
  let ne := Z.to_nat ne0 in
  (ne * (L + 2) <= length rest)%nat ->
  exists m1 c1,
    mesh_loadelem None (Some (el0 :: ne0 :: rest)) m cfg = Ok (m1, c1) /\
    m_ne m1 = ne /\ m_elemlen m1 = L /\ (4 <= L)%nat /\
    forall i, (i < ne)%nat ->
      nth i (m_elem m1) [] = firstn L (skipn (i * (L + 2) + 1) rest) /\
      nth i (m_type m1) 0%Z =
        (if (nth (i * (L + 2) + L + 1) rest 0 =? -1)%Z then 0%Z
         else nth (i * (L + 2) + L + 1) rest 0%Z).
Proof.
  intros Hne L ne Hrows. unfold mesh_loadelem. cbv zeta.
  destruct (Z.leb_spec ne0 0) as [Hle|_]; [lia|].
  fold L ne. cbn [m_elem m_type set_elements].
  destruct (loadelem_read_rows L ne rest 0
              (repeat (repeat 0%Z L) ne, repeat 0%Z ne) Hrows)
    as (s' & H & Hl1 & Hl2 & Hin & _).
  { cbn [fst]. rewrite repeat_length. lia. }
  { cbn [snd]. rewrite repeat_length. lia. }
  rewrite H. destruct s' as [el ty]. cbn [fst snd] in *.
  rewrite repeat_length in Hl1, Hl2.
  set (w := repeat 0 _).
  set (m' := set_elements m ne L el ty w).
  destruct (mesh_srcdetelem_spec m' cfg Hl2) as (Hne1 & _ & Htype & _).
  destruct (mesh_srcdetelem_keeps m' cfg) as (Hk1 & Hk2 & _).
  exists (fst (mesh_srcdetelem m' cfg)), (snd (mesh_srcdetelem m' cfg)).
  split; [now rewrite <- surjective_pairing|].
  split; [exact Hne1|]. split; [exact Hk2|]. split.
  { unfold L. destruct (Z.ltb_spec el0 4); lia. }
  intros i Hi. destruct (Hin i Hi) as [Hr Ht]. cbn [Nat.add] in Hr, Ht.
  rewrite Hk1, Htype. cbn [m_elem m_type m' set_elements].
  rewrite Hr, Ht. split; reflexivity.
Qed.

Lemma mesh_loadelem_file_witness :
  exists m1 c1,
    mesh_loadelem None (Some one_elem_file) unit_tet pencil_cfg
    = Ok (m1, c1) /\
    nth 0 (m_elem m1) [] = [1; 2; 4; 3]%Z /\ nth 0 (m_type m1) 0%Z = 1%Z.
Proof.
  destruct (mesh_loadelem_file 4 1 [1; 1; 2; 4; 3; 1]%Z unit_tet pencil_cfg
              ltac:(lia) ltac:(simpl; lia))
    as (m1 & c1 & H & _ & _ & _ & Hn).
  exists m1, c1. split; [exact H|].
  exact (Hn 0%nat ltac:(simpl; lia)).
Defined.

(** X24.  The failures of [mesh_loadelem] on the file path: without a file it
    stops with the message that the element file cannot be opened; with
    fewer than two integers in the header, an element count that is not
    positive, or integers that run out before the last row is complete, it
    stops with the format error. *)
Theorem mesh_loadelem_file_errors (m : tetmesh) (cfg : mcconfig) :
  mesh_loadelem None None m cfg = Fatal "can not open element file" /\
  (forall toks, (length toks < 2)%nat ->
     mesh_loadelem None (Some toks) m cfg =
     Fatal "element file has wrong format") /\
  (forall el0 ne0 rest,
     (ne0 <= 0)%Z \/
     (length rest <
      Z.to_nat ne0 * (Z.to_nat (if (el0 <? 4)%Z then 4 else el0) + 2))%nat ->
     mesh_loadelem None (Some (el0 :: ne0 :: rest)) m cfg =
     Fatal "element file has wrong format").
Proof.
  split; [reflexivity|]. split.
  - intros [|a [|b t]] H; try reflexivity. simpl in H. lia.
  - intros el0 ne0 rest H. unfold mesh_loadelem. cbv zeta.
    destruct (Z.leb_spec ne0 0) as [Hle|Hgt]; [reflexivity|].
    destruct H as [H|H]; [lia|].
    rewrite loadelem_read_short by exact H. reflexivity.
Qed.

Lemma mesh_loadelem_file_errors_witness :
  mesh_loadelem None (Some [4; 1; 1; 1; 2]%Z) unit_tet pencil_cfg =
  Fatal "element file has wrong format".
Proof.
  apply (proj2 (proj2 (mesh_loadelem_file_errors unit_tet pencil_cfg))).
  right. simpl. lia.
Defined.

(** ** [mesh_createdualmesh] *)

Lemma Int_part_nonneg (x : R) : 0 <= x -> (0 <= Int_part x)%Z.
Proof.
  intros Hx. destruct (base_Int_part x) as [_ H2].
  assert (H : IZR (-1) < IZR (Int_part x)) by (simpl; lra).
  apply lt_IZR in H. lia.
Qed.

Lemma Int_part_mono (x y : R) : x <= y -> (Int_part x <= Int_part y)%Z.
Proof.
  intros Hxy. destruct (base_Int_part x) as [H1 _].
  destruct (base_Int_part y) as [_ H2].
  assert (H : IZR (Int_part x) < IZR (Int_part y + 1)).
  { rewrite plus_IZR. simpl. lra. }
  apply lt_IZR in H. lia.
Qed.

(** A coordinate between the two ends of a box, counted in steps from the
    lower end, falls on a step index below the step count of the box. *)
Lemma trunc_index (lo hi x s : R) :
  0 < s -> lo <= x <= hi ->
  (0 <= c_trunc ((x - lo) / s) < c_trunc ((hi - lo) / s) + 1)%Z.
Proof.
  intros Hs [H1 H2].
  assert (Hi : 0 < / s) by now apply Rinv_0_lt_compat.
  assert (Ha : 0 <= (x - lo) / s).
  { unfold Rdiv. apply Rmult_le_pos; lra. }
  assert (Hab : (x - lo) / s <= (hi - lo) / s).
  { unfold Rdiv. apply Rmult_le_compat_r; lra. }
  unfold c_trunc.
  destruct (Rle_dec 0 ((x - lo) / s)) as [_|Hn]; [|contradiction].
  destruct (Rle_dec 0 ((hi - lo) / s)) as [_|Hn]; [|lra].
  pose proof (Int_part_nonneg _ Ha). pose proof (Int_part_mono _ _ Hab).
  lia.
Qed.

(** Arithmetic on [int] values whose exact result fits is exact. *)
Lemma wrap32_id (z : Z) :
  (INT_MIN <= z <= INT_MAX)%Z -> wrap32 z = z.
Proof.
  unfold INT_MIN, INT_MAX, wrap32. intros H.
  rewrite Z.mod_small by lia. lia.
Qed.

Lemma wrap32_range (z : Z) : (INT_MIN <= wrap32 z <= INT_MAX)%Z.
Proof.
  unfold INT_MIN, INT_MAX, wrap32.
  pose proof (Z.mod_pos_bound (z + 2147483648) 4294967296 ltac:(lia)). lia.
Qed.

Lemma to_int_range (x : option R) : (INT_MIN <= to_int x <= INT_MAX)%Z.
Proof.
  unfold to_int. destruct x as [v|]; [|unfold INT_MIN, INT_MAX; lia].
  destruct (Z.leb_spec INT_MIN (c_trunc v));
    destruct (Z.leb_spec (c_trunc v) INT_MAX); cbn [andb];
    unfold INT_MIN, INT_MAX in *; lia.
Qed.

Lemma to_int_fits (v : R) :
  (INT_MIN <= c_trunc v <= INT_MAX)%Z -> to_int (Some v) = c_trunc v.
Proof.
  intros [H1 H2]. unfold to_int.
  destruct (Z.leb_spec INT_MIN (c_trunc v)); [|lia].
  destruct (Z.leb_spec (c_trunc v) INT_MAX); [|lia].
  reflexivity.
Qed.

Lemma fdiv_nonzero (a b : R) : b <> 0 -> fdiv a b = Some (a / b).
Proof.
  intros H. unfold fdiv. destruct (Req_dec_T b 0); [contradiction|reflexivity].
Qed.

Lemma fdiv_zero (a : R) : fdiv a 0 = None.
Proof.
  unfold fdiv. destruct (Req_dec_T 0 0) as [_|H]; [reflexivity|].
  exfalso. apply H. reflexivity.
Qed.

(** Three counts of at least 1 whose product fits in an [int]: every count
    and the product of the first two fit as well. *)
Lemma cell_count_fits (dx dy dz : Z) :
  (1 <= dx)%Z -> (1 <= dy)%Z -> (1 <= dz)%Z ->
  (dx * dy * dz <= INT_MAX)%Z ->
  (dx <= INT_MAX /\ dy <= INT_MAX /\ dz <= INT_MAX /\
   1 <= dy * dx <= INT_MAX /\ 1 <= dy * dx * dz <= INT_MAX)%Z.
Proof.
  intros Hx Hy Hz H.
  assert (Hxy : (1 <= dy * dx)%Z) by nia.
  assert (H1 : (dy * dx <= dy * dx * dz)%Z) by nia.
  assert (H2 : (dx <= dy * dx)%Z) by nia.
  assert (H3 : (dy <= dy * dx)%Z) by nia.
  assert (H4 : (dz <= dy * dx * dz)%Z) by nia.
  assert (H5 : (dy * dx * dz = dx * dy * dz)%Z) by ring.
  lia.
Qed.

Section DualMeshProps.

Variable VERY_BIG : R.
Variable EPS : R.

(** After [k] rounds the box holds the first [k] nodes. *)
Lemma dualmesh_bounds (m : tetmesh) (k i : nat) :
  (i < k)%nat ->
  let b := for_loop k (dualmesh_step m)
             (mkFLOAT3 VERY_BIG VERY_BIG VERY_BIG,
              mkFLOAT3 (- VERY_BIG) (- VERY_BIG) (- VERY_BIG)) in
  let nd := nth i (m_node m) zero3 in
  fx (fst b) <= fx nd <= fx (snd b) /\
  fy (fst b) <= fy nd <= fy (snd b) /\
  fz (fst b) <= fz nd <= fz (snd b).
Proof.
  induction k as [|k IH]; intros Hi; [lia|].
  cbn [for_loop].
  destruct (for_loop k (dualmesh_step m) _) as [nmin nmax] eqn:E.
  cbv zeta. unfold dualmesh_step.
  destruct (Nat.eq_dec i k) as [->|Hne].
  - cbn [fst snd fx fy fz].
    repeat split; auto using MIN_le_l, MAX_ge_l.
  - specialize (IH ltac:(lia)). cbv zeta in IH. cbn [fst snd] in IH.
    destruct IH as ((H1 & H2) & (H3 & H4) & (H5 & H6)).
    cbn [fst snd fx fy fz]. repeat split.
    + eapply Rle_trans; [apply MIN_le_r|exact H1].
    + eapply Rle_trans; [exact H2|apply MAX_ge_r].
    + eapply Rle_trans; [apply MIN_le_r|exact H3].
    + eapply Rle_trans; [exact H4|apply MAX_ge_r].
    + eapply Rle_trans; [apply MIN_le_r|exact H5].
    + eapply Rle_trans; [exact H6|apply MAX_ge_r].
Qed.

(** X25.  The grid of [mesh_createdualmesh] holds every node of the mesh
    when the number of its cells fits in an [int].  For positive grid steps
    and [EPS] not negative, let [nx], [ny] and [nz] be the numbers of steps
    from [nmin] to [nmax] along the three axes, truncated, plus 1.  If
    [nx * ny * nz] is at most [INT_MAX], then [dim] is [(nx, ny, nz)] and
    [crop0] is [(nx, ny * nx, ny * nx * nz)], without wrap-around; the cell
    indices of a node along the three axes, counted from [nmin], are at
    least 0 and less than [dim]; and the cell number built from them with
    the strides [crop0.x] and [crop0.y] is below [crop0.z], the size that
    [datalen] takes for the grid ray tracer. *)
Theorem mesh_createdualmesh_covers (steps : FLOAT3) (m : tetmesh)
                                   (cfg : mcconfig) (i : nat) :
  0 <= EPS ->
  0 < fx steps -> 0 < fy steps -> 0 < fz steps ->
  (i < m_nn m)%nat ->
  let g := fst (mesh_createdualmesh VERY_BIG EPS steps m cfg) in
  let cfg' := snd (mesh_createdualmesh VERY_BIG EPS steps m cfg) in
  let nx := (c_trunc ((fx (g_nmax g) - fx (g_nmin g)) / fx steps) + 1)%Z in
  let ny := (c_trunc ((fy (g_nmax g) - fy (g_nmin g)) / fy steps) + 1)%Z in
  let nz := (c_trunc ((fz (g_nmax g) - fz (g_nmin g)) / fz steps) + 1)%Z in
  (nx * ny * nz <= INT_MAX)%Z ->
  let nd := nth i (m_node m) zero3 in
  let ix := c_trunc ((fx nd - fx (g_nmin g)) / fx steps) in
  let iy := c_trunc ((fy nd - fy (g_nmin g)) / fy steps) in
  let iz := c_trunc ((fz nd - fz (g_nmin g)) / fz steps) in
  g_dim g = (nx, ny, nz) /\
  g_crop0 g = (nx, ny * nx, ny * nx * nz)%Z /\
  (0 <= ix < nx)%Z /\ (0 <= iy < ny)%Z /\ (0 <= iz < nz)%Z /\
  (0 <= iz * (ny * nx) + iy * nx + ix < ny * nx * nz)%Z /\
  c_crop0z cfg' = Z.to_nat (ny * nx * nz).
Proof.
  intros He Hx Hy Hz Hi. unfold mesh_createdualmesh.
  pose proof (dualmesh_bounds m (m_nn m) i Hi) as Hb. cbv zeta in Hb.
  destruct (for_loop (m_nn m) (dualmesh_step m) _) as [nmin0 nmax0].
  cbn [fst snd] in Hb. destruct Hb as (Bx & By & Bz).
  cbv zeta. cbn [fst snd g_nmin g_nmax g_dim g_crop0 fx fy fz c_crop0z
                 set_crop0z].
  set (nd := nth i (m_node m) zero3) in *.
  pose proof (trunc_index (fx nmin0 - EPS) (fx nmax0 + EPS) (fx nd)
                (fx steps) Hx ltac:(lra)) as Tx.
  pose proof (trunc_index (fy nmin0 - EPS) (fy nmax0 + EPS) (fy nd)
                (fy steps) Hy ltac:(lra)) as Ty.
  pose proof (trunc_index (fz nmin0 - EPS) (fz nmax0 + EPS) (fz nd)
                (fz steps) Hz ltac:(lra)) as Tz.
  rewrite !fdiv_nonzero by lra.
  set (ix := c_trunc ((fx nd - (fx nmin0 - EPS)) / fx steps)) in *.
  set (iy := c_trunc ((fy nd - (fy nmin0 - EPS)) / fy steps)) in *.
  set (iz := c_trunc ((fz nd - (fz nmin0 - EPS)) / fz steps)) in *.
  set (ax := (fx nmax0 + EPS - (fx nmin0 - EPS)) / fx steps) in *.
  set (ay := (fy nmax0 + EPS - (fy nmin0 - EPS)) / fy steps) in *.
  set (az := (fz nmax0 + EPS - (fz nmin0 - EPS)) / fz steps) in *.
  intros Hfit.
  destruct (cell_count_fits (c_trunc ax + 1) (c_trunc ay + 1)
              (c_trunc az + 1) ltac:(lia) ltac:(lia) ltac:(lia) Hfit)
    as (Fx & Fy & Fz & Fxy & Fxyz).
  rewrite !to_int_fits by (unfold INT_MIN; lia).
  set (dx := (c_trunc ax + 1)%Z) in *.
  set (dy := (c_trunc ay + 1)%Z) in *.
  set (dz := (c_trunc az + 1)%Z) in *.
  rewrite (wrap32_id dx), (wrap32_id dy), (wrap32_id dz)
    by (unfold INT_MIN; lia).
  rewrite (wrap32_id (dy * dx)) by (unfold INT_MIN; lia).
  rewrite (wrap32_id (dy * dx * dz)) by (unfold INT_MIN; lia).
  split; [reflexivity|]. split; [reflexivity|].
  split; [exact Tx|]. split; [exact Ty|]. split; [exact Tz|].
  split; [|reflexivity].
  clearbody ix iy iz dx dy dz.
  assert (H0 : (0 <= dy * dx)%Z) by (apply Z.mul_nonneg_nonneg; lia).
  assert (H1 : (iy * dx <= (dy - 1) * dx)%Z)
    by (apply Z.mul_le_mono_nonneg_r; lia).
  assert (H2 : (iz * (dy * dx) <= (dz - 1) * (dy * dx))%Z)
    by (apply Z.mul_le_mono_nonneg_r; lia).
  assert (H3 : (0 <= iy * dx)%Z) by (apply Z.mul_nonneg_nonneg; lia).
  assert (H4 : (0 <= iz * (dy * dx))%Z) by (apply Z.mul_nonneg_nonneg; lia).
  split; [lia|].
  replace (dy * dx * dz)%Z with ((dz - 1) * (dy * dx) + dy * dx)%Z by ring.
  replace ((dy - 1) * dx)%Z with (dy * dx - dx)%Z in H1 by ring.
  lia.
Qed.

End DualMeshProps.

(** The truncation of a value between a non-negative integer and the
    next one. *)
Lemma c_trunc_floor (x : R) (n : Z) :
  (0 <= n)%Z -> IZR n <= x < IZR n + 1 -> c_trunc x = n.
Proof.
  intros Hn [H1 H2]. unfold c_trunc.
  assert (H0 : 0 <= IZR n) by (apply IZR_le in Hn; exact Hn).
  destruct (Rle_dec 0 x) as [_|Hx]; [|exfalso; lra].
  destruct (base_Int_part x) as [B1 B2].
  assert (Ha : IZR (Int_part x) < IZR (n + 1)) by (rewrite plus_IZR; lra).
  assert (Hb : IZR (n - 1) < IZR (Int_part x)) by (rewrite minus_IZR; lra).
  apply lt_IZR in Ha, Hb. lia.
Qed.

Ltac min_max :=
  unfold dualmesh_step; cbn [nth m_node unit_tet fx fy fz];
  unfold MIN, MAX;
  repeat match goal with
         | |- context [Rlt_dec ?a ?b] =>
             destruct (Rlt_dec a b); try (exfalso; lra)
         | |- context [Rgt_dec ?a ?b] =>
             destruct (Rgt_dec a b); try (exfalso; lra)
         end;
  reflexivity.

Lemma unit_tet_box :
  for_loop (m_nn unit_tet) (dualmesh_step unit_tet)
           (mkFLOAT3 1000 1000 1000,
            mkFLOAT3 (Ropp 1000) (Ropp 1000) (Ropp 1000))
  = (mkFLOAT3 0 0 0, mkFLOAT3 1 1 1).
Proof.
  change (m_nn unit_tet) with 4%nat. cbn [for_loop].
  assert (E0 : dualmesh_step unit_tet 0
                 (mkFLOAT3 1000 1000 1000,
                  mkFLOAT3 (Ropp 1000) (Ropp 1000) (Ropp 1000))
               = (mkFLOAT3 0 0 0, mkFLOAT3 0 0 0)) by min_max.
  assert (E1 : dualmesh_step unit_tet 1 (mkFLOAT3 0 0 0, mkFLOAT3 0 0 0)
               = (mkFLOAT3 0 0 0, mkFLOAT3 1 0 0)) by min_max.
  assert (E2 : dualmesh_step unit_tet 2 (mkFLOAT3 0 0 0, mkFLOAT3 1 0 0)
               = (mkFLOAT3 0 0 0, mkFLOAT3 1 1 0)) by min_max.
  assert (E3 : dualmesh_step unit_tet 3 (mkFLOAT3 0 0 0, mkFLOAT3 1 1 0)
               = (mkFLOAT3 0 0 0, mkFLOAT3 1 1 1)) by min_max.
  rewrite E0, E1, E2, E3. reflexivity.
Qed.

Lemma mesh_createdualmesh_covers_witness :
  let g := fst (mesh_createdualmesh 1000 (1 / 1000000) (mkFLOAT3 1 1 1)
                                    unit_tet pencil_cfg) in
  g_dim g = (2, 2, 2)%Z /\ g_crop0 g = (2, 4, 8)%Z.
Proof.
  pose proof (mesh_createdualmesh_covers 1000 (1 / 1000000)
                (mkFLOAT3 1 1 1) unit_tet pencil_cfg 1
                ltac:(lra) ltac:(simpl; lra) ltac:(simpl; lra)
                ltac:(simpl; lra) ltac:(simpl; lia)) as H.
  cbv zeta in H |- *.
  assert (Hmin : g_nmin (fst (mesh_createdualmesh 1000 (1 / 1000000)
                                (mkFLOAT3 1 1 1) unit_tet pencil_cfg))
                 = mkFLOAT3 (0 - 1 / 1000000) (0 - 1 / 1000000)
                            (0 - 1 / 1000000)).
  { unfold mesh_createdualmesh. rewrite unit_tet_box. reflexivity. }
  assert (Hmax : g_nmax (fst (mesh_createdualmesh 1000 (1 / 1000000)
                                (mkFLOAT3 1 1 1) unit_tet pencil_cfg))
                 = mkFLOAT3 (1 + 1 / 1000000) (1 + 1 / 1000000)
                            (1 + 1 / 1000000)).
  { unfold mesh_createdualmesh. rewrite unit_tet_box. reflexivity. }
  rewrite Hmin, Hmax in H. cbn [fx fy fz] in H.
  assert (Ht : c_trunc ((1 + 1 / 1000000 - (0 - 1 / 1000000)) / 1) = 1%Z)
    by (apply c_trunc_floor; [lia|split; lra]).
  rewrite Ht in H.
  destruct (H ltac:(unfold INT_MAX; lia)) as (Hd & Hc & _).
  rewrite Hd, Hc. split; reflexivity.
Defined.

(** ** [mesh_validate] *)

(** The node-volume loop of [mesh_validate], after [k] elements. *)
Lemma validate_nvol_inv (m : tetmesh) (k : nat) :
  length (m_elem m) = m_ne m ->
  Forall (fun ee => (4 <= length ee)%nat /\
                    Forall (fun e => (1 <= e <= Z.of_nat (m_nn m))%Z) ee)
         (m_elem m) ->
  (k <= m_ne m)%nat ->
  let nv :=
    for_loop k
      (fun i nvol =>
         if (nth i (m_type m) 0 <=? 0)%Z then nvol
         else add_shares (nth i (m_elem m) []) (nth i (m_evol m) 0) 4 nvol)
      (repeat 0 (m_nn m)) in
  length nv = m_nn m /\
  forall n, (n < m_nn m)%nat -> nth n nv 0 = validated_sum m n k.
Proof.
  intros Hle Hrows. induction k as [|k IH]; intros Hk; cbn [for_loop].
  - split; [apply repeat_length|]. intros n Hn. apply nth_repeat.
  - destruct (IH ltac:(lia)) as [Hl Hn]. clear IH. cbv zeta in *.
    set (nv := for_loop k _ (repeat 0 (m_nn m))) in *.
    unfold validated_sum. cbn [for_loop]. fold (validated_sum m).
    destruct (nth k (m_type m) 0 <=? 0)%Z.
    + split; [exact Hl|]. intros n Hn'.
      rewrite Hn by exact Hn'. unfold validated_sum. lra.
    + pose proof (Forall_nth_default _ (m_elem m) k [] Hrows
                    ltac:(lia)) as [H4 Hrange].
      destruct (add_shares_nth (nth k (m_elem m) []) (nth k (m_evol m) 0)
                  nv 4 H4 ltac:(now rewrite Hl)) as [Hl' Hn''].
      split; [now rewrite Hl'|]. intros n Hn'.
      rewrite Hn'' by (rewrite Hl; exact Hn').
      rewrite Hn by exact Hn'. unfold validated_sum. reflexivity.
Qed.

Section ValidateProps.

Variable VERY_BIG : R.
Variable EPS : R.

(** X26.  [mesh_validate] and [mesh_getvolume] agree on the node volumes: on
    a mesh of tetrahedra (four nodes per element) without negative region
    ids, whose element volumes and node order are those that
    [mesh_getvolume] has left, [mesh_validate] returns and computes the node
    volumes that [mesh_getvolume] computed. *)
Theorem mesh_validate_nvol_getvolume (steps : FLOAT3) (m : tetmesh)
                                     (cfg : mcconfig) :
  elements_ok m ->
  m_elemlen m = 4%nat ->
  Forall (fun t => (0 <= t)%Z) (m_type m) ->
  m_prop m <> 0%Z -> m_nn m <> O -> m_ne m <> O ->
  exists m' cfg',
    mesh_validate VERY_BIG EPS steps (mesh_getvolume m) cfg = Ok (m', cfg') /\
    m_nvol m' = m_nvol (mesh_getvolume m) /\
    m_evol m' = m_evol (mesh_getvolume m) /\
    m_elem m' = m_elem (mesh_getvolume m).
Proof.
  intros Hok H4 Hty Hp Hnn Hne.
  pose proof (getvolume_inv m (m_ne m) Hok (le_n _)) as Hinv.
  assert (Hm : exists el ev nv,
            for_loop (m_ne m) (getvolume_step m)
              (m_elem m, repeat 0 (m_ne m), repeat 0 (m_nn m)) = (el, ev, nv)
            /\ mesh_getvolume m = set_volumes m el ev nv).
  { unfold mesh_getvolume.
    destruct (for_loop (m_ne m) (getvolume_step m)
                (m_elem m, repeat 0 (m_ne m), repeat 0 (m_nn m)))
      as [[el ev] nv].
    exists el, ev, nv. split; reflexivity. }
  destruct Hm as (el & ev & nv & E & Hm).
  rewrite E in Hinv. destruct Hinv as (Hl1 & Hl2 & Hl3 & Hel & _ & Hnv).
  destruct Hok as (Hle & Hlt & Hlen4 & Hrows).
  set (m1 := mesh_getvolume m) in *.
  assert (Hf : m_nn m1 = m_nn m /\ m_ne m1 = m_ne m /\ m_prop m1 = m_prop m /\
               m_type m1 = m_type m /\ m_elem m1 = el /\ m_evol m1 = ev /\
               m_nvol m1 = nv).
  { rewrite Hm. repeat split. }
  destruct Hf as (Fnn & Fne & Fp & Fty & Fel & Fev & Fnv).
  assert (Hrows1 : Forall (fun ee => (4 <= length ee)%nat /\
                     Forall (fun e => (1 <= e <= Z.of_nat (m_nn m1))%Z) ee)
                          (m_elem m1)).
  { rewrite Fel, Fnn. apply Forall_forall. intros ee Hin.
    destruct (In_nth _ _ [] Hin) as (i & Hi & <-).
    rewrite Hel. rewrite Hl1 in Hi.
    replace (i <? m_ne m)%nat with true
      by (symmetry; apply Nat.ltb_lt; exact Hi).
    pose proof (Forall_nth_default _ (m_elem m) i [] Hrows
                  ltac:(lia)) as [Hrl Hrange].
    destruct (elem_fixed_ok m (nth i (m_elem m) []) (m_elemlen m) _
                Hlen4 Hrl Hrange) as [Hfl Hfr].
    split; [lia|exact Hfr]. }
  destruct (validate_nvol_inv m1 (m_ne m1) ltac:(rewrite Fel, Fne; exact Hl1)
              Hrows1 (le_n _)) as [Hvl Hvn].
  cbv zeta in Hvl, Hvn. fold (validate_nvol m1) in Hvl, Hvn.
  unfold mesh_validate. rewrite Fp, Fnn, Fne.
  destruct (Z.eqb_spec (m_prop m) 0) as [|_]; [contradiction|].
  destruct (Nat.eqb_spec (m_nn m) 0) as [|_]; [contradiction|].
  destruct (Nat.eqb_spec (m_ne m) 0) as [|_]; [contradiction|].
  cbn [orb]. cbv zeta.
  set (cfg1 := if TMethod_eqb (c_method cfg) rtBLBadouelGrid
               then _ else cfg).
  assert (Hnvol : validate_nvol m1 = m_nvol m1).
  { apply (nth_ext _ _ 0 0); [rewrite Hvl, Fnv, Hl3; exact Fnn|].
    intros n Hn. rewrite Hvl in Hn. rewrite Hvn by exact Hn.
    rewrite Fnv, Hnv by (rewrite <- Fnn; exact Hn).
    unfold validated_sum, incident_sum. rewrite Fne, Fty, Fel, Fev, H4.
    apply for_loop_ext. intros i acc Hi.
    assert (Ht : (0 <= nth i (m_type m) 0)%Z).
    { apply Forall_nth_default; [exact Hty|lia]. }
    destruct (Z.leb_spec (nth i (m_type m) 0%Z) 0),
             (Z.eqb_spec (nth i (m_type m) 0%Z) 0); try reflexivity; lia. }
  destruct (c_isextdet cfg1); eexists; eexists;
    (split; [reflexivity|]);
    cbn [m_nvol m_evol m_elem set_validated];
    (split; [exact Hnvol|split; reflexivity]).
Qed.

End ValidateProps.

Lemma mesh_validate_nvol_getvolume_witness :
  exists m' cfg',
    mesh_validate 1000 (1 / 1000000) (mkFLOAT3 1 1 1)
                  (mesh_getvolume unit_tet) pencil_cfg = Ok (m', cfg') /\
    m_nvol m' = m_nvol (mesh_getvolume unit_tet).
Proof.
  destruct (mesh_validate_nvol_getvolume 1000 (1 / 1000000)
              (mkFLOAT3 1 1 1) unit_tet pencil_cfg unit_tet_elements_ok
              eq_refl ltac:(repeat constructor; simpl; lia)
              ltac:(discriminate) ltac:(discriminate) ltac:(discriminate))
    as (m' & cfg' & H & Hn & _).
  exists m', cfg'. split; [exact H|exact Hn].
Defined.

(** ** [mesh_getdetweight] *)

Lemma Int_part_nat (n : Z) : Int_part (IZR n) = n.
Proof.
  destruct (base_Int_part (IZR n)) as [H1 H2].
  assert (Ha : IZR (Int_part (IZR n)) < IZR (n + 1)).
  { rewrite plus_IZR. simpl. lra. }
  assert (Hb : IZR (n - 1) < IZR (Int_part (IZR n))).
  { rewrite minus_IZR. simpl. lra. }
  apply lt_IZR in Ha, Hb. lia.
Qed.

(** The truncated value is one of the indices 0 to [n - 1] exactly for the
    values above -1 and below [n]. *)
Lemma c_trunc_range (v : R) (n : Z) :
  (1 <= n)%Z ->
  ((0 <= c_trunc v <= n - 1)%Z <-> -1 < v < IZR n).
Proof.
  intros Hn. unfold c_trunc.
  assert (Hn1 : 1 <= IZR n) by (apply IZR_le in Hn; exact Hn).
  destruct (Rle_dec 0 v) as [Hv|Hv].
  - destruct (base_Int_part v) as [H1 H2].
    pose proof (Int_part_nonneg v Hv) as H0. split.
    + intros [_ H]. split; [lra|].
      assert (Hi : IZR (Int_part v) <= IZR (n - 1)) by (apply IZR_le; lia).
      rewrite minus_IZR in Hi. simpl in Hi. lra.
    + intros [_ H]. split; [exact H0|].
      assert (Hi : IZR (Int_part v) < IZR n) by lra.
      apply lt_IZR in Hi. lia.
  - assert (Hneg : 0 <= - v) by lra.
    destruct (base_Int_part (- v)) as [H1 H2].
    pose proof (Int_part_nonneg (- v) Hneg) as H0. split.
    + intros [H _]. assert (Hz : Int_part (- v) = 0%Z) by lia.
      rewrite Hz in H2. simpl in H2. split; lra.
    + intros [H _]. split; [|lia].
      assert (Hi : IZR (Int_part (- v)) < IZR 1) by (simpl; lra).
      apply lt_IZR in Hi. lia.
Qed.

(** The pixel index of a coordinate [a] on an axis of range [r] with [n]
    pixels is one of 0 to [n - 1] exactly when the range is not 0 and the
    position in pixel units is above -1 and below [n]; it is then the
    truncation of that position. *)
Lemma pixel_index (a r : R) (n : Z) :
  (1 <= n <= INT_MAX)%Z ->
  let xi := to_int (fmul (fdiv a r) (IZR n)) in
  ((0 <= xi <= n - 1)%Z <-> (r <> 0 /\ -1 < a / r * IZR n < IZR n)) /\
  (r <> 0 -> -1 < a / r * IZR n < IZR n -> xi = c_trunc (a / r * IZR n)).
Proof.
  intros Hn xi. subst xi.
  pose proof (c_trunc_range (a / r * IZR n) n ltac:(lia)) as Hr.
  unfold fdiv. destruct (Req_dec_T r 0) as [E|E]; cbn [fmul to_int].
  - split.
    + split; [unfold INT_MIN; lia|intros [H _]; contradiction].
    + intros H. contradiction.
  - destruct (Z.leb_spec INT_MIN (c_trunc (a / r * IZR n))) as [H1|H1];
      destruct (Z.leb_spec (c_trunc (a / r * IZR n)) INT_MAX) as [H2|H2];
      cbn [andb].
    + split; [|reflexivity]. rewrite Hr. tauto.
    + split.
      * split; [unfold INT_MIN; lia|].
        intros [_ H]. apply Hr in H. lia.
      * intros _ H. apply Hr in H. lia.
    + split.
      * split; [unfold INT_MIN; lia|].
        intros [_ H]. apply Hr in H. unfold INT_MIN in H1. lia.
      * intros _ H. apply Hr in H. unfold INT_MIN in H1. lia.
    + unfold INT_MIN, INT_MAX in *. lia.
Qed.

(** X27.  [mesh_getdetweight] on a plane of [xsize] by [ysize] pixels (both
    at least 1): it returns exactly for the photons for which [xrange] and
    [yrange] are not 0 and whose exit position, in pixel units from the
    corner of the plane ([u] and [v] below), is above -1 and below the pixel
    count on both axes, so that, the conversion to [int] truncating towards
    zero, a photon less than one pixel below the corner is taken into pixel
    0.  The weight returned is read from [detpattern] at the index
    [yindex * xsize + xindex] computed in [int] arithmetic; when
    [xsize * ysize] is at most [INT_MAX] that index is exact, at least 0 and
    less than [xsize * ysize].  Every other photon, and every photon when
    [xrange] or [yrange] is 0, stops the program with the error message. *)
Theorem mesh_getdetweight_plane (photonid colcount : Z) (ppath : list R)
                                (d : detplane) :
  let xrange := det_p1x d + det_p2x d in
  let yrange := det_p1y d + det_p2y d in
  let xsize := to_int (Some (det_p1w d)) in
  let ysize := to_int (Some (det_p2w d)) in
  let u := (zth ppath (photon_field photonid colcount 7) 0 - det_x0 d)
           / xrange * IZR xsize in
  let v := (zth ppath (photon_field photonid colcount 6) 0 - det_y0 d)
           / yrange * IZR ysize in
  let inside := (xrange <> 0 /\ -1 < u < IZR xsize) /\
                (yrange <> 0 /\ -1 < v < IZR ysize) in
  let idx := wrap32 (wrap32 (c_trunc v * xsize) + c_trunc u) in
  (1 <= xsize)%Z -> (1 <= ysize)%Z ->
  (inside ->
   mesh_getdetweight photonid colcount ppath d =
   Ok (zth (det_pattern d) idx 0) /\
   (0 <= c_trunc u < xsize)%Z /\ (0 <= c_trunc v < ysize)%Z /\
   ((xsize * ysize <= INT_MAX)%Z ->
    idx = (c_trunc v * xsize + c_trunc u)%Z /\
    (0 <= idx < xsize * ysize)%Z)) /\
  (~ inside ->
   mesh_getdetweight photonid colcount ppath d =
   Fatal "photon location not within the detection plane").
Proof.
  intros xrange yrange xsize ysize u v inside idx Hx Hy.
  pose proof (to_int_range (Some (det_p1w d))) as Bx.
  pose proof (to_int_range (Some (det_p2w d))) as By.
  fold xsize in Bx. fold ysize in By.
  destruct (pixel_index
              (zth ppath (photon_field photonid colcount 7) 0 - det_x0 d)
              xrange xsize ltac:(lia)) as [Ru Eu].
  destruct (pixel_index
              (zth ppath (photon_field photonid colcount 6) 0 - det_y0 d)
              yrange ysize ltac:(lia)) as [Rv Ev].
  fold u in Ru, Eu. fold v in Rv, Ev.
  unfold mesh_getdetweight. cbv zeta.
  fold xrange yrange xsize ysize.
  rewrite (wrap32_id (xsize - 1)), (wrap32_id (ysize - 1))
    by (unfold INT_MIN in *; lia).
  set (xi := to_int (fmul (fdiv (zth ppath (photon_field photonid colcount 7)
                                     0 - det_x0 d) xrange) (IZR xsize))) in *.
  set (yi := to_int (fmul (fdiv (zth ppath (photon_field photonid colcount 6)
                                     0 - det_y0 d) yrange) (IZR ysize))) in *.
  split.
  - intros [Hu Hv].
    pose proof (proj2 Ru Hu) as Hxi. pose proof (proj2 Rv Hv) as Hyi.
    rewrite (Eu (proj1 Hu) (proj2 Hu)) in Hxi |- *.
    rewrite (Ev (proj1 Hv) (proj2 Hv)) in Hyi |- *.
    split; [|split; [lia|split; [lia|]]].
    + destruct (Z.ltb_spec (c_trunc u) 0); [lia|].
      destruct (Z.gtb_spec (c_trunc u) (xsize - 1)); [lia|].
      destruct (Z.ltb_spec (c_trunc v) 0); [lia|].
      destruct (Z.gtb_spec (c_trunc v) (ysize - 1)); [lia|].
      reflexivity.
    + intros Hfit. unfold idx.
      assert (H1 : (c_trunc v * xsize <= (ysize - 1) * xsize)%Z)
        by (apply Z.mul_le_mono_nonneg_r; lia).
      assert (H2 : (0 <= c_trunc v * xsize)%Z)
        by (apply Z.mul_nonneg_nonneg; lia).
      replace ((ysize - 1) * xsize)%Z with (xsize * ysize - xsize)%Z in H1
        by ring.
      rewrite (wrap32_id (c_trunc v * xsize)) by (unfold INT_MIN; lia).
      rewrite wrap32_id by (unfold INT_MIN; lia).
      split; [reflexivity|lia].
  - intros Hout.
    destruct (Z.ltb_spec xi 0); [reflexivity|].
    destruct (Z.gtb_spec xi (xsize - 1)); [reflexivity|].
    destruct (Z.ltb_spec yi 0); [reflexivity|].
    destruct (Z.gtb_spec yi (ysize - 1)); [reflexivity|].
    exfalso. apply Hout. split; [apply Ru|apply Rv]; lia.
Qed.

Lemma unit_plane_size : to_int (Some 2) = 2%Z.
Proof.
  rewrite to_int_fits.
  - apply (c_trunc_floor 2 2); [lia|split; simpl; lra].
  - rewrite (c_trunc_floor 2 2) by (try lia; split; simpl; lra).
    unfold INT_MIN, INT_MAX. lia.
Qed.

Lemma mesh_getdetweight_plane_witness :
  exists u v : Z,
    (0 <= u < 2)%Z /\ (0 <= v < 2)%Z /\
    mesh_getdetweight 0 8 one_photon unit_plane =
    Ok (zth (det_pattern unit_plane) (v * 2 + u) 0).
Proof.
  pose proof (mesh_getdetweight_plane 0 8 one_photon unit_plane) as H.
  cbv zeta in H.
  cbn [det_p1w det_p2w det_x0 det_y0 det_p1x det_p2x det_p1y det_p2y
       unit_plane] in H.
  rewrite unit_plane_size in H.
  change (zth one_photon (photon_field 0 8 7) 0) with (3 / 4) in H.
  change (zth one_photon (photon_field 0 8 6) 0) with (1 / 4) in H.
  destruct (H ltac:(lia) ltac:(lia)) as [Hin _].
  destruct Hin as (Hres & Hu & Hv & Hidx).
  { split; split; lra. }
  destruct (Hidx ltac:(unfold INT_MAX; lia)) as [E _].
  rewrite E in Hres.
  eexists. eexists. split; [exact Hu|]. split; [exact Hv|exact Hres].
Defined.

(** ** The external detector region *)

(** C7, with the media given in memory.  In [detector_mesh] the first element
    is a wide-field detector (region id -2) and [detector_cfg] holds two
    media in memory, medium 0 with refractive index 1, while [cfg->nout] is
    3/2.  After [mesh_srcdetelem] and [mesh_loadmedia] the element has id
    [prop + 1], and that region has [mua = 0], [mus = 0] and [n = cfg->nout];
    but medium 0 has been overwritten by entry 0 of [cfg->prop] after the
    copy was made, so the region of the detector is not medium 0. *)
Theorem srcdetelem_loadmedia_detector_medium :
  exists m2 c2,
    mesh_loadmedia None (fst (mesh_srcdetelem detector_mesh detector_cfg))
                   (snd (mesh_srcdetelem detector_mesh detector_cfg))
    = Ok (m2, c2) /\
    nth 0 (m_type detector_mesh) 0%Z = (-2)%Z /\
    nth 0 (m_type m2) 0%Z = (m_prop m2 + 1)%Z /\
    c_nout detector_cfg = 3 / 2 /\
    zth (m_med m2) (m_prop m2 + 1) zero_medium = mkMedium 0 0 1 (3 / 2) /\
    nth 0 (m_med m2) zero_medium = mkMedium 0 0 1 1 /\
    zth (m_med m2) (m_prop m2 + 1) zero_medium <> nth 0 (m_med m2) zero_medium.
Proof.
  unfold mesh_loadmedia.
  change (c_medianum (snd (mesh_srcdetelem detector_mesh detector_cfg)))
    with 2%nat.
  cbn [Nat.eqb]. cbv zeta.
  change (c_isextdet (snd (mesh_srcdetelem detector_mesh detector_cfg)))
    with true.
  cbv iota.
  change (c_unitinmm (snd (mesh_srcdetelem detector_mesh detector_cfg)))
    with 1.
  destruct (Req_dec_T 1 1) as [_|H]; [|contradiction].
  rewrite andb_false_r.
  eexists. eexists. split; [reflexivity|].
  cbn [m_type set_med set_type m_prop m_med].
  assert (Hd : zth
            (for_loop 2
               (copy_medium
                  (c_prop (snd (mesh_srcdetelem detector_mesh detector_cfg))))
               (zupd
                  (upd (repeat zero_medium
                          (Z.to_nat (Z.of_nat 2 - 1 + 1 + 1))) 0
                     (mkMedium 0 0 1
                        (c_nout
                           (snd (mesh_srcdetelem detector_mesh
                                   detector_cfg)))))
                  (Z.of_nat 2 - 1 + 1)
                  (nth 0
                     (upd (repeat zero_medium
                             (Z.to_nat (Z.of_nat 2 - 1 + 1 + 1))) 0
                        (mkMedium 0 0 1
                           (c_nout
                              (snd (mesh_srcdetelem detector_mesh
                                      detector_cfg)))))
                     zero_medium)))
            (Z.of_nat 2 - 1 + 1) zero_medium = mkMedium 0 0 1 (3 / 2))
    by reflexivity.
  assert (H0 : nth 0
            (for_loop 2
               (copy_medium
                  (c_prop (snd (mesh_srcdetelem detector_mesh detector_cfg))))
               (zupd
                  (upd (repeat zero_medium
                          (Z.to_nat (Z.of_nat 2 - 1 + 1 + 1))) 0
                     (mkMedium 0 0 1
                        (c_nout
                           (snd (mesh_srcdetelem detector_mesh
                                   detector_cfg)))))
                  (Z.of_nat 2 - 1 + 1)
                  (nth 0
                     (upd (repeat zero_medium
                             (Z.to_nat (Z.of_nat 2 - 1 + 1 + 1))) 0
                        (mkMedium 0 0 1
                           (c_nout
                              (snd (mesh_srcdetelem detector_mesh
                                      detector_cfg)))))
                     zero_medium)))
            zero_medium = mkMedium 0 0 1 1)
    by reflexivity.
  rewrite Hd, H0.
  repeat (split; [reflexivity|]).
  intros E. injection E as E. lra.
Qed.

(** C8, at a wide-field detector element.  After [mesh_srcdetelem] and
    [mesh_loadmedia] the first element of [detector_mesh] has region id
    [prop + 1]; its first face is exterior and its nodes have positive
    volumes, and the three flags select the correction pass.  The table
    [Reff] of the pass has [prop + 1] entries, numbered from 0 to [prop], so
    the first run of the innermost loop body reads [Reff] past its last
    entry. *)
Theorem tracer_prep_nvol_detector_region :
  exists m2 c2,
    mesh_loadmedia None (fst (mesh_srcdetelem detector_mesh detector_cfg))
                   (snd (mesh_srcdetelem detector_mesh detector_cfg))
    = Ok (m2, c2) /\
    (c_isnormalized c2 = 1%Z /\ c_basisorder c2 = true /\
     c_method c2 <> rtBLBadouelGrid) /\
    nth 0 (m_type m2) 0%Z = (m_prop m2 + 1)%Z /\
    nth 0 (m_facenb m2) 0%Z = 0%Z /\
    length (reff_table m2 c2) = Z.to_nat (m_prop m2 + 1) /\
    reff_read_ok (reff_table m2 c2) (nth 0 (m_type m2) 0%Z)
      (nth (out (ifaceorder 0) 0) (nth 0 (m_elem m2) []) 0 - 1)%Z
      (m_nvol m2) = false.
Proof.
  unfold mesh_loadmedia.
  change (c_medianum (snd (mesh_srcdetelem detector_mesh detector_cfg)))
    with 2%nat.
  cbn [Nat.eqb]. cbv zeta.
  change (c_isextdet (snd (mesh_srcdetelem detector_mesh detector_cfg)))
    with true.
  cbv iota.
  change (c_unitinmm (snd (mesh_srcdetelem detector_mesh detector_cfg)))
    with 1.
  destruct (Req_dec_T 1 1) as [_|H]; [|contradiction].
  rewrite andb_false_r.
  eexists. eexists. split; [reflexivity|].
  split; [split; [reflexivity|split; [reflexivity|discriminate]]|].
  split; [reflexivity|]. split; [reflexivity|].
  split; [rewrite reff_table_length; reflexivity|].
  unfold reff_read_ok. rewrite reff_table_length.
  match goal with
  | |- (if Rlt_dec 0 ?v then _ else _) = _ =>
      change v with (1 / 24); destruct (Rlt_dec 0 (1 / 24)) as [_|Hn];
      [reflexivity|exfalso; apply Hn; lra]
  end.
Qed.
